(** * label-explainer: batch checkpoint processor, response parser,
      spreadsheet merge and accuracy statistics

    A shallow embedding of the TypeScript sources
    [src/utils/common.ts], [src/services/checkpoint.ts],
    [src/services/batch-processor.ts], [src/services/excel.ts] and
    [src/compare.ts], followed by the properties of the specification
    that were checked against them.

    Conventions of the embedding.
    - A JavaScript string is a [string]: a sequence of code units, here the
      code units below 256.
    - A JavaScript object used as a dictionary, and a [Map], is a [gmap];
      where insertion order is observable an association list is used.
      The objects that [src/compare.ts] indexes by labels are modelled with
      the members that they inherit from [Object.prototype].
    - A JavaScript [number] that holds a count is a [nat]; where the program
      divides, the arithmetic is that of the interface [JsNumber.Ops], of
      which IEEE doubles and the exact rationals are instances.
    - Code that may throw returns a [Completion]; an [async] function is
      modelled by its synchronous part followed by the completions of the
      calls it awaits, taken in an explicit order. *)

From Stdlib Require Import QArith Ascii Sorted.
From Stdlib Require PrimFloat Uint63.
From stdpp Require Import gmap strings list fin_maps sorting.

(** ** JavaScript strings *)

Module JsString.

(** [WhiteSpace] and [LineTerminator] code units below 256: the class
    [\s] of regular expressions and the characters removed by
    [String.prototype.trim]. *)
Definition isWhiteSpace (c : ascii) : bool :=
  let n := nat_of_ascii c in
  bool_decide (n = 9 ∨ n = 10 ∨ n = 11 ∨ n = 12 ∨ n = 13 ∨ n = 32 ∨ n = 160)%nat.

Definition LF : ascii := ascii_of_nat 10.
Definition TAB : ascii := ascii_of_nat 9.

Fixpoint allWhiteSpace (s : string) : bool :=
  match s with
  | EmptyString => true
  | String c s' => isWhiteSpace c && allWhiteSpace s'
  end.

Fixpoint trimStart (s : string) : string :=
  match s with
  | EmptyString => EmptyString
  | String c s' => if isWhiteSpace c then trimStart s' else s
  end.

Fixpoint trimEnd (s : string) : string :=
  match s with
  | EmptyString => EmptyString
  | String c s' =>
      match trimEnd s' with
      | EmptyString => if isWhiteSpace c then EmptyString else String c EmptyString
      | r => String c r
      end
  end.

(** [s.trim()] *)
Definition trim (s : string) : string := trimEnd (trimStart s).

(** [s.startsWith(p)] *)
Definition startsWith (p s : string) : bool := String.prefix p s.

(** [s.substring(n)] *)
Fixpoint dropChars (n : nat) (s : string) : string :=
  match n, s with
  | O, _ => s
  | S n', String _ s' => dropChars n' s'
  | S _, EmptyString => EmptyString
  end.

(** [s.split(sep)] for a separator of one code unit: the result is never
    empty, and [n] occurrences of the separator give [n + 1] pieces. *)
Fixpoint split (sep : ascii) (s : string) : list string :=
  match s with
  | EmptyString => [EmptyString]
  | String c s' =>
      if Ascii.eqb c sep then EmptyString :: split sep s'
      else match split sep s' with
           | piece :: rest => String c piece :: rest
           | [] => [String c EmptyString]
           end
  end.

(** [pieces.join(sep)] *)
Fixpoint join (sep : ascii) (pieces : list string) : string :=
  match pieces with
  | [] => EmptyString
  | [p] => p
  | p :: rest => p +:+ String sep (join sep rest)
  end.

(** JavaScript truthiness of a string: non-empty. *)
Definition truthy (s : string) : bool :=
  match s with EmptyString => false | _ => true end.

End JsString.

(** ** [src/utils/common.ts] *)

Module Common.
Import JsString.

Definition BATCH_SIZE : nat := 100.
Definition MAX_RETRIES : nat := 3.
Definition RETRY_DELAY_MS : nat := 2000.

Definition fence : string := "```".
Definition fenceTsv : string := "```tsv".

(** [text.replace(/^```tsv\s*\n?/, '')]: the pattern is anchored at the
    start of the text (no [m] flag); after the literal, the greedy [\s*]
    takes every following white-space character, line feeds included, and
    [\n?] then matches the empty string. *)
Definition stripOpeningFence (text : string) : string :=
  if startsWith fenceTsv text then trimStart (dropChars 6 text) else text.

(** Whether [/\n?```\s*$/] matches with its first character at the head
    of [s]: an optional line feed, three backticks, then white space up to
    the end of the text. *)
Definition closingFenceAt (s : string) : bool :=
  match s with
  | String c r =>
      if Ascii.eqb c LF
      then startsWith fence r && allWhiteSpace (dropChars 3 r)
      else startsWith fence s && allWhiteSpace (dropChars 3 s)
  | EmptyString => false
  end.

(** [text.replace(/\n?```\s*$/, '')]: the leftmost position at which the
    pattern matches; the match runs to the end of the text, so the
    replacement cuts the text there. *)
Fixpoint stripClosingFence (text : string) : string :=
  if closingFenceAt text then EmptyString
  else match text with
       | EmptyString => EmptyString
       | String c r => String c (stripClosingFence r)
       end.

Definition cleanTsvOutput (text : string) : string :=
  trim (stripClosingFence (stripOpeningFence text)).

End Common.

(** ** Tabular output parser ([src/services/batch-processor.ts], the loops
       over [allResults] and [allResultStrings]) *)

Module Parser.
Import JsString Common.

Record Explanation := mkExplanation {
  e_text : string;
  e_explanation : string
}.

Record Classification := mkClassification {
  c_text : string;
  c_label : string;
  c_explanation : string
}.

(** The body of [for (const line of lines)], generic in the row built
    from [parts[0]], [parts[1]] and [parts[2]]. *)
Definition parseLine {R : Type} (mk : string → string → string → R)
    (line : string) : list R :=
  if startsWith "text" line then []
  else if truthy (trim line) then
    match split TAB line with
    | p0 :: p1 :: p2 :: _ => [mk p0 p1 p2]
    | _ => []
    end
  else [].

Definition parseLines {R : Type} (mk : string → string → string → R)
    (lines : list string) : list R :=
  flat_map (parseLine mk) lines.

(** One iteration of [for (const batchResult of ...)]. *)
Definition parseResponse {R : Type} (mk : string → string → string → R)
    (batchResult : string) : list R :=
  parseLines mk (split LF (cleanTsvOutput batchResult)).

Definition parseAll {R : Type} (mk : string → string → string → R)
    (allResults : list string) : list R :=
  flat_map (parseResponse mk) allResults.

Definition mkExpl (p0 p1 p2 : string) : Explanation := mkExplanation p0 p2.
Definition mkClass (p0 p1 p2 : string) : Classification := mkClassification p0 p1 p2.

End Parser.

(** ** Exceptions and the external text-generation call *)

Module Js.
Import JsString.

(** The value caught by [catch (error: any)]: the fields that the code
    inspects, each possibly [undefined]. *)
Record Error := mkError {
  err_name : option string;
  err_code : option nat;
  err_message : option string
}.

Inductive Completion (A : Type) : Type :=
| Normal (a : A)
| Throw (e : Error).
Arguments Normal {A} a.
Arguments Throw {A} e.

(** [try { body } catch (error) { handler }] *)
Definition tryCatch {A : Type} (body : Completion A)
    (handler : Error → Completion A) : Completion A :=
  match body with
  | Normal a => Normal a
  | Throw e => handler e
  end.

(** Whether a call returned rather than threw. *)
Definition isNormal {A : Type} (c : Completion A) : bool :=
  match c with Normal _ => true | Throw _ => false end.

(** [hay.includes(needle)] *)
Fixpoint includes (needle hay : string) : bool :=
  startsWith needle hay ||
  match hay with
  | EmptyString => false
  | String _ hay' => includes needle hay'
  end.

(** Side effects recorded by the models: a call of [generateText] for a
    batch at a given attempt, and a [sleep] of so many milliseconds. *)
Inductive Event :=
| Call (batch attempt : nat)
| Sleep (ms : nat).

Definition callsOf (tr : list Event) : list (nat * nat) :=
  omap (λ ev, match ev with Call b a => Some (b, a) | Sleep _ => None end) tr.

Definition sleepsOf (tr : list Event) : list nat :=
  omap (λ ev, match ev with Sleep ms => Some ms | Call _ _ => None end) tr.

Definition totalSleep (tr : list Event) : nat := sum_list (sleepsOf tr).

End Js.

(** ** [src/services/batch-processor.ts]: [processBatchWithRetry] *)

Module Retry.
Import JsString Common Js.

(** The value of [error.message] as the [catch] block uses it: absent
    ([undefined] or [null]), a string, or any other value, given with what
    [message.includes(needle)] does on it: the truth value of what the call
    returns, or what it throws, which for a value without a method
    [includes] (a number, a boolean, a plain object) is the [TypeError] of
    the engine. *)
Inductive Message :=
| NoMessage
| StringMessage (s : string)
| OtherMessage (includesOf : string → Completion bool).

(** The value that a rejected call hands to the [catch] block: [null] or
    [undefined], given with the [TypeError] that the engine raises when a
    property of it is read; or any other value, given with what [name],
    [code] and [message] read on it ([name] when it is a string, [code]
    when it is a natural number) and with the exception, if there is one,
    that the log line raises when it converts [error.message || error.name]
    to a string (a symbol has no such conversion). Reading the three
    properties of a value that is neither [null] nor [undefined] is taken
    to complete. *)
Inductive Thrown :=
| Nullish (raised : Error)
| Value (name : option string) (code : option nat) (message : Message)
    (rendering : option Error).

(** An error object, as the calls throw elsewhere in this development:
    [name] and [message] are strings or absent, and convert to a string. *)
Definition thrownError (error : Error) : Thrown :=
  Value (err_name error) (err_code error)
    match err_message error with
    | Some m => StringMessage m
    | None => NoMessage
    end
    None.
Coercion thrownError : Error >-> Thrown.

(** How a call of [generateText] ends. *)
Inductive Attempt :=
| Returns (text : string)
| Rejects (error : Thrown).

Definition attemptOf (c : Completion string) : Attempt :=
  match c with
  | Normal text => Returns text
  | Throw error => Rejects error
  end.

(** [error?.name === 'TimeoutError' || error?.code === 23] *)
Definition isTimeout (error : Thrown) : bool :=
  match error with
  | Nullish _ => false
  | Value name code _ _ =>
      bool_decide (name = Some "TimeoutError") || bool_decide (code = Some 23)
  end.

(** [error?.message] *)
Definition messageOf (error : Thrown) : Message :=
  match error with
  | Nullish _ => NoMessage
  | Value _ _ message _ => message
  end.

(** The truth value of [error?.message?.includes(needle)] where the call
    completes. *)
Definition messageIncludes (needle : string) (error : Thrown) : bool :=
  match messageOf error with
  | NoMessage => false
  | StringMessage m => includes needle m
  | OtherMessage includesOf =>
      match includesOf needle with
      | Normal found => found
      | Throw _ => false
      end
  end.

(** What [error?.message?.includes(needle)] throws, if it does. *)
Definition includesRaises (needle : string) (error : Thrown) : option Error :=
  match messageOf error with
  | OtherMessage includesOf =>
      match includesOf needle with
      | Normal _ => None
      | Throw raised => Some raised
      end
  | NoMessage | StringMessage _ => None
  end.

(** The truth value of [isRetryable] where its declaration completes. *)
Definition isRetryable (error : Thrown) : bool :=
  isTimeout error || messageIncludes "rate limit" error
  || messageIncludes "503" error.

(** What the declaration of [isRetryable] throws, if it does: [isTimeout]
    is false, so that [includes] is called for the first needle, and for
    the second one when the first is not found. *)
Definition testsRaise (error : Thrown) : option Error :=
  if isTimeout error then None
  else match includesRaises "rate limit" error with
       | Some raised => Some raised
       | None =>
           if messageIncludes "rate limit" error then None
           else includesRaises "503" error
       end.

(** What the log line of either branch,
    [`... ${error.message || error.name}`], throws, if it does: it reads a
    property of [null] or [undefined], or the conversion to a string
    fails. *)
Definition logRaises (error : Thrown) : option Error :=
  match error with
  | Nullish raised => Some raised
  | Value _ _ _ rendering => rendering
  end.

(** The loop [for (let attempt = 1; attempt <= retries; attempt++)] from
    the iteration [attempt] on. [generate a] is the outcome of the call of
    [generateText] made at attempt [a]; [fuel] bounds the iterations left
    and [processBatchWithRetry] supplies enough of it. What the [catch]
    block throws leaves the function. *)
Fixpoint retryLoop (batch : nat) (generate : nat → Attempt)
    (retries fuel attempt : nat) : Completion (option string) * list Event :=
  if (attempt <=? retries)%nat then
    match fuel with
    | O => (Normal None, [])
    | S fuel' =>
        match generate attempt with
        | Returns text => (Normal (Some text), [Call batch attempt])
        | Rejects error =>
            match testsRaise error with
            | Some raised => (Throw raised, [Call batch attempt])
            | None =>
                if isRetryable error && (attempt <? retries)%nat then
                  match logRaises error with
                  | Some raised => (Throw raised, [Call batch attempt])
                  | None =>
                      let '(r, tr) :=
                        retryLoop batch generate retries fuel' (S attempt) in
                      (r, Call batch attempt
                          :: Sleep (RETRY_DELAY_MS * attempt) :: tr)
                  end
                else
                  match logRaises error with
                  | Some raised => (Throw raised, [Call batch attempt])
                  | None => (Normal None, [Call batch attempt])
                  end
            end
        end
    end
  else (Normal None, []).

Definition processBatchWithRetry (batch : nat)
    (generate : nat → Attempt) (retries : nat)
    : Completion (option string) * list Event :=
  retryLoop batch generate retries retries 1.

End Retry.

(** ** [src/services/checkpoint.ts] *)

Module Checkpoint.
Import JsString Js.

Inductive Action := explain | classify.

Record CheckpointData := mkCheckpoint {
  processedBatches : list nat;
  results : gmap nat string;
  target : string;
  language : string;
  action : Action;
  totalBatches : nat;
  modelType : string;
  lastUpdated : string
}.

(** [saveBatchResult]: the mutation of the shared [checkpoint] object.
    The record obtained is also the one handed to [saveCheckpoint]. [now]
    is [new Date().toISOString()]. *)
Definition saveBatchResult (now : string) (batchIndex : nat)
    (result : string) (checkpoint : CheckpointData) : CheckpointData :=
  {| processedBatches := processedBatches checkpoint ++ [batchIndex];
     results := <[batchIndex := result]> (results checkpoint);
     target := target checkpoint;
     language := language checkpoint;
     action := action checkpoint;
     totalBatches := totalBatches checkpoint;
     modelType := modelType checkpoint;
     lastUpdated := now |}.

(** *** [loadCheckpoint] over the file system and [JSON.parse] *)

#[local] Unset Elimination Schemes.
Inductive JsonValue :=
| JNull
| JBool (b : bool)
| JNumber (n : Z)
| JString (s : string)
| JArray (items : list JsonValue)
| JObject (fields : list (string * JsonValue)).
#[local] Set Elimination Schemes.

(** What a path names: a readable file with its content, or something
    that exists but whose [readFileSync] throws (a directory, a file
    without read permission). *)
Inductive FsEntry :=
| RegularFile (content : string)
| Unreadable (e : Error).

Definition existsSync (fs : gmap string FsEntry) (path : string) : bool :=
  bool_decide (is_Some (fs !! path)).

Definition readFileSync (fs : gmap string FsEntry) (path : string)
    : Completion string :=
  match fs !! path with
  | Some (RegularFile content) => Normal content
  | Some (Unreadable e) => Throw e
  | None => Throw (mkError (Some "Error") None (Some "ENOENT"))
  end.

(** [JSON.parse] is a parameter; the JavaScript value [null] it may
    return is the same value as the [null] that [loadCheckpoint] returns
    for "no checkpoint". *)
Definition loadCheckpoint (JSON_parse : string → Completion JsonValue)
    (fs : gmap string FsEntry) (checkpointPath : string)
    : Completion (option JsonValue) :=
  if negb (existsSync fs checkpointPath) then Normal None
  else
    tryCatch
      (match readFileSync fs checkpointPath with
       | Normal data =>
           match JSON_parse data with
           | Normal JNull => Normal None
           | Normal v => Normal (Some v)
           | Throw e => Throw e
           end
       | Throw e => Throw e
       end)
      (λ _, Normal None).

(** [object[k]] for a parsed object; of two members with the same name
    [JSON.parse] keeps the later one. *)
Fixpoint lookupField (k : string) (fields : list (string * JsonValue))
    : option JsonValue :=
  match fields with
  | [] => None
  | (k', v) :: rest =>
      match lookupField k rest with
      | Some v' => Some v'
      | None => if decide (k' = k) then Some v else None
      end
  end.

Definition isNumberArray (v : JsonValue) : bool :=
  match v with
  | JArray items =>
      forallb (λ x, match x with JNumber _ => true | _ => false end) items
  | _ => false
  end.

Definition isStringObject (v : JsonValue) : bool :=
  match v with
  | JObject fields =>
      forallb (λ kv, match kv.2 with JString _ => true | _ => false end) fields
  | _ => false
  end.

(** The shape of [interface CheckpointData], as far as the orchestrator
    relies on it. *)
Definition hasCheckpointShape (v : JsonValue) : bool :=
  match v with
  | JObject fields =>
      match lookupField "processedBatches" fields,
            lookupField "results" fields,
            lookupField "totalBatches" fields with
      | Some pb, Some rs, Some (JNumber _) => isNumberArray pb && isStringObject rs
      | _, _, _ => false
      end
  | _ => false
  end.

End Checkpoint.

(** ** [src/services/batch-processor.ts]: batch splitting *)

Module Batching.

Section Splitter.
Context {A : Type}.

(** The variables of the loop "Create batches". *)
Record SplitState := mkSplit {
  batches : list (list A);
  lineCount : nat;
  batchIndex : nat
}.

(** The body of [for (const row of dataRows)]. [batches[batchIndex]] is
    always the last batch ([splitInv] below), so that the [push] never meets
    an index out of range, where JavaScript would throw and [alter] would
    do nothing. *)
Definition splitStep (size : nat) (st : SplitState) (row : A) : SplitState :=
  let pushed := alter (λ b, b ++ [row]) (batchIndex st) (batches st) in
  let lineCount' := S (lineCount st) in
  if decide (lineCount' = size)
  then {| batches := pushed ++ [[]];
          lineCount := 0;
          batchIndex := S (batchIndex st) |}
  else {| batches := pushed;
          lineCount := lineCount';
          batchIndex := batchIndex st |}.

Definition splitInit : SplitState :=
  {| batches := [[]]; lineCount := 0; batchIndex := 0 |}.

Definition createBatches (size : nat) (dataRows : list A) : list (list A) :=
  batches (foldl (splitStep size) splitInit dataRows).

(** The rows in positions [[i·size, min((i+1)·size, N))]. *)
Definition slice (size : nat) (dataRows : list A) (i : nat) : list A :=
  take size (drop (i * size) dataRows).

End Splitter.
Arguments SplitState A : clear implicits.

(** [Math.ceil(n / size)] on natural numbers, as in the batch loop of
    the retry-missing script. *)
Definition ceilDiv (n size : nat) : nat := (n + size - 1) / size.

End Batching.

(** ** [src/services/batch-processor.ts]: the batch orchestrator

    [explainStanceLabels] and [classifyAndExplainStance] are the same code up
    to the checkpoint action, the prompt and the parsed row; [runBatches] is
    that code.

    The callback of [batches.map(async (batch, index) => ...)] runs
    synchronously up to its [await generateText(...)]: for every index, in
    ascending order, the test [processedBatches.includes(index)] is made on
    the checkpoint as it is before any call returns, and the call of a batch
    that is not skipped is issued at once. The calls then complete in an
    order that the program does not control; [order] is that order. After
    [Promise.all] the results are collected from the shared checkpoint. *)

Module Orchestrator.
Import JsString Common Parser Js Checkpoint Batching.

Record BatchResult := mkBatchResult {
  br_index : nat;
  br_result : option string;
  br_skipped : bool
}.

Record Outcome (R : Type) := mkOutcome {
  o_checkpoint : CheckpointData;       (* the shared object at the end *)
  o_written : list CheckpointData;     (* records given to saveCheckpoint *)
  o_trace : list Event;                (* calls of generateText *)
  o_batchResults : list BatchResult;   (* value of Promise.all *)
  o_failed : nat;                      (* failedBatches.length *)
  o_allResults : list string;
  o_output : list R
}.
Arguments o_checkpoint {R} _.
Arguments o_written {R} _.
Arguments o_trace {R} _.
Arguments o_batchResults {R} _.
Arguments o_failed {R} _.
Arguments o_allResults {R} _.
Arguments o_output {R} _.

Section Run.
Context {Row R : Type}.
Variable mk : string → string → string → R.
Variable act : Action.
Variables tgt lang mt : string.
(** [clock k]: the value of [new Date().toISOString()] when [k]
    records have been written. *)
Variable clock : nat → string.
(** [generateText b a]: how the call for the prompt of batch [b] ends
    when it is made for the [a]-th time in this run. *)
Variable generateText : nat → nat → Completion string.

Definition newCheckpoint (n : nat) : CheckpointData :=
  {| processedBatches := [];
     results := ∅;
     target := tgt;
     language := lang;
     action := act;
     totalBatches := n;
     modelType := mt;
     lastUpdated := clock 0 |}.

(** "Initialize or validate checkpoint": the record in use and the
    records written so far. *)
Definition initCheckpoint (loaded : option CheckpointData) (n : nat)
    : CheckpointData * list CheckpointData :=
  match loaded with
  | None => (newCheckpoint n, [newCheckpoint n])
  | Some checkpoint => (checkpoint, [])
  end.

(** [checkpoint.processedBatches.includes(index)] *)
Definition isProcessed (checkpoint : CheckpointData) (index : nat) : bool :=
  bool_decide (index ∈ processedBatches checkpoint).

(** Indices whose callback reaches [generateText]. *)
Definition pending (checkpoint : CheckpointData) (n : nat) : list nat :=
  filter (λ index, isProcessed checkpoint index = false) (seq 0 n).

(** The rest of the callback once the call for [index] has ended. *)
Definition complete (st : CheckpointData * list CheckpointData)
    (index : nat) : CheckpointData * list CheckpointData :=
  match generateText index 1 with
  | Normal text =>
      let checkpoint' :=
        saveBatchResult (clock (length st.2)) index text st.1 in
      (checkpoint', st.2 ++ [checkpoint'])
  | Throw _ => st
  end.

(** The value that the promise of [index] resolves to. *)
Definition batchResult (checkpoint0 : CheckpointData) (index : nat)
    : BatchResult :=
  if isProcessed checkpoint0 index
  then mkBatchResult index (results checkpoint0 !! index) true
  else match generateText index 1 with
       | Normal text => mkBatchResult index (Some text) false
       | Throw _ => mkBatchResult index None false
       end.

(** "Collect all results (including previously processed ones)". *)
Definition collect (checkpoint : CheckpointData) (n : nat) : list string :=
  omap (λ i, match results checkpoint !! i with
             | Some result => if truthy result then Some result else None
             | None => None
             end) (seq 0 n).

Definition isFailed (r : BatchResult) : bool :=
  negb (br_skipped r) && bool_decide (br_result r = None).

Definition runBatches (loaded : option CheckpointData)
    (dataRows : list Row) (order : list nat) : Outcome R :=
  let n := length (createBatches BATCH_SIZE dataRows) in
  let start := initCheckpoint loaded n in
  let trace := (λ index, Call index 1) <$> pending start.1 n in
  let final := foldl complete start order in
  let batchResults := batchResult start.1 <$> seq 0 n in
  let allResults := collect final.1 n in
  {| o_checkpoint := final.1;
     o_written := final.2;
     o_trace := trace;
     o_batchResults := batchResults;
     o_failed := length (filter (λ r, isFailed r = true) batchResults);
     o_allResults := allResults;
     o_output := parseAll mk allResults |}.

End Run.

Definition explainStanceLabels {Row : Type} :=
  @runBatches Row Explanation mkExpl explain.

Definition classifyAndExplainStance {Row : Type} :=
  @runBatches Row Classification mkClass classify.

End Orchestrator.

(** ** [src/services/excel.ts]: merging results into the worksheet *)

Module Excel.
Import JsString Parser.

(** The [value] of a cell: empty, a string, or a value of another kind
    (number, date, formula result, rich text) given with the string that
    its [toString()] returns. *)
Inductive CellValue :=
| CNull
| CString (s : string)
| COther (rendered : string).

#[global] Instance CellValue_eq_dec : EqDecision CellValue.
Proof. solve_decision. Defined.

(** A worksheet: row number to column number to value; both are counted
    from 1. A row or cell that is absent is empty. *)
Abbreviation RowCells := (gmap nat CellValue).
Abbreviation Worksheet := (gmap nat (gmap nat CellValue)).

(** [row.getCell(c).value] *)
Definition getCell (row : RowCells) (c : nat) : CellValue :=
  default CNull (row !! c).

(** [worksheet.getRow(r).getCell(c).value] *)
Definition cellAt (ws : Worksheet) (r c : nat) : CellValue :=
  getCell (default ∅ (ws !! r)) c.

(** [row.hasValues]: some cell of the row is not empty. *)
Definition hasValues (row : RowCells) : bool :=
  negb (bool_decide (map_Forall (λ _ v, v = CNull) row)).

(** [row.getCell(1).value?.toString()?.trim() || ""] *)
Definition keyOfRow (row : RowCells) : string :=
  match getCell row 1 with
  | CNull => EmptyString
  | CString s => trim s
  | COther s => trim s
  end.

(** [headerRow.getCell(c).value = title], on the row that
    [worksheet.getRow(1)] returns or creates. *)
Definition setHeader (c : nat) (title : string) (ws : Worksheet) : Worksheet :=
  <[1 := <[c := CString title]> (default ∅ (ws !! 1))]> ws.

(** [worksheet.eachRow(callback)]: the callback is applied to the rows
    that have values. *)
Definition eachRow (callback : RowCells → nat → RowCells) (ws : Worksheet)
    : Worksheet :=
  map_imap (λ rowNumber row,
    Some (if hasValues row then callback row rowNumber else row)) ws.

Definition explanationMap (explanations : list Explanation) : gmap string string :=
  foldl (λ m item, <[trim (e_text item) := e_explanation item]> m) ∅ explanations.

Definition explainRow (m : gmap string string) (row : RowCells)
    (rowNumber : nat) : RowCells :=
  if decide (1 < rowNumber) then
    match m !! keyOfRow row with
    | Some explanation =>
        if truthy explanation then <[7 := CString explanation]> row else row
    | None => row
    end
  else row.

(** The worksheet that [workbook.getWorksheet(1)] returns is optional;
    without it the workbook is written back as it was read. *)
Definition updateExcelWithExplanations (worksheet : option Worksheet)
    (explanations : list Explanation) : option Worksheet :=
  (λ ws, eachRow (explainRow (explanationMap explanations))
           (setHeader 7 "human_label_explanation" ws)) <$> worksheet.

Definition classificationMap (classifications : list Classification)
    : gmap string (string * string) :=
  foldl (λ m item, <[trim (c_text item) := (c_label item, c_explanation item)]> m)
    ∅ classifications.

Definition classifyRow (m : gmap string (string * string)) (row : RowCells)
    (rowNumber : nat) : RowCells :=
  if decide (1 < rowNumber) then
    match m !! keyOfRow row with
    | Some classification =>
        <[9 := CString classification.2]> (<[8 := CString classification.1]> row)
    | None => row
    end
  else row.

Definition updateExcelWithClassifications (worksheet : option Worksheet)
    (classifications : list Classification) : option Worksheet :=
  (λ ws, eachRow (classifyRow (classificationMap classifications))
           (setHeader 9 "llm_label_explanation" (setHeader 8 "llm_label" ws)))
  <$> worksheet.

(** The last element of [items] whose trimmed text is [key]. *)
Definition lastWithKey {T : Type} (text : T → string) (key : string)
    (items : list T) : option T :=
  last (filter (λ item, trim (text item) = key) items).

End Excel.

(** ** JavaScript numbers

    The arithmetic that the statistics use, as an interface with two
    instances: IEEE 754 binary64, which is what the program computes with,
    and the exact rationals. A count is a natural number (below 2^53 every
    natural number is a double, and the length of an array is below 2^32);
    it becomes a number of the interface where the program divides. *)

Module JsNumber.

Class Ops (N : Type) := {
  ofNat : nat → N;
  add : N → N → N;
  mul : N → N → N;
  div : N → N → N;
  (* [x > 0] *)
  isPositive : N → bool
}.

#[global] Instance double : Ops PrimFloat.float := {|
  ofNat n := PrimFloat.of_uint63 (Uint63.of_Z (Z.of_nat n));
  add := PrimFloat.add;
  mul := PrimFloat.mul;
  div := PrimFloat.div;
  isPositive x := PrimFloat.ltb (PrimFloat.of_uint63 (Uint63.of_Z 0)) x
|}.

#[global] Instance exact : Ops Q := {|
  ofNat n := inject_Z (Z.of_nat n);
  add := Qplus;
  mul := Qmult;
  div := Qdiv;
  isPositive q := if Qlt_le_dec 0 q then true else false
|}.

End JsNumber.

(** ** [src/compare.ts]: accuracy statistics and model comparison

    [labelStats], [confusionMatrix] and the rows of the matrix are created
    as [{}] and indexed by labels. What is read at a key of such an object
    is its own property or, when it has none of that name, the member that
    every object inherits from [Object.prototype]. The own properties are a
    finite map, kept with the order of their creation where the program
    enumerates them. *)

Module Compare.
Import JsString JsNumber.

Record DataRow := mkDataRow {
  text : string;
  humanLabel : string;
  humanExplanation : option string;
  llmLabel : string;
  llmExplanation : option string
}.

Record LabelStats (N : Type) := mkLabelStats {
  total : nat;
  correct : nat;
  accuracy : N;
  precision : N;
  recall : N;
  f1Score : N
}.
Arguments mkLabelStats {N} _ _ _ _ _ _.
Arguments total {N} _.
Arguments correct {N} _.
Arguments accuracy {N} _.
Arguments precision {N} _.
Arguments recall {N} _.
Arguments f1Score {N} _.

(** *** Objects used as dictionaries *)

(** The methods of [Object.prototype]; its one other member is the
    accessor [__proto__]. *)
Definition prototypeMethods : list string :=
  ["constructor"; "hasOwnProperty"; "isPrototypeOf"; "propertyIsEnumerable";
   "toLocaleString"; "toString"; "valueOf"; "__defineGetter__";
   "__defineSetter__"; "__lookupGetter__"; "__lookupSetter__"].

Definition isMethod (key : string) : bool :=
  bool_decide (key ∈ prototypeMethods).

Definition inherited (key : string) : bool :=
  isMethod key || bool_decide (key = "__proto__").

(** The value of a decimal digit. *)
Definition digitOf (c : ascii) : option N :=
  let n := N_of_ascii c in
  if (48 <=? n)%N && (n <=? 57)%N then Some (n - 48)%N else None.

Fixpoint decimal (acc : N) (s : string) : option N :=
  match s with
  | EmptyString => Some acc
  | String c rest =>
      match digitOf c with
      | Some d => decimal (10 * acc + d)%N rest
      | None => None
      end
  end.

(** A key is an array index when it is the canonical decimal form of an
    integer from 0 to 2^32 - 2. *)
Definition arrayIndex (key : string) : option N :=
  match key with
  | EmptyString => None
  | String c rest =>
      if bool_decide (c = "0"%char) && negb (bool_decide (rest = EmptyString))
      then None
      else match decimal 0 key with
           | Some n => if (n <=? 4294967294)%N then Some n else None
           | None => None
           end
  end.

Definition indexLe (a b : N * string) : Prop := (a.1 ≤ b.1)%N.

#[global] Instance indexLe_dec : RelDecision indexLe :=
  λ a b, decide (a.1 ≤ b.1)%N.

(** [Object.keys(o)], and the order of [Object.values(o)], for an object
    whose properties were created in the order [created]: the array indices
    in ascending order, then the other keys in the order of creation. *)
Definition ownKeys (created : list string) : list string :=
  (merge_sort indexLe
     (omap (λ key, (λ n, (n, key)) <$> arrayIndex key) created)).*2
  ++ filter (λ key, arrayIndex key = None) created.

(** A cell of the confusion matrix. *)
Inductive Cell := Count (n : nat) | NaN.

(** What [matrixRow[label]] evaluates to: the own cell, an inherited method
    or [undefined]. *)
Inductive Read := Own (cell : Cell) | Method | Undefined.

Definition readCell (matrixRow : gmap string Cell) (label : string) : Read :=
  match matrixRow !! label with
  | Some cell => Own cell
  | None => if isMethod label then Method else Undefined
  end.

Definition truthyRead (value : Read) : bool :=
  match value with
  | Own (Count n) => (0 <? n)%nat
  | Own NaN => false
  | Method => true
  | Undefined => false
  end.

(** [value + 1], the operand converted to a number: a function and
    [undefined] convert to [NaN]. *)
Definition incremented (value : Read) : Cell :=
  match value with
  | Own (Count n) => Count (S n)
  | Own NaN | Method | Undefined => NaN
  end.

(** [if (!matrixRow[label]) { matrixRow[label] = 0; } matrixRow[label]++;]
    The assignments create or update an own property of the row. *)
Definition countInto (matrixRow : gmap string Cell) (label : string)
    : gmap string Cell :=
  let cleared :=
    if truthyRead (readCell matrixRow label) then matrixRow
    else <[label := Count 0]> matrixRow in
  <[label := incremented (readCell cleared label)]> cleared.

(** The variables of the loop "Build confusion matrix". [labelOrder] is
    the order in which the labels became properties of [labelStats]. *)
Record Tally (N : Type) := mkTally {
  totalCorrect : nat;
  labelStats : gmap string (LabelStats N);
  labelOrder : list string;
  confusionMatrix : gmap string (gmap string Cell)
}.
Arguments mkTally {N} _ _ _ _.
Arguments totalCorrect {N} _.
Arguments labelStats {N} _.
Arguments labelOrder {N} _.
Arguments confusionMatrix {N} _.

(** The object returned; [as_labelOrder] is the order in which the
    properties of [labelStats] were created. *)
Record AccuracyStats (N : Type) := mkAccuracyStats {
  totalSamples : nat;
  correctPredictions : nat;
  overallAccuracy : N;
  macroF1 : N;
  as_labelStats : gmap string (LabelStats N);
  as_labelOrder : list string;
  as_confusionMatrix : gmap string (gmap string Cell)
}.
Arguments totalSamples {N} _.
Arguments correctPredictions {N} _.
Arguments overallAccuracy {N} _.
Arguments macroF1 {N} _.
Arguments as_labelStats {N} _.
Arguments as_labelOrder {N} _.
Arguments as_confusionMatrix {N} _.

(** What [falsePositives += matrixRow[label]] adds when the cell is truthy,
    for a label that is not inherited: [NaN], 0 and [undefined] are falsy. *)
Definition cellCount (cell : option Cell) : nat :=
  match cell with
  | Some (Count n) => n
  | Some NaN | None => 0
  end.

(** The loop [for (const actualLabel in confusionMatrix)], for a label that
    is not inherited. The sum of the counts does not depend on the order of
    the enumeration. *)
Definition falsePositives (matrix : gmap string (gmap string Cell))
    (label : string) : nat :=
  map_fold (λ actualLabel matrixRow acc,
    if decide (actualLabel ≠ label)
    then (acc + cellCount (matrixRow !! label))%nat
    else acc) 0%nat matrix.

(** [new Set(items)]: the first occurrence of every item, in order. *)
Fixpoint distinct (seen items : list string) : list string :=
  match items with
  | [] => []
  | x :: rest =>
      if decide (x ∈ seen) then distinct seen rest
      else x :: distinct (x :: seen) rest
  end.

(** A row on which the loops update a built-in object that the rest of the
    run reads. With a human label that is inherited, [labelStats[label]] and
    [confusionMatrix[label]] are the member of [Object.prototype] itself,
    whose properties [total], [correct] and [llmLabel] the first loop then
    increments. With the predicted label [__proto__], the second loop assigns
    the four metrics to [Object.prototype], from which every object inherits
    them. What the run does from there on depends on the state of the
    built-in objects, which is not part of this embedding. *)
Definition updatesBuiltins (row : DataRow) : bool :=
  inherited (humanLabel row) || bool_decide (llmLabel row = "__proto__").

Section Numbers.
Context {N : Type} `{Ops N}.

(** *** [calculateAccuracy] *)

Definition zeroStats : LabelStats N :=
  mkLabelStats 0 0 (ofNat 0) (ofNat 0) (ofNat 0) (ofNat 0).

Definition bumpTotal (s : LabelStats N) : LabelStats N :=
  mkLabelStats (S (total s)) (correct s) (accuracy s) (precision s)
    (recall s) (f1Score s).

Definition bumpCorrect (s : LabelStats N) : LabelStats N :=
  mkLabelStats (total s) (S (correct s)) (accuracy s) (precision s)
    (recall s) (f1Score s).

(** The body of [for (const row of data)], for a human label that is not
    inherited: [labelStats[h]] and [confusionMatrix[h]] are own properties
    or [undefined]. *)
Definition tallyRow (t : Tally N) (row : DataRow) : Tally N :=
  let h := humanLabel row in
  let l := llmLabel row in
  let order' :=
    match labelStats t !! h with
    | Some _ => labelOrder t
    | None => labelOrder t ++ [h]
    end in
  let stats1 := bumpTotal (default zeroStats (labelStats t !! h)) in
  let matrixRow := default ∅ (confusionMatrix t !! h) in
  let matrix' := <[h := countInto matrixRow l]> (confusionMatrix t) in
  if decide (h = l)
  then {| totalCorrect := S (totalCorrect t);
          labelStats := <[h := bumpCorrect stats1]> (labelStats t);
          labelOrder := order';
          confusionMatrix := matrix' |}
  else {| totalCorrect := totalCorrect t;
          labelStats := <[h := stats1]> (labelStats t);
          labelOrder := order';
          confusionMatrix := matrix' |}.

Definition buildTally (data : list DataRow) : Tally N :=
  foldl tallyRow (mkTally 0 ∅ [] ∅) data.

(** [den > 0 ? num / den : 0] on counts. *)
Definition ratio (num den : nat) : N :=
  if (0 <? den)%nat then div (ofNat num) (ofNat den) else ofNat 0.

Definition f1Of (precision recall : N) : N :=
  if isPositive (add precision recall)
  then div (mul (ofNat 2) (mul precision recall)) (add precision recall)
  else ofNat 0.

(** The metrics written into [labelStats[label]] from the true positives,
    the false positives and the number of rows with that actual label. *)
Definition metrics (tot truePositives falsePos : nat) : LabelStats N :=
  let precision := ratio truePositives (truePositives + falsePos) in
  let recall := ratio truePositives tot in
  {| total := tot;
     correct := truePositives;
     accuracy :=
       if (0 <? tot)%nat
       then mul (div (ofNat truePositives) (ofNat tot)) (ofNat 100)
       else ofNat 0;
     precision := precision;
     recall := recall;
     f1Score := f1Of precision recall |}.

(** The body of [for (const label of allLabels)], on the own properties of
    [labelStats] and the order of their creation. For a label that names a
    method of [Object.prototype], [labelStats[label]] is that method: it is
    truthy, so that no property is created, and the four assignments set
    properties of the method, which are no part of the result. *)
Definition metricsStep (matrix : gmap string (gmap string Cell))
    (own : gmap string (LabelStats N) * list string) (label : string)
    : gmap string (LabelStats N) * list string :=
  if isMethod label then own
  else
    let s := default zeroStats (own.1 !! label) in
    (<[label := metrics (total s) (correct s) (falsePositives matrix label)]>
       own.1,
     match own.1 !! label with
     | Some _ => own.2
     | None => own.2 ++ [label]
     end).

(** [new Set([...Object.keys(labelStats), ...data.map(d => d.llmLabel)])] *)
Definition allLabels (t : Tally N) (data : list DataRow) : list string :=
  distinct [] (ownKeys (labelOrder t) ++ (llmLabel <$> data)).

(** What [calculateAccuracy] returns when no row updates a built-in
    object. *)
Definition statistics (data : list DataRow) : AccuracyStats N :=
  let t := buildTally data in
  let own :=
    foldl (metricsStep (confusionMatrix t)) (labelStats t, labelOrder t)
      (allLabels t data) in
  (* [Object.values(labelStats).map(s => s.f1Score)] *)
  let f1Scores :=
    (λ label, f1Score (default zeroStats (own.1 !! label))) <$> ownKeys own.2 in
  {| totalSamples := length data;
     correctPredictions := totalCorrect t;
     overallAccuracy :=
       if (0 <? length data)%nat
       then mul (div (ofNat (totalCorrect t)) (ofNat (length data))) (ofNat 100)
       else ofNat 0;
     macroF1 :=
       if (0 <? length f1Scores)%nat
       then div (foldl add (ofNat 0) f1Scores) (ofNat (length f1Scores))
       else ofNat 0;
     as_labelStats := own.1;
     as_labelOrder := own.2;
     as_confusionMatrix := confusionMatrix t |}.

(** [None]: some row updates a built-in object, and the run is not
    followed further. *)
Definition calculateAccuracy (data : list DataRow)
    : option (AccuracyStats N) :=
  if existsb updatesBuiltins data then None else Some (statistics data).

End Numbers.

(** *** [compareModels], from the two lists read from the files *)

Record Entry := mkEntry {
  en_humanLabel : string;
  model1Label : option string;
  model1Explanation : option string;
  model2Label : option string;
  model2Explanation : option string
}.

(** [dataMap.set(k, v)] on a [Map]: a key that is present keeps its
    place in the iteration order. *)
Fixpoint mapSet (k : string) (v : Entry) (m : list (string * Entry))
    : list (string * Entry) :=
  match m with
  | [] => [(k, v)]
  | (k', v') :: m' =>
      if decide (k' = k) then (k, v) :: m' else (k', v') :: mapSet k v m'
  end.

(** [const existing = dataMap.get(k); if (existing) { ... }], the body
    being the in-place update [f]. *)
Fixpoint mapUpdate (k : string) (f : Entry → Entry) (m : list (string * Entry))
    : list (string * Entry) :=
  match m with
  | [] => []
  | (k', v') :: m' =>
      if decide (k' = k) then (k', f v') :: m' else (k', v') :: mapUpdate k f m'
  end.

Definition fromModel1 (m : list (string * Entry)) (item : DataRow) :=
  mapSet (text item)
    (mkEntry (humanLabel item) (Some (llmLabel item)) (llmExplanation item)
       None None) m.

Definition fromModel2 (m : list (string * Entry)) (item : DataRow) :=
  mapUpdate (text item)
    (λ existing, mkEntry (en_humanLabel existing) (model1Label existing)
                   (model1Explanation existing) (Some (llmLabel item))
                   (llmExplanation item)) m.

Definition buildDataMap (model1Data model2Data : list DataRow)
    : list (string * Entry) :=
  foldl fromModel2 (foldl fromModel1 [] model1Data) model2Data.

Record Disagreement := mkDisagreement {
  d_text : string;
  d_humanLabel : string;
  d_model1Label : string;
  d_model2Label : string;
  d_model1Explanation : option string;
  d_model2Explanation : option string
}.

(** [value.model1Label && value.model2Label]: both defined and not empty. *)
Definition bothLabels (value : Entry) : option (string * string) :=
  match model1Label value, model2Label value with
  | Some l1, Some l2 => if truthy l1 && truthy l2 then Some (l1, l2) else None
  | _, _ => None
  end.

Definition isAgreement (value : Entry) : bool :=
  match bothLabels value with
  | Some (l1, l2) => bool_decide (l1 = l2)
  | None => false
  end.

Definition disagreementOf (kv : string * Entry) : option Disagreement :=
  match bothLabels kv.2 with
  | Some (l1, l2) =>
      if decide (l1 = l2) then None
      else Some (mkDisagreement kv.1 (en_humanLabel kv.2) l1 l2
                   (model1Explanation kv.2) (model2Explanation kv.2))
  | None => None
  end.

Record ComparisonStats (N : Type) := mkComparisonStats {
  agreementRate : N;
  disagreements : list Disagreement
}.
Arguments agreementRate {N} _.
Arguments disagreements {N} _.

Definition countAgreements (dataMap : list (string * Entry)) : nat :=
  length (filter (λ kv, isAgreement kv.2 = true) dataMap).

Definition compareModels {N : Type} `{Ops N} (model1Data model2Data : list DataRow)
    : ComparisonStats N :=
  let dataMap := buildDataMap model1Data model2Data in
  let agreements := countAgreements dataMap in
  {| agreementRate :=
       mul (div (ofNat agreements) (ofNat (length dataMap))) (ofNat 100);
     disagreements := take 10 (omap disagreementOf dataMap) |}.

End Compare.

(** ** The script that fills the missing cells ([src/retry-missing.ts]) *)

Module RetryMissing.
Import JsString Common Parser Js Excel.

Section BatchLoop.
Context {A : Type}.

(** The loop [for (let i = 0; i < rowsToProcess.length; i += BATCH_SIZE)]
    of [main] from the index [i] on; every iteration takes
    [rowsToProcess.slice(i, i + BATCH_SIZE)]. [fuel] bounds the iterations
    left, and [sliceBatches] supplies enough of it for a positive size. *)
Fixpoint batchLoop (size : nat) (rows : list A) (fuel i : nat)
    : list (list A) :=
  match fuel with
  | O => []
  | S fuel' =>
      if (i <? length rows)%nat
      then take size (drop i rows) :: batchLoop size rows fuel' (i + size)
      else []
  end.

Definition sliceBatches (size : nat) (rows : list A) : list (list A) :=
  batchLoop size rows (length rows) 0.

End BatchLoop.

End RetryMissing.

(** ** File names: [getCheckpointPath] ([src/services/checkpoint.ts]),
       [getModelDisplayName] ([src/utils/models.ts]), the output path of
       [processDataset] ([src/process.ts]) and [extractModelAndTarget]
       ([src/retry-missing.ts]) *)

Module Naming.
Import JsString Checkpoint.

(** [s.toLowerCase()] on the code units below 256: the letters [A-Z] and
    the capital letters of Latin-1 ([À-Þ] without the sign [×]). *)
Definition lowerChar (c : ascii) : ascii :=
  let n := nat_of_ascii c in
  if bool_decide ((65 ≤ n ∧ n ≤ 90) ∨ (192 ≤ n ∧ n ≤ 222 ∧ n ≠ 215))
  then ascii_of_nat (n + 32) else c.

Fixpoint toLowerCase (s : string) : string :=
  match s with
  | EmptyString => EmptyString
  | String c s' => String (lowerChar c) (toLowerCase s')
  end.

(** [s.replace(/[\s.]/g, '-')] *)
Fixpoint dashify (s : string) : string :=
  match s with
  | EmptyString => EmptyString
  | String c s' =>
      String (if isWhiteSpace c || Ascii.eqb c "." then "-"%char else c)
        (dashify s')
  end.

(** The last code unit of a string. *)
Fixpoint lastChar (s : string) : option ascii :=
  match s with
  | EmptyString => None
  | String c EmptyString => Some c
  | String _ s' => lastChar s'
  end.

(** *** POSIX [path.join] of two arguments *)

(** [normalizeString]: empty segments and [.] are dropped; [..] removes
    the segment before it, and is kept where there is none to remove and
    the path is relative. *)
Definition normalizeStep (allowAboveRoot : bool) (res : list string)
    (segment : string) : list string :=
  if decide (segment = "" ∨ segment = ".") then res
  else if decide (segment = "..") then
    match last res with
    | Some previous =>
        if decide (previous = "..")
        then (if allowAboveRoot then res ++ [".."] else res)
        else removelast res
    | None => if allowAboveRoot then [".."] else []
    end
  else res ++ [segment].

Definition normalize (path : string) : string :=
  let isAbsolute := startsWith "/" path in
  let trailingSeparator := bool_decide (lastChar path = Some "/"%char) in
  let body :=
    join "/" (foldl (normalizeStep (negb isAbsolute)) [] (split "/" path)) in
  match body with
  | EmptyString =>
      if isAbsolute then "/" else if trailingSeparator then "./" else "."
  | _ =>
      (if isAbsolute then "/" else "") +:+ body
      +:+ (if trailingSeparator then "/" else "")
  end.

Definition path_join (a b : string) : string :=
  let joined :=
    match a, b with
    | EmptyString, _ => b
    | _, EmptyString => a
    | _, _ => a +:+ "/" +:+ b
    end in
  match joined with
  | EmptyString => "."
  | _ => normalize joined
  end.

(** *** [getCheckpointPath] *)

Definition CHECKPOINT_DIR : string := "./dataset/checkpoints".

Definition actionName (a : Action) : string :=
  match a with explain => "explain" | classify => "classify" end.

(** [isTrainFile ? 'train' : 'test'] *)
Definition datasetName (isTrainFile : bool) : string :=
  if isTrainFile then "train" else "test".

Definition checkpointFileName (modelType target : string) (a : Action)
    (isTrainFile : bool) : string :=
  "checkpoint-" +:+ modelType +:+ "-" +:+ target +:+ "-" +:+ actionName a
  +:+ "-" +:+ datasetName isTrainFile +:+ ".json".

Definition getCheckpointPath (modelType target : string) (a : Action)
    (isTrainFile : bool) : string :=
  path_join CHECKPOINT_DIR (checkpointFileName modelType target a isTrainFile).

(** *** [getModelDisplayName] and the output path of [processDataset] *)

Definition validModels : list string :=
  ["gpt-5"; "gemini-2.0-flash"; "gemini-2.5-pro"].

Definition allTargets : list string :=
  ["bolsonaro"; "cloroquina"; "coronavac"; "globo"; "igreja"; "lula"].

Definition getModelDisplayName (modelType : string) : string :=
  if decide (modelType = "gpt-5") then "GPT-5"
  else if decide (modelType = "gemini-2.0-flash") then "Gemini-2.0-Flash"
  else if decide (modelType = "gemini-2.5-pro") then "Gemini-2.5-Pro"
  else modelType.

Definition outputPath (modelType target : string) (isTrainFile : bool)
    : string :=
  "processed-" +:+ dashify (toLowerCase (getModelDisplayName modelType))
  +:+ "-" +:+ target +:+ "-" +:+ datasetName isTrainFile +:+ ".xlsx".

(** *** [extractModelAndTarget]

    The pattern
    [/processed-(.*?)-(bolsonaro|...|lula)-(train|test)\.xlsx/] is not
    anchored: the match is the leftmost one; at a given start the first
    group is as short as possible and holds no line terminator, and the
    alternatives of the other groups are tried in the order written. *)

Definition isLineTerminator (c : ascii) : bool :=
  let n := nat_of_ascii c in bool_decide (n = 10 ∨ n = 13).

(** The text that the part of the pattern after the first group matches,
    for a choice of the alternatives. *)
Definition tailOf (td : string * string) : string :=
  "-" +:+ td.1 +:+ "-" +:+ td.2 +:+ ".xlsx".

Definition tailChoices : list (string * string) :=
  target ← allTargets; dataset ← ["train"; "test"]; [(target, dataset)].

Definition matchTail (s : string) : option (string * string) :=
  head (filter (λ td, startsWith (tailOf td) s = true) tailChoices).

Fixpoint matchLazy (s : string) : option (string * (string * string)) :=
  match matchTail s with
  | Some td => Some (EmptyString, td)
  | None =>
      match s with
      | EmptyString => None
      | String c s' =>
          if isLineTerminator c then None
          else (λ r, (String c r.1, r.2)) <$> matchLazy s'
      end
  end.

Fixpoint searchPattern (s : string) : option (string * (string * string)) :=
  match (if startsWith "processed-" s then matchLazy (dropChars 10 s)
         else None) with
  | Some r => Some r
  | None =>
      match s with
      | EmptyString => None
      | String _ s' => searchPattern s'
      end
  end.

(** The result is [(model, target, dataset)], or [None] for [null]. *)
Definition extractModelAndTarget (filePath : string)
    : option (string * string * string) :=
  let fileName := default EmptyString (last (split "/" filePath)) in
  if truthy fileName then
    match searchPattern fileName with
    | Some (modelStr, (target, dataset)) =>
        if decide (modelStr = "gpt-5") then Some ("gpt-5", target, dataset)
        else if decide (modelStr = "gemini-2-5-pro")
        then Some ("gemini-2.5-pro", target, dataset)
        else if decide (modelStr = "gemini-2-0-flash")
        then Some ("gemini-2.0-flash", target, dataset)
        else None
    | None => None
    end
  else None.

End Naming.

(** ** Reading the worksheets: [readExcelFile] and
       [readExcelFileWithLabels] ([src/services/excel.ts]),
       [readProcessedFile] ([src/compare.ts]) and [analyzeMissingCells]
       ([src/check-missing.ts]) *)

Module Reading.
Import JsString Js Excel.

(** [value?.toString() || ""] *)
Definition cellString (v : CellValue) : string :=
  match v with
  | CNull => EmptyString
  | CString s => s
  | COther rendered => rendered
  end.

(** JavaScript truthiness of the value of a cell. Of the values that are
    not strings, the numbers 0 and [NaN] and the boolean [false] are falsy;
    they render as [0], [NaN] and [false]. The other values that a cell can
    hold (other numbers, [true], dates, formula and rich-text objects) are
    truthy and render otherwise. *)
Definition cellTruthy (v : CellValue) : bool :=
  match v with
  | CNull => false
  | CString s => truthy s
  | COther rendered => negb (bool_decide (rendered ∈ ["0"; "NaN"; "false"]))
  end.

(** The number of the last row of the worksheet. *)
Definition lastRow (ws : Worksheet) : nat := max_list (elements (dom ws)).

(** [worksheet.eachRow(callback)] for a callback that appends to an array:
    the rows that have values are visited by ascending row number, from row
    1 on; [callback row rowNumber] is what the visit of a row appends. *)
Definition collectRows {T : Type} (callback : RowCells → nat → list T)
    (ws : Worksheet) : list T :=
  flat_map (λ rowNumber,
    match ws !! rowNumber with
    | Some row => if hasValues row then callback row rowNumber else []
    | None => []
    end) (seq 1 (lastRow ws)).

(** *** [readExcelFile] *)

Definition textOfRow (row : RowCells) (rowNumber : nat) : list string :=
  if decide (1 < rowNumber) then
    let cellValue := getCell row 1 in
    if cellTruthy cellValue then [cellString cellValue] else []
  else [].

Definition readExcelFile (worksheet : option Worksheet) : list string :=
  match worksheet with
  | Some ws => collectRows textOfRow ws
  | None => []
  end.

(** *** [readExcelFileWithLabels] *)

Record LabelledRow := mkLabelledRow {
  lr_text : string;
  lr_label : string
}.

Definition labelledOfRow (row : RowCells) (rowNumber : nat) : list LabelledRow :=
  if decide (1 < rowNumber) then
    let text := cellString (getCell row 1) in
    let label := cellString (getCell row 3) in
    if truthy text && truthy label then [mkLabelledRow text label] else []
  else [].

Definition readExcelFileWithLabels (worksheet : option Worksheet)
    : list LabelledRow :=
  match worksheet with
  | Some ws => collectRows labelledOfRow ws
  | None => []
  end.

(** *** [readProcessedFile] *)

(** [value?.toString()?.trim()], [undefined] for an empty cell. *)
Definition trimmedCell (v : CellValue) : option string :=
  match v with
  | CNull => None
  | _ => Some (trim (cellString v))
  end.

(** [value?.toString()?.toLowerCase().trim() || ""] *)
Definition labelCell (v : CellValue) : string :=
  trim (Naming.toLowerCase (cellString v)).

Definition processedOfRow (row : RowCells) (rowNumber : nat)
    : list Compare.DataRow :=
  if decide (1 < rowNumber) then
    let text := trim (cellString (getCell row 1)) in
    let humanLabel := labelCell (getCell row 3) in
    let humanExplanation := trimmedCell (getCell row 7) in
    let llmLabel := labelCell (getCell row 8) in
    let llmExplanation := trimmedCell (getCell row 9) in
    if truthy text && truthy humanLabel && truthy llmLabel
    then [Compare.mkDataRow text humanLabel humanExplanation llmLabel
            llmExplanation]
    else []
  else [].

Definition readProcessedFile (worksheet : option Worksheet)
    : list Compare.DataRow :=
  match worksheet with
  | Some ws => collectRows processedOfRow ws
  | None => []
  end.

(** *** [analyzeMissingCells] *)

Record MissingCellInfo := mkMissingCellInfo {
  mc_rowNumber : nat;
  mc_text : string;
  mc_missingColumns : list string
}.

Record FileReport := mkFileReport {
  filePath : string;
  totalRows : nat;
  rowsWithMissing : nat;
  missingDetails : list MissingCellInfo
}.

(** [Object.entries(columnMap)]: the keys are array indices and come in
    ascending order. *)
Definition columnMap : list (nat * string) :=
  [(1, "text"); (3, "human-label"); (7, "human-label-explanation");
   (8, "llm-label"); (9, "llm-label-explanation")].

(** [!cellValue || cellValue.toString().trim() === ""] *)
Definition isEmpty (v : CellValue) : bool :=
  negb (cellTruthy v) || negb (truthy (trim (cellString v))).

Definition missingColumnsOf (row : RowCells) : list string :=
  omap (λ entry, if isEmpty (getCell row entry.1) then Some entry.2 else None)
    columnMap.

(** [s.substring(0, n)] *)
Fixpoint takeChars (n : nat) (s : string) : string :=
  match n, s with
  | S n', String c s' => String c (takeChars n' s')
  | _, _ => EmptyString
  end.

(** The rows that the callback counts: every row that has values except
    row 1. *)
Definition countedRow (row : RowCells) (rowNumber : nat) : list nat :=
  if decide (rowNumber = 1) then [] else [rowNumber].

Definition missingOfRow (row : RowCells) (rowNumber : nat)
    : list MissingCellInfo :=
  if decide (rowNumber = 1) then []
  else
    match missingColumnsOf row with
    | [] => []
    | missingColumns =>
        let text :=
          let trimmed := trim (cellString (getCell row 1)) in
          if truthy trimmed then trimmed else "[MISSING TEXT]" in
        [mkMissingCellInfo rowNumber (takeChars 100 text) missingColumns]
    end.

Definition analyzeMissingCells (filePath : string)
    (worksheet : option Worksheet) : Completion FileReport :=
  match worksheet with
  | None =>
      Throw (mkError (Some "Error") None
               (Some ("No worksheet found in " +:+ filePath)))
  | Some ws =>
      let details := collectRows missingOfRow ws in
      Normal {| filePath := filePath;
                totalRows := length (collectRows countedRow ws);
                rowsWithMissing := length details;
                missingDetails := details |}
  end.

End Reading.

(** ** [src/process.ts]: [processDataset]

    The worksheet is that of the input file. The two checkpoints that
    [explainStanceLabels] and [classifyAndExplainStance] load, the outcomes
    of their calls and the orders in which the calls complete are
    parameters, as in [Orchestrator]. The workbook that the first merge
    writes to the output path is the one that the second merge reads. *)

Module Process.
Import JsString Common Parser Js Checkpoint Orchestrator Excel Reading.

Section Dataset.
Variables modelType target : string.
Variables clockE clockC : nat → string.
Variables generateTextE generateTextC : nat → nat → Completion string.
Variables loadedE loadedC : option CheckpointData.
Variables orderE orderC : list nat.

Definition humanExplanations (worksheet : option Worksheet) : list Explanation :=
  o_output (explainStanceLabels target "portuguese" modelType clockE
              generateTextE loadedE (readExcelFileWithLabels worksheet) orderE).

Definition llmClassifications (worksheet : option Worksheet)
    : list Classification :=
  o_output (classifyAndExplainStance target "portuguese" modelType clockC
              generateTextC loadedC (readExcelFile worksheet) orderC).

Definition processDataset (worksheet : option Worksheet) : option Worksheet :=
  updateExcelWithClassifications
    (updateExcelWithExplanations worksheet (humanExplanations worksheet))
    (llmClassifications worksheet).

End Dataset.

End Process.

(** ** The retry of the rows with missing cells

    [explainBatchStanceLabels], [classifyAndExplainBatchStance],
    [processBatch], [updateExcelRow] and the body of the batch loop of
    [main]. The outcome of each of the two calls of [generateText] is a
    parameter. The workbook that [updateExcelRow] writes is the one that
    its next call reads. *)

Module RetryRows.
Import JsString Common Parser Js Excel Reading.

(** The filter of the lines of a reply:
    [trimmed && !trimmed.startsWith("text")]. *)
Definition keptLine (line : string) : bool :=
  let trimmed := trim line in
  truthy trimmed && negb (startsWith "text" trimmed).

(** [cleanTsvOutput(result).split('\n').filter(...)] *)
Definition replyLines (result : string) : list string :=
  List.filter keptLine (split LF (cleanTsvOutput result)).

Section ByIndex.
Context {V : Type}.
Variable value : string → string → V.

(** The loop [for (let i = 0; i < Math.min(lines.length, batch.length); i++)]:
    when the line has three parts, [value parts[1] parts[2]] is stored
    under the text of the row of the batch at the same index. *)
Fixpoint matchByIndex (lines texts : list string) (found : gmap string V)
    : gmap string V :=
  match lines, texts with
  | line :: lines', text :: texts' =>
      matchByIndex lines' texts'
        match split TAB line with
        | _ :: p1 :: p2 :: _ => <[text := value p1 p2]> found
        | _ => found
        end
  | _, _ => found
  end.

(** What both functions do with the outcome of the call. *)
Definition matchReply (generated : Completion string) (texts : list string)
    : Completion (gmap string V * string) :=
  match generated with
  | Normal result => Normal (matchByIndex (replyLines result) texts ∅, result)
  | Throw error => Throw error
  end.

End ByIndex.

Definition explainBatchStanceLabels (generated : Completion string)
    (batch : list LabelledRow) : Completion (gmap string string * string) :=
  matchReply (λ _ explanation, explanation) generated (lr_text <$> batch).

Definition classifyAndExplainBatchStance (generated : Completion string)
    (batch : list string)
    : Completion (gmap string (string * string) * string) :=
  matchReply (λ label explanation, (label, explanation)) generated batch.

(** *** [processBatch] *)

Record BatchRow := mkBatchRow {
  br_rowNumber : nat;
  br_text : string;
  br_humanLabel : option string;
  br_missingColumns : list string
}.

(** The object stored in [results]: each property is present or not. *)
Record Updates := mkUpdates {
  u_humanExplanation : option string;
  u_llmLabel : option string;
  u_llmExplanation : option string
}.

Definition noUpdates : Updates := mkUpdates None None None.

Abbreviation Results := (gmap nat Updates).
Abbreviation Errors := (gmap nat (list string)).

Definition needsExplanation (r : BatchRow) : bool :=
  bool_decide ("human-label-explanation" ∈ br_missingColumns r)
  && truthy (default "" (br_humanLabel r)).

Definition needsClassification (r : BatchRow) : bool :=
  bool_decide ("llm-label" ∈ br_missingColumns r)
  || bool_decide ("llm-label-explanation" ∈ br_missingColumns r).

(** [if (!results.has(n)) results.set(n, {}); results.get(n).p = ...] *)
Definition setUpdate (rowNumber : nat) (assign : Updates → Updates)
    (results : Results) : Results :=
  <[rowNumber := assign (default noUpdates (results !! rowNumber))]> results.

(** [if (!errors.has(n)) errors.set(n, []); errors.get(n).push(msg)] *)
Definition pushError (rowNumber : nat) (msg : string) (errors : Errors)
    : Errors :=
  <[rowNumber := default [] (errors !! rowNumber) ++ [msg]]> errors.

Definition withHumanExplanation (explanation : string) (u : Updates)
    : Updates :=
  mkUpdates (Some explanation) (u_llmLabel u) (u_llmExplanation u).

Definition withClassification (label explanation : string) (u : Updates)
    : Updates :=
  mkUpdates (u_humanExplanation u) (Some label) (Some explanation).

(** [rawResponse.substring(0, 500)] followed by [...] when the response is
    longer. *)
Definition excerpt (rawResponse : string) : string :=
  takeChars 500 rawResponse
  +:+ (if (500 <? String.length rawResponse)%nat then "..." else "").

Definition noExplanation (rawResponse : string) : string :=
  "Failed to get human explanation from batch response. Raw API response: "
  +:+ excerpt rawResponse.

Definition noClassification (rawResponse : string) : string :=
  "Failed to get LLM classification from batch response. Raw API response: "
  +:+ excerpt rawResponse.

Section Batch.
(** [String(error)] for the value thrown by a call. *)
Variable render : Error → string.
Variables generatedE generatedC : Completion string.

Definition explanationsFailed (error : Error) : string :=
  "Failed to generate human explanations batch: " +:+ render error.

Definition classificationsFailed (error : Error) : string :=
  "Failed to generate LLM classifications batch: " +:+ render error.

Definition recordExplanation (explanations : gmap string string)
    (rawResponse : string) (st : Results * Errors) (row : BatchRow)
    : Results * Errors :=
  match explanations !! br_text row with
  | Some explanation =>
      if truthy explanation
      then (setUpdate (br_rowNumber row) (withHumanExplanation explanation)
              st.1, st.2)
      else (st.1, pushError (br_rowNumber row) (noExplanation rawResponse)
                    st.2)
  | None =>
      (st.1, pushError (br_rowNumber row) (noExplanation rawResponse) st.2)
  end.

Definition recordClassification
    (classifications : gmap string (string * string))
    (rawResponse : string) (st : Results * Errors) (row : BatchRow)
    : Results * Errors :=
  match classifications !! br_text row with
  | Some classification =>
      (setUpdate (br_rowNumber row)
         (withClassification classification.1 classification.2) st.1, st.2)
  | None =>
      (st.1, pushError (br_rowNumber row) (noClassification rawResponse)
               st.2)
  end.

Definition recordFailure (msg : string) (st : Results * Errors)
    (row : BatchRow) : Results * Errors :=
  (st.1, pushError (br_rowNumber row) msg st.2).

(** [if (needsHumanExplanation.length > 0) { try { ... } catch { ... } }] *)
Definition explanationStep (batchRows : list BatchRow)
    (st : Results * Errors) : Results * Errors :=
  let needsHumanExplanation := List.filter needsExplanation batchRows in
  match needsHumanExplanation with
  | [] => st
  | _ =>
      let batch :=
        (λ r, mkLabelledRow (br_text r) (default "" (br_humanLabel r)))
          <$> needsHumanExplanation in
      match explainBatchStanceLabels generatedE batch with
      | Normal (explanations, rawResponse) =>
          foldl (recordExplanation explanations rawResponse) st
            needsHumanExplanation
      | Throw error =>
          foldl (recordFailure (explanationsFailed error)) st
            needsHumanExplanation
      end
  end.

(** [if (needsLlmClassification.length > 0) { try { ... } catch { ... } }] *)
Definition classificationStep (batchRows : list BatchRow)
    (st : Results * Errors) : Results * Errors :=
  let needsLlmClassification := List.filter needsClassification batchRows in
  match needsLlmClassification with
  | [] => st
  | _ =>
      let batch := br_text <$> needsLlmClassification in
      match classifyAndExplainBatchStance generatedC batch with
      | Normal (classifications, rawResponse) =>
          foldl (recordClassification classifications rawResponse) st
            needsLlmClassification
      | Throw error =>
          foldl (recordFailure (classificationsFailed error)) st
            needsLlmClassification
      end
  end.

Definition processBatch (batchRows : list BatchRow) : Results * Errors :=
  classificationStep batchRows (explanationStep batchRows (∅, ∅)).

End Batch.

(** *** [updateExcelRow] *)

(** [if (v) { row.getCell(c).value = v; }] on the row that
    [worksheet.getRow(rowNumber)] returns or creates. *)
Definition setValue (rowNumber c : nat) (v : option string) (ws : Worksheet)
    : Worksheet :=
  match v with
  | Some s =>
      if truthy s
      then <[rowNumber := <[c := CString s]> (default ∅ (ws !! rowNumber))]> ws
      else ws
  | None => ws
  end.

(** The result is the worksheet of the workbook written back. *)
Definition updateExcelRow (filePath : string) (worksheet : option Worksheet)
    (rowNumber : nat) (updates : Updates) : Completion (option Worksheet) :=
  match worksheet with
  | None =>
      Throw (mkError (Some "Error") None
               (Some ("No worksheet found in " +:+ filePath)))
  | Some ws =>
      Normal (Some (setValue rowNumber 9 (u_llmExplanation updates)
                      (setValue rowNumber 8 (u_llmLabel updates)
                         (setValue rowNumber 7 (u_humanExplanation updates)
                            ws))))
  end.

(** *** The body of the batch loop of [main] *)

(** [Object.keys(updates).length > 0] *)
Definition hasKeys (u : Updates) : bool :=
  match u with
  | mkUpdates None None None => false
  | _ => true
  end.

(** [value?.toString()?.toLowerCase().trim()] *)
Definition humanLabelOf (v : CellValue) : option string :=
  match v with
  | CNull => None
  | _ => Some (trim (Naming.toLowerCase (cellString v)))
  end.

(** [batch.map(missingRow => ...)]; [worksheet] is the worksheet that
    [main] read before the first batch of the file. *)
Definition batchData (worksheet : Worksheet) (batch : list MissingCellInfo)
    : list BatchRow :=
  (λ missingRow,
     mkBatchRow (mc_rowNumber missingRow) (mc_text missingRow)
       (humanLabelOf (cellAt worksheet (mc_rowNumber missingRow) 3))
       (mc_missingColumns missingRow)) <$> batch.

(** The workbook in the file and the three counters of [main]. *)
Record Progress := mkProgress {
  p_file : option Worksheet;
  totalProcessed : nat;
  totalUpdated : nat;
  totalFailed : nat
}.

(** [for (const missingRow of batch)]: the loop ends early, with the
    error, when [updateExcelRow] throws. *)
Fixpoint updateRows (filePath : string) (results : Results)
    (batch : list MissingCellInfo) (st : Progress) : Progress * option Error :=
  match batch with
  | [] => (st, None)
  | missingRow :: rest =>
      let st1 := mkProgress (p_file st) (totalProcessed st + 1)
                   (totalUpdated st) (totalFailed st) in
      let failed := mkProgress (p_file st1) (totalProcessed st1)
                      (totalUpdated st1) (totalFailed st1 + 1) in
      match results !! mc_rowNumber missingRow with
      | Some updates =>
          if hasKeys updates then
            match updateExcelRow filePath (p_file st1)
                    (mc_rowNumber missingRow) updates with
            | Normal file =>
                updateRows filePath results rest
                  (mkProgress file (totalProcessed st1) (totalUpdated st1 + 1)
                     (totalFailed st1))
            | Throw error => (st1, Some error)
            end
          else updateRows filePath results rest failed
      | None => updateRows filePath results rest failed
      end
  end.

(** [try { processBatch; for ... } catch { totalFailed += batch.length }] *)
Definition retryBatch (render : Error → string)
    (generatedE generatedC : Completion string) (filePath : string)
    (worksheet : Worksheet) (batch : list MissingCellInfo) (st : Progress)
    : Progress :=
  let outcome :=
    processBatch render generatedE generatedC (batchData worksheet batch) in
  match updateRows filePath outcome.1 batch st with
  | (st', None) => st'
  | (st', Some _) =>
      mkProgress (p_file st') (totalProcessed st') (totalUpdated st')
        (totalFailed st' + length batch)
  end.

End RetryRows.

Import JsString Common Parser Js Retry Checkpoint Batching Orchestrator Excel.

(** * Vocabulary of the specification *)

(** The events of attempts [attempt .. retries] when every one of them
    fails with a retryable error. *)
Definition exhaustedTrace (batch retries attempt : nat) : list Event :=
  flat_map (λ k, [Call batch k; Sleep (RETRY_DELAY_MS * k)])
    (seq attempt (retries - attempt)) ++ [Call batch retries].

(** What the loop maintains: the batches are full chunks followed by the
    batch being filled, which [batchIndex] designates. *)
Definition splitInv {A : Type} (size : nat) (rows : list A)
    (st : SplitState A) : Prop :=
  ∃ full cur,
    batches st = full ++ [cur]
    ∧ batchIndex st = length full
    ∧ lineCount st = length cur
    ∧ length cur < size
    ∧ Forall (λ b, length b = size) full
    ∧ concat full ++ cur = rows.

(** The invariant of the checkpoint record stated in the data model. *)
Definition checkpointInv (checkpoint : CheckpointData) : Prop :=
  (∀ i, i ∈ processedBatches checkpoint → i < totalBatches checkpoint)
  ∧ (∀ i, i ∈ processedBatches checkpoint → is_Some (results checkpoint !! i)).

(** The invariant as a test that can be run on a record. *)
Definition checkpointInvb (checkpoint : CheckpointData) : bool :=
  forallb (λ i, (i <? totalBatches checkpoint)
                && bool_decide (is_Some (results checkpoint !! i)))
    (processedBatches checkpoint).

(** [later] has every entry of [earlier]: nothing was removed. *)
Definition extends (earlier later : CheckpointData) : Prop :=
  processedBatches earlier `prefix_of` processedBatches later
  ∧ dom (results earlier) ⊆ dom (results later)
  ∧ totalBatches later = totalBatches earlier.

(** A record found on disk that the current input does not outgrow. *)
Definition usable (loaded : option CheckpointData) (n : nat) : Prop :=
  match loaded with
  | None => True
  | Some checkpoint => checkpointInv checkpoint ∧ n ≤ totalBatches checkpoint
  end.

(** The counts that the specification names, taken over the rows. *)
Definition actualCount (data : list Compare.DataRow) (label : string) : nat :=
  length (filter (λ r, Compare.humanLabel r = label) data).

Definition truePositiveCount (data : list Compare.DataRow) (label : string) : nat :=
  length (filter (λ r, Compare.humanLabel r = label ∧ Compare.llmLabel r = label) data).

Definition falsePositiveCount (data : list Compare.DataRow) (label : string) : nat :=
  length (filter (λ r, Compare.humanLabel r ≠ label ∧ Compare.llmLabel r = label) data).

Definition correctCount (data : list Compare.DataRow) : nat :=
  length (filter (λ r, Compare.humanLabel r = Compare.llmLabel r) data).

(** The labels seen as actual or as predicted. *)
Definition labelSeen (data : list Compare.DataRow) (label : string) : Prop :=
  label ∈ (Compare.humanLabel <$> data) ∨ label ∈ (Compare.llmLabel <$> data).

(** The contribution of one row of the confusion matrix to the false
    positives of [label]. *)
Definition fpOfRow (label actualLabel : string)
    (matrixRow : gmap string Compare.Cell) : nat :=
  if decide (actualLabel ≠ label)
  then Compare.cellCount (matrixRow !! label) else 0.

(** A data set on which [calculateAccuracy] updates no built-in object: no
    human label names a member of [Object.prototype], and no predicted label
    is [__proto__]. *)
Definition plainRun (data : list Compare.DataRow) : Prop :=
  ∀ row, row ∈ data →
    Compare.inherited (Compare.humanLabel row) = false
    ∧ Compare.llmLabel row ≠ "__proto__".

(** The rows of the first set whose text is also in the second set, and
    those among them on which the two predicted labels are identical. *)
Definition jointRows (model1Data model2Data : list Compare.DataRow)
    : list Compare.DataRow :=
  filter (λ r, Compare.text r ∈ (Compare.text <$> model2Data)) model1Data.

Definition agreeingRows (model1Data model2Data : list Compare.DataRow)
    : list Compare.DataRow :=
  filter (λ r, (Compare.text r, Compare.llmLabel r)
               ∈ ((λ r2, (Compare.text r2, Compare.llmLabel r2)) <$> model2Data))
    model1Data.

(** Whether the code unit [c] occurs in [s]. *)
Fixpoint hasChar (c : ascii) (s : string) : bool :=
  match s with
  | EmptyString => false
  | String c' s' => Ascii.eqb c' c || hasChar c s'
  end.

(** A line that the parser does not skip: it does not begin with [text]
    and is not blank. *)
Definition isDataLine (line : string) : bool :=
  negb (startsWith "text" line) && truthy (trim line).

(** The lines wrapped in a fenced code block. *)
Definition wrapInFence (lines : list string) : string :=
  "```tsv" +:+ String LF (join LF lines +:+ String LF "```").

(** The result that the shared record holds for batch [i] at the end of
    a run that started from the record [start]: the text of the call made
    in this run, if one was made and returned, and otherwise what [start]
    held. *)
Definition resultAfterRun (generateText : nat → nat → Completion string)
    (start : CheckpointData) (i : nat) : option string :=
  if isProcessed start i then results start !! i
  else match generateText i 1 with
       | Normal text => Some text
       | Throw _ => results start !! i
       end.

(** A result that [if (result) allResults.push(result)] keeps. *)
Definition keepNonEmpty (result : option string) : option string :=
  result ≫= λ text, if truthy text then Some text else None.


Definition returning (generateText : nat → nat → Completion string)
    (l : list nat) : list nat :=
  filter (λ i, isNormal (generateText i 1) = true) l.

(** A field that holds neither a tab nor a line feed. *)
Definition cleanField (field : string) : Prop :=
  hasChar TAB field = false ∧ hasChar LF field = false.

(** A row written as a line of tab-separated values, the format that the
    prompts ask for. *)
Definition tsvLine (row : Classification) : string :=
  c_text row +:+ String TAB (c_label row +:+ String TAB (c_explanation row)).

(** A row that its line can carry: its fields are clean and the line is
    one that the parser does not skip. *)
Definition carriedByLine (row : Classification) : Prop :=
  cleanField (c_text row) ∧ cleanField (c_label row)
  ∧ cleanField (c_explanation row) ∧ isDataLine (tsvLine row) = true.

(** The explanation row that a classification row projects to. *)
Definition explanationOf (row : Classification) : Explanation :=
  mkExplanation (c_text row) (c_explanation row).

(** The value of a cell once the explanations and the classifications
    have been merged into the worksheet [ws]: the three header cells, and in
    a body row that has values the explanation and the classification of
    the last result whose trimmed text is the trimmed text of the row. *)
Definition mergedCell (ws : Worksheet) (explanations : list Explanation)
    (classifications : list Classification) (r c : nat) : CellValue :=
  let row := default ∅ (ws !! r) in
  if decide (r = 1 ∧ c = 7) then CString "human_label_explanation"
  else if decide (r = 1 ∧ c = 8) then CString "llm_label"
  else if decide (r = 1 ∧ c = 9) then CString "llm_label_explanation"
  else if decide (1 < r ∧ hasValues row = true) then
    if decide (c = 7) then
      match lastWithKey e_text (keyOfRow row) explanations with
      | Some item =>
          if truthy (e_explanation item) then CString (e_explanation item)
          else cellAt ws r c
      | None => cellAt ws r c
      end
    else if decide (c = 8) then
      match lastWithKey c_text (keyOfRow row) classifications with
      | Some item => CString (c_label item)
      | None => cellAt ws r c
      end
    else if decide (c = 9) then
      match lastWithKey c_text (keyOfRow row) classifications with
      | Some item => CString (c_explanation item)
      | None => cellAt ws r c
      end
    else cellAt ws r c
  else cellAt ws r c.

(** The number of rows with the actual label [a] and the predicted label
    [p]. *)
Definition pairCount (data : list Compare.DataRow) (a p : string) : nat :=
  length (filter (λ r, Compare.humanLabel r = a ∧ Compare.llmLabel r = p) data).

(** The own property [confusionMatrix[a][p]], if there is one. *)
Definition matrixCell (matrix : gmap string (gmap string Compare.Cell))
    (a p : string) : option Compare.Cell :=
  matrix !! a ≫= (λ matrixRow, matrixRow !! p).

(** The cell for a predicted label [p] that was counted [k] times into a
    row of the matrix. A label that is not inherited has no cell before it
    is counted, and then its count. For the name of a method of
    [Object.prototype] the first increment is that of the method and stores
    [NaN], which the next round replaces by 0 before counting: the cell is
    one short. *)
Definition expectedCell (p : string) (k : nat) : option Compare.Cell :=
  match k with
  | 0 => None
  | S k' =>
      if Compare.isMethod p
      then match k' with
           | 0 => Some Compare.NaN
           | S _ => Some (Compare.Count k')
           end
      else Some (Compare.Count k)
  end.

(** The last row of [data] whose text is [k]. *)
Definition lastRowOf (k : string) (data : list Compare.DataRow)
    : option Compare.DataRow :=
  last (filter (λ r, Compare.text r = k) data).

(** The value that [dataMap] holds for the text [k]: the human label and
    the label of the first model come from the last row of the first set
    with that text, the label of the second model from the last row of the
    second set with that text. (A text of the first set always has such a
    row in the first set; the other case is never used.) *)
Definition entryFor (model1Data model2Data : list Compare.DataRow) (k : string)
    : Compare.Entry :=
  let r2 := lastRowOf k model2Data in
  match lastRowOf k model1Data with
  | Some r1 =>
      Compare.mkEntry (Compare.humanLabel r1) (Some (Compare.llmLabel r1))
        (Compare.llmExplanation r1) (Compare.llmLabel <$> r2)
        (r2 ≫= Compare.llmExplanation)
  | None =>
      Compare.mkEntry "" None None (Compare.llmLabel <$> r2)
        (r2 ≫= Compare.llmExplanation)
  end.

(** The reply of a model that answers every text of the batch with one
    line of tab-separated values, in the order of the batch. *)
Definition replyTo (answers : list Classification) : string :=
  join LF (tsvLine <$> answers).


(** The line by which a model that echoes the text and the human label
    explains the label. *)
Definition explainedBy (why : Reading.LabelledRow → string)
    (row : Reading.LabelledRow) : Classification :=
  mkClassification (Reading.lr_text row) (Reading.lr_label row) (why row).

(** The answers that the lines of a reply give by position: the text of
    the row at the index of the line, with the value read off the second
    and third part of the line, for every line with three parts. *)
Definition answersByPosition {V : Type} (value : string → string → V)
    (lines texts : list string) : list (string * V) :=
  omap (λ p, match split TAB p.1 with
             | _ :: p1 :: p2 :: _ => Some (p.2, value p1 p2)
             | _ => None
             end) (zip lines texts).

(** The answer on a line, if it has three parts. *)
Definition answerOnLine (line : string) : option (string * string) :=
  match split TAB line with
  | _ :: p1 :: p2 :: _ => Some (p1, p2)
  | _ => None
  end.

(** The value that a cell holds after [updateExcelRow] wrote the updates
    into its row. *)
Definition writtenCell (u : RetryRows.Updates) (c : nat) (old : CellValue)
    : CellValue :=
  let pick v := match v with
                | Some s => if truthy s then CString s else old
                | None => old
                end in
  if decide (c = 7) then pick (RetryRows.u_humanExplanation u)
  else if decide (c = 8) then pick (RetryRows.u_llmLabel u)
  else if decide (c = 9) then pick (RetryRows.u_llmExplanation u)
  else old.

(** What [processBatch] does for a row that needs something: it stores an
    explanation that is not empty, or a classification, or it records an
    error message. *)
Inductive rowEffect (row : RetryRows.BatchRow)
    (st : RetryRows.Results * RetryRows.Errors)
    : RetryRows.Results * RetryRows.Errors → Prop :=
| StoresExplanation (s : string) :
    s ≠ "" → RetryRows.needsExplanation row = true →
    rowEffect row st
      (RetryRows.setUpdate (RetryRows.br_rowNumber row)
         (RetryRows.withHumanExplanation s) st.1, st.2)
| StoresClassification (label explanation : string) :
    RetryRows.needsClassification row = true →
    rowEffect row st
      (RetryRows.setUpdate (RetryRows.br_rowNumber row)
         (RetryRows.withClassification label explanation) st.1, st.2)
| RecordsError (msg : string) :
    rowEffect row st
      (st.1, RetryRows.pushError (RetryRows.br_rowNumber row) msg st.2).

(** The updates stored for the row number [n] stem from rows of the batch
    that needed them. *)
Definition soundUpdates (rows : list RetryRows.BatchRow) (n : nat)
    (u : RetryRows.Updates) : Prop :=
  RetryRows.hasKeys u = true
  ∧ (∀ s, RetryRows.u_humanExplanation u = Some s →
       s ≠ ""
       ∧ ∃ row, row ∈ rows ∧ RetryRows.br_rowNumber row = n
           ∧ RetryRows.needsExplanation row = true)
  ∧ (is_Some (RetryRows.u_llmLabel u)
     ↔ is_Some (RetryRows.u_llmExplanation u))
  ∧ (is_Some (RetryRows.u_llmLabel u) →
       ∃ row, row ∈ rows ∧ RetryRows.br_rowNumber row = n
         ∧ RetryRows.needsClassification row = true).

(** A thrown value that the [catch] block of the retry wrapper handles:
    neither of its two throw sites is reached. *)
Definition catchCompletes (error : Thrown) : Prop :=
  testsRaise error = None ∧ logRaises error = None.

(** The [TypeError] that leaves the [catch] block, if one does: that of the
    declaration of [isRetryable], or else that of the log line. *)
Definition catchRaises (error : Thrown) : option Error :=
  match testsRaise error with
  | Some raised => Some raised
  | None => logRaises error
  end.

(** * Inputs used in the examples *)

Definition always503 (_ : nat) : Completion string :=
  Throw (mkError (Some "APICallError") None (Some "HTTP 503 Service Unavailable")).

Definition stamp (k : nat) : string := "2025-01-01T00:00:00.000Z".

Definition threeAnswers (b a : nat) : Completion string :=
  Normal (match b with
          | 0 => "t0" +:+ String TAB "for" +:+ String TAB "e0"
          | 1 => "t1" +:+ String TAB "against" +:+ String TAB "e1"
          | _ => "t2" +:+ String TAB "for" +:+ String TAB "e2"
          end).

Definition twoDone : CheckpointData :=
  {| processedBatches := [1; 0];
     results := <[1 := "t1" +:+ String TAB "against" +:+ String TAB "e1"]>
                  (<[0 := "t0" +:+ String TAB "for" +:+ String TAB "e0"]> ∅);
     target := "lula";
     language := "portuguese";
     action := classify;
     totalBatches := 3;
     modelType := "gpt-5";
     lastUpdated := stamp 0 |}.

Definition rateLimited : Error :=
  mkError (Some "AI_APICallError") None (Some "429: rate limit exceeded").

(** The first call for a batch hits the rate limit; a second call would
    return. *)
Definition flaky (b a : nat) : Completion string :=
  if decide (a = 1) then Throw rateLimited
  else Normal ("hello" +:+ String TAB "for" +:+ String TAB "explains X").

Definition always (text : string) (b a : nat) : Completion string := Normal text.

Definition syntaxError : Error :=
  mkError (Some "SyntaxError") None (Some "Unexpected token in JSON").

(** [JSON.parse] on the few documents used below. *)
Definition parseFragment (data : string) : Completion JsonValue :=
  if decide (data = "{}") then Normal (JObject [])
  else if decide (data = "[]") then Normal (JArray [])
  else if decide (data = "null") then Normal JNull
  else if decide (data = "42") then Normal (JNumber 42)
  else Throw syntaxError.

Definition diskWith (content : string) : gmap string FsEntry :=
  {[ "dataset/checkpoints/checkpoint-gpt-5-lula-explain-train.json"
     := RegularFile content ]}.

Definition sheetRow (cells : list (nat * CellValue)) : gmap nat CellValue :=
  list_to_map cells.

Definition exampleSheet : gmap nat (gmap nat CellValue) :=
  list_to_map
    [(1, sheetRow [(1, CString "text"); (3, CString "label")]);
     (2, sheetRow [(1, CString " hello "); (3, CString "for"); (7, CString "old")]);
     (3, sheetRow [(1, CString "bye"); (3, CString "against"); (5, COther "17")])].

Definition exampleExplanations : list Explanation :=
  [mkExplanation "hello" "first"; mkExplanation "other" "x";
   mkExplanation "hello  " "second"].

Definition pairRow (actual predicted : string) : Compare.DataRow :=
  Compare.mkDataRow (actual +:+ "/" +:+ predicted) actual None predicted None.

(** The rows [(A,A), (A,B), (B,B), (B,B)]. *)
Definition fourRows : list Compare.DataRow :=
  [pairRow "A" "A"; pairRow "A" "B"; pairRow "B" "B"; pairRow "B" "B"].

(** The rows [(for, constructor), (for, for)]. *)
Definition inheritedRows : list Compare.DataRow :=
  [pairRow "for" "constructor"; pairRow "for" "for"].

Definition labelled (text label : string) : Compare.DataRow :=
  Compare.mkDataRow text "for" None label None.

Definition modelA : list Compare.DataRow :=
  [labelled "tweet a" "for"; labelled "tweet b" "for"].

Definition modelB : list Compare.DataRow :=
  [labelled "tweet a" "for"].

(** Ten texts present in both sets, the labels agreeing on seven. *)
Definition tenTexts : list string :=
  ["t0"; "t1"; "t2"; "t3"; "t4"; "t5"; "t6"; "t7"; "t8"; "t9"].

Definition headerLine : string :=
  "text" +:+ String TAB "label" +:+ String TAB "explanation".

(** The first call hits the rate limit, the second one fails for good. *)
Definition rateLimitedThenFatal (a : nat) : Completion string :=
  if decide (a = 1) then Throw rateLimited else Throw syntaxError.

(** A reply that holds no row. *)
Definition refusal : string := "I cannot help with that.".

(** Batch 1 fails, the other batches are answered; batch 0 is answered
    with a reply that holds no row. *)
Definition secondFails (b a : nat) : Completion string :=
  match b with
  | 0 => Normal refusal
  | 1 => Throw rateLimited
  | _ => Normal ("t2" +:+ String TAB "for" +:+ String TAB "e2")
  end.

Definition twoRowSheet : gmap nat (gmap nat CellValue) :=
  list_to_map
    [(1, sheetRow [(1, CString "text"); (3, CString "label")]);
     (2, sheetRow [(1, CString "hello"); (3, CString "for")]);
     (3, sheetRow [(1, CString "bye"); (3, CString "against")])].




Definition becauseOfLabel (row : Reading.LabelledRow) : string :=
  "because " +:+ Reading.lr_label row.

(** A model that explains the two labels of [twoRowSheet], whatever the
    batch. *)
Definition explaining (b a : nat) : Completion string :=
  Normal (replyTo [explainedBy becauseOfLabel (Reading.mkLabelledRow "hello" "for");
                   explainedBy becauseOfLabel (Reading.mkLabelledRow "bye" "against")]).

(** The report of the missing cells of [twoRowSheet]. *)
Definition twoRowMissing : list Reading.MissingCellInfo :=
  [Reading.mkMissingCellInfo 2 "hello"
     ["human-label-explanation"; "llm-label"; "llm-label-explanation"];
   Reading.mkMissingCellInfo 3 "bye"
     ["human-label-explanation"; "llm-label"; "llm-label-explanation"]].

Definition twoRowReport : Reading.FileReport :=
  Reading.mkFileReport "processed-gpt-5-lula-test.xlsx" 2 2 twoRowMissing.

(** A reply with one line per row, where the model wrote other texts than
    the ones it was given. *)
Definition twoLines : string :=
  "x" +:+ String TAB "for" +:+ String TAB "why hello" +:+ String LF ""
  +:+ "y" +:+ String TAB "against" +:+ String TAB "why bye".

Definition renderName (error : Error) : string :=
  default "Error" (err_name error).

(** The [TypeError]s of the engine for reading a property of [undefined],
    for calling a method that a number does not have, and for converting a
    symbol to a string. *)
Definition nullRead : Error :=
  mkError (Some "TypeError") None
    (Some "undefined is not an object (evaluating 'error.message')").

Definition notCallable : Error :=
  mkError (Some "TypeError") None
    (Some "error?.message?.includes is not a function").

Definition notConvertible : Error :=
  mkError (Some "TypeError") None
    (Some "Cannot convert a symbol to a string").

(** A rejection with [undefined]; with an error whose [message] is the
    number 503; and with a timeout whose [message] is a symbol. *)
Definition rejectedWithUndefined : Thrown := Nullish nullRead.

Definition numericMessage : Thrown :=
  Value (Some "Error") None (OtherMessage (λ _, Throw notCallable)) None.

Definition symbolMessage : Thrown :=
  Value (Some "TimeoutError") None (OtherMessage (λ _, Throw notCallable))
    (Some notConvertible).

(** * Properties *)

(** ** Retryable call wrapper *)

Lemma thrownError_completes (error : Error) : catchCompletes error.
Proof.
  split; [|done]. unfold testsRaise, includesRaises, messageIncludes.
  destruct (isTimeout error); [done|].
  cbn. destruct (err_message error) as [m|]; [|done].
  by destruct (includes "rate limit" m).
Qed.

Section RetryFacts.
Variable batch : nat.
Variable generate : nat → Attempt.

(** One iteration of the loop whose call is rejected with a value that the
    [catch] block handles. *)
Lemma retryLoop_rejected retries fuel attempt error :
  attempt ≤ retries → generate attempt = Rejects error →
  catchCompletes error →
  retryLoop batch generate retries (S fuel) attempt
  = if isRetryable error && (attempt <? retries)%nat
    then ((retryLoop batch generate retries fuel (S attempt)).1,
          Call batch attempt :: Sleep (RETRY_DELAY_MS * attempt)
          :: (retryLoop batch generate retries fuel (S attempt)).2)
    else (Normal None, [Call batch attempt]).
Proof.
  intros Hle Hgen [Htests Hlog]. cbn [retryLoop].
  destruct (Nat.leb_spec attempt retries) as [_|]; [|lia].
  rewrite Hgen, Htests, Hlog.
  destruct (isRetryable error && (attempt <? retries)%nat); [|done].
  by destruct (retryLoop batch generate retries fuel (S attempt)).
Qed.

Lemma retryLoop_normal retries fuel attempt :
  (∀ a e, generate a = Rejects e → catchCompletes e) →
  ∃ r, (retryLoop batch generate retries fuel attempt).1 = Normal r.
Proof.
  intros Hcatch. revert attempt. induction fuel as [|fuel IH]; intros attempt.
  - cbn. destruct (attempt <=? retries)%nat; eauto.
  - destruct (Nat.leb_spec attempt retries) as [Hle|Hgt].
    2:{ cbn [retryLoop]. destruct (Nat.leb_spec attempt retries); [lia|eauto]. }
    destruct (generate attempt) as [text|error] eqn:Hgen.
    { cbn [retryLoop]. destruct (Nat.leb_spec attempt retries); [|lia].
      rewrite Hgen. eauto. }
    rewrite (retryLoop_rejected _ _ _ error) by eauto.
    destruct (isRetryable error && (attempt <? retries)%nat); [|eauto].
    apply IH.
Qed.

Hypothesis always_retryable :
  ∀ a, ∃ e, generate a = Rejects e ∧ isRetryable e = true ∧ catchCompletes e.

Lemma retryLoop_exhausted retries fuel attempt :
  attempt ≤ retries → retries - attempt < fuel →
  retryLoop batch generate retries fuel attempt
  = (Normal None, exhaustedTrace batch retries attempt).
Proof.
  revert attempt. induction fuel as [|fuel IH]; intros attempt Hle Hfuel; [lia|].
  destruct (always_retryable attempt) as (e & Hgen & He & Hcatch).
  rewrite (retryLoop_rejected _ _ _ e) by done.
  rewrite He. cbn [andb].
  destruct (Nat.ltb_spec attempt retries) as [Hlt|Hge].
  - rewrite IH by lia. unfold exhaustedTrace.
    replace (retries - attempt) with (S (retries - S attempt)) by lia.
    reflexivity.
  - assert (attempt = retries) as -> by lia.
    unfold exhaustedTrace. by rewrite Nat.sub_diag.
Qed.

Lemma callsOf_exhausted retries attempt :
  callsOf (exhaustedTrace batch retries attempt)
  = (λ a, (batch, a)) <$> (seq attempt (retries - attempt) ++ [retries]).
Proof.
  unfold exhaustedTrace, callsOf. rewrite omap_app, fmap_app. f_equal.
  induction (seq attempt (retries - attempt)) as [|k l IH]; [done|].
  cbn. f_equal. exact IH.
Qed.

Lemma sleepsOf_exhausted retries attempt :
  sleepsOf (exhaustedTrace batch retries attempt)
  = (λ k, RETRY_DELAY_MS * k) <$> seq attempt (retries - attempt).
Proof.
  unfold exhaustedTrace, sleepsOf. rewrite omap_app. simpl.
  rewrite app_nil_r.
  induction (seq attempt (retries - attempt)) as [|k l IH]; [done|].
  cbn. f_equal. exact IH.
Qed.

End RetryFacts.

Lemma sum_list_scaled (c : nat) (l : list nat) :
  sum_list ((λ k, c * k) <$> l) = c * sum_list l.
Proof. induction l as [|k l IH]; cbn; [lia|]. rewrite IH. lia. Qed.

Lemma sum_first_naturals (n : nat) :
  2 * sum_list (seq 1 n) = n * (n + 1).
Proof.
  induction n as [|n IH]; [done|].
  rewrite seq_S, sum_list_with_app. simpl. lia.
Qed.

(** C5 (failing input). The first call is rejected with [undefined] (or
    [null]). The tests of the [catch] block, written with [error?.], give
    "not retryable"; the log line of the [else] branch then reads
    [error.message] and the engine raises a [TypeError], which leaves the
    [catch] block and the wrapper: one call has been made, nothing is
    returned, no further attempt is made, and the caller receives the
    [TypeError]. The same happens at the declaration of [isRetryable] for
    an error whose [message] is a number, and at the log line of the
    retrying branch for a timeout whose [message] is a symbol. *)
Theorem retry_throws_on_null_rejection :
  let run := processBatchWithRetry 0 (λ _, Rejects rejectedWithUndefined)
               MAX_RETRIES in
  let odd := processBatchWithRetry 0 (λ _, Rejects numericMessage)
               MAX_RETRIES in
  let timeout := processBatchWithRetry 0 (λ _, Rejects symbolMessage)
                   MAX_RETRIES in
  isRetryable rejectedWithUndefined = false
  ∧ run.1 = Throw nullRead
  ∧ run.1 ≠ Normal None
  ∧ run.2 = [Call 0 1]
  ∧ odd.1 = Throw notCallable
  ∧ odd.2 = [Call 0 1]
  ∧ isRetryable symbolMessage = true
  ∧ timeout.1 = Throw notConvertible
  ∧ timeout.2 = [Call 0 1].
Proof. cbv zeta. split_and!; try (vm_compute; reflexivity). discriminate. Qed.

(** X29. A call whose every attempt raises a retryable error gives [null]
    after exactly [maxAttempts] attempts (numbered 1 to [maxAttempts]); it
    sleeps [RETRY_DELAY_MS · k] after attempt [k] for [k < maxAttempts] and
    before attempt [k + 1], in total
    [RETRY_DELAY_MS · (1 + 2 + ... + (maxAttempts - 1))], with
    [RETRY_DELAY_MS = 2000]. A retryable error is a value for which
    [isRetryable] is true and on which the [catch] block does not throw.
    Whatever the attempts do, the wrapper completes normally instead of
    throwing as long as the [catch] block throws on no value rejected:
    none is [null] or [undefined], the calls of [includes] that are made
    on [message] return, and the value logged converts to a string; the
    error objects with a [name] and a [message] that are strings or absent
    are such values. *)
Theorem retry_exhaustion (batch maxAttempts : nat)
    (generate : nat → Attempt) :
  1 ≤ maxAttempts →
  (∀ a, ∃ e, generate a = Rejects e ∧ isRetryable e = true
             ∧ catchCompletes e) →
  let run := processBatchWithRetry batch generate maxAttempts in
  run.1 = Normal None
  ∧ run.2 = exhaustedTrace batch maxAttempts 1
  ∧ callsOf run.2 = (λ a, (batch, a)) <$> seq 1 maxAttempts
  ∧ length (callsOf run.2) = maxAttempts
  ∧ sleepsOf run.2 = (λ k, RETRY_DELAY_MS * k) <$> seq 1 (maxAttempts - 1)
  ∧ totalSleep run.2 = RETRY_DELAY_MS * sum_list (seq 1 (maxAttempts - 1))
  ∧ 2 * sum_list (seq 1 (maxAttempts - 1)) = (maxAttempts - 1) * maxAttempts
  ∧ RETRY_DELAY_MS = 2000
  ∧ (∀ b g n, (∀ a e, g a = Rejects e → catchCompletes e) →
       ∃ r, (processBatchWithRetry b g n).1 = Normal r)
  ∧ (∀ b (g : nat → Completion string) n,
       ∃ r, (processBatchWithRetry b (attemptOf ∘ g) n).1 = Normal r).
Proof.
  intros Hpos Hall run. subst run. unfold processBatchWithRetry.
  rewrite (retryLoop_exhausted batch generate Hall) by lia. cbn [fst snd].
  replace (maxAttempts - 1 - 0) with (maxAttempts - 1) by lia.
  rewrite callsOf_exhausted. unfold totalSleep. rewrite sleepsOf_exhausted.
  rewrite sum_list_scaled.
  replace (seq 1 (maxAttempts - 1) ++ [maxAttempts]) with (seq 1 maxAttempts).
  2:{ replace maxAttempts with (S (maxAttempts - 1)) at 1 by lia.
      rewrite seq_S. do 2 f_equal. lia. }
  repeat split; try done.
  - by rewrite length_fmap, length_seq.
  - rewrite sum_first_naturals. f_equal. lia.
  - intros b g n Hcatch. by apply retryLoop_normal.
  - intros b g n. apply retryLoop_normal. intros a e. unfold compose.
    destruct (g a) as [text|error]; [done|]. intros [= <-].
    apply thrownError_completes.
Qed.

Lemma retry_exhaustion_witness :
  let run := processBatchWithRetry 0 (attemptOf ∘ always503) MAX_RETRIES in
  run.1 = Normal None
  ∧ run.2 = exhaustedTrace 0 MAX_RETRIES 1
  ∧ callsOf run.2 = (λ a, (0, a)) <$> seq 1 MAX_RETRIES
  ∧ length (callsOf run.2) = MAX_RETRIES
  ∧ sleepsOf run.2 = (λ k, RETRY_DELAY_MS * k) <$> seq 1 (MAX_RETRIES - 1)
  ∧ totalSleep run.2 = RETRY_DELAY_MS * sum_list (seq 1 (MAX_RETRIES - 1))
  ∧ 2 * sum_list (seq 1 (MAX_RETRIES - 1)) = (MAX_RETRIES - 1) * MAX_RETRIES
  ∧ RETRY_DELAY_MS = 2000
  ∧ (∀ b g n, (∀ a e, g a = Rejects e → catchCompletes e) →
       ∃ r, (processBatchWithRetry b g n).1 = Normal r)
  ∧ (∀ b (g : nat → Completion string) n,
       ∃ r, (processBatchWithRetry b (attemptOf ∘ g) n).1 = Normal r).
Proof.
  apply (retry_exhaustion 0 MAX_RETRIES (attemptOf ∘ always503)).
  - unfold MAX_RETRIES. lia.
  - intros a. eexists. split; [reflexivity|].
    split; [vm_compute; reflexivity|apply thrownError_completes].
Defined.

Example retry_default_trace :
  (processBatchWithRetry 0 (attemptOf ∘ always503) MAX_RETRIES).2
  = [Call 0 1; Sleep 2000; Call 0 2; Sleep 4000; Call 0 3].
Proof. reflexivity. Qed.

(** ** Batch splitter *)

Section SplitterFacts.
Context {A : Type}.
Variable size : nat.
Hypothesis size_pos : 0 < size.

Lemma splitInv_step (rows : list A) (st : SplitState A) (row : A) :
  splitInv size rows st → splitInv size (rows ++ [row]) (splitStep size st row).
Proof.
  intros (full & cur & Hb & Hi & Hc & Hlt & Hfull & Hrows).
  assert (alter (λ b, b ++ [row]) (batchIndex st) (batches st)
          = full ++ [cur ++ [row]]) as Halter.
  { rewrite Hb, Hi. rewrite alter_app_r_alt by done.
    by rewrite Nat.sub_diag. }
  unfold splitStep. rewrite Halter, Hc.
  destruct (decide (S (length cur) = size)) as [Heq|Hne].
  - exists (full ++ [cur ++ [row]]), []. cbn.
    repeat split; try done.
    + rewrite length_app. cbn. lia.
    + apply Forall_app. split; [done|].
      apply Forall_singleton. rewrite length_app. cbn. lia.
    + rewrite concat_app. cbn. rewrite !app_nil_r, <- Hrows.
      by rewrite app_assoc.
  - exists full, (cur ++ [row]). cbn.
    repeat split; try done.
    + rewrite length_app. cbn. lia.
    + rewrite length_app. cbn. lia.
    + by rewrite app_assoc, Hrows.
Qed.

Lemma splitInv_fold (rows : list A) :
  splitInv size rows (foldl (splitStep size) splitInit rows).
Proof.
  induction rows as [|row rows IH] using rev_ind.
  - exists [], []. cbn. repeat split; done.
  - rewrite foldl_app. cbn. by apply splitInv_step.
Qed.

Lemma length_concat_uniform (full : list (list A)) :
  Forall (λ b, length b = size) full →
  length (concat full) = length full * size.
Proof.
  induction 1 as [|b full Hb _ IH]; cbn; [done|].
  rewrite length_app, IH, Hb. lia.
Qed.

Lemma slice_of_chunks (full : list (list A)) (rest : list A) (i : nat) (b : list A) :
  Forall (λ b, length b = size) full →
  full !! i = Some b →
  slice size (concat full ++ rest) i = b.
Proof.
  unfold slice. intros Hfull. revert i.
  induction Hfull as [|b0 full Hb0 _ IH]; intros i Hi; [done|].
  destruct i as [|i]; cbn [concat].
  - injection Hi as <-. rewrite Nat.mul_0_l, drop_0, <- app_assoc.
    by rewrite take_app_length'.
  - rewrite <- app_assoc.
    replace (S i * size) with (length b0 + i * size) by lia.
    rewrite drop_app_add. by apply IH.
Qed.

(** The splitter makes [N / size + 1] batches, and batch [i] holds the rows
    in positions [[i·size, min((i+1)·size, N))]. *)
Lemma createBatches_length (rows : list A) :
  length (createBatches size rows) = length rows / size + 1.
Proof.
  unfold createBatches.
  destruct (splitInv_fold rows) as (full & cur & -> & _ & _ & Hlt & Hfull & <-).
  rewrite !length_app, length_concat_uniform by done. cbn.
  f_equal. apply Nat.div_unique with (length cur); lia.
Qed.

Lemma createBatches_lookup (rows : list A) (i : nat) :
  i < length (createBatches size rows) →
  createBatches size rows !! i = Some (slice size rows i).
Proof.
  unfold createBatches.
  destruct (splitInv_fold rows) as (full & cur & -> & _ & _ & Hlt & Hfull & <-).
  rewrite length_app. cbn. intros Hi.
  destruct (decide (i < length full)) as [Hin|Hout].
  - rewrite lookup_app_l by done.
    destruct (lookup_lt_is_Some_2 full i Hin) as [b Hb].
    rewrite Hb. f_equal. symmetry. by apply slice_of_chunks.
  - assert (i = length full) as -> by lia.
    rewrite lookup_app_r, Nat.sub_diag by done. cbn. f_equal.
    unfold slice. rewrite <- (length_concat_uniform full) by done.
    rewrite drop_app_length. symmetry. apply take_ge. lia.
Qed.

(** When the rows fill their batches exactly, an empty batch follows the
    last full one. *)
Lemma createBatches_exact_multiple (rows : list A) (k : nat) :
  length rows = k * size →
  length (createBatches size rows) = k + 1
  ∧ createBatches size rows !! k = Some [].
Proof.
  intros Hlen.
  assert (length (createBatches size rows) = k + 1) as Hk.
  { rewrite createBatches_length, Hlen, Nat.div_mul by lia. done. }
  split; [done|].
  rewrite createBatches_lookup by lia. f_equal.
  unfold slice. rewrite drop_ge by lia. by rewrite take_nil.
Qed.

End SplitterFacts.

Lemma ceilDiv_exact_multiple (k size : nat) :
  0 < size → ceilDiv (k * size) size = k.
Proof.
  intros Hpos. unfold ceilDiv.
  symmetry. apply Nat.div_unique with (size - 1); lia.
Qed.

(** C2 (failing input). For 100 rows and the batch size 100 the splitter
    makes two batches, the rows and an empty batch, where [ceil(N / B)] is
    one; for no rows it makes one empty batch where [ceil(N / B)] is zero. *)
Theorem createBatches_full_batch_count {A : Type} (row : A) :
  length (createBatches BATCH_SIZE (replicate 100 row)) = 2
  ∧ createBatches BATCH_SIZE (replicate 100 row) = [replicate 100 row; []]
  ∧ ceilDiv 100 BATCH_SIZE = 1
  ∧ createBatches BATCH_SIZE (@nil A) = [[]]
  ∧ ceilDiv 0 BATCH_SIZE = 0.
Proof. repeat split; vm_compute; reflexivity. Qed.

(** ** Checkpoint store and batch orchestrator *)

Lemma checkpointInvb_spec checkpoint :
  checkpointInv checkpoint ↔ checkpointInvb checkpoint = true.
Proof.
  unfold checkpointInv, checkpointInvb. rewrite forallb_forall. split.
  - intros [Hsub Hres] i Hi. apply list_elem_of_In in Hi.
    apply andb_true_iff. split.
    + apply Nat.ltb_lt. by apply Hsub.
    + apply bool_decide_eq_true. by apply Hres.
  - intros Hall. split; intros i Hi; apply list_elem_of_In, Hall in Hi;
      apply andb_true_iff in Hi as [Hlt Hres].
    + by apply Nat.ltb_lt.
    + by apply bool_decide_eq_true in Hres.
Qed.

Lemma extends_refl checkpoint : extends checkpoint checkpoint.
Proof. by repeat split. Qed.

Lemma extends_trans a b c : extends a b → extends b c → extends a c.
Proof.
  intros (Hp1 & Hd1 & Ht1) (Hp2 & Hd2 & Ht2). repeat split.
  - by etrans.
  - by etrans.
  - congruence.
Qed.

Lemma saveBatchResult_extends now i r checkpoint :
  extends checkpoint (saveBatchResult now i r checkpoint).
Proof.
  repeat split; cbn.
  - by apply prefix_app_r.
  - rewrite dom_insert. set_solver.
Qed.

Lemma saveBatchResult_inv now i r checkpoint :
  checkpointInv checkpoint → i < totalBatches checkpoint →
  checkpointInv (saveBatchResult now i r checkpoint).
Proof.
  intros [Hsub Hres] Hi. split; cbn; intros j Hj.
  - apply elem_of_app in Hj as [Hj|Hj]; [by apply Hsub|].
    apply list_elem_of_singleton in Hj as ->. done.
  - destruct (decide (i = j)) as [->|Hne].
    + rewrite lookup_insert_eq. by eexists.
    + rewrite lookup_insert_ne by done.
      apply elem_of_app in Hj as [Hj|Hj]; [by apply Hres|].
      apply list_elem_of_singleton in Hj. congruence.
Qed.

(** Whatever the index saved, it is recorded as processed with its
    result, the other results are untouched, and every processed index that
    had a result still has one. *)
Lemma saveBatchResult_backed now i r checkpoint :
  let saved := saveBatchResult now i r checkpoint in
  i ∈ processedBatches saved
  ∧ results saved !! i = Some r
  ∧ (∀ j, j ≠ i → results saved !! j = results checkpoint !! j)
  ∧ ((∀ j, j ∈ processedBatches checkpoint →
        is_Some (results checkpoint !! j)) →
     ∀ j, j ∈ processedBatches saved → is_Some (results saved !! j)).
Proof.
  cbn. split_and!.
  - apply elem_of_app. right. apply list_elem_of_here.
  - apply lookup_insert_eq.
  - intros j Hj. by apply lookup_insert_ne.
  - intros Hres j Hj. destruct (decide (i = j)) as [->|Hne].
    + rewrite lookup_insert_eq. by eexists.
    + rewrite lookup_insert_ne by done.
      apply elem_of_app in Hj as [Hj|Hj]; [by apply Hres|].
      apply list_elem_of_singleton in Hj. congruence.
Qed.

Lemma newCheckpoint_inv act tgt lang mt clock n :
  checkpointInv (newCheckpoint act tgt lang mt clock n).
Proof. split; cbn; intros i Hi; by apply elem_of_nil in Hi. Qed.

Lemma collect_ext (a b : CheckpointData) n :
  (∀ i, i < n → results a !! i = results b !! i) →
  collect a n = collect b n.
Proof.
  intros Hagree. unfold collect.
  assert (Forall (λ i, i < n) (seq 0 n)) as Hseq.
  { apply Forall_forall. intros i Hi. apply elem_of_seq in Hi. lia. }
  induction Hseq as [|i l Hi _ IH]; [done|].
  cbn. by rewrite Hagree, IH.
Qed.

Lemma pending_spec checkpoint n i :
  i ∈ pending checkpoint n ↔ i < n ∧ i ∉ processedBatches checkpoint.
Proof.
  unfold pending, isProcessed. rewrite list_elem_of_filter, elem_of_seq.
  rewrite bool_decide_eq_false. intuition lia.
Qed.

Section OrchestratorFacts.
Variable clock : nat → string.
Variable generateText : nat → nat → Completion string.

Abbreviation complete' := (complete clock generateText).

Lemma complete_results st i j :
  results (complete' st i).1 !! j
  = match generateText i 1 with
    | Normal text => if decide (i = j) then Some text else results st.1 !! j
    | Throw _ => results st.1 !! j
    end.
Proof.
  unfold complete. destruct (generateText i 1) as [text|e]; [|done]. cbn.
  destruct (decide (i = j)) as [->|Hne].
  - by rewrite lookup_insert_eq.
  - by rewrite lookup_insert_ne.
Qed.

(** The results held by the shared record once the calls of [order] have
    ended. *)
Lemma results_after_completions order st j :
  results (foldl complete' st order).1 !! j
  = match generateText j 1 with
    | Normal text => if decide (j ∈ order) then Some text else results st.1 !! j
    | Throw _ => results st.1 !! j
    end.
Proof.
  revert st. induction order as [|i order IH]; intros st; cbn [foldl].
  - destruct (generateText j 1); [|done].
    by rewrite decide_False by apply not_elem_of_nil.
  - rewrite IH, complete_results.
    destruct (decide (i = j)) as [->|Hne].
    + destruct (generateText j 1) as [text|e]; [|done].
      rewrite (decide_True (P := j ∈ j :: order)) by left.
      by destruct (decide (j ∈ order)).
    + assert (j ∈ i :: order ↔ j ∈ order) as Hiff.
      { rewrite elem_of_cons. intuition congruence. }
      destruct (generateText j 1) as [text|e];
        destruct (generateText i 1) as [text'|e']; try done;
        destruct (decide (j ∈ order)) as [Hin|Hnin];
        destruct (decide (j ∈ i :: order)); tauto || done.
Qed.

(** The indices recorded as processed once the calls of [order] have
    ended: those whose call returned a text, in the order of completion. *)
Lemma processed_after_completions order st :
  processedBatches (foldl complete' st order).1
  = processedBatches st.1
    ++ filter (λ i, isNormal (generateText i 1) = true) order.
Proof.
  revert st. induction order as [|i order IH]; intros st; cbn [foldl].
  - by rewrite filter_nil, app_nil_r.
  - rewrite IH, filter_cons. unfold complete.
    destruct (generateText i 1) as [text|e] eqn:Hgen; cbn.
    + rewrite decide_True by done. by rewrite <- app_assoc.
    + by rewrite decide_False.
Qed.

(** Every record written during a run keeps the invariant and is extended
    by the records written after it, provided the indices completed are
    below [totalBatches]. *)
Lemma completions_keep_inv order st :
  checkpointInv st.1 → Forall checkpointInv st.2 →
  Forall (λ w, extends w st.1) st.2 →
  Forall (λ i, i < totalBatches st.1) order →
  let st' := foldl complete' st order in
  checkpointInv st'.1 ∧ Forall checkpointInv st'.2
  ∧ Forall (λ w, extends w st'.1) st'.2 ∧ extends st.1 st'.1.
Proof.
  revert st. induction order as [|i order IH]; intros st Hinv Hall Hext Hlt;
    cbn [foldl].
  { split_and!; done || apply extends_refl. }
  apply Forall_cons in Hlt as [Hi Hlt].
  destruct (generateText i 1) as [text|e] eqn:Hgen.
  - set (cp' := saveBatchResult (clock (length st.2)) i text st.1).
    assert (complete' st i = (cp', st.2 ++ [cp'])) as ->.
    { unfold complete. by rewrite Hgen. }
    destruct (IH (cp', st.2 ++ [cp'])) as (H1 & H2 & H3 & H4); cbn [fst snd].
    + by apply saveBatchResult_inv.
    + apply Forall_app. split; [done|].
      apply Forall_singleton. by apply saveBatchResult_inv.
    + apply Forall_app. split.
      * eapply Forall_impl; [exact Hext|]. intros w Hw.
        eapply extends_trans; [exact Hw|]. apply saveBatchResult_extends.
      * apply Forall_singleton, extends_refl.
    + done.
    + split_and!; try done.
      eapply extends_trans; [|exact H4]. apply saveBatchResult_extends.
  - assert (complete' st i = st) as ->.
    { unfold complete. by rewrite Hgen. }
    by apply IH.
Qed.

End OrchestratorFacts.

Lemma pending_after_two (checkpoint : CheckpointData) :
  (∀ i, i ∈ processedBatches checkpoint ↔ i = 0 ∨ i = 1) →
  pending checkpoint 3 = [2].
Proof.
  intros Hproc. unfold pending, isProcessed. cbn [seq].
  rewrite !filter_cons, filter_nil.
  rewrite (bool_decide_eq_true_2 (0 ∈ processedBatches checkpoint)) by (apply Hproc; auto).
  rewrite (bool_decide_eq_true_2 (1 ∈ processedBatches checkpoint)) by (apply Hproc; auto).
  rewrite (bool_decide_eq_false_2 (2 ∈ processedBatches checkpoint)).
  - done.
  - intros H2. apply Hproc in H2. lia.
Qed.

(** C3. With three batches and a checkpoint that records batches 0 and 1
    with their raw texts, a run issues exactly one call, for batch 2; the
    promises of batches 0 and 1 resolve, as skipped, to the stored texts, and
    no batch fails; the raw texts aggregated are the two stored texts
    followed by the text of the call (those that are not empty), the output
    is what the parser reads off them, and both are those of a run from
    scratch in which the three calls return the same texts; this holds for
    every order in which the calls complete. *)
Theorem idempotent_resume {Row R : Type} (mk : string → string → string → R)
    (act : Action) (tgt lang mt : string) (clock clock0 : nat → string)
    (generateText : nat → nat → Completion string)
    (checkpoint : CheckpointData) (dataRows : list Row)
    (order order0 : list nat) (r0 r1 r2 : string) :
  length (createBatches BATCH_SIZE dataRows) = 3 →
  (∀ i, i ∈ processedBatches checkpoint ↔ i = 0 ∨ i = 1) →
  results checkpoint !! 0 = Some r0 →
  results checkpoint !! 1 = Some r1 →
  generateText 0 1 = Normal r0 →
  generateText 1 1 = Normal r1 →
  generateText 2 1 = Normal r2 →
  order ≡ₚ pending checkpoint 3 →
  order0 ≡ₚ [0; 1; 2] →
  let resumed :=
    runBatches mk act tgt lang mt clock generateText (Some checkpoint)
      dataRows order in
  let scratch :=
    runBatches mk act tgt lang mt clock0 generateText None dataRows order0 in
  callsOf (o_trace resumed) = [(2, 1)]
  ∧ callsOf (o_trace scratch) = [(0, 1); (1, 1); (2, 1)]
  ∧ o_failed scratch = 0
  ∧ o_failed resumed = 0
  ∧ o_batchResults resumed
    = [mkBatchResult 0 (Some r0) true; mkBatchResult 1 (Some r1) true;
       mkBatchResult 2 (Some r2) false]
  ∧ o_allResults resumed = filter (λ r, truthy r = true) [r0; r1; r2]
  ∧ o_output resumed = parseAll mk (filter (λ r, truthy r = true) [r0; r1; r2])
  ∧ o_allResults resumed = o_allResults scratch
  ∧ o_output resumed = o_output scratch.
Proof.
  intros Hlen Hproc H0 H1 G0 G1 G2 Horder Horder0 resumed scratch.
  rewrite (pending_after_two _ Hproc) in Horder.
  apply Permutation_singleton_r in Horder as ->.
  assert (o_allResults resumed = o_allResults scratch) as Hall.
  { subst resumed scratch. unfold runBatches. cbn [o_allResults].
    rewrite Hlen. apply collect_ext. intros i Hi.
    rewrite !results_after_completions. cbn [initCheckpoint fst].
    assert (∀ j, j < 3 → j ∈ order0) as Hin0.
    { intros j Hj. rewrite Horder0, !elem_of_cons. lia. }
    assert (i = 0 ∨ i = 1 ∨ i = 2) as [->|[->| ->]] by lia.
    - rewrite G0, H0, (decide_True (P := 0 ∈ order0)) by auto.
      by rewrite decide_False by (rewrite list_elem_of_singleton; lia).
    - rewrite G1, H1, (decide_True (P := 1 ∈ order0)) by auto.
      by rewrite decide_False by (rewrite list_elem_of_singleton; lia).
    - rewrite G2, (decide_True (P := 2 ∈ order0)) by auto.
      by rewrite decide_True by (by apply list_elem_of_singleton). }
  assert (o_batchResults resumed
          = [mkBatchResult 0 (Some r0) true; mkBatchResult 1 (Some r1) true;
             mkBatchResult 2 (Some r2) false]) as Hbatches.
  { subst resumed. unfold runBatches. cbn [o_batchResults]. rewrite Hlen.
    cbn [seq fmap list_fmap initCheckpoint fst]. unfold batchResult, isProcessed.
    rewrite (bool_decide_eq_true_2 (0 ∈ _)) by (apply Hproc; auto).
    rewrite (bool_decide_eq_true_2 (1 ∈ _)) by (apply Hproc; auto).
    rewrite (bool_decide_eq_false_2 (2 ∈ _)) by (rewrite Hproc; lia).
    by rewrite H0, H1, G2. }
  assert (o_allResults resumed = filter (λ r, truthy r = true) [r0; r1; r2])
    as Hstored.
  { subst resumed. unfold runBatches. cbn [o_allResults]. rewrite Hlen.
    unfold collect. cbn [seq omap list_omap].
    rewrite !results_after_completions. cbn [initCheckpoint fst].
    rewrite G0, G1, G2, H0, H1.
    rewrite !(decide_False (P := _ ∈ [2]))
      by (rewrite list_elem_of_singleton; lia).
    rewrite (decide_True (P := 2 ∈ [2])) by apply list_elem_of_here.
    rewrite !filter_cons, filter_nil.
    destruct (truthy r0), (truthy r1), (truthy r2);
      repeat (rewrite decide_True by done || rewrite decide_False by done);
      reflexivity. }
  split_and!.
  - subst resumed. unfold runBatches. cbn [o_trace]. rewrite Hlen.
    cbn [initCheckpoint fst]. by rewrite (pending_after_two _ Hproc).
  - subst scratch. unfold runBatches. cbn [o_trace]. by rewrite Hlen.
  - subst scratch. unfold runBatches. cbn [o_failed o_batchResults].
    rewrite Hlen. cbn [seq fmap list_fmap initCheckpoint fst].
    unfold batchResult, isProcessed. cbn [newCheckpoint processedBatches].
    rewrite !bool_decide_eq_false_2 by apply not_elem_of_nil.
    by rewrite G0, G1, G2.
  - assert (o_failed resumed
            = length (filter (λ r, isFailed r = true) (o_batchResults resumed)))
      as -> by done.
    by rewrite Hbatches.
  - exact Hbatches.
  - exact Hstored.
  - subst resumed. unfold runBatches in *. cbn [o_output o_allResults] in *.
    by rewrite Hstored.
  - exact Hall.
  - subst resumed scratch. unfold runBatches in *. cbn [o_output o_allResults] in *.
    by rewrite Hall.
Qed.

Lemma idempotent_resume_witness :
  let resumed :=
    classifyAndExplainStance "lula" "portuguese" "gpt-5" stamp threeAnswers
      (Some twoDone) (replicate 250 "tweet") [2] in
  let scratch :=
    classifyAndExplainStance "lula" "portuguese" "gpt-5" stamp threeAnswers
      None (replicate 250 "tweet") [1; 2; 0] in
  callsOf (o_trace resumed) = [(2, 1)]
  ∧ callsOf (o_trace scratch) = [(0, 1); (1, 1); (2, 1)]
  ∧ o_failed scratch = 0
  ∧ o_failed resumed = 0
  ∧ o_batchResults resumed
    = [mkBatchResult 0 (Some ("t0" +:+ String TAB "for" +:+ String TAB "e0"))
         true;
       mkBatchResult 1
         (Some ("t1" +:+ String TAB "against" +:+ String TAB "e1")) true;
       mkBatchResult 2 (Some ("t2" +:+ String TAB "for" +:+ String TAB "e2"))
         false]
  ∧ o_allResults resumed
    = filter (λ r, truthy r = true)
        ["t0" +:+ String TAB "for" +:+ String TAB "e0";
         "t1" +:+ String TAB "against" +:+ String TAB "e1";
         "t2" +:+ String TAB "for" +:+ String TAB "e2"]
  ∧ o_output resumed
    = parseAll mkClass
        (filter (λ r, truthy r = true)
           ["t0" +:+ String TAB "for" +:+ String TAB "e0";
            "t1" +:+ String TAB "against" +:+ String TAB "e1";
            "t2" +:+ String TAB "for" +:+ String TAB "e2"])
  ∧ o_allResults resumed = o_allResults scratch
  ∧ o_output resumed = o_output scratch.
Proof.
  apply (idempotent_resume mkClass classify "lula" "portuguese" "gpt-5" stamp
           stamp threeAnswers twoDone (replicate 250 "tweet") [2] [1; 2; 0]
           ("t0" +:+ String TAB "for" +:+ String TAB "e0")
           ("t1" +:+ String TAB "against" +:+ String TAB "e1")
           ("t2" +:+ String TAB "for" +:+ String TAB "e2")).
  - vm_compute. reflexivity.
  - intros i. cbn. rewrite !elem_of_cons, elem_of_nil. lia.
  - vm_compute. reflexivity.
  - vm_compute. reflexivity.
  - reflexivity.
  - reflexivity.
  - reflexivity.
  - vm_compute. reflexivity.
  - symmetry. apply (Permutation_cons_append [1; 2] 0).
Defined.

Example resumed_output :
  o_output (classifyAndExplainStance "lula" "portuguese" "gpt-5" stamp
              threeAnswers (Some twoDone) (replicate 250 "tweet") [2])
  = [mkClassification "t0" "for" "e0"; mkClassification "t1" "against" "e1";
     mkClassification "t2" "for" "e2"].
Proof. vm_compute. reflexivity. Qed.






(** C8 (as amended). The record that a run creates satisfies the
    invariant; [saveBatchResult] never removes an entry and, whatever the
    index saved, records it with its result and keeps every processed index
    backed by a result; it keeps [processedBatches] within
    [{0 .. totalBatches-1}] when the index saved is below [totalBatches],
    which it does not check. Hence every record written by
    a run that created its record, or that resumed from a record which
    satisfies the invariant and whose [totalBatches] is not below the
    current number of batches, satisfies the invariant, and each written
    record is extended by the later ones. *)
Theorem written_records_keep_invariant {Row R : Type}
    (mk : string → string → string → R) (act : Action) (tgt lang mt : string)
    (clock : nat → string) (generateText : nat → nat → Completion string)
    (loaded : option CheckpointData) (dataRows : list Row) (order : list nat) :
  let n := length (createBatches BATCH_SIZE dataRows) in
  let start := (initCheckpoint act tgt lang mt clock loaded n).1 in
  usable loaded n →
  order ≡ₚ pending start n →
  let out := runBatches mk act tgt lang mt clock generateText loaded dataRows order in
  Forall checkpointInv (o_written out)
  ∧ checkpointInv (o_checkpoint out)
  ∧ Forall (λ w, extends w (o_checkpoint out)) (o_written out)
  ∧ extends start (o_checkpoint out)
  ∧ checkpointInv (newCheckpoint act tgt lang mt clock n)
  ∧ (∀ now i r checkpoint, extends checkpoint (saveBatchResult now i r checkpoint))
  ∧ (∀ now i r checkpoint,
       let saved := saveBatchResult now i r checkpoint in
       i ∈ processedBatches saved
       ∧ results saved !! i = Some r
       ∧ (∀ j, j ≠ i → results saved !! j = results checkpoint !! j)
       ∧ ((∀ j, j ∈ processedBatches checkpoint →
             is_Some (results checkpoint !! j)) →
          ∀ j, j ∈ processedBatches saved → is_Some (results saved !! j)))
  ∧ (∀ now i r checkpoint,
       checkpointInv checkpoint → i < totalBatches checkpoint →
       checkpointInv (saveBatchResult now i r checkpoint)).
Proof.
  intros n start Husable Horder out.
  assert (checkpointInv start ∧ n ≤ totalBatches start
          ∧ Forall checkpointInv (initCheckpoint act tgt lang mt clock loaded n).2
          ∧ Forall (λ w, extends w start)
              (initCheckpoint act tgt lang mt clock loaded n).2)
    as (Hinv & Hn & Hw & Hext).
  { subst start. destruct loaded as [checkpoint|]; cbn in *.
    - destruct Husable. split_and!; done || constructor.
    - split_and!.
      + apply newCheckpoint_inv.
      + done.
      + apply Forall_singleton, newCheckpoint_inv.
      + apply Forall_singleton, extends_refl. }
  assert (Forall (λ i, i < totalBatches start) order) as Hlt.
  { apply Forall_forall. intros i Hi. rewrite Horder in Hi.
    apply pending_spec in Hi. lia. }
  destruct (completions_keep_inv clock generateText order
              (initCheckpoint act tgt lang mt clock loaded n))
    as (H1 & H2 & H3 & H4); try done.
  split_and!; try done.
  - apply newCheckpoint_inv.
  - intros. apply saveBatchResult_extends.
  - intros. apply saveBatchResult_backed.
  - intros. by apply saveBatchResult_inv.
Qed.

Lemma written_records_keep_invariant_witness :
  let loaded := Some twoDone in
  let dataRows := replicate 250 "tweet" in
  let out := classifyAndExplainStance "lula" "portuguese" "gpt-5" stamp
               threeAnswers loaded dataRows [2] in
  Forall checkpointInv (o_written out)
  ∧ checkpointInv (o_checkpoint out)
  ∧ Forall (λ w, extends w (o_checkpoint out)) (o_written out)
  ∧ extends twoDone (o_checkpoint out)
  ∧ checkpointInv (newCheckpoint classify "lula" "portuguese" "gpt-5" stamp 3)
  ∧ (∀ now i r checkpoint, extends checkpoint (saveBatchResult now i r checkpoint))
  ∧ (∀ now i r checkpoint,
       let saved := saveBatchResult now i r checkpoint in
       i ∈ processedBatches saved
       ∧ results saved !! i = Some r
       ∧ (∀ j, j ≠ i → results saved !! j = results checkpoint !! j)
       ∧ ((∀ j, j ∈ processedBatches checkpoint →
             is_Some (results checkpoint !! j)) →
          ∀ j, j ∈ processedBatches saved → is_Some (results saved !! j)))
  ∧ (∀ now i r checkpoint,
       checkpointInv checkpoint → i < totalBatches checkpoint →
       checkpointInv (saveBatchResult now i r checkpoint)).
Proof.
  apply (written_records_keep_invariant mkClass classify "lula" "portuguese"
           "gpt-5" stamp threeAnswers (Some twoDone) (replicate 250 "tweet") [2]).
  - split.
    + apply checkpointInvb_spec. vm_compute. reflexivity.
    + vm_compute. lia.
  - vm_compute. reflexivity.
Defined.

(** C8 (counterexample). A first run over 50 rows creates the record with
    [totalBatches = 1] and completes batch 0. The input then grows to 150
    rows, that is two batches; the second run loads the record, which it
    does not compare with the current number of batches, calls the model
    for batch 1 and writes a record whose [processedBatches] holds 1 while
    its [totalBatches] is still 1; every processed index of that record has
    its result. *)
Lemma stale_checkpoint_breaks_invariant :
  let first := explainStanceLabels "lula" "portuguese" "gpt-5" stamp
                 (always "ok") None (replicate 50 ("tweet", "for")) [0] in
  let second := explainStanceLabels "lula" "portuguese" "gpt-5" stamp
                  (always "ok") (Some (o_checkpoint first))
                  (replicate 150 ("tweet", "for")) [1] in
  forallb checkpointInvb (o_written first) = true
  ∧ [1] ≡ₚ pending (o_checkpoint first) 2
  ∧ ∃ record, record ∈ o_written second
      ∧ processedBatches record = [0; 1]
      ∧ totalBatches record = 1
      ∧ (∀ j, j ∈ processedBatches record → is_Some (results record !! j))
      ∧ ¬ checkpointInv record.
Proof.
  cbv zeta. split_and!.
  - vm_compute. reflexivity.
  - vm_compute. reflexivity.
  - eexists. split_and!.
    + match goal with
      | |- _ ∈ ?l =>
          let v := eval vm_compute in l in
          change l with v
      end.
      apply list_elem_of_singleton. reflexivity.
    + reflexivity.
    + reflexivity.
    + intros j Hj. change (j ∈ [0; 1]) in Hj.
      rewrite !elem_of_cons, elem_of_nil in Hj.
      destruct Hj as [->|[->|[]]]; vm_compute; eexists; reflexivity.
    + intros [Hsub _]. specialize (Hsub 1). cbn in Hsub.
      assert (1 < 1) by (apply Hsub; rewrite !elem_of_cons; auto). lia.
Qed.

(** ** Loading a checkpoint *)

(** C9 (as amended). [loadCheckpoint] never throws. It returns [null] when
    the file does not exist, when reading it throws and when its content
    does not parse. Content that parses is returned as it is (the JSON value
    [null] being the [null] of "no checkpoint"): the value is given the type
    [CheckpointData] by assertion and its shape is not examined. *)
Theorem loadCheckpoint_fails_soft (JSON_parse : string → Completion JsonValue)
    (fs : gmap string FsEntry) (checkpointPath : string) :
  let loaded := loadCheckpoint JSON_parse fs checkpointPath in
  (∃ r, loaded = Normal r)
  ∧ (fs !! checkpointPath = None → loaded = Normal None)
  ∧ (∀ e, fs !! checkpointPath = Some (Unreadable e) → loaded = Normal None)
  ∧ (∀ content e, fs !! checkpointPath = Some (RegularFile content) →
       JSON_parse content = Throw e → loaded = Normal None)
  ∧ (∀ content v, fs !! checkpointPath = Some (RegularFile content) →
       JSON_parse content = Normal v →
       loaded = Normal (match v with JNull => None | _ => Some v end)).
Proof.
  intros loaded. subst loaded. unfold loadCheckpoint, existsSync, readFileSync.
  destruct (fs !! checkpointPath) as [[content|e]|] eqn:Hfs.
  - rewrite bool_decide_eq_true_2 by eauto. cbn.
    split_and!; try done.
    + destruct (JSON_parse content) as [[]|]; cbn; eauto.
    + intros content' e [= <-] ->. done.
    + intros content' v [= <-] ->. by destruct v.
  - rewrite bool_decide_eq_true_2 by eauto. cbn.
    split_and!; try done. eauto.
  - rewrite bool_decide_eq_false_2 by (by intros [? ?]). cbn.
    split_and!; try done. eauto.
Qed.

Lemma loadCheckpoint_fails_soft_witness :
  let loaded :=
    loadCheckpoint parseFragment (diskWith "{ not json")
      "dataset/checkpoints/checkpoint-gpt-5-lula-explain-train.json" in
  (∃ r, loaded = Normal r) ∧ loaded = Normal None.
Proof.
  pose proof (loadCheckpoint_fails_soft parseFragment (diskWith "{ not json")
    "dataset/checkpoints/checkpoint-gpt-5-lula-explain-train.json")
    as (Hnormal & _ & _ & Hparse & _).
  split; [exact Hnormal|].
  apply (Hparse "{ not json" syntaxError); vm_compute; reflexivity.
Defined.

(** C9 (counterexample). A checkpoint file that holds the JSON document
    [{}] parses; [loadCheckpoint] returns the empty object, which has none
    of the fields of a checkpoint record. *)
Lemma unshaped_checkpoint_is_returned :
  loadCheckpoint parseFragment (diskWith "{}")
    "dataset/checkpoints/checkpoint-gpt-5-lula-explain-train.json"
  = Normal (Some (JObject []))
  ∧ hasCheckpointShape (JObject []) = false
  ∧ loadCheckpoint parseFragment (diskWith "42")
      "dataset/checkpoints/checkpoint-gpt-5-lula-explain-train.json"
    = Normal (Some (JNumber 42))
  ∧ hasCheckpointShape (JNumber 42) = false.
Proof. split_and!; vm_compute; reflexivity. Qed.

(** ** Spreadsheet merge *)

Lemma lastWithKey_snoc {T : Type} (text : T → string) key items item :
  lastWithKey text key (items ++ [item])
  = if decide (trim (text item) = key) then Some item
    else lastWithKey text key items.
Proof.
  unfold lastWithKey. rewrite filter_app, filter_cons, filter_nil.
  destruct (decide (trim (text item) = key)).
  - apply last_snoc.
  - by rewrite app_nil_r.
Qed.

Lemma lastWithKey_Some {T : Type} (text : T → string) key items item :
  lastWithKey text key items = Some item →
  item ∈ items ∧ trim (text item) = key.
Proof.
  unfold lastWithKey. intros Hlast. apply last_Some_elem_of in Hlast.
  by apply list_elem_of_filter in Hlast as [? ?].
Qed.

Lemma explanationMap_lookup explanations key :
  explanationMap explanations !! key
  = e_explanation <$> lastWithKey e_text key explanations.
Proof.
  unfold explanationMap.
  induction explanations as [|item items IH] using rev_ind; [done|].
  rewrite foldl_app, lastWithKey_snoc. cbn [foldl].
  destruct (decide (trim (e_text item) = key)) as [->|Hne].
  - by rewrite lookup_insert_eq.
  - by rewrite lookup_insert_ne.
Qed.

Lemma classificationMap_lookup classifications key :
  classificationMap classifications !! key
  = (λ item, (c_label item, c_explanation item))
    <$> lastWithKey c_text key classifications.
Proof.
  unfold classificationMap.
  induction classifications as [|item items IH] using rev_ind; [done|].
  rewrite foldl_app, lastWithKey_snoc. cbn [foldl].
  destruct (decide (trim (c_text item) = key)) as [->|Hne].
  - by rewrite lookup_insert_eq.
  - by rewrite lookup_insert_ne.
Qed.

Lemma hasValues_empty : hasValues ∅ = false.
Proof.
  unfold hasValues. rewrite bool_decide_eq_true_2; [done|].
  apply map_Forall_empty.
Qed.

Lemma cellAt_eachRow callback (ws : Worksheet) r c :
  cellAt (eachRow callback ws) r c
  = let row := default ∅ (ws !! r) in
    getCell (if hasValues row then callback row r else row) c.
Proof.
  unfold cellAt, eachRow. rewrite map_lookup_imap.
  destruct (ws !! r) as [row|]; cbn; [done|].
  by rewrite hasValues_empty.
Qed.

Lemma cellAt_setHeader c title (ws : Worksheet) r c' :
  cellAt (setHeader c title ws) r c'
  = if decide (r = 1 ∧ c' = c) then CString title else cellAt ws r c'.
Proof.
  unfold cellAt, setHeader, getCell.
  destruct (decide (r = 1)) as [->|Hr].
  - rewrite lookup_insert_eq. cbn.
    destruct (decide (c' = c)) as [->|Hc].
    + rewrite lookup_insert_eq. by rewrite decide_True.
    + rewrite lookup_insert_ne by done. by rewrite decide_False by tauto.
  - rewrite lookup_insert_ne by done. by rewrite decide_False by tauto.
Qed.

Lemma row_setHeader_ne c title (ws : Worksheet) r :
  r ≠ 1 → setHeader c title ws !! r = ws !! r.
Proof. intros Hr. unfold setHeader. by rewrite lookup_insert_ne. Qed.

Lemma getCell_insert (row : RowCells) c v c' :
  getCell (<[c := v]> row) c' = if decide (c' = c) then v else getCell row c'.
Proof.
  unfold getCell. destruct (decide (c' = c)) as [->|Hne].
  - by rewrite lookup_insert_eq.
  - by rewrite lookup_insert_ne.
Qed.

(** What [updateExcelWithExplanations] leaves in each cell. *)
Lemma explanations_cell (ws : Worksheet) explanations r c :
  cellAt (eachRow (explainRow (explanationMap explanations))
            (setHeader 7 "human_label_explanation" ws)) r c
  = if decide (r = 1 ∧ c = 7) then CString "human_label_explanation"
    else
      let row := default ∅ (ws !! r) in
      match lastWithKey e_text (keyOfRow row) explanations with
      | Some item =>
          if decide (1 < r ∧ c = 7 ∧ hasValues row = true
                     ∧ truthy (e_explanation item) = true)
          then CString (e_explanation item) else cellAt ws r c
      | None => cellAt ws r c
      end.
Proof.
  rewrite cellAt_eachRow. cbv zeta.
  destruct (decide (r = 1)) as [->|Hr].
  - unfold explainRow. rewrite decide_False by lia.
    rewrite Tauto.if_same.
    pose proof (cellAt_setHeader 7 "human_label_explanation" ws 1 c) as Hh.
    unfold cellAt in Hh. rewrite Hh.
    destruct (decide (1 = 1 ∧ c = 7)); [done|].
    destruct (lastWithKey _ _ _); [|done].
    by rewrite decide_False by lia.
  - rewrite row_setHeader_ne by done. rewrite decide_False by tauto.
    unfold explainRow. rewrite explanationMap_lookup. fold (cellAt ws r c).
    destruct (lastWithKey e_text _ explanations) as [item|]; cbn.
    2:{ by destruct (hasValues _), (decide (1 < r)). }
    destruct (hasValues (default ∅ (ws !! r))) eqn:Hv.
    2:{ by rewrite decide_False by (intros (_ & _ & ? & _); done). }
    destruct (decide (1 < r)) as [Hlt|Hnlt].
    2:{ by rewrite decide_False by tauto. }
    destruct (truthy (e_explanation item)) eqn:Ht.
    2:{ by rewrite decide_False by (intros (_ & _ & _ & ?); done). }
    rewrite getCell_insert.
    destruct (decide (c = 7)) as [->|Hc].
    + by rewrite decide_True.
    + by rewrite decide_False by tauto.
Qed.

(** What [updateExcelWithClassifications] leaves in each cell. *)
Lemma classifications_cell (ws : Worksheet) classifications r c :
  cellAt (eachRow (classifyRow (classificationMap classifications))
            (setHeader 9 "llm_label_explanation" (setHeader 8 "llm_label" ws)))
    r c
  = if decide (r = 1 ∧ c = 8) then CString "llm_label"
    else if decide (r = 1 ∧ c = 9) then CString "llm_label_explanation"
    else
      let row := default ∅ (ws !! r) in
      match lastWithKey c_text (keyOfRow row) classifications with
      | Some item =>
          if decide (1 < r ∧ hasValues row = true ∧ c = 8)
          then CString (c_label item)
          else if decide (1 < r ∧ hasValues row = true ∧ c = 9)
          then CString (c_explanation item)
          else cellAt ws r c
      | None => cellAt ws r c
      end.
Proof.
  rewrite cellAt_eachRow. cbv zeta.
  destruct (decide (r = 1)) as [->|Hr].
  - unfold classifyRow. rewrite decide_False by lia.
    rewrite Tauto.if_same.
    pose proof (cellAt_setHeader 9 "llm_label_explanation"
                  (setHeader 8 "llm_label" ws) 1 c) as Hh.
    unfold cellAt in Hh at 1. rewrite Hh, cellAt_setHeader.
    destruct (decide (1 = 1 ∧ c = 8)) as [[_ ->]|H8].
    + by rewrite decide_False by lia.
    + destruct (decide (1 = 1 ∧ c = 9)); [done|].
      destruct (lastWithKey _ _ _); [|done].
      by rewrite !decide_False by lia.
  - rewrite !row_setHeader_ne by done. rewrite !decide_False by tauto.
    unfold classifyRow. rewrite classificationMap_lookup. fold (cellAt ws r c).
    destruct (lastWithKey c_text _ classifications) as [item|]; cbn.
    2:{ by destruct (hasValues _), (decide (1 < r)). }
    destruct (hasValues (default ∅ (ws !! r))) eqn:Hv.
    2:{ by rewrite !decide_False by (intros (_ & ? & _); done). }
    destruct (decide (1 < r)) as [Hlt|Hnlt].
    2:{ by rewrite !decide_False by tauto. }
    rewrite !getCell_insert.
    destruct (decide (c = 9)) as [->|H9].
    + rewrite decide_False by lia. by rewrite decide_True.
    + destruct (decide (c = 8)) as [->|H8].
      * by rewrite decide_True.
      * by rewrite !decide_False by tauto.
Qed.

(** C10. The merge step writes the designated cells only. After
    [updateExcelWithExplanations] a cell differs from the input only if it
    is in column 7, and then either in the header row or in a body row whose
    trimmed column-1 text is the trimmed text of some result, the cell
    holding the explanation of the last such result. After
    [updateExcelWithClassifications] a cell differs only if it is in column
    8 or 9, and then either in the header row or in a body row matched in
    the same way, whose columns 8 and 9 hold the label and the explanation
    of the last matching result. Every other cell is carried over, and a
    workbook without a first worksheet is left as it is. *)
Theorem merge_writes_only_designated_cells (ws : Worksheet)
    (explanations : list Explanation) (classifications : list Classification) :
  updateExcelWithExplanations None explanations = None
  ∧ updateExcelWithClassifications None classifications = None
  ∧ (∃ out, updateExcelWithExplanations (Some ws) explanations = Some out
       ∧ cellAt out 1 7 = CString "human_label_explanation"
       ∧ ∀ r c, cellAt out r c ≠ cellAt ws r c →
           c = 7
           ∧ (r = 1
              ∨ (1 < r
                 ∧ ∃ item,
                     lastWithKey e_text (keyOfRow (default ∅ (ws !! r)))
                       explanations = Some item
                     ∧ item ∈ explanations
                     ∧ trim (e_text item) = keyOfRow (default ∅ (ws !! r))
                     ∧ cellAt out r 7 = CString (e_explanation item))))
  ∧ (∃ out, updateExcelWithClassifications (Some ws) classifications = Some out
       ∧ cellAt out 1 8 = CString "llm_label"
       ∧ cellAt out 1 9 = CString "llm_label_explanation"
       ∧ ∀ r c, cellAt out r c ≠ cellAt ws r c →
           (c = 8 ∨ c = 9)
           ∧ (r = 1
              ∨ (1 < r
                 ∧ ∃ item,
                     lastWithKey c_text (keyOfRow (default ∅ (ws !! r)))
                       classifications = Some item
                     ∧ item ∈ classifications
                     ∧ trim (c_text item) = keyOfRow (default ∅ (ws !! r))
                     ∧ cellAt out r 8 = CString (c_label item)
                     ∧ cellAt out r 9 = CString (c_explanation item)))).
Proof.
  split_and!; try done.
  - eexists. split; [reflexivity|]. split.
    { rewrite explanations_cell. by rewrite decide_True. }
    intros r c. rewrite !explanations_cell. cbv zeta.
    destruct (decide (r = 1 ∧ c = 7)) as [[-> ->]|Hhead]; [by auto|].
    destruct (lastWithKey e_text _ explanations) as [item|] eqn:Hlast; [|done].
    destruct (decide (1 < r ∧ c = 7 ∧ _ ∧ _)) as [(Hr & -> & Hv & Ht)|]; [|done].
    intros _. split; [done|]. right. split; [done|].
    exists item. destruct (lastWithKey_Some _ _ _ _ Hlast) as [Hin Hkey].
    split_and!; try done.
    rewrite decide_False by lia. by rewrite decide_True.
  - eexists. split; [reflexivity|]. split_and!.
    { rewrite classifications_cell. by rewrite decide_True. }
    { rewrite classifications_cell. rewrite decide_False by lia.
      by rewrite decide_True. }
    intros r c. rewrite !classifications_cell. cbv zeta.
    destruct (decide (r = 1 ∧ c = 8)) as [[-> ->]|Hh8]; [by auto|].
    destruct (decide (r = 1 ∧ c = 9)) as [[-> ->]|Hh9]; [by auto|].
    destruct (lastWithKey c_text _ classifications) as [item|] eqn:Hlast; [|done].
    destruct (lastWithKey_Some _ _ _ _ Hlast) as [Hin Hkey].
    assert (∀ r', 1 < r' → ¬ (r' = 1 ∧ 8 = 8)) as N8 by lia.
    destruct (decide (1 < r ∧ _ ∧ c = 8)) as [(Hr & Hv & ->)|H8].
    + intros _. split; [by left|]. right. split; [done|]. exists item.
      split_and!; try done.
      * rewrite !decide_False by lia. by rewrite decide_True.
      * rewrite !decide_False by lia. by rewrite decide_True.
    + destruct (decide (1 < r ∧ _ ∧ c = 9)) as [(Hr & Hv & ->)|H9]; [|done].
      intros _. split; [by right|]. right. split; [done|]. exists item.
      split_and!; try done.
      * rewrite !decide_False by lia. by rewrite decide_True.
      * rewrite !decide_False by lia. by rewrite decide_True.
Qed.

Example merge_example :
  ∃ out, updateExcelWithExplanations (Some exampleSheet) exampleExplanations
         = Some out
    ∧ cellAt out 1 7 = CString "human_label_explanation"
    ∧ cellAt out 2 7 = CString "second"
    ∧ cellAt out 2 1 = CString " hello "
    ∧ cellAt out 3 7 = CNull
    ∧ cellAt out 3 5 = COther "17".
Proof. eexists. split; [reflexivity|]. split_and!; vm_compute; reflexivity. Qed.

Lemma merge_writes_only_designated_cells_witness :
  ∃ out, updateExcelWithExplanations (Some exampleSheet) exampleExplanations
         = Some out
    ∧ ∃ item, item ∈ exampleExplanations
        ∧ trim (e_text item) = "hello"
        ∧ cellAt out 2 7 = CString (e_explanation item).
Proof.
  destruct (merge_writes_only_designated_cells exampleSheet
              exampleExplanations []) as (_ & _ & (out & Hout & _ & Hframe) & _).
  exists out. split; [exact Hout|].
  injection Hout as <-.
  destruct (Hframe 2 7) as (_ & [Hr|(_ & item & _ & Hin & Hkey & Hcell)]).
  - vm_compute. discriminate.
  - discriminate.
  - exists item. split_and!; try done.
Defined.

(** ** Accuracy statistics *)

Lemma length_filter_snoc {T : Type} (P : T → Prop) `{∀ x, Decision (P x)}
    (l : list T) (x : T) :
  length (filter P (l ++ [x]))
  = length (filter P l) + (if decide (P x) then 1 else 0).
Proof.
  rewrite filter_app, length_app, filter_cons, filter_nil.
  by destruct (decide (P x)).
Qed.

Lemma elem_of_distinct (seen items : list string) (x : string) :
  x ∈ Compare.distinct seen items ↔ x ∈ items ∧ x ∉ seen.
Proof.
  revert seen. induction items as [|y items IH]; intros seen; cbn.
  - rewrite elem_of_nil. tauto.
  - destruct (decide (y ∈ seen)) as [Hy|Hy].
    + rewrite IH, elem_of_cons. split.
      * intros [? ?]. auto.
      * intros [[->|?] ?]; [done|auto].
    + rewrite !elem_of_cons, IH, elem_of_cons. split.
      * intros [->|[? ?]]; [auto|]. split; [auto|]. tauto.
      * intros [[->|?] ?]; [auto|].
        destruct (decide (x = y)) as [->|Hne]; [auto|]. right. tauto.
Qed.

(** [Object.keys] lists the keys that were created, each once. *)
Lemma ownKeys_Permutation (created : list string) :
  Compare.ownKeys created ≡ₚ created.
Proof.
  unfold Compare.ownKeys. rewrite merge_sort_Permutation.
  induction created as [|key created IH]; [done|].
  cbn [omap list_omap]. rewrite filter_cons.
  destruct (Compare.arrayIndex key) as [n|] eqn:Hkey; cbn [fmap option_fmap option_map].
  - rewrite decide_False by done. rewrite fmap_cons. cbn [snd app].
    by rewrite IH.
  - rewrite decide_True by done.
    rewrite <- Permutation_middle. by rewrite IH.
Qed.

(** Array indices come first, in ascending order; a key with a leading
    zero is no array index. *)
Example ownKeys_indices_first :
  Compare.ownKeys ["b"; "10"; "2"; "a"; "01"] = ["2"; "10"; "b"; "a"; "01"].
Proof. vm_compute. reflexivity. Qed.

Lemma elem_of_ownKeys (created : list string) (key : string) :
  key ∈ Compare.ownKeys created ↔ key ∈ created.
Proof. by rewrite ownKeys_Permutation. Qed.

Lemma plainRun_guard (data : list Compare.DataRow) :
  plainRun data ↔ existsb Compare.updatesBuiltins data = false.
Proof.
  unfold plainRun. induction data as [|row data IH]; cbn [existsb].
  - split; [done|]. intros _ row Hrow. by apply elem_of_nil in Hrow.
  - rewrite orb_false_iff, <- IH. unfold Compare.updatesBuiltins.
    rewrite orb_false_iff, bool_decide_eq_false. split.
    + intros Hall. split; [apply Hall; left|].
      intros r Hr. apply Hall. by right.
    + intros [Hrow Hall] r Hr. apply elem_of_cons in Hr as [->|Hr]; auto.
Qed.

(** In a run that updates no built-in object, a label that names a method
    of [Object.prototype] is no human label. *)
Lemma plainRun_human (data : list Compare.DataRow) (label : string) :
  plainRun data → label ∈ (Compare.humanLabel <$> data) →
  Compare.isMethod label = false.
Proof.
  intros Hplain (row & -> & Hrow)%list_elem_of_fmap.
  destruct (Hplain row Hrow) as [Hh _]. unfold Compare.inherited in Hh.
  by apply orb_false_iff in Hh as [? _].
Qed.

(** One row counted into a row of the matrix, seen from a key that is not
    inherited. *)
Lemma cellCount_countInto (matrixRow : gmap string Compare.Cell)
    (l label : string) :
  Compare.isMethod label = false →
  Compare.cellCount (Compare.countInto matrixRow l !! label)
  = Compare.cellCount (matrixRow !! label) + (if decide (l = label) then 1 else 0).
Proof.
  intros Hplain. unfold Compare.countInto, Compare.readCell.
  destruct (decide (l = label)) as [->|Hne].
  - rewrite Hplain, lookup_insert_eq.
    destruct (matrixRow !! label) as [[[|n]|]|] eqn:Hcell; cbn;
      rewrite ?lookup_insert_eq, ?Hcell; cbn; lia.
  - rewrite lookup_insert_ne by done.
    destruct (Compare.truthyRead _); rewrite ?lookup_insert_ne by done; lia.
Qed.

Section AccuracyFacts.
Import Compare JsNumber.
Context {N : Type} `{Ops N}.

Lemma buildTally_snoc (data : list DataRow) (row : DataRow) :
  buildTally (N := N) (data ++ [row]) = tallyRow (buildTally data) row.
Proof. unfold buildTally. by rewrite foldl_app. Qed.

Lemma tally_totalCorrect (data : list DataRow) :
  totalCorrect (buildTally (N := N) data) = correctCount data.
Proof.
  unfold correctCount.
  induction data as [|row data IH] using rev_ind; [done|].
  rewrite buildTally_snoc, length_filter_snoc. unfold tallyRow.
  destruct (decide (humanLabel row = llmLabel row)); cbn; lia.
Qed.

Lemma labelStats_tallyRow (t : Tally N) (row : DataRow) :
  labelStats (tallyRow t row)
  = <[humanLabel row :=
        (if decide (humanLabel row = llmLabel row) then bumpCorrect else id)
          (bumpTotal (default zeroStats (labelStats t !! humanLabel row)))]>
      (labelStats t).
Proof. unfold tallyRow. by destruct (decide (humanLabel row = llmLabel row)). Qed.

Lemma labelOrder_tallyRow (t : Tally N) (row : DataRow) :
  labelOrder (tallyRow t row)
  = match labelStats t !! humanLabel row with
    | Some _ => labelOrder t
    | None => labelOrder t ++ [humanLabel row]
    end.
Proof. unfold tallyRow. by destruct (decide (humanLabel row = llmLabel row)). Qed.

Lemma confusionMatrix_tallyRow (t : Tally N) (row : DataRow) :
  confusionMatrix (tallyRow t row)
  = <[humanLabel row :=
        countInto (default ∅ (confusionMatrix t !! humanLabel row))
          (llmLabel row)]>
      (confusionMatrix t).
Proof. unfold tallyRow. by destruct (decide (humanLabel row = llmLabel row)). Qed.

Lemma tally_labelStats (data : list DataRow) (label : string) :
  default zeroStats (labelStats (buildTally (N := N) data) !! label)
  = mkLabelStats (actualCount data label) (truePositiveCount data label)
      (ofNat 0) (ofNat 0) (ofNat 0) (ofNat 0).
Proof.
  unfold actualCount, truePositiveCount.
  induction data as [|row data IH] using rev_ind; [done|].
  rewrite buildTally_snoc, !length_filter_snoc, labelStats_tallyRow.
  destruct (decide (humanLabel row = label)) as [<-|Hne].
  - rewrite lookup_insert_eq, IH. cbn.
    destruct (decide (humanLabel row = llmLabel row)) as [Heq|Hneq].
    + rewrite decide_True by done. cbn. unfold bumpCorrect, bumpTotal. cbn.
      f_equal; lia.
    + rewrite decide_False by (intros [_ ?]; congruence).
      unfold bumpTotal. cbn. f_equal; lia.
  - rewrite lookup_insert_ne, IH by done.
    rewrite decide_False by tauto. f_equal; lia.
Qed.

Lemma tally_keys (data : list DataRow) (label : string) :
  is_Some (labelStats (buildTally (N := N) data) !! label)
  ↔ label ∈ (humanLabel <$> data).
Proof.
  induction data as [|row data IH] using rev_ind.
  - cbn. rewrite lookup_empty, elem_of_nil. split; [by intros [? ?]|done].
  - rewrite buildTally_snoc, fmap_app, elem_of_app, <- IH. cbn.
    rewrite list_elem_of_singleton, labelStats_tallyRow.
    rewrite lookup_insert_is_Some'. intuition congruence.
Qed.

(** [labelOrder] lists the properties of [labelStats], each once. *)
Lemma tally_order (data : list DataRow) (label : string) :
  label ∈ labelOrder (buildTally (N := N) data)
  ↔ is_Some (labelStats (buildTally (N := N) data) !! label).
Proof.
  induction data as [|row data IH] using rev_ind.
  - cbn. rewrite lookup_empty, elem_of_nil. split; [done|by intros [? ?]].
  - rewrite buildTally_snoc, labelStats_tallyRow, labelOrder_tallyRow.
    rewrite lookup_insert_is_Some'.
    destruct (labelStats (buildTally data) !! humanLabel row) as [s|] eqn:Hs.
    + rewrite IH. split; [auto|]. intros [<-|?]; [|done]. by rewrite Hs.
    + rewrite elem_of_app, list_elem_of_singleton, IH. intuition congruence.
Qed.

Lemma tally_order_NoDup (data : list DataRow) :
  NoDup (labelOrder (buildTally (N := N) data)).
Proof.
  induction data as [|row data IH] using rev_ind; [constructor|].
  rewrite buildTally_snoc, labelOrder_tallyRow.
  destruct (labelStats (buildTally data) !! humanLabel row) as [s|] eqn:Hs;
    [done|].
  apply NoDup_app. split_and!; [done| |apply NoDup_singleton].
  intros x Hx ->%list_elem_of_singleton.
  apply tally_order in Hx. rewrite Hs in Hx. by destruct Hx.
Qed.

Lemma falsePositives_insert matrix label h newRow :
  falsePositives (<[h := newRow]> matrix) label
    + fpOfRow label h (default ∅ (matrix !! h))
  = falsePositives matrix label + fpOfRow label h newRow.
Proof.
  unfold falsePositives.
  set (f := λ (actualLabel : string) (matrixRow : gmap string Cell) (acc : nat),
              if decide (actualLabel ≠ label)
              then acc + cellCount (matrixRow !! label) else acc).
  assert (∀ j1 j2 z1 z2 y, f j1 z1 (f j2 z2 y) = f j2 z2 (f j1 z1 y)) as Hcomm.
  { intros j1 j2 z1 z2 y. unfold f.
    destruct (decide (j1 ≠ label)), (decide (j2 ≠ label)); lia. }
  assert (∀ a r acc, f a r acc = acc + fpOfRow label a r) as Hf.
  { intros a r acc. unfold f, fpOfRow. destruct (decide (a ≠ label)); lia. }
  destruct (matrix !! h) as [oldRow|] eqn:Hold; cbn.
  - rewrite (map_fold_delete_L f 0 h oldRow matrix);
      [|intros; apply Hcomm|exact Hold].
    rewrite <- (insert_delete_eq matrix).
    rewrite (map_fold_insert_L f 0 h newRow (delete h matrix));
      [|intros; apply Hcomm|apply lookup_delete_eq].
    rewrite !Hf. lia.
  - rewrite (map_fold_insert_L f 0 h newRow matrix);
      [|intros; apply Hcomm|exact Hold].
    rewrite Hf.
    assert (fpOfRow label h ∅ = 0) as ->; [|lia].
    unfold fpOfRow. rewrite lookup_empty. by destruct (decide (h ≠ label)).
Qed.

(** For a label that is not inherited, the loop over the matrix counts the
    rows of another actual label that were predicted as the label. *)
Lemma tally_falsePositives (data : list DataRow) (label : string) :
  isMethod label = false →
  falsePositives (confusionMatrix (buildTally (N := N) data)) label
  = falsePositiveCount data label.
Proof.
  intros Hplain. unfold falsePositiveCount.
  induction data as [|row data IH] using rev_ind; [done|].
  rewrite buildTally_snoc, length_filter_snoc, <- IH.
  rewrite confusionMatrix_tallyRow.
  set (t := buildTally data).
  set (oldRow := default ∅ (confusionMatrix t !! humanLabel row)).
  pose proof (falsePositives_insert (confusionMatrix t) label (humanLabel row)
                (countInto oldRow (llmLabel row))) as Hins.
  fold oldRow in Hins. unfold fpOfRow in Hins.
  rewrite (cellCount_countInto _ _ _ Hplain) in Hins.
  destruct (decide (humanLabel row ≠ label)) as [Hne|Heq].
  - destruct (decide (llmLabel row = label)) as [Hp|Hp].
    + rewrite decide_True by done. lia.
    + rewrite decide_False by tauto. lia.
  - rewrite decide_False by tauto. lia.
Qed.

Lemma metricsStep_lookup matrix (own : gmap string (LabelStats N) * list string)
    x label :
  (metricsStep matrix own x).1 !! label
  = if decide (x = label ∧ isMethod label = false)
    then Some (metrics (total (default zeroStats (own.1 !! label)))
                 (correct (default zeroStats (own.1 !! label)))
                 (falsePositives matrix label))
    else own.1 !! label.
Proof.
  unfold metricsStep. destruct (decide (x = label)) as [->|Hne].
  - destruct (isMethod label) eqn:Hm.
    + by rewrite decide_False by (intros [_ ?]; done).
    + rewrite decide_True by done. cbn [fst]. by rewrite lookup_insert_eq.
  - rewrite decide_False by tauto.
    destruct (isMethod x); [done|]. cbn [fst]. by rewrite lookup_insert_ne.
Qed.

(** The loop over [allLabels], for any list of labels. *)
Lemma metrics_after_labels matrix labels
    (own : gmap string (LabelStats N) * list string) label :
  (foldl (metricsStep matrix) own labels).1 !! label
  = if decide (label ∈ labels ∧ isMethod label = false)
    then Some (metrics (total (default zeroStats (own.1 !! label)))
                 (correct (default zeroStats (own.1 !! label)))
                 (falsePositives matrix label))
    else own.1 !! label.
Proof.
  revert own. induction labels as [|x labels IH]; intros own; cbn [foldl].
  - rewrite decide_False; [done|]. intros [Hin _]. by apply elem_of_nil in Hin.
  - rewrite IH, !metricsStep_lookup.
    destruct (isMethod label) eqn:Hm.
    { by rewrite !decide_False by (intros [_ ?]; done). }
    destruct (decide (x = label)) as [->|Hne].
    + rewrite (decide_True (P := label = label ∧ _)) by done.
      rewrite (decide_True (P := label ∈ label :: labels ∧ _))
        by (split; [left|done]).
      by destruct (decide (label ∈ labels ∧ false = false)).
    + rewrite (decide_False (P := x = label ∧ _)) by tauto.
      destruct (decide (label ∈ labels ∧ false = false)) as [[Hin _]|Hnin].
      * by rewrite decide_True by (split; [by right|done]).
      * rewrite decide_False; [done|].
        rewrite elem_of_cons. intuition congruence.
Qed.

(** The order of creation keeps listing the own properties, each once. *)
Lemma metricsStep_order matrix (own : gmap string (LabelStats N) * list string) x :
  NoDup own.2 → (∀ key, key ∈ own.2 ↔ is_Some (own.1 !! key)) →
  NoDup (metricsStep matrix own x).2
  ∧ (∀ key, key ∈ (metricsStep matrix own x).2
            ↔ is_Some ((metricsStep matrix own x).1 !! key)).
Proof.
  intros Hnodup Hkeys. unfold metricsStep.
  destruct (isMethod x); [done|]. cbn [fst snd].
  destruct (own.1 !! x) as [s|] eqn:Hs.
  - split; [done|]. intros key. rewrite lookup_insert_is_Some', Hkeys.
    split; [auto|]. intros [<-|?]; [|done]. by rewrite Hs.
  - split.
    + apply NoDup_app. split_and!; [done| |apply NoDup_singleton].
      intros key Hkey ->%list_elem_of_singleton.
      apply Hkeys in Hkey. rewrite Hs in Hkey. by destruct Hkey.
    + intros key.
      rewrite elem_of_app, list_elem_of_singleton, lookup_insert_is_Some', Hkeys.
      intuition congruence.
Qed.

Lemma metrics_order matrix labels (own : gmap string (LabelStats N) * list string) :
  NoDup own.2 → (∀ key, key ∈ own.2 ↔ is_Some (own.1 !! key)) →
  NoDup (foldl (metricsStep matrix) own labels).2
  ∧ (∀ key, key ∈ (foldl (metricsStep matrix) own labels).2
            ↔ is_Some ((foldl (metricsStep matrix) own labels).1 !! key)).
Proof.
  revert own. induction labels as [|x labels IH]; intros own Hnodup Hkeys;
    cbn [foldl]; [done|].
  destruct (metricsStep_order matrix own x Hnodup Hkeys). by apply IH.
Qed.

Lemma elem_of_allLabels (data : list DataRow) (label : string) :
  label ∈ allLabels (buildTally (N := N) data) data ↔ labelSeen data label.
Proof.
  unfold allLabels, labelSeen.
  rewrite elem_of_distinct, elem_of_app, elem_of_ownKeys, tally_order, tally_keys.
  rewrite elem_of_nil. tauto.
Qed.

(** The statistics of every label, in terms of the counts over the rows. *)
Lemma statistics_labelStats (data : list DataRow) (label : string) :
  plainRun data →
  as_labelStats (statistics (N := N) data) !! label
  = if decide (labelSeen data label ∧ isMethod label = false)
    then Some (metrics (actualCount data label) (truePositiveCount data label)
                 (falsePositiveCount data label))
    else None.
Proof.
  intros Hplain. unfold statistics. cbn [as_labelStats].
  rewrite metrics_after_labels. cbn [fst]. rewrite tally_labelStats. cbn.
  destruct (decide (label ∈ allLabels _ data ∧ isMethod label = false))
    as [[Hin Hm]|Hnin].
  - apply elem_of_allLabels in Hin. rewrite decide_True by done.
    by rewrite tally_falsePositives.
  - rewrite decide_False by (by rewrite <- elem_of_allLabels).
    apply eq_None_not_Some. intros Hsome%tally_keys. apply Hnin. split.
    + apply elem_of_allLabels. by left.
    + by eapply plainRun_human.
Qed.

(** The keys of the returned [labelStats] are the labels seen that are not
    inherited, each once. *)
Lemma statistics_labelOrder (data : list DataRow) :
  plainRun data →
  NoDup (as_labelOrder (statistics (N := N) data))
  ∧ (∀ label, label ∈ as_labelOrder (statistics (N := N) data)
              ↔ labelSeen data label ∧ isMethod label = false).
Proof.
  intros Hplain.
  pose proof (metrics_order (confusionMatrix (buildTally data))
                (allLabels (buildTally data) data)
                (labelStats (buildTally (N := N) data), labelOrder (buildTally data))
                (tally_order_NoDup data) (tally_order data)) as [Hnodup Hkeys].
  split; [exact Hnodup|]. intros label.
  pose proof (statistics_labelStats data label Hplain) as Hlookup.
  unfold statistics in *. cbn [as_labelStats as_labelOrder] in *.
  rewrite Hkeys, Hlookup.
  destruct (decide (labelSeen data label ∧ isMethod label = false)).
  - split; [done|by eexists].
  - split; [by intros [? ?]|done].
Qed.

Lemma calculateAccuracy_plain (data : list DataRow) :
  plainRun data → calculateAccuracy (N := N) data = Some (statistics data).
Proof.
  intros Hplain%plainRun_guard. unfold calculateAccuracy. by rewrite Hplain.
Qed.

End AccuracyFacts.

(** In exact arithmetic a ratio of counts is not negative, so the test
    [precision + recall > 0] fails exactly when [precision + recall] is 0. *)
Lemma exact_ratio_nonneg (num den : nat) :
  (0 <= Compare.ratio (N := Q) num den)%Q.
Proof.
  unfold Compare.ratio. destruct (0 <? den)%nat; cbn; [|apply Qle_refl].
  unfold Qdiv. apply Qmult_le_0_compat.
  - unfold Qle. cbn. lia.
  - apply Qinv_le_0_compat. unfold Qle. cbn. lia.
Qed.

Lemma exact_f1_guard (tp fp tot : nat) :
  let p := Compare.ratio (N := Q) tp (tp + fp) in
  let r := Compare.ratio (N := Q) tp tot in
  JsNumber.isPositive (JsNumber.add p r) = false ↔ (p + r == 0)%Q.
Proof.
  cbv zeta. cbn [JsNumber.isPositive JsNumber.add JsNumber.exact].
  pose proof (exact_ratio_nonneg tp (tp + fp)) as Hp.
  pose proof (exact_ratio_nonneg tp tot) as Hr.
  destruct (Qlt_le_dec 0 _) as [Hlt|Hle]; split; try done.
  - intros Heq. rewrite Heq in Hlt. by apply Qlt_irrefl in Hlt.
  - intros _. apply Qle_antisym; [done|].
    rewrite <- (Qplus_0_r 0). by apply Qplus_le_compat.
Qed.

(** X30. For every list of rows on which [calculateAccuracy] updates no
    built-in object (no human label names a member of [Object.prototype],
    no predicted label is [__proto__]), and every label seen as actual or
    predicted that does not name a method of [Object.prototype], the
    statistics of the label are: [total] the number of rows with that actual
    label, [correct] the true positives TP, [precision = TP / (TP + FP)]
    with FP the rows of another actual label predicted as the label,
    [recall = TP / total], [f1 = 2·P·R / (P + R)], each being 0 when its
    denominator is 0 (for f1: when [P + R] is not positive). A label that was
    not seen, and a label that names a method of [Object.prototype], has no
    statistics. The overall accuracy is [correct / total · 100] (0 without
    rows). This holds in the arithmetic of doubles as in exact arithmetic.
    For the rows [(A,A), (A,B), (B,B), (B,B)] the doubles computed are
    precision 1 and recall 0.5 for A, precision 2/3, recall 1 and f1 0.8 for
    B (the doubles nearest to 2/3 and to 4/5), and an overall accuracy of
    75; the exact values are 1, 1/2, 2/3, 1, 4/5 and 75. *)
Theorem accuracy_metrics {N : Type} `{JsNumber.Ops N} (data : list Compare.DataRow) :
  plainRun data →
  ∃ stats, Compare.calculateAccuracy (N := N) data = Some stats
  ∧ (∀ label, labelSeen data label → Compare.isMethod label = false →
     let tp := truePositiveCount data label in
     let fp := falsePositiveCount data label in
     ∃ st, Compare.as_labelStats stats !! label = Some st
       ∧ Compare.total st = actualCount data label
       ∧ Compare.correct st = tp
       ∧ Compare.precision st
         = (if (0 <? tp + fp)%nat
            then JsNumber.div (JsNumber.ofNat tp) (JsNumber.ofNat (tp + fp))
            else JsNumber.ofNat 0)
       ∧ Compare.recall st
         = (if (0 <? actualCount data label)%nat
            then JsNumber.div (JsNumber.ofNat tp)
                   (JsNumber.ofNat (actualCount data label))
            else JsNumber.ofNat 0)
       ∧ Compare.f1Score st
         = (if JsNumber.isPositive
                 (JsNumber.add (Compare.precision st) (Compare.recall st))
            then JsNumber.div
                   (JsNumber.mul (JsNumber.ofNat 2)
                      (JsNumber.mul (Compare.precision st) (Compare.recall st)))
                   (JsNumber.add (Compare.precision st) (Compare.recall st))
            else JsNumber.ofNat 0))
  ∧ (∀ label, ¬ labelSeen data label ∨ Compare.isMethod label = true →
       Compare.as_labelStats stats !! label = None)
  ∧ Compare.overallAccuracy stats
    = (if (0 <? length data)%nat
       then JsNumber.mul
              (JsNumber.div (JsNumber.ofNat (correctCount data))
                 (JsNumber.ofNat (length data)))
              (JsNumber.ofNat 100)
       else JsNumber.ofNat 0)
  ∧ (∃ four sa sb,
       Compare.calculateAccuracy (N := PrimFloat.float) fourRows = Some four
       ∧ Compare.as_labelStats four !! "A" = Some sa
       ∧ Compare.as_labelStats four !! "B" = Some sb
       ∧ Compare.precision sa = JsNumber.ofNat 1
       ∧ Compare.recall sa = JsNumber.div (JsNumber.ofNat 1) (JsNumber.ofNat 2)
       ∧ Compare.precision sb = JsNumber.div (JsNumber.ofNat 2) (JsNumber.ofNat 3)
       ∧ Compare.recall sb = JsNumber.ofNat 1
       ∧ Compare.f1Score sb = JsNumber.div (JsNumber.ofNat 4) (JsNumber.ofNat 5)
       ∧ Compare.overallAccuracy four = JsNumber.ofNat 75)
  ∧ (∃ four sa sb,
       Compare.calculateAccuracy (N := Q) fourRows = Some four
       ∧ Compare.as_labelStats four !! "A" = Some sa
       ∧ Compare.as_labelStats four !! "B" = Some sb
       ∧ (Compare.precision sa == 1)%Q
       ∧ (Compare.recall sa == 1 # 2)%Q
       ∧ (Compare.precision sb == 2 # 3)%Q
       ∧ (Compare.recall sb == 1)%Q
       ∧ (Compare.f1Score sb == 4 # 5)%Q
       ∧ (Compare.overallAccuracy four == 75)%Q).
Proof.
  intros Hplain. exists (Compare.statistics data).
  split; [by apply calculateAccuracy_plain|]. split_and!.
  - intros label Hseen Hm. cbv zeta. rewrite statistics_labelStats by done.
    rewrite decide_True by done. eexists. split; [reflexivity|].
    split_and!; reflexivity.
  - intros label Hseen. rewrite statistics_labelStats by done.
    rewrite decide_False; [done|]. intros [? ?].
    destruct Hseen as [?|Hm]; [done|congruence].
  - unfold Compare.statistics. cbn [Compare.overallAccuracy].
    by rewrite tally_totalCorrect.
  - do 3 eexists. split; [vm_compute; reflexivity|].
    split; [vm_compute; reflexivity|].
    split; [vm_compute; reflexivity|].
    split_and!; vm_compute; reflexivity.
  - do 3 eexists. split; [vm_compute; reflexivity|].
    split; [vm_compute; reflexivity|].
    split; [vm_compute; reflexivity|].
    split_and!; vm_compute; reflexivity.
Qed.

Lemma accuracy_metrics_witness :
  plainRun fourRows
  ∧ labelSeen fourRows "B"
  ∧ ∃ stats st,
      Compare.calculateAccuracy (N := PrimFloat.float) fourRows = Some stats
      ∧ Compare.as_labelStats stats !! "B" = Some st
      ∧ Compare.total st = 2
      ∧ Compare.correct st = 2
      ∧ Compare.precision st = JsNumber.div (JsNumber.ofNat 2) (JsNumber.ofNat 3).
Proof.
  assert (plainRun fourRows) as Hplain.
  { apply plainRun_guard. vm_compute. reflexivity. }
  assert (labelSeen fourRows "B") as Hseen.
  { left. cbn. rewrite !elem_of_cons. auto. }
  split; [exact Hplain|]. split; [exact Hseen|].
  destruct (accuracy_metrics (N := PrimFloat.float) fourRows Hplain)
    as (stats & Hrun & Hstats & _).
  destruct (Hstats "B" Hseen eq_refl)
    as (st & Hst & Htotal & Hcorrect & Hprec & _).
  exists stats, st.
  split_and!; [exact Hrun|exact Hst|exact Htotal|exact Hcorrect|exact Hprec].
Defined.

(** C6 (failing input). For the rows [(for, constructor), (for, for)] the
    label [constructor] is seen as predicted, with no true positive and one
    false positive. [calculateAccuracy] returns no statistics for it:
    [labelStats] has the one property [for], so that the macro-averaged F1
    is the F1 of [for] alone, and the cell [confusionMatrix.for.constructor],
    which stands for one row, holds [NaN]. *)
Theorem accuracy_misses_inherited_label :
  plainRun inheritedRows
  ∧ labelSeen inheritedRows "constructor"
  ∧ truePositiveCount inheritedRows "constructor" = 0
  ∧ falsePositiveCount inheritedRows "constructor" = 1
  ∧ pairCount inheritedRows "for" "constructor" = 1
  ∧ ∃ stats st,
      Compare.calculateAccuracy (N := PrimFloat.float) inheritedRows = Some stats
      ∧ Compare.as_labelStats stats !! "constructor" = None
      ∧ Compare.ownKeys (Compare.as_labelOrder stats) = ["for"]
      ∧ Compare.as_labelStats stats !! "for" = Some st
      ∧ Compare.macroF1 stats = Compare.f1Score st
      ∧ matrixCell (Compare.as_confusionMatrix stats) "for" "constructor"
        = Some Compare.NaN
      ∧ matrixCell (Compare.as_confusionMatrix stats) "for" "for"
        = Some (Compare.Count 1).
Proof.
  split; [apply plainRun_guard; vm_compute; reflexivity|].
  split; [right; cbn; rewrite !elem_of_cons; auto|].
  split; [vm_compute; reflexivity|].
  split; [vm_compute; reflexivity|].
  split; [vm_compute; reflexivity|].
  do 2 eexists. split; [vm_compute; reflexivity|].
  split; [vm_compute; reflexivity|].
  split; [vm_compute; reflexivity|].
  split; [vm_compute; reflexivity|].
  split_and!; vm_compute; reflexivity.
Qed.

(** ** Model comparison *)

Lemma keys_mapSet k v (m : list (string * Compare.Entry)) :
  (Compare.mapSet k v m).*1 = if decide (k ∈ m.*1) then m.*1 else m.*1 ++ [k].
Proof.
  induction m as [|[k' v'] m IH]; cbn.
  - by rewrite decide_False by apply not_elem_of_nil.
  - destruct (decide (k' = k)) as [->|Hne]; cbn.
    + by rewrite decide_True by left.
    + rewrite IH. destruct (decide (k ∈ m.*1)) as [Hin|Hnin].
      * by rewrite decide_True by (by right).
      * rewrite decide_False; [done|].
        rewrite elem_of_cons. intuition congruence.
Qed.

Lemma keys_mapUpdate k f (m : list (string * Compare.Entry)) :
  (Compare.mapUpdate k f m).*1 = m.*1.
Proof.
  induction m as [|[k' v'] m IH]; cbn; [done|].
  destruct (decide (k' = k)); cbn; [done|]. by rewrite IH.
Qed.

Lemma distinct_snoc (seen items : list string) (x : string) :
  Compare.distinct seen (items ++ [x])
  = Compare.distinct seen items
    ++ (if decide (x ∈ seen ++ items) then [] else [x]).
Proof.
  revert seen. induction items as [|y items IH]; intros seen; cbn.
  - rewrite app_nil_r. by destruct (decide (x ∈ seen)).
  - destruct (decide (y ∈ seen)) as [Hy|Hy].
    + rewrite IH. f_equal.
      repeat case_decide; try done; exfalso;
        rewrite ?elem_of_app, ?elem_of_cons, ?elem_of_app in *;
        intuition congruence.
    + rewrite IH. cbn. do 2 f_equal.
      repeat case_decide; try done; exfalso;
        rewrite ?elem_of_app, ?elem_of_cons, ?elem_of_app in *;
        intuition congruence.
Qed.

(** The keys of [dataMap] are the distinct texts of the first set, whatever
    the second set holds: its size is the number of those texts. *)
Lemma buildDataMap_keys (model1Data model2Data : list Compare.DataRow) :
  (Compare.buildDataMap model1Data model2Data).*1
  = Compare.distinct [] (Compare.text <$> model1Data).
Proof.
  unfold Compare.buildDataMap.
  assert (∀ m, (foldl Compare.fromModel2 m model2Data).*1 = m.*1) as ->.
  { induction model2Data as [|item items IH]; intros m; cbn; [done|].
    rewrite IH. apply keys_mapUpdate. }
  induction model1Data as [|item items IH] using rev_ind; [done|].
  rewrite foldl_app, fmap_app. cbn [foldl fmap list_fmap].
  unfold Compare.fromModel1 at 1. rewrite keys_mapSet, distinct_snoc, IH.
  cbn [app].
  destruct (decide (Compare.text item ∈ Compare.distinct [] (Compare.text <$> items)))
    as [Hin|Hnin].
  - apply elem_of_distinct in Hin as [Hin _].
    rewrite decide_True by done. by rewrite app_nil_r.
  - rewrite decide_False; [done|].
    intros Hin. apply Hnin, elem_of_distinct. split; [done|].
    apply not_elem_of_nil.
Qed.

(** What [compareModels] returns as [agreementRate]: the agreements over
    the number of distinct texts of the first set. *)
Lemma compareModels_denominator {N : Type} `{JsNumber.Ops N}
    (model1Data model2Data : list Compare.DataRow) :
  Compare.agreementRate (Compare.compareModels (N := N) model1Data model2Data)
  = JsNumber.mul
      (JsNumber.div
         (JsNumber.ofNat
            (Compare.countAgreements (Compare.buildDataMap model1Data model2Data)))
         (JsNumber.ofNat
            (length (Compare.distinct [] (Compare.text <$> model1Data)))))
      (JsNumber.ofNat 100).
Proof.
  unfold Compare.compareModels. cbn [Compare.agreementRate].
  by rewrite <- (buildDataMap_keys model1Data model2Data), length_fmap.
Qed.

(** C1 (failing input). The first set has two texts, the second set has
    one of them, with the same label. One row is present in both sets and
    the models agree on it, a fraction of 100%; [compareModels] divides the
    one agreement by the two texts of the first set and returns 50, in
    doubles as in exact arithmetic. *)
Theorem agreementRate_counts_unmatched_rows :
  length (jointRows modelA modelB) = 1
  ∧ length (agreeingRows modelA modelB) = 1
  ∧ Compare.countAgreements (Compare.buildDataMap modelA modelB) = 1
  ∧ length (Compare.buildDataMap modelA modelB) = 2
  ∧ Compare.agreementRate (Compare.compareModels (N := PrimFloat.float) modelA modelB)
    = JsNumber.ofNat 50
  ∧ JsNumber.ofNat 50 ≠ (JsNumber.ofNat 100 : PrimFloat.float)
  ∧ (Compare.agreementRate (Compare.compareModels (N := Q) modelA modelB) == 50)%Q.
Proof.
  split_and!; try (vm_compute; reflexivity).
  intros Heq.
  apply (f_equal (PrimFloat.eqb (JsNumber.ofNat 100))) in Heq.
  vm_compute in Heq. discriminate.
Qed.

Example agreement_seven_of_ten :
  Compare.agreementRate
    (Compare.compareModels (N := PrimFloat.float)
       ((λ t, labelled t "for") <$> tenTexts)
       (((λ t, labelled t "for") <$> take 7 tenTexts)
        ++ ((λ t, labelled t "against") <$> drop 7 tenTexts)))
  = JsNumber.ofNat 70.
Proof. vm_compute. reflexivity. Qed.

(** Without any text the rate is [0 / 0 * 100], which is not a number. *)
Example agreement_of_nothing :
  PrimFloat.is_nan
    (Compare.agreementRate (Compare.compareModels (N := PrimFloat.float) [] []))
  = true.
Proof. vm_compute. reflexivity. Qed.

(** ** Tabular output parser *)

Section StringFacts.

Lemma append_cons (c : ascii) (s t : string) :
  String c s +:+ t = String c (s +:+ t).
Proof. reflexivity. Qed.

Lemma append_nil_left (t : string) : "" +:+ t = t.
Proof. reflexivity. Qed.

Lemma append_nil_right (s : string) : s +:+ "" = s.
Proof.
  induction s as [|c s IH]; [done|]. by rewrite append_cons, IH.
Qed.

Lemma append_inv_head (p s t : string) : p +:+ s = p +:+ t → s = t.
Proof.
  induction p as [|c p IH]; [done|].
  rewrite !append_cons. intros [= H]. auto.
Qed.

Lemma startsWith_split (p s : string) :
  startsWith p s = true → ∃ r, s = p +:+ r.
Proof.
  unfold startsWith. revert s. induction p as [|c p IH]; intros s Hp.
  - by exists s.
  - destruct s as [|c' s]; cbn in Hp; [done|].
    destruct (ascii_dec c c') as [->|]; [|done].
    destruct (IH s Hp) as [r ->]. by exists r.
Qed.

Lemma allWhiteSpace_trimEnd (s : string) :
  allWhiteSpace s = true ↔ trimEnd s = "".
Proof.
  induction s as [|c s IH]; cbn; [done|].
  rewrite andb_true_iff, IH. destruct (trimEnd s) as [|c' r].
  - destruct (isWhiteSpace c); intuition congruence.
  - intuition congruence.
Qed.

Lemma allWhiteSpace_trimStart (s : string) :
  allWhiteSpace (trimStart s) = allWhiteSpace s.
Proof.
  induction s as [|c s IH]; cbn; [done|].
  destruct (isWhiteSpace c) eqn:Hc; cbn; [done|]. by rewrite Hc.
Qed.

Lemma trim_empty (s : string) : trim s = "" ↔ trimEnd s = "".
Proof.
  unfold trim.
  by rewrite <- !allWhiteSpace_trimEnd, allWhiteSpace_trimStart.
Qed.

Lemma trimEnd_app (a b : string) :
  trimEnd (a +:+ b)
  = match trimEnd b with
    | EmptyString => trimEnd a
    | _ => a +:+ trimEnd b
    end.
Proof.
  induction a as [|c a IH].
  - rewrite append_nil_left. by destruct (trimEnd b).
  - rewrite append_cons. cbn [trimEnd]. rewrite IH.
    destruct (trimEnd b) as [|c' r]; [done|].
    rewrite append_cons. by destruct a.
Qed.

Lemma trimEnd_idem (s : string) : trimEnd (trimEnd s) = trimEnd s.
Proof.
  induction s as [|c s IH]; cbn; [done|].
  destruct (trimEnd s) as [|c' r] eqn:Hs.
  - destruct (isWhiteSpace c) eqn:Hc; cbn; [done|]. by rewrite Hc.
  - cbn in *. by rewrite IH.
Qed.

Lemma hasChar_trimEnd (c : ascii) (s : string) :
  hasChar c s = false → hasChar c (trimEnd s) = false.
Proof.
  induction s as [|c' s IH]; cbn; [done|].
  intros [Hc Hs]%orb_false_iff. specialize (IH Hs).
  destruct (trimEnd s) as [|c'' r].
  - destruct (isWhiteSpace c'); cbn; [done|]. by rewrite Hc.
  - cbn in *. by rewrite Hc, IH.
Qed.

Lemma split_without_separator (sep : ascii) (s : string) :
  hasChar sep s = false → split sep s = [s].
Proof.
  induction s as [|c s IH]; cbn; [done|].
  intros [Hc Hs]%orb_false_iff. rewrite Hc, IH by done. done.
Qed.

Lemma split_at_separator (sep : ascii) (s r : string) :
  hasChar sep s = false →
  split sep (s +:+ String sep r) = s :: split sep r.
Proof.
  induction s as [|c s IH].
  - intros _. rewrite append_nil_left. cbn. by rewrite Ascii.eqb_refl.
  - cbn [hasChar]. intros [Hc Hs]%orb_false_iff.
    rewrite append_cons. cbn [split]. rewrite Hc, IH by done. done.
Qed.

Lemma join_cons_cons (sep : ascii) (p q : string) (pieces : list string) :
  join sep (p :: q :: pieces) = p +:+ String sep (join sep (q :: pieces)).
Proof. reflexivity. Qed.

Lemma split_join (sep : ascii) (pieces : list string) :
  Forall (λ p, hasChar sep p = false) pieces → pieces ≠ [] →
  split sep (join sep pieces) = pieces.
Proof.
  induction 1 as [|p pieces Hp Hrest IH]; intros Hne; [done|].
  destruct pieces as [|p' pieces].
  - cbn. by apply split_without_separator.
  - rewrite join_cons_cons, split_at_separator by done. f_equal. by apply IH.
Qed.

Lemma append_assoc (a b c : string) : (a +:+ b) +:+ c = a +:+ (b +:+ c).
Proof.
  induction a as [|x a IH]; [done|]. by rewrite !append_cons, IH.
Qed.

Lemma join_snoc (sep : ascii) (pieces : list string) (p : string) :
  ∃ before, join sep (pieces ++ [p]) = before +:+ p.
Proof.
  induction pieces as [|q pieces [before IH]].
  - by exists "".
  - exists (q +:+ String sep before).
    destruct pieces as [|q' pieces].
    + cbn [app] in *. rewrite join_cons_cons, IH.
      by rewrite append_assoc, append_cons.
    + cbn [app] in *. rewrite join_cons_cons, IH.
      by rewrite append_assoc, append_cons.
Qed.

Lemma allWhiteSpace_app (a b : string) :
  allWhiteSpace (a +:+ b) = allWhiteSpace a && allWhiteSpace b.
Proof.
  induction a as [|c a IH]; [done|].
  rewrite append_cons. cbn. by rewrite IH, andb_assoc.
Qed.

Lemma allWhiteSpace_join (pieces : list string) :
  allWhiteSpace (join LF pieces) = true →
  Forall (λ p, allWhiteSpace p = true) pieces.
Proof.
  induction pieces as [|p pieces IH]; [done|].
  destruct pieces as [|p' pieces].
  - cbn. intros Hp. by apply Forall_singleton.
  - rewrite join_cons_cons, allWhiteSpace_app. cbn [allWhiteSpace].
    intros [Hp [_ Hrest]%andb_true_iff]%andb_true_iff.
    constructor; [done|]. by apply IH.
Qed.

(** Past three code units before its end, a text that ends with a closing
    fence is not white space only. *)
Lemma fence_tail_not_blank (n : nat) (s : string) :
  n ≤ String.length s + 3 →
  allWhiteSpace (dropChars n (s +:+ String LF "```")) = false.
Proof.
  revert n. induction s as [|c s IH]; intros n Hn.
  - cbn in Hn. destruct n as [|[|[|[|n]]]]; try lia; reflexivity.
  - rewrite append_cons. destruct n as [|n]; cbn [dropChars].
    + pose proof (IH 0 ltac:(lia)) as H0. cbn [dropChars] in H0.
      cbn [allWhiteSpace]. rewrite H0. apply andb_false_r.
    + apply IH. cbn in Hn. lia.
Qed.

Lemma stripClosingFence_wrapped (s : string) :
  stripClosingFence (s +:+ String LF "```") = s.
Proof.
  induction s as [|c s IH]; [reflexivity|].
  rewrite append_cons. cbn [stripClosingFence].
  assert (closingFenceAt (String c (s +:+ String LF "```")) = false) as ->.
  { unfold closingFenceAt. destruct (Ascii.eqb c LF).
    - rewrite (fence_tail_not_blank 3) by lia. apply andb_false_r.
    - change (dropChars 3 (String c (s +:+ String LF "```")))
        with (dropChars 2 (s +:+ String LF "```")).
      rewrite (fence_tail_not_blank 2) by lia. apply andb_false_r. }
  by rewrite IH.
Qed.

End StringFacts.

Section ParserFacts.
Context {R : Type}.
Variable mk : string → string → string → R.

Lemma parseLine_skipped (line : string) :
  isDataLine line = false → parseLine mk line = [].
Proof.
  unfold isDataLine, parseLine. destruct (startsWith "text" line); [done|].
  cbn. by intros ->.
Qed.

Lemma parseLines_filter (lines : list string) :
  parseLines mk (filter (λ l, isDataLine l = true) lines) = parseLines mk lines.
Proof.
  unfold parseLines. induction lines as [|l lines IH]; [done|].
  rewrite filter_cons. destruct (decide (isDataLine l = true)) as [Hd|Hd].
  - cbn. by rewrite IH.
  - cbn. rewrite IH, parseLine_skipped; [done|]. by destruct (isDataLine l).
Qed.

Lemma startsWith_text_trimEnd (line : string) :
  startsWith "text" line = true → startsWith "text" (trimEnd line) = true.
Proof.
  intros [r ->]%startsWith_split. rewrite trimEnd_app.
  by destruct (trimEnd r).
Qed.

Lemma parseLine_trimEnd (line : string) :
  (isDataLine line = true → trimEnd line = line) →
  parseLine mk (trimEnd line) = parseLine mk line.
Proof.
  intros Hdata. destruct (isDataLine line) eqn:Hd; [by rewrite Hdata|].
  rewrite (parseLine_skipped line) by done.
  unfold isDataLine in Hd. unfold parseLine.
  destruct (startsWith "text" line) eqn:Hs.
  - by rewrite startsWith_text_trimEnd.
  - cbn in Hd. assert (trim line = "") as Hblank.
    { by destruct (trim line). }
    apply (proj1 (trim_empty line)) in Hblank. by rewrite Hblank.
Qed.

Lemma blank_not_data (line : string) :
  allWhiteSpace line = true → isDataLine line = false.
Proof.
  intros Hb. unfold isDataLine.
  assert (trim line = "") as ->; [|apply andb_false_r].
  by apply (proj2 (trim_empty line)), allWhiteSpace_trimEnd.
Qed.

(** Trimming the end of the whole text does not change what its lines
    parse to, as long as the last data line has no white space at its
    end. *)
Lemma parseLines_trimEnd_join (lines : list string) :
  Forall (λ l, hasChar LF l = false) lines →
  (∀ d, last (filter (λ l, isDataLine l = true) lines) = Some d →
        trimEnd d = d) →
  parseLines mk (split LF (trimEnd (join LF lines))) = parseLines mk lines.
Proof.
  induction 1 as [|l lines Hl Hrest IH]; intros Hlast; [reflexivity|].
  destruct lines as [|l' lines].
  - cbn [join].
    rewrite split_without_separator by (by apply hasChar_trimEnd).
    unfold parseLines. cbn. f_equal. apply parseLine_trimEnd.
    intros Hd. apply Hlast. rewrite filter_cons, decide_True by done. done.
  - rewrite join_cons_cons, trimEnd_app.
    set (rest := join LF (l' :: lines)) in *.
    assert (∀ d, last (filter (λ l, isDataLine l = true) (l' :: lines)) = Some d
                 → trimEnd d = d) as Hlast'.
    { intros d Hd. apply Hlast. rewrite filter_cons.
      destruct (decide (isDataLine l = true)); [|done].
      destruct (filter _ (l' :: lines)); [done|]. by rewrite last_cons_cons. }
    specialize (IH Hlast').
    cbn [trimEnd]. destruct (trimEnd rest) as [|c r] eqn:Hr.
    + assert (isWhiteSpace LF = true) as -> by reflexivity.
      rewrite split_without_separator by (by apply hasChar_trimEnd).
      assert (Forall (λ p, allWhiteSpace p = true) (l' :: lines)) as Hblank.
      { by apply allWhiteSpace_join, allWhiteSpace_trimEnd. }
      assert (filter (λ l, isDataLine l = true) (l' :: lines) = []) as Hnone.
      { clear -Hblank. induction Hblank as [|p ps Hp _ IHp]; [done|].
        rewrite filter_cons, decide_False; [done|].
        by rewrite blank_not_data. }
      change (parseLines mk (l :: l' :: lines))
        with (parseLine mk l ++ parseLines mk (l' :: lines)).
      rewrite <- IH.
      change (parseLine mk (trimEnd l) ++ [] = parseLine mk l ++ []).
      f_equal. apply parseLine_trimEnd.
      intros Hd. apply Hlast. rewrite filter_cons, decide_True by done.
      by rewrite Hnone.
    + rewrite split_at_separator by done.
      change (parseLine mk l ++ parseLines mk (split LF (String c r))
              = parseLine mk l ++ parseLines mk (l' :: lines)).
      by rewrite IH.
Qed.

(** Cleaning a fenced block whose first line begins with [text]: the
    fences go and what is left is trimmed at its end. *)
Lemma cleanTsvOutput_wrapped (header : string) (body : list string) :
  startsWith "text" header = true →
  cleanTsvOutput (wrapInFence (header :: body))
  = trimEnd (join LF (header :: body)).
Proof.
  intros [h ->]%startsWith_split.
  assert (∃ x, join LF (("text" +:+ h) :: body) = String "t" x) as [x Hx].
  { destruct body as [|l body].
    - by eexists.
    - rewrite join_cons_cons. by eexists. }
  unfold cleanTsvOutput, wrapInFence. rewrite Hx.
  assert (stripOpeningFence ("```tsv" +:+ String LF (String "t" x +:+ String LF "```"))
          = String "t" x +:+ String LF "```") as ->.
  { reflexivity. }
  rewrite stripClosingFence_wrapped. reflexivity.
Qed.

End ParserFacts.

(** C7 (as amended). Take a header line that begins with [text] and any
    lines, blank lines and further header lines among them, and wrap them
    in a fenced code block. If the unwrapped equivalent, that is the data
    lines alone joined by line feeds, is a text that [cleanTsvOutput] leaves
    unchanged (it carries no fence marker of its own and no white space at
    either end), then the wrapped text and the unwrapped text parse to the
    same rows, which are the rows of the data lines. In particular the
    fenced block with the header, the line [hello<TAB>for<TAB>explains X]
    and a blank line parses to the single row of that line. *)
Theorem fenced_response_parses_like_unwrapped {R : Type}
    (mk : string → string → string → R) (header : string) (body : list string) :
  startsWith "text" header = true →
  Forall (λ l, hasChar LF l = false) (header :: body) →
  let dataLines := filter (λ l, isDataLine l = true) body in
  let unwrapped := join LF dataLines in
  cleanTsvOutput unwrapped = unwrapped →
  parseResponse mk (wrapInFence (header :: body)) = parseResponse mk unwrapped
  ∧ parseResponse mk unwrapped = parseLines mk dataLines
  ∧ parseResponse mkClass
      (wrapInFence ["text" +:+ String TAB "label" +:+ String TAB "explanation";
                    "hello" +:+ String TAB "for" +:+ String TAB "explains X";
                    ""])
    = [mkClassification "hello" "for" "explains X"].
Proof.
  intros Hheader Hlines dataLines unwrapped Hclean.
  assert (Forall (λ l, hasChar LF l = false) dataLines) as Hdata.
  { apply Forall_forall. intros l [_ Hl]%list_elem_of_filter.
    apply Forall_cons in Hlines as [_ Hbody].
    by apply (proj1 (Forall_forall _ _) Hbody). }
  assert (parseResponse mk unwrapped = parseLines mk dataLines) as Hunwrapped.
  { unfold parseResponse. rewrite Hclean. subst unwrapped.
    destruct dataLines as [|d ds] eqn:Hds; [reflexivity|].
    by rewrite split_join. }
  assert (∀ d, last dataLines = Some d → trimEnd d = d) as Hlast.
  { intros d Hd. apply last_Some in Hd as [ds Hds].
    assert (isDataLine d = true) as Hisdata.
    { assert (d ∈ dataLines) as Hin by (rewrite Hds, elem_of_app, list_elem_of_singleton; auto).
      by apply list_elem_of_filter in Hin as [? _]. }
    assert (trimEnd unwrapped = unwrapped) as Htrim.
    { rewrite <- Hclean. unfold cleanTsvOutput, trim. apply trimEnd_idem. }
    subst unwrapped. rewrite Hds in Htrim.
    destruct (join_snoc LF ds d) as [before Hjoin].
    rewrite Hjoin, trimEnd_app in Htrim.
    destruct (trimEnd d) as [|c r] eqn:Hd.
    - apply (proj2 (trim_empty d)) in Hd.
      unfold isDataLine in Hisdata. rewrite Hd in Hisdata.
      by rewrite andb_false_r in Hisdata.
    - by apply append_inv_head in Htrim. }
  split_and!; [|exact Hunwrapped|vm_compute; reflexivity].
  rewrite Hunwrapped. unfold parseResponse.
  rewrite cleanTsvOutput_wrapped by done.
  rewrite parseLines_trimEnd_join.
  - change (parseLines mk (header :: body))
      with (parseLine mk header ++ parseLines mk body).
    rewrite parseLine_skipped.
    + subst dataLines. by rewrite parseLines_filter.
    + unfold isDataLine. by rewrite Hheader.
  - exact Hlines.
  - intros d Hd. apply Hlast. subst dataLines.
    rewrite filter_cons, decide_False in Hd; [done|].
    unfold isDataLine. by rewrite Hheader.
Qed.

Lemma fenced_response_parses_like_unwrapped_witness :
  let body := ["hello" +:+ String TAB "for" +:+ String TAB "explains X"; "";
               headerLine;
               "bye" +:+ String TAB "against" +:+ String TAB "explains Y"; "  "] in
  let unwrapped := join LF (filter (λ l, isDataLine l = true) body) in
  parseResponse mkClass (wrapInFence (headerLine :: body))
  = parseResponse mkClass unwrapped
  ∧ parseResponse mkClass unwrapped
    = [mkClassification "hello" "for" "explains X";
       mkClassification "bye" "against" "explains Y"].
Proof.
  cbv zeta.
  destruct (fenced_response_parses_like_unwrapped mkClass headerLine
              ["hello" +:+ String TAB "for" +:+ String TAB "explains X"; "";
               headerLine;
               "bye" +:+ String TAB "against" +:+ String TAB "explains Y"; "  "])
    as (Hsame & Hrows & _).
  - reflexivity.
  - repeat constructor.
  - vm_compute. reflexivity.
  - split; [exact Hsame|]. rewrite Hrows. vm_compute. reflexivity.
Defined.

(** C7 (counterexample). The data line begins with a space. Inside the
    fenced block, after the header, the line keeps its space and the text
    of the row is [" hello"]; as the whole unwrapped text it is trimmed and
    the text of the row is ["hello"]. *)
Lemma wrapped_and_unwrapped_differ :
  let body := [" hello" +:+ String TAB "for" +:+ String TAB "explains X"; ""] in
  let unwrapped := join LF (filter (λ l, isDataLine l = true) body) in
  unwrapped = " hello" +:+ String TAB "for" +:+ String TAB "explains X"
  ∧ parseResponse mkClass (wrapInFence (headerLine :: body))
    = [mkClassification " hello" "for" "explains X"]
  ∧ parseResponse mkClass unwrapped
    = [mkClassification "hello" "for" "explains X"]
  ∧ parseResponse mkClass (wrapInFence (headerLine :: body))
    ≠ parseResponse mkClass unwrapped.
Proof.
  cbv zeta. split_and!; try (vm_compute; reflexivity).
  vm_compute. discriminate.
Qed.


(** * Further properties of the code *)

(** ** Retryable call wrapper: every outcome *)

Section RetryOutcomes.
Variable batch : nat.
Variable generate : nat → Attempt.

(** Attempts [attempt .. k - 1] fail with retryable errors: the loop
    reaches attempt [k] after a call and a sleep for each of them. *)
Lemma retryLoop_reaches retries fuel attempt k :
  attempt ≤ k → k ≤ retries →
  (∀ a, attempt ≤ a < k →
     ∃ e, generate a = Rejects e ∧ isRetryable e = true ∧ catchCompletes e) →
  retryLoop batch generate retries (k - attempt + fuel) attempt
  = ((retryLoop batch generate retries fuel k).1,
     flat_map (λ j, [Call batch j; Sleep (RETRY_DELAY_MS * j)])
       (seq attempt (k - attempt))
     ++ (retryLoop batch generate retries fuel k).2).
Proof.
  intros Hle Hk. remember (k - attempt) as d eqn:Hd.
  revert attempt Hle Hd. induction d as [|d IH]; intros attempt Hle Hd Hfail.
  - assert (attempt = k) as -> by lia. cbn [seq flat_map app Nat.add].
    by destruct (retryLoop batch generate retries fuel k).
  - cbn [Nat.add].
    destruct (Hfail attempt) as (e & Hgen & He & Hcatch); [lia|].
    rewrite (retryLoop_rejected batch generate retries _ attempt e)
      by (done || lia).
    rewrite He. cbn [andb].
    destruct (Nat.ltb_spec attempt retries) as [_|]; [|lia].
    rewrite (IH (S attempt)) by (lia || (intros a Ha; apply Hfail; lia)).
    reflexivity.
Qed.

Lemma callsOf_retries (l : list nat) (tr : list Event) :
  callsOf (flat_map (λ j, [Call batch j; Sleep (RETRY_DELAY_MS * j)]) l ++ tr)
  = ((λ a, (batch, a)) <$> l) ++ callsOf tr.
Proof. induction l as [|j l IH]; [done|]. cbn. f_equal. exact IH. Qed.

Lemma sleepsOf_retries (l : list nat) (tr : list Event) :
  sleepsOf (flat_map (λ j, [Call batch j; Sleep (RETRY_DELAY_MS * j)]) l ++ tr)
  = ((λ j, RETRY_DELAY_MS * j) <$> l) ++ sleepsOf tr.
Proof. induction l as [|j l IH]; [done|]. cbn. f_equal. exact IH. Qed.

Lemma events_call (b a : nat) (tr : list Event) :
  callsOf (Call b a :: tr) = (b, a) :: callsOf tr
  ∧ sleepsOf (Call b a :: tr) = sleepsOf tr.
Proof. done. Qed.

Lemma events_sleep (ms : nat) (tr : list Event) :
  callsOf (Sleep ms :: tr) = callsOf tr
  ∧ sleepsOf (Sleep ms :: tr) = ms :: sleepsOf tr.
Proof. done. Qed.

(** One iteration of the loop whose call is rejected with a value on which
    the [catch] block throws. *)
Lemma retryLoop_raises retries fuel attempt error raised :
  attempt ≤ retries → generate attempt = Rejects error →
  catchRaises error = Some raised →
  retryLoop batch generate retries (S fuel) attempt
  = (Throw raised, [Call batch attempt]).
Proof.
  intros Hle Hgen Hraised. cbn [retryLoop].
  destruct (Nat.leb_spec attempt retries) as [_|]; [|lia].
  rewrite Hgen. unfold catchRaises in Hraised.
  destruct (testsRaise error) as [r|]; [by injection Hraised as ->|].
  rewrite Hraised. by destruct (isRetryable error && (attempt <? retries)%nat).
Qed.

(** The shape of every run of the loop that has fuel for the attempts
    left: [m] consecutive attempts, a sleep between two of them, and the
    reason for which the last attempt was the last. *)
Lemma retryLoop_shape retries fuel attempt :
  S retries - attempt ≤ fuel →
  let run := retryLoop batch generate retries fuel attempt in
  ∃ m, m ≤ S retries - attempt
    ∧ callsOf run.2 = (λ a, (batch, a)) <$> seq attempt m
    ∧ sleepsOf run.2 = (λ j, RETRY_DELAY_MS * j) <$> seq attempt (m - 1)
    ∧ (attempt ≤ retries → 0 < m)
    ∧ (∀ text, run.1 = Normal (Some text) →
         0 < m ∧ generate (attempt + m - 1) = Returns text)
    ∧ (run.1 = Normal None → 0 < m →
         ∃ e, generate (attempt + m - 1) = Rejects e
           ∧ catchCompletes e
           ∧ (isRetryable e = false ∨ attempt + m - 1 = retries))
    ∧ (∀ raised, run.1 = Throw raised →
         0 < m ∧ ∃ e, generate (attempt + m - 1) = Rejects e
                   ∧ catchRaises e = Some raised).
Proof.
  revert attempt. induction fuel as [|fuel IH]; intros attempt Hfuel; cbn zeta.
  - exists 0. cbn [retryLoop].
    destruct (Nat.leb_spec attempt retries) as [|_]; [lia|].
    cbn. split_and!; try done; lia.
  - destruct (Nat.leb_spec attempt retries) as [Hle|Hgt].
    2:{ exists 0. cbn [retryLoop].
        destruct (Nat.leb_spec attempt retries) as [|_]; [lia|].
        cbn. split_and!; try done; lia. }
    destruct (generate attempt) as [text|e] eqn:Hgen.
    { exists 1. cbn [retryLoop].
      destruct (Nat.leb_spec attempt retries) as [_|]; [|lia].
      rewrite Hgen. cbn. replace (attempt + 1 - 1) with attempt by lia.
      split_and!; try done; try lia.
      intros text' [= <-]. split; [lia|done]. }
    destruct (catchRaises e) as [raised|] eqn:Hraised.
    { exists 1. rewrite (retryLoop_raises retries fuel attempt e raised) by done.
      cbn. replace (attempt + 1 - 1) with attempt by lia.
      split_and!; try done; try lia.
      intros raised' [= <-]. split; [lia|]. by exists e. }
    assert (catchCompletes e) as Hcompletes.
    { unfold catchRaises in Hraised. unfold catchCompletes.
      by destruct (testsRaise e). }
    rewrite (retryLoop_rejected batch generate retries fuel attempt e) by done.
    destruct (isRetryable e && (attempt <? retries)%nat) eqn:Hretry.
    + apply andb_true_iff in Hretry as [He Hlt%Nat.ltb_lt].
      destruct (IH (S attempt))
        as (m & Hm & Hcalls & Hsleeps & Hpos & Hok & Hko & Hthrow); [lia|].
      destruct (retryLoop batch generate retries fuel (S attempt)) as [r tr].
      cbn [fst snd] in *. specialize (Hpos ltac:(lia)).
      exists (S m). replace (attempt + S m - 1) with (S attempt + m - 1) by lia.
      split_and!; try lia.
      * rewrite (proj1 (events_call _ _ _)), (proj1 (events_sleep _ _)), Hcalls.
        reflexivity.
      * rewrite (proj2 (events_call _ _ _)), (proj2 (events_sleep _ _)), Hsleeps.
        replace (S m - 1) with (S (m - 1)) by lia. reflexivity.
      * intros text Hr. destruct (Hok text Hr). split; [lia|done].
      * intros Hr _. by apply Hko.
      * intros raised Hr. destruct (Hthrow raised Hr). split; [lia|done].
    + exists 1. cbn. replace (attempt + 1 - 1) with attempt by lia.
      split_and!; try done; try lia.
      intros _ _. exists e. split; [done|]. split; [done|].
      apply andb_false_iff in Hretry as [He|Hlt%Nat.ltb_ge]; [by left|right; lia].
Qed.

End RetryOutcomes.

Lemma seq_until_last (k : nat) : 1 ≤ k → seq 1 k = seq 1 (k - 1) ++ [k].
Proof.
  intros Hk. destruct k as [|k]; [lia|].
  rewrite seq_S. cbn [Nat.sub]. by rewrite Nat.sub_0_r.
Qed.

(** X1. When the attempts before the [k]-th fail with retryable errors
    (values for which [isRetryable] is true and on which the [catch] block
    does not throw, as is every error object with a [name] and a [message]
    that are strings or absent) and the [k]-th returns ([k] not above the
    number of attempts allowed), [processBatchWithRetry] returns the text of
    attempt [k]: it has called [generateText] [k] times, has slept
    [RETRY_DELAY_MS · j] after each failed attempt [j], and makes no further
    call. With [k = 1] the first call returns and nothing is slept. *)
Theorem retry_returns_first_success (batch retries k : nat)
    (generate : nat → Attempt) (text : string) :
  1 ≤ k → k ≤ retries →
  (∀ a, 1 ≤ a < k →
     ∃ e, generate a = Rejects e ∧ isRetryable e = true ∧ catchCompletes e) →
  generate k = Returns text →
  let run := processBatchWithRetry batch generate retries in
  run.1 = Normal (Some text)
  ∧ callsOf run.2 = (λ a, (batch, a)) <$> seq 1 k
  ∧ sleepsOf run.2 = (λ j, RETRY_DELAY_MS * j) <$> seq 1 (k - 1)
  ∧ totalSleep run.2 = RETRY_DELAY_MS * sum_list (seq 1 (k - 1)).
Proof.
  intros Hk Hle Hfail Hgen run. subst run. unfold processBatchWithRetry, totalSleep.
  pose proof (retryLoop_reaches batch generate retries (S (retries - k)) 1 k
                Hk Hle Hfail) as Hreach.
  replace (k - 1 + S (retries - k)) with retries in Hreach by lia.
  rewrite Hreach. clear Hreach.
  cbn [retryLoop]. destruct (Nat.leb_spec k retries) as [_|]; [|lia].
  rewrite Hgen. cbn [fst snd].
  rewrite callsOf_retries, sleepsOf_retries, app_nil_r, sum_list_scaled.
  split_and!; try done.
  rewrite (seq_until_last k) by done. by rewrite fmap_app.
Qed.

Lemma retry_returns_first_success_witness :
  let run := processBatchWithRetry 0 (attemptOf ∘ flaky 0) MAX_RETRIES in
  run.1 = Normal (Some ("hello" +:+ String TAB "for" +:+ String TAB "explains X"))
  ∧ callsOf run.2 = [(0, 1); (0, 2)]
  ∧ sleepsOf run.2 = [2000]
  ∧ totalSleep run.2 = RETRY_DELAY_MS * sum_list (seq 1 (2 - 1)).
Proof.
  apply (retry_returns_first_success 0 MAX_RETRIES 2 (attemptOf ∘ flaky 0)).
  - lia.
  - unfold MAX_RETRIES. lia.
  - intros a Ha. assert (a = 1) as -> by lia.
    exists rateLimited. split; [reflexivity|].
    split; [vm_compute; reflexivity|apply thrownError_completes].
  - reflexivity.
Defined.

(** X2. When the attempts before the [k]-th fail with retryable errors
    (values for which [isRetryable] is true and on which the [catch] block
    does not throw) and the [k]-th fails with an error object (its [name]
    and [message] strings or absent) that is not retryable,
    [processBatchWithRetry] returns [null] at once: [k] calls have been
    made, the error of attempt [k] is followed by no sleep and by no further
    attempt, however many attempts were allowed. *)
Theorem retry_gives_up_on_fatal_error (batch retries k : nat)
    (generate : nat → Attempt) (error : Error) :
  1 ≤ k → k ≤ retries →
  (∀ a, 1 ≤ a < k →
     ∃ e, generate a = Rejects e ∧ isRetryable e = true ∧ catchCompletes e) →
  generate k = Rejects error → isRetryable error = false →
  let run := processBatchWithRetry batch generate retries in
  run.1 = Normal None
  ∧ callsOf run.2 = (λ a, (batch, a)) <$> seq 1 k
  ∧ sleepsOf run.2 = (λ j, RETRY_DELAY_MS * j) <$> seq 1 (k - 1)
  ∧ last run.2 = Some (Call batch k).
Proof.
  intros Hk Hle Hfail Hgen Hfatal run. subst run. unfold processBatchWithRetry.
  pose proof (retryLoop_reaches batch generate retries (S (retries - k)) 1 k
                Hk Hle Hfail) as Hreach.
  replace (k - 1 + S (retries - k)) with retries in Hreach by lia.
  rewrite Hreach. clear Hreach.
  rewrite (retryLoop_rejected batch generate retries _ k error)
    by (done || apply thrownError_completes).
  rewrite Hfatal. cbn [andb fst snd].
  rewrite callsOf_retries, sleepsOf_retries, app_nil_r, last_snoc.
  split_and!; try done.
  rewrite (seq_until_last k) by done. by rewrite fmap_app.
Qed.

Lemma retry_gives_up_on_fatal_error_witness :
  let run := processBatchWithRetry 7 (attemptOf ∘ rateLimitedThenFatal) 5 in
  run.1 = Normal None
  ∧ callsOf run.2 = [(7, 1); (7, 2)]
  ∧ sleepsOf run.2 = [2000]
  ∧ last run.2 = Some (Call 7 2).
Proof.
  apply (retry_gives_up_on_fatal_error 7 5 2 (attemptOf ∘ rateLimitedThenFatal)
           syntaxError).
  - lia.
  - lia.
  - intros a Ha. assert (a = 1) as -> by lia.
    exists rateLimited. split; [reflexivity|].
    split; [vm_compute; reflexivity|apply thrownError_completes].
  - reflexivity.
  - vm_compute. reflexivity.
Defined.

(** X3. Whatever the calls do, [processBatchWithRetry] makes at most
    [retries] attempts, numbered from 1 without a gap, and sleeps
    [RETRY_DELAY_MS · j] after attempt [j] for every attempt but the last; it
    makes no call at all when [retries] is 0 and at least one otherwise. A
    text returned is the text of the last attempt; [null] is returned only
    after an attempt that threw a value which the [catch] block handles,
    and before the attempts are used up only if that error is not
    retryable; and the wrapper throws only what its [catch] block raises on
    the value thrown by the last attempt. *)
Theorem retry_attempts_are_bounded (batch retries : nat)
    (generate : nat → Attempt) :
  let run := processBatchWithRetry batch generate retries in
  let attempts := length (callsOf run.2) in
  attempts ≤ retries
  ∧ (0 < retries ↔ 0 < attempts)
  ∧ callsOf run.2 = (λ a, (batch, a)) <$> seq 1 attempts
  ∧ sleepsOf run.2 = (λ j, RETRY_DELAY_MS * j) <$> seq 1 (attempts - 1)
  ∧ (∀ text, run.1 = Normal (Some text) → generate attempts = Returns text)
  ∧ (run.1 = Normal None → 0 < retries →
       ∃ e, generate attempts = Rejects e
         ∧ catchCompletes e
         ∧ (isRetryable e = false ∨ attempts = retries))
  ∧ (∀ raised, run.1 = Throw raised →
       ∃ e, generate attempts = Rejects e ∧ catchRaises e = Some raised).
Proof.
  cbv zeta. unfold processBatchWithRetry.
  destruct (retryLoop_shape batch generate retries retries 1)
    as (m & Hm & Hcalls & Hsleeps & Hpos & Hok & Hko & Hthrow); [lia|].
  cbv zeta in *.
  assert (length (callsOf (retryLoop batch generate retries retries 1).2) = m)
    as ->.
  { by rewrite Hcalls, length_fmap, length_seq. }
  split_and!; try done; try lia.
  - intros text Hr. destruct (Hok text Hr) as [Hm1 Hgen].
    by replace (1 + m - 1) with m in Hgen by lia.
  - intros Hr Hretries. destruct (Hko Hr) as (e & Hgen & He); [lia|].
    exists e. replace (1 + m - 1) with m in * by lia. done.
  - intros raised Hr. destruct (Hthrow raised Hr) as (Hm1 & e & Hgen & He).
    exists e. replace (1 + m - 1) with m in * by lia. done.
Qed.

(** ** The two batch splitters *)

Lemma createBatches_concat {A : Type} (size : nat) (rows : list A) :
  0 < size → concat (createBatches size rows) = rows.
Proof.
  intros Hpos. unfold createBatches.
  destruct (splitInv_fold size Hpos rows) as (full & cur & -> & _ & _ & _ & _ & <-).
  rewrite concat_app. cbn. by rewrite app_nil_r.
Qed.

(** X4. For a positive batch size the splitter of the orchestrator cuts the
    rows into consecutive runs: the batches concatenated are the rows, in
    order; there are [N / size + 1] of them; batch [i] is the slice of the
    rows from position [i · size]; every batch but the last holds exactly
    [size] rows and the last one holds the [N mod size] rows left, so it is
    never full and is empty when [size] divides [N]. *)
Theorem createBatches_partitions_rows {A : Type} (size : nat) (rows : list A) :
  0 < size →
  let bs := createBatches size rows in
  concat bs = rows
  ∧ length bs = length rows / size + 1
  ∧ (∀ i b, bs !! i = Some b → b = slice size rows i)
  ∧ (∀ i b, bs !! i = Some b → i + 1 < length bs → length b = size)
  ∧ (∃ final, last bs = Some final ∧ length final = length rows mod size).
Proof.
  intros Hpos bs. subst bs. split_and!.
  - by apply createBatches_concat.
  - by apply createBatches_length.
  - intros i b Hb.
    rewrite createBatches_lookup in Hb by (done || by eapply lookup_lt_Some).
    congruence.
  - unfold createBatches.
    destruct (splitInv_fold size Hpos rows)
      as (full & cur & -> & _ & _ & _ & Hfull & _).
    intros i b Hb. rewrite length_app. cbn. intros Hi.
    rewrite lookup_app_l in Hb by lia.
    by apply (proj1 (Forall_lookup _ _) Hfull i b).
  - unfold createBatches.
    destruct (splitInv_fold size Hpos rows)
      as (full & cur & -> & _ & _ & Hlt & Hfull & <-).
    exists cur. split; [apply last_snoc|].
    rewrite length_app, (length_concat_uniform size) by done.
    apply Nat.mod_unique with (length full); lia.
Qed.

Lemma createBatches_partitions_rows_witness :
  let bs := createBatches 2 ["a"; "b"; "c"; "d"; "e"] in
  concat bs = ["a"; "b"; "c"; "d"; "e"]
  ∧ length bs = 5 / 2 + 1
  ∧ (∀ i b, bs !! i = Some b → b = slice 2 ["a"; "b"; "c"; "d"; "e"] i)
  ∧ (∀ i b, bs !! i = Some b → i + 1 < length bs → length b = 2)
  ∧ (∃ final, last bs = Some final ∧ length final = 5 mod 2).
Proof. apply (createBatches_partitions_rows 2 ["a"; "b"; "c"; "d"; "e"]). lia. Defined.

Lemma ceilDiv_spec (n size : nat) :
  0 < size →
  ceilDiv n size = n / size + (if decide (n mod size = 0) then 0 else 1).
Proof.
  intros Hpos. unfold ceilDiv.
  pose proof (Nat.div_mod_eq n size) as Hn.
  pose proof (Nat.mod_upper_bound n size ltac:(lia)) as Hr.
  destruct (decide (n mod size = 0)) as [H0|H0]; symmetry.
  - apply Nat.div_unique with (size - 1); lia.
  - apply Nat.div_unique with (n mod size - 1); lia.
Qed.

Lemma ceilDiv_le (n size k : nat) :
  0 < size → ceilDiv n size ≤ k ↔ n ≤ k * size.
Proof.
  intros Hpos. rewrite ceilDiv_spec by done.
  pose proof (Nat.div_mod_eq n size) as Hn.
  pose proof (Nat.mod_upper_bound n size ltac:(lia)) as Hr.
  destruct (decide (n mod size = 0)); nia.
Qed.

Lemma batchLoop_spec {A : Type} (size : nat) (rows : list A) (fuel k : nat) :
  0 < size → length rows ≤ (k + fuel) * size →
  RetryMissing.batchLoop size rows fuel (k * size)
  = slice size rows <$> seq k (ceilDiv (length rows) size - k).
Proof.
  intros Hpos. revert k. induction fuel as [|fuel IH]; intros k Hfuel.
  - assert (ceilDiv (length rows) size ≤ k) as Hc by (apply ceilDiv_le; lia).
    by replace (ceilDiv (length rows) size - k) with 0 by lia.
  - cbn [RetryMissing.batchLoop].
    destruct (Nat.ltb_spec (k * size) (length rows)) as [Hlt|Hge].
    + assert (¬ ceilDiv (length rows) size ≤ k) as Hc.
      { rewrite ceilDiv_le by done. lia. }
      replace (ceilDiv (length rows) size - k)
        with (S (ceilDiv (length rows) size - S k)) by lia.
      replace (k * size + size) with (S k * size) by lia.
      rewrite IH by lia. reflexivity.
    + assert (ceilDiv (length rows) size ≤ k) as Hc by (apply ceilDiv_le; lia).
      by replace (ceilDiv (length rows) size - k) with 0 by lia.
Qed.

Lemma sliceBatches_slices {A : Type} (size : nat) (rows : list A) :
  0 < size →
  RetryMissing.sliceBatches size rows
  = slice size rows <$> seq 0 (ceilDiv (length rows) size).
Proof.
  intros Hpos. unfold RetryMissing.sliceBatches.
  pose proof (batchLoop_spec size rows (length rows) 0 Hpos) as Hspec.
  rewrite Nat.mul_0_l, Nat.sub_0_r in Hspec. apply Hspec. nia.
Qed.

(** X5. For a positive batch size the loop of the retry-missing script
    makes [ceil(N / size)] batches, which is the [totalBatches] that it
    prints; batch [i] is the slice of the rows from position [i · size]; no
    batch is empty and none exceeds [size]; the batches concatenated are the
    rows. The splitter of the orchestrator makes the same batches, followed
    by one empty batch exactly when [size] divides [N]. *)
Theorem sliceBatches_against_createBatches {A : Type} (size : nat)
    (rows : list A) :
  0 < size →
  let bs := RetryMissing.sliceBatches size rows in
  length bs = ceilDiv (length rows) size
  ∧ (∀ i, i < length bs → bs !! i = Some (slice size rows i))
  ∧ Forall (λ b, 0 < length b ≤ size) bs
  ∧ createBatches size rows
    = bs ++ (if decide (length rows mod size = 0) then [[]] else [])
  ∧ concat bs = rows.
Proof.
  intros Hpos bs. subst bs. rewrite sliceBatches_slices by done.
  set (c := ceilDiv (length rows) size).
  assert (length (slice size rows <$> seq 0 c) = c) as Hlen.
  { by rewrite length_fmap, length_seq. }
  assert (∀ i, i < c →
            (slice size rows <$> seq 0 c) !! i = Some (slice size rows i))
    as Hlookup.
  { intros i Hi. by rewrite list_lookup_fmap, lookup_seq_lt. }
  assert (createBatches size rows
          = (slice size rows <$> seq 0 c)
            ++ (if decide (length rows mod size = 0) then [[]] else []))
    as Hcreate.
  { apply list_eq. intros i.
    pose proof (createBatches_length size Hpos rows) as Hn.
    pose proof (ceilDiv_spec (length rows) size Hpos) as Hc. fold c in Hc.
    destruct (decide (i < length (createBatches size rows))) as [Hi|Hi].
    - rewrite createBatches_lookup by done.
      destruct (decide (i < c)) as [Hic|Hic].
      + rewrite lookup_app_l by lia. by rewrite Hlookup.
      + destruct (decide (length rows mod size = 0)) as [H0|H0]; [|lia].
        assert (i = c) as -> by lia.
        rewrite lookup_app_r by lia. rewrite Hlen, Nat.sub_diag. cbn.
        f_equal. unfold slice. rewrite drop_ge; [by rewrite take_nil|].
        pose proof (Nat.div_mod_eq (length rows) size). nia.
    - rewrite lookup_ge_None_2 by lia. symmetry. apply lookup_ge_None_2.
      rewrite length_app, Hlen. destruct (decide (length rows mod size = 0)); cbn; lia. }
  split_and!.
  - exact Hlen.
  - intros i Hi. apply Hlookup. lia.
  - apply Forall_forall. intros b Hb.
    apply list_elem_of_fmap in Hb as (i & -> & Hi). apply elem_of_seq in Hi.
    assert (i * size < length rows) as Hlt.
    { destruct (decide (i * size < length rows)) as [|Hge]; [done|].
      assert (c ≤ i) by (apply ceilDiv_le; lia). lia. }
    unfold slice. rewrite length_take, length_drop. lia.
  - exact Hcreate.
  - rewrite <- (createBatches_concat size rows Hpos) at 2.
    rewrite Hcreate, concat_app.
    destruct (decide (length rows mod size = 0)); cbn; by rewrite app_nil_r.
Qed.

Lemma sliceBatches_against_createBatches_witness :
  let rows := ["a"; "b"; "c"; "d"] in
  let bs := RetryMissing.sliceBatches 2 rows in
  length bs = ceilDiv 4 2
  ∧ (∀ i, i < length bs → bs !! i = Some (slice 2 rows i))
  ∧ Forall (λ b, 0 < length b ≤ 2) bs
  ∧ createBatches 2 rows = bs ++ [[]]
  ∧ concat bs = rows.
Proof.
  apply (sliceBatches_against_createBatches 2 ["a"; "b"; "c"; "d"]). lia.
Defined.

(** ** Batch orchestrator: what a run leaves behind *)

Section RunFacts.
Context {Row R : Type}.
Variable mk : string → string → string → R.
Variable act : Action.
Variables tgt lang mt : string.

Lemma run_results (clock : nat → string)
    (generateText : nat → nat → Completion string)
    (loaded : option CheckpointData) (dataRows : list Row) (order : list nat) :
  let n := length (createBatches BATCH_SIZE dataRows) in
  let start := (initCheckpoint act tgt lang mt clock loaded n).1 in
  order ≡ₚ pending start n →
  ∀ i, i < n →
    results (o_checkpoint (runBatches mk act tgt lang mt clock generateText
                             loaded dataRows order)) !! i
    = resultAfterRun generateText start i.
Proof.
  intros n start Horder i Hi. unfold runBatches. cbn [o_checkpoint].
  fold n. rewrite results_after_completions. fold start.
  unfold resultAfterRun, isProcessed.
  destruct (generateText i 1) as [text|e].
  - destruct (decide (i ∈ order)) as [Hin|Hnin].
    + rewrite Horder in Hin. apply pending_spec in Hin as [_ Hnp].
      by rewrite bool_decide_eq_false_2.
    + rewrite bool_decide_eq_true_2; [done|].
      destruct (decide (i ∈ processedBatches start)) as [|Hnp]; [done|].
      exfalso. apply Hnin. rewrite Horder. by apply pending_spec.
  - by destruct (bool_decide _).
Qed.

Lemma run_allResults (clock : nat → string)
    (generateText : nat → nat → Completion string)
    (loaded : option CheckpointData) (dataRows : list Row) (order : list nat) :
  let n := length (createBatches BATCH_SIZE dataRows) in
  let start := (initCheckpoint act tgt lang mt clock loaded n).1 in
  order ≡ₚ pending start n →
  o_allResults (runBatches mk act tgt lang mt clock generateText loaded
                  dataRows order)
  = omap (λ i, keepNonEmpty (resultAfterRun generateText start i)) (seq 0 n).
Proof.
  intros n start Horder.
  pose proof (run_results clock generateText loaded dataRows order Horder)
    as Hres.
  unfold runBatches in *. cbn [o_allResults o_checkpoint] in *.
  fold n in Hres |- *. fold start in Hres |- *. unfold collect.
  assert (Forall (λ i, i < n) (seq 0 n)) as Hseq.
  { apply Forall_forall. intros i Hi. apply elem_of_seq in Hi. lia. }
  induction Hseq as [|i l Hi _ IH]; [done|].
  cbn [omap list_omap]. rewrite IH, Hres by done. unfold keepNonEmpty.
  by destruct (resultAfterRun generateText start i).
Qed.

Lemma run_processed (clock : nat → string)
    (generateText : nat → nat → Completion string)
    (loaded : option CheckpointData) (dataRows : list Row) (order : list nat) :
  let n := length (createBatches BATCH_SIZE dataRows) in
  let start := (initCheckpoint act tgt lang mt clock loaded n).1 in
  order ≡ₚ pending start n →
  processedBatches (o_checkpoint (runBatches mk act tgt lang mt clock
                                    generateText loaded dataRows order))
  ≡ₚ processedBatches start ++ returning generateText (pending start n).
Proof.
  intros n start Horder. unfold runBatches. cbn [o_checkpoint]. fold n.
  rewrite processed_after_completions. fold start. unfold returning.
  by rewrite Horder.
Qed.


End RunFacts.



(** X6. The order in which the calls of a run complete changes neither the
    results held by the checkpoint at the end, nor the set of batches
    recorded as processed, nor the raw texts collected, nor the rows
    returned: the texts are collected from the checkpoint by batch index
    once every call has ended. *)
Theorem completion_order_is_irrelevant {Row R : Type}
    (mk : string → string → string → R) (act : Action) (tgt lang mt : string)
    (clock : nat → string) (generateText : nat → nat → Completion string)
    (loaded : option CheckpointData) (dataRows : list Row)
    (order1 order2 : list nat) :
  order1 ≡ₚ order2 →
  let out1 := runBatches mk act tgt lang mt clock generateText loaded
                dataRows order1 in
  let out2 := runBatches mk act tgt lang mt clock generateText loaded
                dataRows order2 in
  results (o_checkpoint out1) = results (o_checkpoint out2)
  ∧ processedBatches (o_checkpoint out1) ≡ₚ processedBatches (o_checkpoint out2)
  ∧ o_allResults out1 = o_allResults out2
  ∧ o_output out1 = o_output out2.
Proof.
  intros Hperm out1 out2.
  assert (results (o_checkpoint out1) = results (o_checkpoint out2)) as Hres.
  { subst out1 out2. unfold runBatches. cbn [o_checkpoint].
    apply map_eq. intros j. rewrite !results_after_completions.
    destruct (generateText j 1) as [text|e]; [|done].
    destruct (decide (j ∈ order1)) as [H1|H1], (decide (j ∈ order2)) as [H2|H2];
      try done; exfalso; rewrite Hperm in H1; done. }
  assert (o_allResults out1 = o_allResults out2) as Hall.
  { subst out1 out2. unfold runBatches in *. cbn [o_allResults o_checkpoint] in *.
    apply collect_ext. intros i _. by rewrite Hres. }
  split_and!.
  - exact Hres.
  - subst out1 out2. unfold runBatches. cbn [o_checkpoint].
    rewrite !processed_after_completions. by rewrite Hperm.
  - exact Hall.
  - subst out1 out2. unfold runBatches in *. cbn [o_output o_allResults] in *.
    by rewrite Hall.
Qed.

Lemma completion_order_is_irrelevant_witness :
  let out1 := classifyAndExplainStance "lula" "portuguese" "gpt-5" stamp
                threeAnswers None (replicate 250 "tweet") [0; 1; 2] in
  let out2 := classifyAndExplainStance "lula" "portuguese" "gpt-5" stamp
                threeAnswers None (replicate 250 "tweet") [2; 0; 1] in
  results (o_checkpoint out1) = results (o_checkpoint out2)
  ∧ processedBatches (o_checkpoint out1) ≡ₚ processedBatches (o_checkpoint out2)
  ∧ o_allResults out1 = o_allResults out2
  ∧ o_output out1 = o_output out2.
Proof.
  apply (completion_order_is_irrelevant mkClass classify "lula" "portuguese"
           "gpt-5" stamp threeAnswers None (replicate 250 "tweet")
           [0; 1; 2] [2; 0; 1]).
  symmetry. apply (Permutation_cons_append [0; 1] 2).
Defined.






Lemma parseAll_skip {R : Type} (mk : string → string → string → R)
    (f : nat → option string) (i : nat) (l : list nat) :
  (∀ text, f i = Some text → parseResponse mk text = []) →
  parseAll mk (omap f l)
  = parseAll mk (omap (λ j, if decide (j = i) then None else f j) l).
Proof.
  intros Hnone. unfold parseAll. induction l as [|j l IH]; [done|].
  cbn [omap list_omap]. destruct (decide (j = i)) as [->|Hne].
  - destruct (f i) as [text|] eqn:Hf; [|exact IH].
    cbn [flat_map]. by rewrite (Hnone text), IH.
  - destruct (f j) as [text|]; [|exact IH]. cbn [flat_map]. by rewrite IH.
Qed.

(** X10. A call that returns a text without any row that the parser
    accepts (a refusal, an apology, the empty text) counts as a success: the
    batch is recorded as processed and is not reported as failed, it
    contributes no row to the output, and no later run that starts from the
    checkpoint calls the model for it again. *)
Theorem reply_without_rows_is_not_retried {Row R : Type}
    (mk : string → string → string → R) (act : Action) (tgt lang mt : string)
    (clock : nat → string) (generateText : nat → nat → Completion string)
    (loaded : option CheckpointData) (dataRows : list Row) (order : list nat)
    (i : nat) (text : string) :
  let n := length (createBatches BATCH_SIZE dataRows) in
  let start := (initCheckpoint act tgt lang mt clock loaded n).1 in
  order ≡ₚ pending start n →
  i < n → i ∉ processedBatches start →
  generateText i 1 = Normal text →
  parseResponse mk text = [] →
  let out := runBatches mk act tgt lang mt clock generateText loaded
               dataRows order in
  i ∈ processedBatches (o_checkpoint out)
  ∧ (∀ m, i ∉ pending (o_checkpoint out) m)
  ∧ (∃ r, o_batchResults out !! i = Some r ∧ isFailed r = false)
  ∧ o_output out
    = parseAll mk
        (omap (λ j, if decide (j = i) then None
                    else keepNonEmpty (resultAfterRun generateText start j))
           (seq 0 n))
  ∧ parseResponse mk "" = [].
Proof.
  intros n start Horder Hi Hnp Hgen Hrows out.
  assert (i ∈ processedBatches (o_checkpoint out)) as Hdone.
  { pose proof (run_processed mk act tgt lang mt clock generateText loaded
                  dataRows order Horder) as Hproc.
    fold n in Hproc. fold start in Hproc. fold out in Hproc.
    rewrite Hproc, elem_of_app. right. unfold returning.
    apply list_elem_of_filter. rewrite Hgen. split; [done|].
    by apply pending_spec. }
  split_and!.
  - exact Hdone.
  - intros m Hin. apply pending_spec in Hin as [_ Hin]. done.
  - exists (mkBatchResult i (Some text) false). split; [|done].
    subst out. unfold runBatches. cbn [o_batchResults]. fold n. fold start.
    rewrite list_lookup_fmap, lookup_seq_lt by done. cbn.
    unfold batchResult, isProcessed.
    by rewrite bool_decide_eq_false_2, Hgen.
  - assert (o_output out = parseAll mk (o_allResults out)) as -> by reflexivity.
    assert (o_allResults out
            = omap (λ j, keepNonEmpty (resultAfterRun generateText start j))
                (seq 0 n)) as -> by (by apply run_allResults).
    apply parseAll_skip. intros text'.
    unfold resultAfterRun, isProcessed.
    rewrite bool_decide_eq_false_2, Hgen by done. cbn.
    destruct (truthy text); [|done]. by intros [= <-].
  - reflexivity.
Qed.

Lemma reply_without_rows_is_not_retried_witness :
  let out := classifyAndExplainStance "lula" "portuguese" "gpt-5" stamp
               secondFails None (replicate 250 "tweet") [2; 0; 1] in
  0 ∈ processedBatches (o_checkpoint out)
  ∧ (∀ m, 0 ∉ pending (o_checkpoint out) m)
  ∧ o_output out = [mkClassification "t2" "for" "e2"].
Proof.
  destruct (reply_without_rows_is_not_retried mkClass classify "lula"
              "portuguese" "gpt-5" stamp secondFails None
              (replicate 250 "tweet") [2; 0; 1] 0 refusal)
    as (Hdone & Hnever & _ & Hout & _).
  - vm_compute. apply (Permutation_cons_append [0; 1] 2).
  - vm_compute. lia.
  - cbn. apply not_elem_of_nil.
  - reflexivity.
  - vm_compute. reflexivity.
  - cbv zeta. unfold classifyAndExplainStance. split_and!.
    + exact Hdone.
    + exact Hnever.
    + rewrite Hout. vm_compute. reflexivity.
Defined.

(** ** Tabular output parser: the rows it returns *)

Lemma split_pieces (c sep : ascii) (s : string) :
  (hasChar c s = false ∨ c = sep) →
  Forall (λ piece, hasChar c piece = false) (split sep s).
Proof.
  intros Hc. induction s as [|x s IH]; cbn [split].
  - by apply Forall_singleton.
  - assert (hasChar c s = false ∨ c = sep) as Hs.
    { destruct Hc as [Hc|Hc]; [|by right]. cbn in Hc.
      apply orb_false_iff in Hc as [_ Hc]. by left. }
    specialize (IH Hs). destruct (Ascii.eqb_spec x sep) as [->|Hne].
    + constructor; [done|exact IH].
    + assert (Ascii.eqb x c = false) as Hxc.
      { destruct Hc as [Hc|Hc].
        - cbn in Hc. by apply orb_false_iff in Hc as [? _].
        - subst c. by apply Ascii.eqb_neq. }
      destruct (split sep s) as [|piece rest].
      * apply Forall_singleton. cbn. by rewrite Hxc.
      * apply Forall_cons in IH as [Hpiece Hrest].
        constructor; [|exact Hrest]. cbn. by rewrite Hxc, Hpiece.
Qed.

Lemma split_head (sep : ascii) (s : string) :
  ∃ piece rest r, split sep s = piece :: rest ∧ s = piece +:+ r.
Proof.
  induction s as [|x s (piece & rest & r & Hsplit & Hs)]; cbn [split].
  - by exists "", [], "".
  - destruct (Ascii.eqb x sep).
    + by exists "", (split sep s), (String x s).
    + rewrite Hsplit. exists (String x piece), rest, r.
      split; [done|]. by rewrite append_cons, <- Hs.
Qed.

Lemma startsWith_app (p a r : string) :
  startsWith p a = true → startsWith p (a +:+ r) = true.
Proof.
  unfold startsWith. revert a. induction p as [|c p IH]; intros a Hp.
  { by destruct (a +:+ r). }
  destruct a as [|c' a]; cbn in Hp; [done|].
  rewrite append_cons. cbn. destruct (ascii_dec c c'); [|done]. by apply IH.
Qed.

Lemma parseLine_fields {R : Type} (mk : string → string → string → R)
    (line : string) :
  hasChar LF line = false →
  parseLine mk line = []
  ∨ ∃ p0 p1 p2, parseLine mk line = [mk p0 p1 p2]
      ∧ cleanField p0 ∧ cleanField p1 ∧ cleanField p2
      ∧ startsWith "text" p0 = false.
Proof.
  intros Hline. unfold parseLine.
  destruct (startsWith "text" line) eqn:Hstart; [by left|].
  destruct (truthy (trim line)); [|by left].
  pose proof (split_pieces TAB TAB line (or_intror eq_refl)) as Htab.
  pose proof (split_pieces LF TAB line (or_introl Hline)) as Hlf.
  destruct (split_head TAB line) as (piece & rest & r & Hsplit & Hs).
  destruct (split TAB line) as [|p0 [|p1 [|p2 more]]]; try by left.
  right. exists p0, p1, p2.
  apply Forall_cons in Htab as [T0 Htab]. apply Forall_cons in Htab as [T1 Htab].
  apply Forall_cons in Htab as [T2 _].
  apply Forall_cons in Hlf as [L0 Hlf]. apply Forall_cons in Hlf as [L1 Hlf].
  apply Forall_cons in Hlf as [L2 _].
  unfold cleanField. split_and!; try done.
  injection Hsplit as -> _.
  destruct (startsWith "text" piece) eqn:Hp; [|done].
  apply (startsWith_app _ _ r) in Hp. rewrite <- Hs in Hp. congruence.
Qed.

Lemma parseLine_at_most_one {R : Type} (mk : string → string → string → R)
    (line : string) :
  length (parseLine mk line) ≤ 1.
Proof.
  unfold parseLine. destruct (startsWith "text" line); [cbn; lia|].
  destruct (truthy (trim line)); [|cbn; lia].
  destruct (split TAB line) as [|p0 [|p1 [|p2 more]]]; cbn; lia.
Qed.

Lemma parseLine_natural {R S : Type} (mk : string → string → string → R)
    (f : R → S) (line : string) :
  parseLine (λ p0 p1 p2, f (mk p0 p1 p2)) line = f <$> parseLine mk line.
Proof.
  unfold parseLine. destruct (startsWith "text" line); [done|].
  destruct (truthy (trim line)); [|done].
  by destruct (split TAB line) as [|p0 [|p1 [|p2 more]]].
Qed.

Lemma parsed_rows_project (raw : string) :
  length (parseResponse mkClass raw) ≤ length (split LF (cleanTsvOutput raw))
  ∧ parseResponse mkExpl raw = explanationOf <$> parseResponse mkClass raw.
Proof.
  unfold parseResponse, parseLines.
  induction (split LF (cleanTsvOutput raw)) as [|line lines [IH1 IH2]]; [done|].
  cbn [flat_map]. split.
  - rewrite length_app. cbn [length].
    pose proof (parseLine_at_most_one mkClass line). lia.
  - rewrite fmap_app, <- IH2. f_equal.
    apply (parseLine_natural mkClass explanationOf).
Qed.

(** X11. Whatever the model replied, every row that the parser returns has
    fields without a tab and without a line feed and a text that does not
    begin with [text]; the reply gives at most one row per line; and the
    rows of the explanation step are those of the classification step with
    the label left out. *)
Theorem parsed_fields_are_clean (raw : string) :
  Forall (λ row, cleanField (c_text row) ∧ cleanField (c_label row)
                 ∧ cleanField (c_explanation row)
                 ∧ startsWith "text" (c_text row) = false)
    (parseResponse mkClass raw)
  ∧ length (parseResponse mkClass raw)
    ≤ length (split LF (cleanTsvOutput raw))
  ∧ parseResponse mkExpl raw = explanationOf <$> parseResponse mkClass raw.
Proof.
  split; [|apply parsed_rows_project].
  unfold parseResponse, parseLines.
  pose proof (split_pieces LF LF (cleanTsvOutput raw) (or_intror eq_refl))
    as Hlines.
  induction Hlines as [|line lines Hline _ IH]; [done|].
  cbn [flat_map]. apply Forall_app. split; [|exact IH].
  destruct (parseLine_fields mkClass line Hline)
    as [->|(p0 & p1 & p2 & -> & H0 & H1 & H2 & Ht)]; [done|].
  by apply Forall_singleton.
Qed.

Lemma hasChar_app (c : ascii) (a b : string) :
  hasChar c (a +:+ b) = hasChar c a || hasChar c b.
Proof.
  induction a as [|x a IH]; [done|].
  rewrite append_cons. cbn. by rewrite IH, orb_assoc.
Qed.

Lemma parseLine_tsvLine (row : Classification) :
  carriedByLine row →
  parseLine mkClass (tsvLine row) = [row]
  ∧ hasChar LF (tsvLine row) = false.
Proof.
  intros ([T0 L0] & [T1 L1] & [T2 L2] & Hdata). split.
  - unfold parseLine. unfold isDataLine in Hdata.
    apply andb_true_iff in Hdata as [Hstart Htrim].
    apply negb_true_iff in Hstart. rewrite Hstart, Htrim.
    unfold tsvLine. rewrite !split_at_separator by done.
    rewrite split_without_separator by done. by destruct row.
  - unfold tsvLine. rewrite !hasChar_app. cbn [hasChar].
    rewrite !hasChar_app. cbn [hasChar]. by rewrite L0, L1, L2.
Qed.

Lemma parseLines_tsvLines (rows : list Classification) :
  Forall carriedByLine rows →
  parseLines mkClass (tsvLine <$> rows) = rows
  ∧ Forall (λ line, hasChar LF line = false) (tsvLine <$> rows).
Proof.
  intros Hrows. split.
  - unfold parseLines. induction Hrows as [|r rs Hr _ IH]; [done|].
    rewrite fmap_cons. cbn [flat_map].
    by rewrite (proj1 (parseLine_tsvLine r Hr)), IH.
  - apply Forall_fmap. eapply Forall_impl; [exact Hrows|].
    intros r Hr. apply (parseLine_tsvLine r Hr).
Qed.

(** A reply that [cleanTsvOutput] leaves as it is parses line by line. *)
Lemma parseResponse_stable {R : Type} (mk : string → string → string → R)
    (lines : list string) :
  Forall (λ line, hasChar LF line = false) lines →
  cleanTsvOutput (join LF lines) = join LF lines →
  parseResponse mk (join LF lines) = parseLines mk lines.
Proof.
  intros Hlines Hclean. unfold parseResponse. rewrite Hclean.
  destruct lines as [|line lines]; [reflexivity|]. by rewrite split_join.
Qed.

(** X12. Writing rows as lines of tab-separated values and parsing the
    text gives the rows back, in order: this holds for rows whose fields
    hold no tab and no line feed and whose line is not one that the parser
    skips (blank, or beginning with [text]), when the text as a whole is one
    that [cleanTsvOutput] leaves as it is. The explanation step gets the
    same rows without their label. *)
Theorem tsv_lines_parse_back (rows : list Classification) :
  Forall carriedByLine rows →
  let reply := join LF (tsvLine <$> rows) in
  cleanTsvOutput reply = reply →
  parseResponse mkClass reply = rows
  ∧ parseResponse mkExpl reply = explanationOf <$> rows.
Proof.
  intros Hrows reply Hclean.
  destruct (parseLines_tsvLines rows Hrows) as [Hparsed Hlines].
  assert (parseResponse mkClass reply = rows) as Hback.
  { subst reply. by rewrite parseResponse_stable. }
  split; [exact Hback|].
  destruct (parsed_rows_project reply) as [_ ->]. by rewrite Hback.
Qed.

Lemma tsv_lines_parse_back_witness :
  let rows := [mkClassification "hello" "for" "explains X";
               mkClassification "bye" "against" "explains Y"] in
  parseResponse mkClass (join LF (tsvLine <$> rows)) = rows
  ∧ parseResponse mkExpl (join LF (tsvLine <$> rows)) = explanationOf <$> rows.
Proof.
  apply (tsv_lines_parse_back
           [mkClassification "hello" "for" "explains X";
            mkClassification "bye" "against" "explains Y"]).
  - repeat constructor.
  - vm_compute. reflexivity.
Defined.

(** ** [cleanTsvOutput]: what is removed *)

Lemma trimStart_first (s : string) :
  match trimStart s with
  | EmptyString => True
  | String c _ => isWhiteSpace c = false
  end.
Proof.
  induction s as [|c s IH]; cbn; [done|].
  destruct (isWhiteSpace c) eqn:Hc; [exact IH|exact Hc].
Qed.

Lemma trimStart_idem (s : string) : trimStart (trimStart s) = trimStart s.
Proof.
  pose proof (trimStart_first s) as Hfirst.
  destruct (trimStart s) as [|c r]; cbn; [done|]. by rewrite Hfirst.
Qed.

Lemma trimEnd_first (c : ascii) (r : string) :
  isWhiteSpace c = false → ∃ r', trimEnd (String c r) = String c r'.
Proof.
  intros Hc. cbn. destruct (trimEnd r); rewrite ?Hc; by eexists.
Qed.

Lemma trim_idem (s : string) : trim (trim s) = trim s.
Proof.
  unfold trim. pose proof (trimStart_first s) as Hfirst.
  destruct (trimStart s) as [|c r]; [done|].
  destruct (trimEnd_first c r Hfirst) as [r' Hr'].
  assert (trimStart (trimEnd (String c r)) = trimEnd (String c r)) as ->.
  { rewrite Hr'. cbn. by rewrite Hfirst. }
  apply trimEnd_idem.
Qed.

Lemma trimStart_app (a b : string) :
  allWhiteSpace a = false → trimStart (a +:+ b) = trimStart a +:+ b.
Proof.
  induction a as [|c a IH]; [done|]. cbn [allWhiteSpace].
  rewrite append_cons. cbn [trimStart].
  destruct (isWhiteSpace c); cbn [andb]; [exact IH|done].
Qed.

Lemma trimStart_blank (a b : string) :
  allWhiteSpace a = true → trimStart (a +:+ b) = trimStart b.
Proof.
  induction a as [|c a IH]; [done|]. cbn [allWhiteSpace].
  rewrite append_cons. cbn [trimStart].
  intros [-> Ha]%andb_true_iff. by apply IH.
Qed.

Lemma hasChar_trimStart (c : ascii) (s : string) :
  hasChar c s = false → hasChar c (trimStart s) = false.
Proof.
  induction s as [|x s IH]; [done|]. intros Hs. cbn [trimStart].
  destruct (isWhiteSpace x); [|done].
  cbn in Hs. apply orb_false_iff in Hs as [_ Hs]. by apply IH.
Qed.

Lemma startsWith_cons (c x : ascii) (p s : string) :
  startsWith (String c p) (String x s)
  = if ascii_dec c x then startsWith p s else false.
Proof. reflexivity. Qed.

Lemma startsWith_nil (s : string) : startsWith "" s = true.
Proof. by destruct s. Qed.

Lemma fence_needs_backtick (c : ascii) (rest : string) :
  Ascii.eqb c "`" = false →
  startsWith fence (String c rest) = false
  ∧ startsWith fenceTsv (String c rest) = false.
Proof.
  intros Hc. unfold fence, fenceTsv. rewrite !startsWith_cons.
  destruct (ascii_dec "`" c) as [<-|]; [|done].
  by rewrite Ascii.eqb_refl in Hc.
Qed.

Lemma fence_at_fence (ws : string) :
  startsWith fence (String "`" (String "`" (String "`" ws))) = true.
Proof.
  unfold fence. rewrite !startsWith_cons.
  destruct (ascii_dec "`" "`"); [|done]. apply startsWith_nil.
Qed.

(** Where the text after [p] is a closing fence followed by white space,
    and [p] holds no backtick, the closing pattern first matches at the
    fence, or at a line feed that is the last character of [p]. *)
Lemma stripClosingFence_tail (p ws : string) :
  hasChar "`" p = false → allWhiteSpace ws = true →
  trimEnd (stripClosingFence (p +:+ "```" +:+ ws)) = trimEnd p.
Proof.
  intros Hp Hws. induction p as [|c p IH].
  - rewrite append_nil_left.
    change ("```" +:+ ws) with (String "`" (String "`" (String "`" ws))).
    cbn [stripClosingFence closingFenceAt].
    assert (Ascii.eqb "`" LF = false) as -> by reflexivity.
    rewrite fence_at_fence. cbn [dropChars andb]. by rewrite Hws.
  - cbn [hasChar] in Hp. apply orb_false_iff in Hp as [Hc Hp].
    specialize (IH Hp). rewrite append_cons.
    cbn [stripClosingFence]. unfold closingFenceAt at 1.
    destruct (Ascii.eqb_spec c LF) as [->|Hlf].
    + destruct p as [|c' p].
      * rewrite append_nil_left.
        change ("```" +:+ ws) with (String "`" (String "`" (String "`" ws))).
        rewrite fence_at_fence. cbn [dropChars andb]. by rewrite Hws.
      * rewrite append_cons. cbn [hasChar] in Hp.
        apply orb_false_iff in Hp as [Hc' _].
        rewrite (proj1 (fence_needs_backtick c' _ Hc')).
        cbn [andb]. rewrite <- append_cons. cbn [trimEnd]. by rewrite IH.
    + rewrite (proj1 (fence_needs_backtick c _ Hc)).
      cbn [andb trimEnd]. by rewrite IH.
Qed.

Lemma noFence_noTsv (p s : string) :
  hasChar "`" p = false → p ≠ "" → startsWith fenceTsv (p +:+ s) = false.
Proof.
  intros Hp Hne. destruct p as [|c p]; [done|].
  cbn [hasChar] in Hp. apply orb_false_iff in Hp as [Hc _].
  rewrite append_cons. by apply fence_needs_backtick.
Qed.

Lemma stripClosingFence_plain (p : string) :
  hasChar "`" p = false → stripClosingFence p = p.
Proof.
  induction p as [|c p IH]; [done|]. cbn [hasChar].
  intros [Hc Hp]%orb_false_iff. cbn [stripClosingFence].
  assert (closingFenceAt (String c p) = false) as ->; [|by rewrite IH].
  unfold closingFenceAt.
  rewrite (proj1 (fence_needs_backtick c p Hc)).
  destruct (Ascii.eqb c LF); [|done].
  destruct p as [|c' p]; [done|].
  cbn [hasChar] in Hp. apply orb_false_iff in Hp as [Hc' _].
  by rewrite (proj1 (fence_needs_backtick c' p Hc')).
Qed.

Lemma startsWith_self (p s : string) : startsWith p (p +:+ s) = true.
Proof.
  induction p as [|c p IH]; [apply startsWith_nil|].
  rewrite append_cons, startsWith_cons. by destruct (ascii_dec c c).
Qed.

Lemma stripOpeningFence_tagged (s : string) :
  stripOpeningFence ("```tsv" +:+ s) = trimStart s.
Proof.
  unfold stripOpeningFence, fenceTsv.
  rewrite (startsWith_self "```tsv" s). reflexivity.
Qed.

Lemma stripOpeningFence_plain (body s : string) :
  hasChar "`" body = false →
  (body = "" → allWhiteSpace s = true ∨ s = "") →
  stripOpeningFence (body +:+ "```" +:+ s) = body +:+ "```" +:+ s
  ∧ stripOpeningFence body = body.
Proof.
  intros Hbody Hs. unfold stripOpeningFence.
  destruct body as [|c body].
  - split; [|done]. rewrite append_nil_left.
    change ("```" +:+ s) with (String "`" (String "`" (String "`" s))).
    unfold fenceTsv. rewrite !startsWith_cons.
    destruct (ascii_dec "`" "`"); [|done].
    destruct s as [|x s]; [done|]. rewrite startsWith_cons.
    destruct (ascii_dec "t" x) as [<-|]; [|done].
    destruct (Hs eq_refl) as [Hblank|Hnil]; done.
  - cbn [hasChar] in Hbody. apply orb_false_iff in Hbody as [Hc _].
    rewrite append_cons.
    by rewrite !(proj2 (fence_needs_backtick c _ Hc)).
Qed.

Lemma trimStart_before_fence (body s : string) :
  trimStart (body +:+ "```" +:+ s) = trimStart body +:+ "```" +:+ s.
Proof.
  induction body as [|c body IH]; [done|].
  rewrite append_cons. cbn [trimStart]. by destruct (isWhiteSpace c).
Qed.

Lemma trim_before_blank (a b : string) :
  allWhiteSpace b = true → trim (a +:+ b) = trim a.
Proof.
  intros Hb. unfold trim. destruct (allWhiteSpace a) eqn:Ha.
  - rewrite trimStart_blank by done.
    assert (∀ x, allWhiteSpace x = true → trimStart x = "") as Hblank.
    { induction x as [|c x IHx]; [done|]. cbn.
      intros [-> Hx]%andb_true_iff. by apply IHx. }
    by rewrite !Hblank.
  - rewrite trimStart_app, trimEnd_app by done.
    by rewrite (proj1 (allWhiteSpace_trimEnd b) Hb).
Qed.

(** The closing pattern cuts the text at the fence, taking with it a line
    feed that stands right before the fence. *)
Lemma stripClosingFence_cut (p ws : string) :
  hasChar "`" p = false → allWhiteSpace ws = true →
  ∃ q, stripClosingFence (p +:+ "```" +:+ ws) = q
    ∧ (q = p ∨ p = q +:+ String LF "").
Proof.
  intros Hp Hws. induction p as [|c p IH].
  - exists "". split; [|by left]. rewrite append_nil_left.
    change ("```" +:+ ws) with (String "`" (String "`" (String "`" ws))).
    cbn [stripClosingFence closingFenceAt].
    assert (Ascii.eqb "`" LF = false) as -> by reflexivity.
    rewrite fence_at_fence. cbn [dropChars andb]. by rewrite Hws.
  - cbn [hasChar] in Hp. apply orb_false_iff in Hp as [Hc Hp].
    destruct (IH Hp) as (q & Hq & Hcut). rewrite append_cons.
    cbn [stripClosingFence]. unfold closingFenceAt at 1.
    destruct (Ascii.eqb_spec c LF) as [->|Hlf].
    + destruct p as [|c' p].
      * exists "". split; [|by right]. rewrite append_nil_left.
        change ("```" +:+ ws) with (String "`" (String "`" (String "`" ws))).
        rewrite fence_at_fence. cbn [dropChars andb]. by rewrite Hws.
      * exists (String LF q). rewrite append_cons. cbn [hasChar] in Hp.
        apply orb_false_iff in Hp as [Hc' _].
        rewrite (proj1 (fence_needs_backtick c' _ Hc')). cbn [andb].
        rewrite <- append_cons, Hq. split; [done|].
        destruct Hcut as [->|Hcut]; [by left|right].
        by rewrite append_cons, <- Hcut.
    + exists (String c q).
      rewrite (proj1 (fence_needs_backtick c _ Hc)). cbn [andb].
      rewrite Hq. split; [done|].
      destruct Hcut as [->|Hcut]; [by left|right].
      by rewrite append_cons, <- Hcut.
Qed.

Lemma trim_after_cut (p q : string) :
  q = p ∨ p = q +:+ String LF "" → trim q = trim p.
Proof.
  intros [->| ->]; [done|]. symmetry. by apply trim_before_blank.
Qed.

(** X13. [cleanTsvOutput] removes an opening fence tagged [tsv] with the
    white space after it, a closing fence with the line feed before it and
    the white space after it, and the white space at both ends of what is
    left: for a body without backticks, the text with both fences, with the
    closing fence only, with the opening fence only and without fences all
    clean to the trimmed body. The result of cleaning any text is trimmed. *)
Theorem cleanTsvOutput_strips_the_fences (body ws : string) :
  hasChar "`" body = false → allWhiteSpace ws = true →
  cleanTsvOutput ("```tsv" +:+ body +:+ "```" +:+ ws) = trim body
  ∧ cleanTsvOutput (body +:+ "```" +:+ ws) = trim body
  ∧ cleanTsvOutput ("```tsv" +:+ body) = trim body
  ∧ cleanTsvOutput body = trim body
  ∧ (∀ text, trim (cleanTsvOutput text) = cleanTsvOutput text).
Proof.
  intros Hbody Hws.
  assert (trim (trimStart body) = trim body) as Htrim.
  { unfold trim. by rewrite trimStart_idem. }
  unfold cleanTsvOutput. split_and!.
  - rewrite stripOpeningFence_tagged, trimStart_before_fence.
    destruct (stripClosingFence_cut (trimStart body) ws) as (q & -> & Hcut);
      [by apply hasChar_trimStart|done|].
    by rewrite (trim_after_cut _ _ Hcut).
  - rewrite (proj1 (stripOpeningFence_plain body ws Hbody ltac:(auto))).
    destruct (stripClosingFence_cut body ws Hbody Hws) as (q & -> & Hcut).
    by apply trim_after_cut.
  - rewrite stripOpeningFence_tagged, stripClosingFence_plain
      by (by apply hasChar_trimStart).
    exact Htrim.
  - rewrite (proj2 (stripOpeningFence_plain body "" Hbody ltac:(auto))).
    by rewrite stripClosingFence_plain.
  - intros text. apply trim_idem.
Qed.

Lemma cleanTsvOutput_strips_the_fences_witness :
  let body := String LF ("hello" +:+ String TAB "for" +:+ String TAB "explains X"
                         +:+ String LF "") in
  cleanTsvOutput ("```tsv" +:+ body +:+ "```" +:+ "  ")
  = "hello" +:+ String TAB "for" +:+ String TAB "explains X"
  ∧ cleanTsvOutput body
    = "hello" +:+ String TAB "for" +:+ String TAB "explains X".
Proof.
  destruct (cleanTsvOutput_strips_the_fences
              (String LF ("hello" +:+ String TAB "for" +:+ String TAB "explains X"
                          +:+ String LF "")) "  ")
    as (Hboth & _ & _ & Hnone & _).
  - reflexivity.
  - reflexivity.
  - cbv zeta. rewrite Hboth, Hnone. split; vm_compute; reflexivity.
Defined.

(** ** Spreadsheet merge: the two steps together *)

Lemma hasValues_insert_string (row : RowCells) (c : nat) (text : string) :
  hasValues (<[c := CString text]> row) = true.
Proof.
  unfold hasValues. rewrite bool_decide_eq_false_2; [done|].
  intros Hall. specialize (Hall c (CString text)).
  rewrite lookup_insert_eq in Hall. by specialize (Hall eq_refl).
Qed.

Lemma keyOfRow_insert (row : RowCells) (c : nat) (v : CellValue) :
  c ≠ 1 → keyOfRow (<[c := v]> row) = keyOfRow row.
Proof.
  intros Hc. unfold keyOfRow. rewrite getCell_insert.
  by rewrite decide_False by done.
Qed.

Lemma explainRow_keeps (m : gmap string string) (row : RowCells) (r : nat) :
  keyOfRow (explainRow m row r) = keyOfRow row
  ∧ (hasValues row = true → hasValues (explainRow m row r) = true).
Proof.
  unfold explainRow. destruct (decide (1 < r)); [|done].
  destruct (m !! keyOfRow row) as [explanation|]; [|done].
  destruct (truthy explanation); [|done].
  split; [by apply keyOfRow_insert|]. intros _. apply hasValues_insert_string.
Qed.

Lemma classifyRow_keeps (m : gmap string (string * string)) (row : RowCells)
    (r : nat) :
  keyOfRow (classifyRow m row r) = keyOfRow row
  ∧ (hasValues row = true → hasValues (classifyRow m row r) = true).
Proof.
  unfold classifyRow. destruct (decide (1 < r)); [|done].
  destruct (m !! keyOfRow row) as [classification|]; [|done].
  split; [by rewrite !keyOfRow_insert|]. intros _. apply hasValues_insert_string.
Qed.

(** A body row after [eachRow]: its key and whether it has values are
    those of the row before, for a callback that keeps both. *)
Lemma eachRow_body_row (callback : RowCells → nat → RowCells) (ws : Worksheet)
    (r : nat) :
  (∀ row, keyOfRow (callback row r) = keyOfRow row
          ∧ (hasValues row = true → hasValues (callback row r) = true)) →
  let before := default ∅ (ws !! r) in
  let after := default ∅ (eachRow callback ws !! r) in
  keyOfRow after = keyOfRow before ∧ hasValues after = hasValues before.
Proof.
  intros Hkeeps before after. subst before after. unfold eachRow.
  rewrite map_lookup_imap. destruct (ws !! r) as [row|]; cbn; [|done].
  destruct (hasValues row) eqn:Hv; [|done].
  destruct (Hkeeps row) as [Hkey Hvalues]. split; [done|]. by rewrite Hvalues.
Qed.

Lemma body_row_after_explanations (ws : Worksheet) explanations (r : nat) :
  r ≠ 1 →
  let before := default ∅ (ws !! r) in
  let after :=
    default ∅ (eachRow (explainRow (explanationMap explanations))
                 (setHeader 7 "human_label_explanation" ws) !! r) in
  keyOfRow after = keyOfRow before ∧ hasValues after = hasValues before.
Proof.
  intros Hr. cbv zeta.
  rewrite <- (row_setHeader_ne 7 "human_label_explanation" ws r Hr).
  apply eachRow_body_row. intros row. apply explainRow_keeps.
Qed.

Lemma body_row_after_classifications (ws : Worksheet) classifications (r : nat) :
  r ≠ 1 →
  let before := default ∅ (ws !! r) in
  let after :=
    default ∅ (eachRow (classifyRow (classificationMap classifications))
                 (setHeader 9 "llm_label_explanation"
                    (setHeader 8 "llm_label" ws)) !! r) in
  keyOfRow after = keyOfRow before ∧ hasValues after = hasValues before.
Proof.
  intros Hr. cbv zeta.
  rewrite <- (row_setHeader_ne 8 "llm_label" ws r Hr).
  rewrite <- (row_setHeader_ne 9 "llm_label_explanation"
                (setHeader 8 "llm_label" ws) r Hr).
  apply eachRow_body_row. intros row. apply classifyRow_keeps.
Qed.

Lemma explanations_then_classifications (ws : Worksheet) explanations
    classifications (r c : nat) :
  cellAt (eachRow (classifyRow (classificationMap classifications))
            (setHeader 9 "llm_label_explanation"
               (setHeader 8 "llm_label"
                  (eachRow (explainRow (explanationMap explanations))
                     (setHeader 7 "human_label_explanation" ws))))) r c
  = mergedCell ws explanations classifications r c.
Proof.
  rewrite classifications_cell. cbv zeta. unfold mergedCell.
  destruct (decide (r = 1)) as [->|Hr].
  - rewrite explanations_cell.
    destruct (decide (1 = 1 ∧ c = 8)) as [[_ ->]|H8].
    { by rewrite decide_False by lia. }
    destruct (decide (1 = 1 ∧ c = 9)) as [[_ ->]|H9].
    { by rewrite decide_False by lia. }
    rewrite (decide_False (P := 1 < 1 ∧ _)) by lia.
    destruct (lastWithKey c_text _ classifications) as [item|].
    + rewrite !(decide_False (P := 1 < 1 ∧ _)) by lia.
      destruct (decide (1 = 1 ∧ c = 7)); [done|]. cbv zeta.
      destruct (lastWithKey e_text _ explanations); [|done].
      by rewrite decide_False by lia.
    + destruct (decide (1 = 1 ∧ c = 7)); [done|]. cbv zeta.
      destruct (lastWithKey e_text _ explanations); [|done].
      by rewrite decide_False by lia.
  - rewrite !(decide_False (P := r = 1 ∧ _)) by tauto.
    destruct (body_row_after_explanations ws explanations r Hr) as [-> ->].
    rewrite explanations_cell. rewrite (decide_False (P := r = 1 ∧ _)) by tauto.
    cbv zeta. set (row := default ∅ (ws !! r)).
    destruct (decide (1 < r ∧ hasValues row = true)) as [[Hlt Hv]|Hnot].
    + destruct (decide (c = 7)) as [->|H7].
      * destruct (lastWithKey c_text _ classifications) as [citem|].
        -- rewrite !decide_False by lia.
           destruct (lastWithKey e_text _ explanations) as [item|]; [|done].
           destruct (truthy (e_explanation item)) eqn:Ht.
           ++ by rewrite decide_True.
           ++ by rewrite decide_False by (intros (_ & _ & _ & ?); done).
        -- destruct (lastWithKey e_text _ explanations) as [item|]; [|done].
           destruct (truthy (e_explanation item)) eqn:Ht.
           ++ by rewrite decide_True.
           ++ by rewrite decide_False by (intros (_ & _ & _ & ?); done).
      * assert (cellAt ws r c
                = match lastWithKey e_text (keyOfRow row) explanations with
                  | Some item =>
                      if decide (1 < r ∧ c = 7 ∧ hasValues row = true
                                 ∧ truthy (e_explanation item) = true)
                      then CString (e_explanation item) else cellAt ws r c
                  | None => cellAt ws r c
                  end) as <-.
        { destruct (lastWithKey e_text _ explanations); [|done].
          by rewrite decide_False by tauto. }
        destruct (decide (c = 8)) as [->|H8].
        -- destruct (lastWithKey c_text _ classifications); [|done].
           by rewrite decide_True.
        -- destruct (decide (c = 9)) as [->|H9].
           ++ destruct (lastWithKey c_text _ classifications); [|done].
              rewrite decide_False by lia. by rewrite decide_True.
           ++ destruct (lastWithKey c_text _ classifications); [|done].
              by rewrite !decide_False by tauto.
    + assert (cellAt ws r c
              = match lastWithKey e_text (keyOfRow row) explanations with
                | Some item =>
                    if decide (1 < r ∧ c = 7 ∧ hasValues row = true
                               ∧ truthy (e_explanation item) = true)
                    then CString (e_explanation item) else cellAt ws r c
                | None => cellAt ws r c
                end) as <-.
      { destruct (lastWithKey e_text _ explanations); [|done].
        by rewrite decide_False by tauto. }
      destruct (lastWithKey c_text _ classifications); [|done].
      by rewrite !decide_False by tauto.
Qed.

Lemma classifications_then_explanations (ws : Worksheet) explanations
    classifications (r c : nat) :
  cellAt (eachRow (explainRow (explanationMap explanations))
            (setHeader 7 "human_label_explanation"
               (eachRow (classifyRow (classificationMap classifications))
                  (setHeader 9 "llm_label_explanation"
                     (setHeader 8 "llm_label" ws))))) r c
  = mergedCell ws explanations classifications r c.
Proof.
  rewrite explanations_cell. cbv zeta. unfold mergedCell.
  destruct (decide (r = 1)) as [->|Hr].
  - destruct (decide (1 = 1 ∧ c = 7)) as [[_ ->]|H7]; [done|].
    rewrite classifications_cell. cbv zeta.
    rewrite (decide_False (P := 1 < 1 ∧ _)) by lia.
    assert (∀ other : CellValue,
              match lastWithKey e_text
                      (keyOfRow
                         (default ∅
                            (eachRow (classifyRow (classificationMap classifications))
                               (setHeader 9 "llm_label_explanation"
                                  (setHeader 8 "llm_label" ws)) !! 1)))
                      explanations with
              | Some item =>
                  if decide (1 < 1 ∧ c = 7
                             ∧ hasValues
                                 (default ∅
                                    (eachRow
                                       (classifyRow (classificationMap classifications))
                                       (setHeader 9 "llm_label_explanation"
                                          (setHeader 8 "llm_label" ws)) !! 1))
                               = true
                             ∧ truthy (e_explanation item) = true)
                  then CString (e_explanation item) else other
              | None => other
              end = other) as ->.
    { intros other. destruct (lastWithKey e_text _ explanations); [|done].
      by rewrite decide_False by lia. }
    destruct (decide (1 = 1 ∧ c = 8)); [done|].
    destruct (decide (1 = 1 ∧ c = 9)); [done|].
    destruct (lastWithKey c_text _ classifications); [|done].
    by rewrite !decide_False by lia.
  - rewrite !(decide_False (P := r = 1 ∧ _)) by tauto.
    destruct (body_row_after_classifications ws classifications r Hr) as [-> ->].
    rewrite classifications_cell.
    rewrite !(decide_False (P := r = 1 ∧ _)) by tauto.
    cbv zeta. set (row := default ∅ (ws !! r)).
    destruct (decide (1 < r ∧ hasValues row = true)) as [[Hlt Hv]|Hnot].
    + destruct (decide (c = 7)) as [->|H7].
      * assert (cellAt ws r 7
                = match lastWithKey c_text (keyOfRow row) classifications with
                  | Some item =>
                      if decide (1 < r ∧ hasValues row = true ∧ 7 = 8)
                      then CString (c_label item)
                      else if decide (1 < r ∧ hasValues row = true ∧ 7 = 9)
                      then CString (c_explanation item) else cellAt ws r 7
                  | None => cellAt ws r 7
                  end) as <-.
        { destruct (lastWithKey c_text _ classifications); [|done].
          by rewrite !decide_False by lia. }
        destruct (lastWithKey e_text _ explanations) as [item|]; [|done].
        destruct (truthy (e_explanation item)) eqn:Ht.
        -- by rewrite decide_True.
        -- by rewrite decide_False by (intros (_ & _ & _ & ?); done).
      * assert (∀ value other : CellValue,
                  match lastWithKey e_text (keyOfRow row) explanations with
                  | Some item =>
                      if decide (1 < r ∧ c = 7 ∧ hasValues row = true
                                 ∧ truthy (e_explanation item) = true)
                      then value else other
                  | None => other
                  end = other) as Hskip.
        { intros value other.
          destruct (lastWithKey e_text _ explanations); [|done].
          by rewrite decide_False by tauto. }
        destruct (lastWithKey e_text _ explanations) as [item|] eqn:Hitem.
        -- rewrite decide_False by tauto.
           destruct (decide (c = 8)) as [->|H8].
           ++ destruct (lastWithKey c_text _ classifications); [|done].
              by rewrite decide_True.
           ++ destruct (decide (c = 9)) as [->|H9].
              ** destruct (lastWithKey c_text _ classifications); [|done].
                 rewrite decide_False by lia. by rewrite decide_True.
              ** destruct (lastWithKey c_text _ classifications); [|done].
                 by rewrite !decide_False by tauto.
        -- destruct (decide (c = 8)) as [->|H8].
           ++ destruct (lastWithKey c_text _ classifications); [|done].
              by rewrite decide_True.
           ++ destruct (decide (c = 9)) as [->|H9].
              ** destruct (lastWithKey c_text _ classifications); [|done].
                 rewrite decide_False by lia. by rewrite decide_True.
              ** destruct (lastWithKey c_text _ classifications); [|done].
                 by rewrite !decide_False by tauto.
    + assert (cellAt ws r c
              = match lastWithKey c_text (keyOfRow row) classifications with
                | Some item =>
                    if decide (1 < r ∧ hasValues row = true ∧ c = 8)
                    then CString (c_label item)
                    else if decide (1 < r ∧ hasValues row = true ∧ c = 9)
                    then CString (c_explanation item) else cellAt ws r c
                | None => cellAt ws r c
                end) as <-.
      { destruct (lastWithKey c_text _ classifications); [|done].
        by rewrite !decide_False by tauto. }
      destruct (lastWithKey e_text _ explanations); [|done].
      by rewrite decide_False by tauto.
Qed.

(** X14. The two merge steps of [processDataset] compose: merging the
    classifications into the workbook that the explanation step wrote gives,
    cell by cell, the three header cells, and in every body row that has
    values the explanation (column 7, when it is not empty) and the label
    and explanation of the model (columns 8 and 9) of the last result whose
    trimmed text is the trimmed text of the row, as found in the original
    worksheet; every other cell is that of the original. Neither step
    disturbs what the other wrote, and the two steps in the other order give
    the same cells. *)
Theorem merge_steps_compose (ws : Worksheet) (explanations : list Explanation)
    (classifications : list Classification) :
  ∃ both swapped,
    updateExcelWithClassifications
      (updateExcelWithExplanations (Some ws) explanations) classifications
    = Some both
    ∧ updateExcelWithExplanations
        (updateExcelWithClassifications (Some ws) classifications) explanations
      = Some swapped
    ∧ (∀ r c, cellAt both r c = mergedCell ws explanations classifications r c)
    ∧ (∀ r c, cellAt swapped r c = cellAt both r c).
Proof.
  do 2 eexists. split; [reflexivity|]. split; [reflexivity|]. split.
  - intros r c. apply explanations_then_classifications.
  - intros r c.
    by rewrite classifications_then_explanations,
      explanations_then_classifications.
Qed.

(** X15. Each merge step is idempotent: merging the same results a second
    time, into the workbook that the first merge wrote, changes no cell. *)
Theorem merge_twice_is_merge_once (ws : Worksheet)
    (explanations : list Explanation) (classifications : list Classification) :
  (∃ once twice,
     updateExcelWithExplanations (Some ws) explanations = Some once
     ∧ updateExcelWithExplanations (Some once) explanations = Some twice
     ∧ ∀ r c, cellAt twice r c = cellAt once r c)
  ∧ (∃ once twice,
       updateExcelWithClassifications (Some ws) classifications = Some once
       ∧ updateExcelWithClassifications (Some once) classifications = Some twice
       ∧ ∀ r c, cellAt twice r c = cellAt once r c).
Proof.
  split.
  - do 2 eexists. split; [reflexivity|]. split; [reflexivity|].
    intros r c. rewrite (explanations_cell (eachRow _ _)). cbv zeta.
    destruct (decide (r = 1)) as [->|Hr].
    + rewrite explanations_cell.
      destruct (decide (1 = 1 ∧ c = 7)); [done|].
      destruct (lastWithKey e_text _ explanations); [|done].
      by rewrite decide_False by lia.
    + rewrite (decide_False (P := r = 1 ∧ _)) by tauto.
      destruct (body_row_after_explanations ws explanations r Hr) as [-> ->].
      destruct (lastWithKey e_text _ explanations) as [item|] eqn:Hitem;
        [|done].
      destruct (decide (1 < r ∧ c = 7 ∧ _ ∧ _)) as [(Hlt & -> & Hv & Ht)|Hnot];
        [|done].
      rewrite explanations_cell. rewrite decide_False by tauto.
      cbv zeta. rewrite Hitem. by rewrite decide_True.
  - do 2 eexists. split; [reflexivity|]. split; [reflexivity|].
    intros r c. rewrite (classifications_cell (eachRow _ _)). cbv zeta.
    destruct (decide (r = 1)) as [->|Hr].
    + rewrite classifications_cell.
      destruct (decide (1 = 1 ∧ c = 8)); [done|].
      destruct (decide (1 = 1 ∧ c = 9)); [done|].
      destruct (lastWithKey c_text _ classifications); [|done].
      by rewrite !decide_False by lia.
    + rewrite !(decide_False (P := r = 1 ∧ _)) by tauto.
      destruct (body_row_after_classifications ws classifications r Hr)
        as [-> ->].
      destruct (lastWithKey c_text _ classifications) as [item|] eqn:Hitem;
        [|done].
      rewrite classifications_cell.
      rewrite !(decide_False (P := r = 1 ∧ _)) by tauto.
      cbv zeta. rewrite Hitem.
      destruct (decide (1 < r ∧ _ ∧ c = 8)); [done|].
      by destruct (decide (1 < r ∧ _ ∧ c = 9)).
Qed.

(** ** Accuracy statistics: the confusion matrix *)

(** One more row counted into the cell of its predicted label. *)
Lemma countInto_expected (matrixRow : gmap string Compare.Cell)
    (p : string) (k : nat) :
  matrixRow !! p = expectedCell p k →
  Compare.countInto matrixRow p !! p = expectedCell p (S k).
Proof.
  intros Hcell. unfold Compare.countInto, Compare.readCell.
  rewrite lookup_insert_eq, Hcell. unfold expectedCell in *.
  destruct k as [|[|k]]; destruct (Compare.isMethod p) eqn:Hm; cbn;
    rewrite ?lookup_insert_eq, ?Hcell, ?Hm; reflexivity.
Qed.

Lemma countInto_other (matrixRow : gmap string Compare.Cell) (l p : string) :
  l ≠ p → Compare.countInto matrixRow l !! p = matrixRow !! p.
Proof.
  intros Hne. unfold Compare.countInto. rewrite lookup_insert_ne by done.
  destruct (Compare.truthyRead _); [done|]. by rewrite lookup_insert_ne.
Qed.

Lemma matrixCell_default (matrix : gmap string (gmap string Compare.Cell))
    (a p : string) :
  matrixCell matrix a p = default ∅ (matrix !! a) !! p.
Proof. unfold matrixCell. by destruct (matrix !! a). Qed.

Section MatrixFacts.
Import Compare JsNumber.
Context {N : Type} `{Ops N}.

Lemma tally_matrixCell (data : list DataRow) (a p : string) :
  matrixCell (confusionMatrix (buildTally (N := N) data)) a p
  = expectedCell p (pairCount data a p).
Proof.
  unfold pairCount. induction data as [|row data IH] using rev_ind; [done|].
  rewrite buildTally_snoc, confusionMatrix_tallyRow, length_filter_snoc.
  rewrite matrixCell_default in *.
  destruct (decide (humanLabel row = a)) as [<-|Ha].
  - rewrite lookup_insert_eq. cbn [default from_option id].
    destruct (decide (llmLabel row = p)) as [<-|Hp].
    + rewrite decide_True by done. rewrite Nat.add_1_r.
      by apply countInto_expected.
    + rewrite decide_False by tauto. rewrite Nat.add_0_r.
      by rewrite countInto_other.
  - rewrite lookup_insert_ne by done. rewrite decide_False by tauto.
    by rewrite Nat.add_0_r.
Qed.

(** The matrix has a row for every human label and for nothing else. *)
Lemma tally_matrix_rows (data : list DataRow) (a : string) :
  is_Some (confusionMatrix (buildTally (N := N) data) !! a)
  ↔ a ∈ (humanLabel <$> data).
Proof.
  induction data as [|row data IH] using rev_ind.
  - cbn. rewrite lookup_empty, elem_of_nil. split; [by intros [? ?]|done].
  - rewrite buildTally_snoc, fmap_app, elem_of_app, <- IH. cbn.
    rewrite list_elem_of_singleton, confusionMatrix_tallyRow.
    rewrite lookup_insert_is_Some'. intuition congruence.
Qed.

End MatrixFacts.

(** X16. For every list of rows on which [calculateAccuracy] updates no
    built-in object (no human label names a member of [Object.prototype], no
    predicted label is [__proto__]), the confusion matrix returned has a row
    for every human label and for nothing else, and its cells count the
    rows. For a predicted label [p] that is not the name of a method of
    [Object.prototype], the cell for the actual label [a] is absent when no
    row has the labels [a] and [p], and is the number of these rows
    otherwise (never 0). For a predicted label that names such a method
    ([constructor], for one), the cell is absent without such a row, [NaN]
    with one, and one less than their number with more. [totalSamples] is the
    number of rows and [correctPredictions] the number of rows whose two
    labels are equal, which is no more than all rows. *)
Theorem confusion_matrix_counts_rows {N : Type} `{JsNumber.Ops N}
    (data : list Compare.DataRow) :
  plainRun data →
  ∃ stats, Compare.calculateAccuracy (N := N) data = Some stats
  ∧ (∀ a, is_Some (Compare.as_confusionMatrix stats !! a)
          ↔ a ∈ (Compare.humanLabel <$> data))
  ∧ (∀ a p, Compare.isMethod p = false →
       matrixCell (Compare.as_confusionMatrix stats) a p
       = if decide (pairCount data a p = 0) then None
         else Some (Compare.Count (pairCount data a p)))
  ∧ (∀ a p, Compare.isMethod p = true →
       matrixCell (Compare.as_confusionMatrix stats) a p
       = if decide (pairCount data a p = 0) then None
         else if decide (pairCount data a p = 1) then Some Compare.NaN
         else Some (Compare.Count (pairCount data a p - 1)))
  ∧ Compare.totalSamples stats = length data
  ∧ Compare.correctPredictions stats = correctCount data
  ∧ Compare.correctPredictions stats ≤ Compare.totalSamples stats.
Proof.
  intros Hplain. exists (Compare.statistics data).
  split; [by apply calculateAccuracy_plain|].
  unfold Compare.statistics.
  cbn [Compare.as_confusionMatrix Compare.totalSamples Compare.correctPredictions].
  split_and!.
  - intros a. apply tally_matrix_rows.
  - intros a p Hm. rewrite tally_matrixCell.
    unfold expectedCell. destruct (pairCount data a p) as [|k]; [done|].
    by rewrite Hm.
  - intros a p Hm. rewrite tally_matrixCell.
    unfold expectedCell.
    destruct (pairCount data a p) as [|[|k]]; [done| |]; rewrite Hm; [done|].
    rewrite decide_False by lia. by rewrite decide_False by lia.
  - done.
  - apply tally_totalCorrect.
  - rewrite tally_totalCorrect. unfold correctCount. apply length_filter.
Qed.

Lemma confusion_matrix_counts_rows_witness :
  plainRun (pairRow "for" "constructor" :: inheritedRows)
  ∧ ∃ stats,
      Compare.calculateAccuracy (N := PrimFloat.float)
        (pairRow "for" "constructor" :: inheritedRows) = Some stats
      ∧ matrixCell (Compare.as_confusionMatrix stats) "for" "for"
        = Some (Compare.Count 1)
      ∧ matrixCell (Compare.as_confusionMatrix stats) "for" "constructor"
        = Some (Compare.Count 1)
      ∧ matrixCell (Compare.as_confusionMatrix stats) "against" "for" = None
      ∧ Compare.totalSamples stats = 3
      ∧ Compare.correctPredictions stats = 1.
Proof.
  assert (plainRun (pairRow "for" "constructor" :: inheritedRows)) as Hplain.
  { apply plainRun_guard. vm_compute. reflexivity. }
  split; [exact Hplain|].
  destruct (confusion_matrix_counts_rows (N := PrimFloat.float) _ Hplain)
    as (stats & Hrun & _ & Hcell & Hmethod & Htotal & Hcorrect & _).
  exists stats. split; [exact Hrun|]. split_and!.
  - by rewrite (Hcell "for" "for").
  - by rewrite (Hmethod "for" "constructor").
  - by rewrite (Hcell "against" "for").
  - exact Htotal.
  - exact Hcorrect.
Defined.

(** ** Accuracy statistics: predictions that are all right *)

Lemma exact_self_ratio (k : nat) :
  0 < k → (JsNumber.div (JsNumber.ofNat k) (JsNumber.ofNat k) == 1)%Q.
Proof.
  intros Hk. cbn [JsNumber.div JsNumber.ofNat JsNumber.exact].
  unfold Qdiv. apply Qmult_inv_r. unfold Qeq. cbn. lia.
Qed.

Lemma exact_sum_of_ones (l : list Q) (acc : Q) :
  Forall (λ x, (x == 1)%Q) l →
  (foldl Qplus acc l == acc + inject_Z (Z.of_nat (length l)))%Q.
Proof.
  intros Hall. revert acc. induction Hall as [|x l Hx _ IH]; intros acc.
  - cbn. ring.
  - cbn [foldl length]. rewrite IH, Hx, Nat2Z.inj_succ.
    unfold Z.succ. rewrite inject_Z_plus. ring.
Qed.

Lemma exact_full_metrics (k : nat) :
  0 < k →
  let st := Compare.metrics (N := Q) k k 0 in
  (Compare.precision st == 1)%Q ∧ (Compare.recall st == 1)%Q
  ∧ (Compare.f1Score st == 1)%Q ∧ (Compare.accuracy st == 100)%Q.
Proof.
  intros Hk. cbv zeta. unfold Compare.metrics.
  cbn [Compare.precision Compare.recall Compare.f1Score Compare.accuracy].
  unfold Compare.ratio. rewrite Nat.add_0_r.
  destruct (Nat.ltb_spec 0 k) as [_|]; [|lia].
  pose proof (exact_self_ratio k Hk) as Hone.
  split_and!; try exact Hone.
  - unfold Compare.f1Of.
    cbn [JsNumber.isPositive JsNumber.add JsNumber.mul JsNumber.exact] in *.
    destruct (Qlt_le_dec 0 _) as [_|Hle].
    + cbn [JsNumber.div JsNumber.ofNat JsNumber.exact] in *.
      rewrite Hone. reflexivity.
    + rewrite Hone in Hle. by apply Qle_bool_iff in Hle.
  - cbn [JsNumber.mul JsNumber.exact] in *. rewrite Hone. reflexivity.
Qed.

Lemma perfect_counts (data : list Compare.DataRow) (label : string) :
  (∀ row, row ∈ data → Compare.humanLabel row = Compare.llmLabel row) →
  truePositiveCount data label = actualCount data label
  ∧ falsePositiveCount data label = 0
  ∧ correctCount data = length data
  ∧ (labelSeen data label → 0 < actualCount data label)
  ∧ (labelSeen data label → label ∈ (Compare.humanLabel <$> data)).
Proof.
  unfold truePositiveCount, actualCount, falsePositiveCount, correctCount,
    labelSeen.
  induction data as [|row data IH]; intros Hall.
  - split_and!; try done; intros [Hin|Hin]; by apply elem_of_nil in Hin.
  - pose proof (Hall row ltac:(left)) as Hrow.
    destruct IH as (IH1 & IH2 & IH3 & IH4 & IH5).
    { intros r Hr. apply Hall. by right. }
    rewrite !filter_cons. rewrite (decide_True (P := _ = Compare.llmLabel row)) by done.
    rewrite !fmap_cons, !elem_of_cons.
    destruct (decide (Compare.humanLabel row = label)) as [Hl|Hl].
    + rewrite decide_True by (split; congruence).
      rewrite decide_False by tauto. cbn [length].
      split_and!; try lia; try (intros _; lia). intros _. by left.
    + rewrite decide_False by tauto.
      rewrite decide_False by (intros [_ ?]; congruence).
      cbn [length]. split_and!; try lia.
      * intros [[?|Hin]|[?|Hin]]; try congruence; apply IH4; auto.
      * intros [[?|Hin]|[?|Hin]]; try congruence; right; apply IH5; auto.
Qed.

(** X17. When the model's label is the human label on every row, there
    is a row, and no label names a member of [Object.prototype], then in
    whatever arithmetic every prediction is counted as correct and every
    label that occurs has statistics with [correct = total = k], the number
    [k > 0] of its rows, no false positive, and the metrics computed from
    [k / k]; [labelStats] has a property for every label that occurs. In
    exact arithmetic these are full marks: the overall accuracy is 100,
    every label has precision 1, recall 1, f1 1 and accuracy 100, and the
    macro-averaged F1 is 1. For the rows [(A,A), (B,B), (A,A)] the doubles
    computed are an overall accuracy of 100 and a macro-averaged F1 of 1. *)
Theorem perfect_predictions_score_full {N : Type} `{JsNumber.Ops N}
    (data : list Compare.DataRow) :
  data ≠ [] →
  plainRun data →
  (∀ row, row ∈ data → Compare.humanLabel row = Compare.llmLabel row) →
  (∃ stats, Compare.calculateAccuracy (N := N) data = Some stats
     ∧ Compare.correctPredictions stats = Compare.totalSamples stats
     ∧ (∀ label, labelSeen data label ↔ is_Some (Compare.as_labelStats stats !! label))
     ∧ (∀ label st, Compare.as_labelStats stats !! label = Some st →
          0 < Compare.total st
          ∧ Compare.total st = actualCount data label
          ∧ st = Compare.metrics (Compare.total st) (Compare.total st) 0))
  ∧ (∃ stats, Compare.calculateAccuracy (N := Q) data = Some stats
     ∧ (Compare.overallAccuracy stats == 100)%Q
     ∧ (∀ label st, Compare.as_labelStats stats !! label = Some st →
          Compare.correct st = Compare.total st
          ∧ (Compare.precision st == 1)%Q ∧ (Compare.recall st == 1)%Q
          ∧ (Compare.f1Score st == 1)%Q ∧ (Compare.accuracy st == 100)%Q)
     ∧ (Compare.macroF1 stats == 1)%Q)
  ∧ (∃ stats,
       Compare.calculateAccuracy (N := PrimFloat.float)
         [pairRow "A" "A"; pairRow "B" "B"; pairRow "A" "A"] = Some stats
       ∧ Compare.overallAccuracy stats = JsNumber.ofNat 100
       ∧ Compare.macroF1 stats = JsNumber.ofNat 1).
Proof.
  intros Hne Hplain Hall.
  assert (0 < length data) as Hlen by (destruct data; [done|cbn; lia]).
  assert (∀ label, labelSeen data label → Compare.isMethod label = false)
    as Hlabels.
  { intros label Hseen. eapply plainRun_human; [done|].
    by apply (perfect_counts data label Hall). }
  assert (∀ (M : Type) (HM : JsNumber.Ops M) label st,
            Compare.as_labelStats (Compare.statistics (N := M) data) !! label
            = Some st →
            labelSeen data label
            ∧ st = Compare.metrics (actualCount data label)
                     (actualCount data label) 0) as Hstats.
  { intros M HM label st. rewrite statistics_labelStats by done.
    destruct (decide (labelSeen data label ∧ _)) as [[Hseen _]|]; [|done].
    destruct (perfect_counts data label Hall) as (-> & -> & _).
    by intros [= <-]. }
  split_and!.
  - exists (Compare.statistics data).
    split; [by apply calculateAccuracy_plain|]. split_and!.
    + unfold Compare.statistics.
      cbn [Compare.correctPredictions Compare.totalSamples].
      rewrite tally_totalCorrect. apply (perfect_counts data "" Hall).
    + intros label. rewrite statistics_labelStats by done. split.
      * intros Hseen. rewrite decide_True by auto. by eexists.
      * destruct (decide (labelSeen data label ∧ _)) as [[? _]|]; [done|].
        by intros [? ?].
    + intros label st Hst. destruct (Hstats _ _ label st Hst) as [Hseen ->].
      cbn [Compare.metrics Compare.total]. split_and!; [|done|done].
      by apply (perfect_counts data label Hall).
  - exists (Compare.statistics data).
    split; [by apply calculateAccuracy_plain|]. split_and!.
    + unfold Compare.statistics. cbn [Compare.overallAccuracy].
      rewrite tally_totalCorrect.
      destruct (perfect_counts data "" Hall) as (_ & _ & -> & _).
      destruct (Nat.ltb_spec 0 (length data)) as [_|]; [|lia].
      pose proof (exact_self_ratio (length data) Hlen) as Hone.
      cbn [JsNumber.mul JsNumber.div JsNumber.ofNat JsNumber.exact] in *.
      rewrite Hone. reflexivity.
    + intros label st Hst. destruct (Hstats _ _ label st Hst) as [Hseen ->].
      split; [done|]. apply exact_full_metrics.
      by apply (perfect_counts data label Hall).
    + destruct (statistics_labelOrder (N := Q) data Hplain) as [_ Hkeys].
      pose proof (Hstats Q _) as HstatsQ.
      pose proof (statistics_labelStats (N := Q) data) as Hlookup.
      unfold Compare.statistics in *.
      cbn [Compare.macroF1 Compare.as_labelStats Compare.as_labelOrder] in *.
      set (t := Compare.buildTally data) in *.
      set (own := foldl (Compare.metricsStep (Compare.confusionMatrix t))
                    (Compare.labelStats t, Compare.labelOrder t)
                    (Compare.allLabels t data)) in *.
      assert (0 < length (Compare.ownKeys own.2)) as Hkeys_pos.
      { rewrite ownKeys_Permutation.
        destruct data as [|row data]; [done|].
        assert (Compare.humanLabel row ∈ own.2) as Hin.
        { apply Hkeys.
          assert (labelSeen (row :: data) (Compare.humanLabel row)) as Hseen.
          { left. rewrite fmap_cons. left. }
          split; [done|by apply Hlabels]. }
        destruct own.2; [by apply elem_of_nil in Hin|cbn; lia]. }
      rewrite length_fmap.
      destruct (Nat.ltb_spec 0 (length (Compare.ownKeys own.2))) as [_|]; [|lia].
      assert (Forall (λ x, (x == 1)%Q)
                ((λ label, Compare.f1Score
                             (default Compare.zeroStats (own.1 !! label)))
                 <$> Compare.ownKeys own.2)) as Hones.
      { apply Forall_fmap, Forall_forall. intros label Hin. cbn.
        apply elem_of_ownKeys, Hkeys in Hin as [Hseen Hm].
        specialize (Hlookup label Hplain).
        rewrite decide_True in Hlookup by done.
        destruct (HstatsQ label _ Hlookup) as [_ Heq].
        rewrite Hlookup. cbn [default from_option id]. rewrite Heq.
        apply exact_full_metrics. by apply (perfect_counts data label Hall). }
      cbn [JsNumber.div JsNumber.add JsNumber.ofNat JsNumber.exact].
      rewrite (exact_sum_of_ones _ _ Hones), length_fmap.
      cbn [inject_Z Z.of_nat]. rewrite Qplus_0_l.
      apply (exact_self_ratio _ Hkeys_pos).
  - eexists. split; [vm_compute; reflexivity|].
    split; vm_compute; reflexivity.
Qed.

Lemma perfect_predictions_score_full_witness :
  ∃ stats, Compare.calculateAccuracy (N := Q)
             [pairRow "A" "A"; pairRow "B" "B"; pairRow "A" "A"] = Some stats
  ∧ (Compare.overallAccuracy stats == 100)%Q
  ∧ (Compare.macroF1 stats == 1)%Q.
Proof.
  destruct (perfect_predictions_score_full (N := Q)
              [pairRow "A" "A"; pairRow "B" "B"; pairRow "A" "A"])
    as (_ & (stats & Hrun & Hacc & _ & Hf1) & _).
  - done.
  - apply plainRun_guard. vm_compute. reflexivity.
  - intros row Hrow. rewrite !elem_of_cons, elem_of_nil in Hrow.
    destruct Hrow as [->|[->|[->|[]]]]; reflexivity.
  - exists stats. split_and!; [exact Hrun|exact Hacc|exact Hf1].
Defined.

(** ** Model comparison: the join on the text *)

Lemma distinct_NoDup (seen items : list string) :
  NoDup (Compare.distinct seen items).
Proof.
  revert seen. induction items as [|x items IH]; intros seen; cbn.
  - constructor.
  - destruct (decide (x ∈ seen)); [apply IH|].
    constructor; [|apply IH].
    rewrite elem_of_distinct, elem_of_cons. tauto.
Qed.

Lemma mapSet_keyed (e : string → Compare.Entry) (k : string)
    (v : Compare.Entry) (keys : list string) :
  NoDup keys →
  Compare.mapSet k v ((λ k', (k', e k')) <$> keys)
  = ((λ k', (k', if decide (k' = k) then v else e k')) <$> keys)
    ++ (if decide (k ∈ keys) then [] else [(k, v)]).
Proof.
  induction 1 as [|k0 keys Hk0 Hkeys IH]; cbn.
  - by rewrite decide_False by apply not_elem_of_nil.
  - destruct (decide (k0 = k)) as [->|Hne].
    + rewrite decide_True by left. rewrite app_nil_r. f_equal.
      apply list_fmap_ext. intros i k' Hk'.
      apply list_elem_of_lookup_2 in Hk'.
      rewrite decide_False; [done|]. by intros ->.
    + rewrite IH. cbn. f_equal.
      destruct (decide (k ∈ keys)) as [Hin|Hnin].
      * by rewrite decide_True by (by right).
      * rewrite decide_False; [done|]. rewrite elem_of_cons. intuition congruence.
Qed.

Lemma mapUpdate_keyed (e : string → Compare.Entry) (k : string)
    (g : Compare.Entry → Compare.Entry) (keys : list string) :
  NoDup keys →
  Compare.mapUpdate k g ((λ k', (k', e k')) <$> keys)
  = (λ k', (k', if decide (k' = k) then g (e k') else e k')) <$> keys.
Proof.
  induction 1 as [|k0 keys Hk0 Hkeys IH]; cbn; [done|].
  destruct (decide (k0 = k)) as [->|Hne].
  - f_equal. apply list_fmap_ext. intros i k' Hk'.
    apply list_elem_of_lookup_2 in Hk'.
    rewrite decide_False; [done|]. by intros ->.
  - by rewrite IH.
Qed.

Lemma lastRowOf_snoc (k : string) (data : list Compare.DataRow)
    (row : Compare.DataRow) :
  lastRowOf k (data ++ [row])
  = if decide (Compare.text row = k) then Some row else lastRowOf k data.
Proof.
  unfold lastRowOf. rewrite filter_app, filter_cons, filter_nil.
  destruct (decide (Compare.text row = k)).
  - apply last_snoc.
  - by rewrite app_nil_r.
Qed.

Lemma lastRowOf_Some (k : string) (data : list Compare.DataRow) :
  k ∈ (Compare.text <$> data) ↔ is_Some (lastRowOf k data).
Proof.
  induction data as [|row data IH] using rev_ind.
  - cbn. rewrite elem_of_nil. split; [done|]. by intros [? ?].
  - rewrite fmap_app, elem_of_app, lastRowOf_snoc, IH. cbn.
    rewrite list_elem_of_singleton.
    destruct (decide (Compare.text row = k)) as [->|Hne].
    + split; [eauto|auto].
    + split; [intros [?|?]; [done|congruence]|auto].
Qed.

Lemma lastRowOf_text (k : string) (data : list Compare.DataRow)
    (row : Compare.DataRow) :
  lastRowOf k data = Some row → row ∈ data ∧ Compare.text row = k.
Proof.
  unfold lastRowOf. intros Hlast. apply last_Some_elem_of in Hlast.
  by apply list_elem_of_filter in Hlast as [? ?].
Qed.

Lemma buildDataMap_entries (model1Data model2Data : list Compare.DataRow) :
  Compare.buildDataMap model1Data model2Data
  = (λ k, (k, entryFor model1Data model2Data k))
    <$> Compare.distinct [] (Compare.text <$> model1Data).
Proof.
  unfold Compare.buildDataMap.
  assert (foldl Compare.fromModel1 [] model1Data
          = (λ k, (k, entryFor model1Data [] k))
            <$> Compare.distinct [] (Compare.text <$> model1Data)) as ->.
  { induction model1Data as [|item items IH] using rev_ind; [done|].
    rewrite foldl_app, fmap_app. cbn [foldl fmap list_fmap].
    rewrite distinct_snoc, IH. unfold Compare.fromModel1.
    rewrite mapSet_keyed by apply distinct_NoDup. cbn [app].
    rewrite fmap_app.
    assert (Compare.text item ∈ Compare.distinct [] (Compare.text <$> items)
            ↔ Compare.text item ∈ (Compare.text <$> items)) as Hin.
    { rewrite elem_of_distinct, elem_of_nil. tauto. }
    f_equal.
    - apply list_fmap_ext. intros i k Hk. f_equal.
      unfold entryFor. rewrite lastRowOf_snoc.
      destruct (decide (k = Compare.text item)) as [->|Hne].
      + by rewrite decide_True.
      + by rewrite decide_False by congruence.
    - destruct (decide (Compare.text item ∈ Compare.text <$> items)) as [Hi|Hi].
      + by rewrite decide_True by (by apply Hin).
      + rewrite decide_False by (by rewrite Hin). cbn. do 2 f_equal.
        unfold entryFor. rewrite lastRowOf_snoc. by rewrite decide_True. }
  induction model2Data as [|item items IH] using rev_ind; [done|].
  rewrite foldl_app. cbn [foldl]. rewrite IH. unfold Compare.fromModel2.
  rewrite mapUpdate_keyed by apply distinct_NoDup.
  apply list_fmap_ext. intros i k Hk. f_equal.
  unfold entryFor. rewrite !lastRowOf_snoc.
  destruct (decide (k = Compare.text item)) as [->|Hne].
  - rewrite decide_True by done. by destruct (lastRowOf _ model1Data).
  - by rewrite decide_False by congruence.
Qed.

Lemma countAgreements_keyed (e : string → Compare.Entry) (keys : list string) :
  Compare.countAgreements ((λ k, (k, e k)) <$> keys)
  = length (filter (λ k, Compare.isAgreement (e k) = true) keys).
Proof.
  unfold Compare.countAgreements. induction keys as [|k keys IH]; [done|].
  rewrite fmap_cons, !filter_cons. cbn [snd].
  destruct (decide (Compare.isAgreement (e k) = true)); cbn [length]; by rewrite IH.
Qed.

Lemma disagreements_keyed (e : string → Compare.Entry) (keys : list string) :
  omap Compare.disagreementOf ((λ k, (k, e k)) <$> keys)
  = omap (λ k, Compare.disagreementOf (k, e k)) keys.
Proof.
  induction keys as [|k keys IH]; [done|].
  rewrite fmap_cons. cbn [omap list_omap]. by rewrite IH.
Qed.

Lemma truthy_nonempty (s : string) : truthy s = true ↔ s ≠ "".
Proof. destruct s; cbn; split; done. Qed.

(** What it takes for the two models to be compared on a text, and to
    agree on it. *)
Lemma bothLabels_entryFor (model1Data model2Data : list Compare.DataRow)
    (k l1 l2 : string) :
  Compare.bothLabels (entryFor model1Data model2Data k) = Some (l1, l2)
  ↔ ∃ r1 r2, lastRowOf k model1Data = Some r1
      ∧ lastRowOf k model2Data = Some r2
      ∧ Compare.llmLabel r1 = l1 ∧ Compare.llmLabel r2 = l2
      ∧ l1 ≠ "" ∧ l2 ≠ "".
Proof.
  unfold entryFor, Compare.bothLabels.
  destruct (lastRowOf k model1Data) as [r1|], (lastRowOf k model2Data) as [r2|];
    cbn.
  - destruct (truthy (Compare.llmLabel r1)) eqn:H1,
      (truthy (Compare.llmLabel r2)) eqn:H2; cbn.
    + apply truthy_nonempty in H1, H2. split.
      * intros [= <- <-]. by exists r1, r2.
      * intros (? & ? & [= <-] & [= <-] & <- & <- & _). done.
    + split; [done|]. intros (? & ? & [= <-] & [= <-] & <- & <- & _ & Hne).
      apply truthy_nonempty in Hne. congruence.
    + split; [done|]. intros (? & ? & [= <-] & [= <-] & <- & <- & Hne & _).
      apply truthy_nonempty in Hne. congruence.
    + split; [done|]. intros (? & ? & [= <-] & [= <-] & <- & <- & Hne & _).
      apply truthy_nonempty in Hne. congruence.
  - split; [done|]. by intros (? & ? & _ & ? & _).
  - split; [done|]. by intros (? & ? & ? & _).
  - split; [done|]. by intros (? & ? & ? & _).
Qed.

(** X18. [compareModels] joins the two sets on the text. The map has one
    entry for each distinct text of the first set, in the order of first
    occurrence; its human label and first label come from the last row of
    the first set with that text, its second label from the last row of the
    second set with that text, so that of two rows with the same text the
    later one counts. The models agree on a text when both of these rows
    exist and carry the same label, which is not empty. The rate returned
    is the number of texts agreed on over the number of distinct texts of
    the first set, times 100, and the disagreements returned are the first
    ten texts, in that order, on which both labels are present and differ. *)
Theorem compareModels_joins_on_text {N : Type} `{JsNumber.Ops N}
    (model1Data model2Data : list Compare.DataRow) :
  let keys := Compare.distinct [] (Compare.text <$> model1Data) in
  let entry := entryFor model1Data model2Data in
  let stats := Compare.compareModels (N := N) model1Data model2Data in
  Compare.buildDataMap model1Data model2Data = (λ k, (k, entry k)) <$> keys
  ∧ NoDup keys
  ∧ (∀ k, k ∈ keys ↔ ∃ r1, lastRowOf k model1Data = Some r1)
  ∧ (∀ k, Compare.isAgreement (entry k) = true
          ↔ ∃ r1 r2, lastRowOf k model1Data = Some r1
              ∧ lastRowOf k model2Data = Some r2
              ∧ Compare.llmLabel r1 = Compare.llmLabel r2
              ∧ Compare.llmLabel r1 ≠ "")
  ∧ Compare.agreementRate stats
    = JsNumber.mul
        (JsNumber.div
           (JsNumber.ofNat
              (length (filter (λ k, Compare.isAgreement (entry k) = true) keys)))
           (JsNumber.ofNat (length keys)))
        (JsNumber.ofNat 100)
  ∧ Compare.disagreements stats
    = take 10 (omap (λ k, Compare.disagreementOf (k, entry k)) keys).
Proof.
  intros keys entry stats.
  pose proof (buildDataMap_entries model1Data model2Data) as Hmap.
  fold keys entry in Hmap.
  split_and!.
  - exact Hmap.
  - apply distinct_NoDup.
  - intros k. subst keys. rewrite elem_of_distinct, lastRowOf_Some.
    rewrite elem_of_nil. unfold is_Some. tauto.
  - intros k. subst entry. unfold Compare.isAgreement.
    destruct (Compare.bothLabels (entryFor model1Data model2Data k))
      as [[l1 l2]|] eqn:Hboth.
    + apply bothLabels_entryFor in Hboth
        as (r1 & r2 & H1 & H2 & <- & <- & Hne1 & Hne2).
      rewrite bool_decide_eq_true. split.
      * intros Heq. by exists r1, r2.
      * intros (r1' & r2' & H1' & H2' & Heq & _). congruence.
    + split; [done|]. intros (r1 & r2 & H1 & H2 & Heq & Hne).
      assert (Compare.bothLabels (entryFor model1Data model2Data k)
              = Some (Compare.llmLabel r1, Compare.llmLabel r2)) as Hsome.
      { apply bothLabels_entryFor. exists r1, r2. split_and!; congruence. }
      congruence.
  - subst stats. unfold Compare.compareModels. cbn [Compare.agreementRate].
    by rewrite Hmap, countAgreements_keyed, length_fmap.
  - subst stats. unfold Compare.compareModels. cbn [Compare.disagreements].
    by rewrite Hmap, disagreements_keyed.
Qed.

(** X19. The disagreements that [compareModels] returns are at most ten,
    no text occurs twice among them, and each is a text that both sets hold,
    with the two labels of the last row of each set for that text, both
    labels present and different from each other, and with the human label
    and the explanations of these rows (the human label being that of the
    first set). Agreements and disagreements together never exceed the
    number of entries compared. *)
Theorem disagreements_are_genuine {N : Type} `{JsNumber.Ops N}
    (model1Data model2Data : list Compare.DataRow) :
  let stats := Compare.compareModels (N := N) model1Data model2Data in
  let dataMap := Compare.buildDataMap model1Data model2Data in
  length (Compare.disagreements stats) ≤ 10
  ∧ NoDup (Compare.d_text <$> Compare.disagreements stats)
  ∧ Forall (λ d, ∃ r1 r2,
        lastRowOf (Compare.d_text d) model1Data = Some r1
        ∧ lastRowOf (Compare.d_text d) model2Data = Some r2
        ∧ Compare.d_humanLabel d = Compare.humanLabel r1
        ∧ Compare.d_model1Label d = Compare.llmLabel r1
        ∧ Compare.d_model2Label d = Compare.llmLabel r2
        ∧ Compare.d_model1Explanation d = Compare.llmExplanation r1
        ∧ Compare.d_model2Explanation d = Compare.llmExplanation r2
        ∧ Compare.llmLabel r1 ≠ Compare.llmLabel r2
        ∧ Compare.llmLabel r1 ≠ "" ∧ Compare.llmLabel r2 ≠ "")
      (Compare.disagreements stats)
  ∧ Compare.countAgreements dataMap
    + length (omap Compare.disagreementOf dataMap) ≤ length dataMap.
Proof.
  intros stats dataMap.
  pose proof (buildDataMap_entries model1Data model2Data) as Hmap.
  set (keys := Compare.distinct [] (Compare.text <$> model1Data)) in *.
  set (entry := entryFor model1Data model2Data) in *.
  assert (Compare.disagreements stats
          = take 10 (omap (λ k, Compare.disagreementOf (k, entry k)) keys))
    as Hd.
  { subst stats. unfold Compare.compareModels. cbn [Compare.disagreements].
    by rewrite Hmap, disagreements_keyed. }
  assert (∀ k d, Compare.disagreementOf (k, entry k) = Some d →
            Compare.d_text d = k) as Htext.
  { intros k d. unfold Compare.disagreementOf. cbn [fst snd].
    destruct (Compare.bothLabels (entry k)) as [[l1 l2]|]; [|done].
    destruct (decide (l1 = l2)); [done|]. by intros [= <-]. }
  split_and!.
  - rewrite Hd, length_take. lia.
  - rewrite Hd.
    apply (sublist_NoDup _
             (Compare.d_text
              <$> omap (λ k, Compare.disagreementOf (k, entry k)) keys)).
    2:{ apply fmap_sublist, sublist_take. }
    assert (NoDup keys) as Hnodup by apply distinct_NoDup.
    clear Hd Hmap. induction Hnodup as [|k keys' Hk Hkeys IH]; [constructor|].
    cbn [omap list_omap].
    destruct (Compare.disagreementOf (k, entry k)) as [d|] eqn:Hdk; [|exact IH].
    rewrite fmap_cons. constructor; [|exact IH].
    rewrite (Htext k d Hdk). intros Hin.
    apply list_elem_of_fmap in Hin as (d' & Hk' & Hin).
    apply list_elem_of_omap in Hin as (k' & Hin & Hdk').
    apply Htext in Hdk'. congruence.
  - rewrite Hd. apply Forall_take, Forall_forall. intros d Hin.
    apply list_elem_of_omap in Hin as (k & _ & Hdk).
    pose proof (Htext k d Hdk) as Hk. rewrite Hk.
    unfold Compare.disagreementOf in Hdk. cbn [fst snd] in Hdk.
    destruct (Compare.bothLabels (entry k)) as [[l1 l2]|] eqn:Hboth; [|done].
    destruct (decide (l1 = l2)) as [|Hne]; [done|].
    apply bothLabels_entryFor in Hboth
      as (r1 & r2 & H1 & H2 & <- & <- & Hne1 & Hne2).
    exists r1, r2. injection Hdk as <-. cbn.
    subst entry. unfold entryFor. rewrite H1, H2. cbn. split_and!; done.
  - subst dataMap. rewrite Hmap, countAgreements_keyed, disagreements_keyed.
    rewrite length_fmap. clear Hd Hmap.
    induction keys as [|k keys' IH]; [done|].
    rewrite filter_cons. cbn [omap list_omap length].
    destruct (decide (Compare.isAgreement (entry k) = true)) as [Hagree|Hnot].
    + assert (Compare.disagreementOf (k, entry k) = None) as ->.
      { unfold Compare.isAgreement, Compare.disagreementOf in *. cbn [fst snd].
        destruct (Compare.bothLabels (entry k)) as [[l1 l2]|]; [|done].
        apply bool_decide_eq_true in Hagree. by rewrite decide_True. }
      cbn [length]. lia.
    + destruct (Compare.disagreementOf (k, entry k)); cbn [length]; lia.
Qed.

(** ** File names *)

Lemma split_nonempty (sep : ascii) (s : string) :
  ∃ piece rest, split sep s = piece :: rest.
Proof.
  destruct (split_head sep s) as (piece & rest & _ & Hsplit & _). eauto.
Qed.

Lemma split_app_separator (sep : ascii) (a b : string) :
  split sep (a +:+ String sep b) = split sep a ++ split sep b.
Proof.
  induction a as [|c a IH].
  - rewrite append_nil_left. cbn [split]. by rewrite Ascii.eqb_refl.
  - rewrite append_cons. cbn [split]. rewrite IH.
    destruct (Ascii.eqb c sep); [done|].
    by destruct (split_nonempty sep a) as (piece & rest & ->).
Qed.

Lemma join_cons_head (sep c : ascii) (p : string) (rest : list string) :
  join sep (String c p :: rest) = String c (join sep (p :: rest)).
Proof. by destruct rest. Qed.

Lemma join_split (sep : ascii) (s : string) : join sep (split sep s) = s.
Proof.
  induction s as [|c s IH]; [done|]. cbn [split].
  destruct (split_nonempty sep s) as (piece & rest & Hsplit).
  rewrite Hsplit in *. destruct (Ascii.eqb_spec c sep) as [->|Hne].
  - by rewrite join_cons_cons, IH.
  - by rewrite join_cons_head, IH.
Qed.

Lemma lastChar_app (a b : string) :
  b ≠ "" → Naming.lastChar (a +:+ b) = Naming.lastChar b.
Proof.
  intros Hb. induction a as [|c a IH]; [done|].
  rewrite append_cons. cbn [Naming.lastChar]. rewrite IH.
  destruct (a +:+ b) eqn:Hab; [|done].
  destruct a; [by rewrite append_nil_left in Hab|by rewrite append_cons in Hab].
Qed.

Lemma lastChar_hasChar (c : ascii) (s : string) :
  Naming.lastChar s = Some c → hasChar c s = true.
Proof.
  induction s as [|x s IH]; [done|]. cbn [Naming.lastChar hasChar].
  destruct s as [|y s].
  - intros [= ->]. by rewrite Ascii.eqb_refl.
  - intros Hlast. rewrite (IH Hlast). apply orb_true_r.
Qed.

(** Joining the checkpoint directory and a plain file name. *)
Lemma path_join_checkpoint_dir (name : string) :
  hasChar "/" name = false → name ≠ "" → name ≠ "." → name ≠ ".." →
  Naming.path_join Naming.CHECKPOINT_DIR name = "dataset/checkpoints/" +:+ name.
Proof.
  intros Hslash Hne Hdot Hdots.
  assert (Naming.path_join Naming.CHECKPOINT_DIR name
          = Naming.normalize ("./dataset/checkpoints/" +:+ name)) as ->.
  { by destruct name. }
  unfold Naming.normalize.
  assert (startsWith "/" ("./dataset/checkpoints/" +:+ name) = false) as ->
    by reflexivity.
  assert (Naming.lastChar ("./dataset/checkpoints/" +:+ name) ≠ Some "/"%char)
    as Hlast.
  { rewrite lastChar_app by done. intros Hl%lastChar_hasChar. congruence. }
  rewrite (bool_decide_eq_false_2 _ Hlast).
  change ("./dataset/checkpoints/" +:+ name)
    with ("." +:+ String "/" ("dataset" +:+ String "/"
            ("checkpoints" +:+ String "/" name))).
  rewrite !split_at_separator by reflexivity.
  rewrite split_without_separator by done.
  assert (foldl (Naming.normalizeStep (negb false)) []
            ["."; "dataset"; "checkpoints"; name]
          = ["dataset"; "checkpoints"; name]) as ->.
  { change ["."; "dataset"; "checkpoints"; name]
      with (["."; "dataset"; "checkpoints"] ++ [name]).
    rewrite foldl_app.
    assert (foldl (Naming.normalizeStep (negb false)) []
              ["."; "dataset"; "checkpoints"] = ["dataset"; "checkpoints"])
      as -> by (vm_compute; reflexivity).
    cbn [foldl]. unfold Naming.normalizeStep.
    rewrite decide_False by tauto. by rewrite decide_False. }
  change (join "/" ["dataset"; "checkpoints"; name])
    with (String "d" ("ataset/checkpoints/" +:+ name)).
  cbn iota. rewrite append_nil_left, append_nil_right. reflexivity.
Qed.

Lemma checkpointFileName_plain (modelType target : string) (a : Action)
    (isTrainFile : bool) :
  hasChar "/" modelType = false → hasChar "/" target = false →
  let name := Naming.checkpointFileName modelType target a isTrainFile in
  hasChar "/" name = false ∧ name ≠ "" ∧ name ≠ "." ∧ name ≠ "..".
Proof.
  intros Hm Ht name. subst name. unfold Naming.checkpointFileName.
  split_and!; try done.
  rewrite !hasChar_app, Hm, Ht. by destruct a, isTrainFile.
Qed.

Lemma checkpointFileName_pieces (modelType target : string) (a : Action)
    (isTrainFile : bool) :
  hasChar "-" target = false →
  ∃ rest,
    Naming.checkpointFileName modelType target a isTrainFile
    = "checkpoint-" +:+ rest
    ∧ split "-" rest
      = split "-" modelType
        ++ [target; Naming.actionName a;
            Naming.datasetName isTrainFile +:+ ".json"].
Proof.
  intros Ht. eexists. split; [reflexivity|].
  change ("-" +:+ target +:+ "-" +:+ Naming.actionName a +:+ "-"
          +:+ Naming.datasetName isTrainFile +:+ ".json")
    with (String "-" (target +:+ String "-" (Naming.actionName a +:+ String "-"
            (Naming.datasetName isTrainFile +:+ ".json")))).
  rewrite split_app_separator. f_equal.
  rewrite split_at_separator by done.
  rewrite split_at_separator by (by destruct a).
  rewrite split_without_separator by (by destruct isTrainFile). done.
Qed.

(** X20. For a model and a target without a slash, the checkpoint file is
    [dataset/checkpoints/checkpoint-<model>-<target>-<action>-<train|test>.json];
    and when in addition the targets hold no dash (as the six targets of
    the program do), two checkpoint paths are equal only if the model, the
    target, the action and the data set are equal: the explanation and the
    classification of a data set, two models or two targets never share a
    checkpoint file, even though model names contain dashes. Without the
    condition on the target the paths can collide. *)
Theorem checkpoint_paths_do_not_collide (model1 target1 : string) (action1 : Action)
    (train1 : bool) (model2 target2 : string) (action2 : Action) (train2 : bool) :
  hasChar "/" model1 = false → hasChar "/" target1 = false →
  hasChar "/" model2 = false → hasChar "/" target2 = false →
  hasChar "-" target1 = false → hasChar "-" target2 = false →
  Naming.getCheckpointPath model1 target1 action1 train1
  = "dataset/checkpoints/checkpoint-" +:+ model1 +:+ "-" +:+ target1 +:+ "-"
    +:+ Naming.actionName action1 +:+ "-" +:+ Naming.datasetName train1
    +:+ ".json"
  ∧ (Naming.getCheckpointPath model1 target1 action1 train1
     = Naming.getCheckpointPath model2 target2 action2 train2 →
     model1 = model2 ∧ target1 = target2 ∧ action1 = action2 ∧ train1 = train2)
  ∧ Naming.getCheckpointPath "a" "b-c" explain true
    = Naming.getCheckpointPath "a-b" "c" explain true.
Proof.
  intros S1 S2 S3 S4 D1 D2.
  destruct (checkpointFileName_plain model1 target1 action1 train1 S1 S2)
    as (P1 & P2 & P3 & P4).
  destruct (checkpointFileName_plain model2 target2 action2 train2 S3 S4)
    as (Q1 & Q2 & Q3 & Q4).
  unfold Naming.getCheckpointPath.
  rewrite !path_join_checkpoint_dir by done.
  split_and!; [reflexivity| |reflexivity].
  intros Heq. apply append_inv_head in Heq.
  destruct (checkpointFileName_pieces model1 target1 action1 train1 D1)
    as (rest1 & Hname1 & Hsplit1).
  destruct (checkpointFileName_pieces model2 target2 action2 train2 D2)
    as (rest2 & Hname2 & Hsplit2).
  rewrite Hname1, Hname2 in Heq. apply append_inv_head in Heq. subst rest2.
  rewrite Hsplit1 in Hsplit2.
  apply app_inj_2 in Hsplit2 as [Hmodel Htail]; [|done].
  injection Htail as Htarget Haction Hdataset.
  split_and!.
  - by rewrite <- (join_split "-" model1), Hmodel, join_split.
  - done.
  - by destruct action1, action2.
  - by destruct train1, train2.
Qed.

Lemma checkpoint_paths_do_not_collide_witness :
  Naming.getCheckpointPath "gemini-2.5-pro" "lula" classify false
  = "dataset/checkpoints/checkpoint-gemini-2.5-pro-lula-classify-test.json"
  ∧ (Naming.getCheckpointPath "gemini-2.5-pro" "lula" classify false
     = Naming.getCheckpointPath "gemini-2.5-pro" "lula" explain false →
     classify = explain).
Proof.
  destruct (checkpoint_paths_do_not_collide "gemini-2.5-pro" "lula" classify
              false "gemini-2.5-pro" "lula" explain false)
    as (Hpath & Hinj & _); try reflexivity.
  split; [exact Hpath|]. intros Heq. by destruct (Hinj Heq) as (_ & _ & ? & _).
Defined.

Lemma fileName_of_path (dir name : string) :
  hasChar "/" name = false →
  default "" (last (split "/" (dir +:+ "/" +:+ name))) = name
  ∧ default "" (last (split "/" name)) = name.
Proof.
  intros Hname.
  change (dir +:+ "/" +:+ name) with (dir +:+ String "/" name).
  rewrite split_app_separator, (split_without_separator "/" name) by done.
  by rewrite last_snoc.
Qed.

Lemma matchTail_choice (s : string) (td : string * string) :
  Naming.matchTail s = Some td →
  td.1 ∈ Naming.allTargets ∧ td.2 ∈ ["train"; "test"].
Proof.
  unfold Naming.matchTail. intros Hhead.
  assert (td ∈ Naming.tailChoices) as Hin.
  { apply head_Some_elem_of in Hhead.
    by apply list_elem_of_filter in Hhead as [_ ?]. }
  clear Hhead. unfold Naming.tailChoices, Naming.allTargets in *.
  cbn in Hin. rewrite !elem_of_cons, elem_of_nil in Hin.
  rewrite !elem_of_cons, !elem_of_nil.
  repeat destruct Hin as [->|Hin]; cbn; tauto.
Qed.

Lemma matchLazy_choice (s modelStr : string) (td : string * string) :
  Naming.matchLazy s = Some (modelStr, td) →
  td.1 ∈ Naming.allTargets ∧ td.2 ∈ ["train"; "test"].
Proof.
  revert modelStr. induction s as [|c s IH]; intros modelStr; cbn [Naming.matchLazy].
  - destruct (Naming.matchTail "") as [td'|] eqn:Htail; [|done].
    intros [= _ <-]. by eapply matchTail_choice.
  - destruct (Naming.matchTail (String c s)) as [td'|] eqn:Htail.
    + intros [= _ <-]. by eapply matchTail_choice.
    + destruct (Naming.isLineTerminator c); [done|].
      destruct (Naming.matchLazy s) as [[m td']|]; [|done].
      intros [= _ <-]. by eapply IH.
Qed.

Lemma searchPattern_choice (s modelStr : string) (td : string * string) :
  Naming.searchPattern s = Some (modelStr, td) →
  td.1 ∈ Naming.allTargets ∧ td.2 ∈ ["train"; "test"].
Proof.
  induction s as [|c s IH]; cbn [Naming.searchPattern].
  - destruct (startsWith "processed-" ""); [|done].
    destruct (Naming.matchLazy _) as [r|] eqn:Hlazy; [|done].
    intros [= ->]. by eapply matchLazy_choice.
  - destruct (if startsWith "processed-" (String c s)
              then Naming.matchLazy (dropChars 10 (String c s)) else None)
      as [r|] eqn:Hhere.
    + intros [= ->]. destruct (startsWith "processed-" (String c s)); [|done].
      by eapply matchLazy_choice.
    + exact IH.
Qed.

(** X21. The file names that [processDataset] writes are the ones that the
    retry-missing script recognises: for each of the three models and six
    targets of the program, and both data sets, [extractModelAndTarget]
    applied to the output path, alone or below any directory, gives back
    that model, target and data set. Whatever the path, a result that is
    not [null] names one of the three models, one of the six targets and
    [train] or [test]. *)
Theorem output_names_are_recognised (dir modelType target : string)
    (isTrainFile : bool) :
  modelType ∈ Naming.validModels → target ∈ Naming.allTargets →
  let name := Naming.outputPath modelType target isTrainFile in
  Naming.extractModelAndTarget name
  = Some (modelType, target, Naming.datasetName isTrainFile)
  ∧ Naming.extractModelAndTarget (dir +:+ "/" +:+ name)
    = Some (modelType, target, Naming.datasetName isTrainFile)
  ∧ (∀ filePath m t d,
       Naming.extractModelAndTarget filePath = Some (m, t, d) →
       m ∈ Naming.validModels ∧ t ∈ Naming.allTargets ∧ d ∈ ["train"; "test"]).
Proof.
  intros Hmodel Htarget name.
  assert (hasChar "/" name = false
          ∧ (if truthy name
             then match Naming.searchPattern name with
                  | Some (modelStr, (target', dataset)) =>
                      if decide (modelStr = "gpt-5")
                      then Some ("gpt-5", target', dataset)
                      else if decide (modelStr = "gemini-2-5-pro")
                      then Some ("gemini-2.5-pro", target', dataset)
                      else if decide (modelStr = "gemini-2-0-flash")
                      then Some ("gemini-2.0-flash", target', dataset)
                      else None
                  | None => None
                  end
             else None)
            = Some (modelType, target, Naming.datasetName isTrainFile))
    as [Hplain Hfound].
  { subst name. unfold Naming.validModels, Naming.allTargets in *.
    rewrite !elem_of_cons in Hmodel. rewrite !elem_of_cons in Htarget.
    destruct Hmodel as [->|[->|[->|Hm]]]; [| | |by apply elem_of_nil in Hm];
      (destruct Htarget as [->|[->|[->|[->|[->|[->|Ht]]]]]];
       [| | | | | |by apply elem_of_nil in Ht]);
      destruct isTrainFile; split; vm_compute; reflexivity. }
  split_and!.
  - unfold Naming.extractModelAndTarget.
    by rewrite (proj2 (fileName_of_path "" name Hplain)).
  - unfold Naming.extractModelAndTarget.
    by rewrite (proj1 (fileName_of_path dir name Hplain)).
  - clear Hfound. intros filePath m t d. unfold Naming.extractModelAndTarget.
    cbv zeta. set (fileName := default "" (last (split "/" filePath))).
    destruct (truthy fileName); [|done].
    destruct (Naming.searchPattern fileName) as [[modelStr [t' d']]|]
      eqn:Hsearch; [|done].
    apply searchPattern_choice in Hsearch as [Ht Hd]. cbn [fst snd] in *.
    unfold Naming.validModels.
    repeat case_decide; intros Heq; try discriminate;
      injection Heq as <- <- <-; (split_and!; [|done|done]);
      rewrite !elem_of_cons; auto.
Qed.

Lemma output_names_are_recognised_witness :
  Naming.extractModelAndTarget
    ("gemini-2.5-pro" +:+ "/" +:+ Naming.outputPath "gemini-2.5-pro" "lula" false)
  = Some ("gemini-2.5-pro", "lula", "test")
  ∧ Naming.outputPath "gemini-2.5-pro" "lula" false
    = "processed-gemini-2-5-pro-lula-test.xlsx".
Proof.
  destruct (output_names_are_recognised "gemini-2.5-pro" "gemini-2.5-pro"
              "lula" false) as (_ & Hdir & _).
  - unfold Naming.validModels. rewrite !elem_of_cons. auto.
  - unfold Naming.allTargets. rewrite !elem_of_cons. auto 10.
  - split; [exact Hdir|reflexivity].
Defined.

(** ** From the worksheet to the worksheet: [processDataset] *)

Lemma elem_of_collectRows {T : Type} (callback : RowCells → nat → list T)
    (ws : Worksheet) (x : T) :
  x ∈ Reading.collectRows callback ws
  ↔ ∃ r row, ws !! r = Some row ∧ 0 < r ∧ hasValues row = true
      ∧ x ∈ callback row r.
Proof.
  unfold Reading.collectRows. rewrite list_elem_of_In, in_flat_map. split.
  - intros (r & Hr%list_elem_of_In & Hx%list_elem_of_In).
    apply elem_of_seq in Hr.
    destruct (ws !! r) as [row|] eqn:Hrow; [|by apply elem_of_nil in Hx].
    destruct (hasValues row) eqn:Hv; [|by apply elem_of_nil in Hx].
    exists r, row. split_and!; try done. lia.
  - intros (r & row & Hrow & Hr & Hv & Hx). exists r. split.
    + apply list_elem_of_In, elem_of_seq.
      assert (r ≤ Reading.lastRow ws); [|lia].
      apply max_list_elem_of_le, elem_of_elements, elem_of_dom. eauto.
    + apply list_elem_of_In. by rewrite Hrow, Hv.
Qed.

Lemma keyOfRow_cellString (row : RowCells) :
  keyOfRow row = trim (Reading.cellString (getCell row 1)).
Proof. unfold keyOfRow. by destruct (getCell row 1). Qed.

Lemma pending_fresh (act : Action) (tgt lang mt : string) (clock : nat → string)
    (n : nat) :
  pending (newCheckpoint act tgt lang mt clock n) n = seq 0 n.
Proof.
  unfold pending. induction (seq 0 n) as [|i l IH]; [done|].
  rewrite filter_cons, IH. unfold isProcessed. cbn [newCheckpoint processedBatches].
  rewrite bool_decide_eq_false_2 by apply not_elem_of_nil.
  by rewrite decide_True.
Qed.

(** A run without a checkpoint in which every call returns: the rows are
    those of the replies in batch order. *)
Lemma fresh_run_output {Row R : Type} (mk : string → string → string → R)
    (act : Action) (tgt lang mt : string) (clock : nat → string)
    (generateText : nat → nat → Completion string) (dataRows : list Row)
    (order : list nat) (reply : nat → string) :
  let n := length (createBatches BATCH_SIZE dataRows) in
  order ≡ₚ seq 0 n →
  (∀ i, i < n → generateText i 1 = Normal (reply i)) →
  o_output (runBatches mk act tgt lang mt clock generateText None dataRows order)
  = flat_map (λ i, parseResponse mk (reply i)) (seq 0 n).
Proof.
  intros n Horder Hreply.
  assert (o_output (runBatches mk act tgt lang mt clock generateText None
                      dataRows order)
          = parseAll mk (o_allResults (runBatches mk act tgt lang mt clock
                                         generateText None dataRows order)))
    as -> by reflexivity.
  rewrite run_allResults.
  2:{ cbn [initCheckpoint fst]. fold n. by rewrite pending_fresh. }
  fold n. cbn [initCheckpoint fst]. unfold parseAll. clear Horder.
  assert (Forall (λ i, i < n) (seq 0 n)) as Hseq.
  { apply Forall_forall. intros i Hi. apply elem_of_seq in Hi. lia. }
  induction Hseq as [|i l Hi _ IH]; [done|].
  cbn [omap list_omap flat_map]. rewrite <- IH.
  unfold resultAfterRun at 1, isProcessed. cbn [newCheckpoint processedBatches].
  rewrite bool_decide_eq_false_2 by apply not_elem_of_nil.
  rewrite (Hreply i Hi). cbn.
  destruct (reply i) as [|c r]; [reflexivity|done].
Qed.

Lemma by_index (A B : Type) (f : list A → list B) (l : list (list A)) :
  flat_map (λ i, f (default [] (l !! i))) (seq 0 (length l)) = flat_map f l.
Proof.
  assert ((λ i, default [] (l !! i)) <$> seq 0 (length l) = l) as Hl.
  { apply list_eq. intros i. rewrite list_lookup_fmap.
    destruct (decide (i < length l)) as [Hi|Hi].
    - rewrite lookup_seq_lt by done. cbn.
      destruct (lookup_lt_is_Some_2 l i Hi) as [x ->]. done.
    - rewrite lookup_seq_ge by lia. cbn. symmetry. apply lookup_ge_None_2. lia. }
  transitivity (flat_map f ((λ i, default [] (l !! i)) <$> seq 0 (length l)));
    [|by rewrite Hl].
  generalize (seq 0 (length l)). intros js.
  induction js as [|j js IH]; [done|]. cbn. by rewrite IH.
Qed.

Lemma lastWithKey_fmap {T U : Type} (text : U → string) (f : T → U)
    (key : string) (items : list T) :
  lastWithKey text key (f <$> items) = f <$> lastWithKey (text ∘ f) key items.
Proof.
  induction items as [|item items IH] using rev_ind; [done|].
  rewrite fmap_app. cbn [fmap list_fmap]. rewrite !lastWithKey_snoc, IH.
  unfold compose. by destruct (decide (trim (text (f item)) = key)).
Qed.

Lemma lastWithKey_is_Some {T : Type} (text : T → string) (key : string)
    (items : list T) (item : T) :
  item ∈ items → trim (text item) = key →
  is_Some (lastWithKey text key items).
Proof.
  intros Hin Hkey. unfold lastWithKey.
  assert (item ∈ filter (λ i, trim (text i) = key) items) as Hf.
  { by apply list_elem_of_filter. }
  destruct (filter _ items) as [|x l] eqn:Hl using rev_ind.
  - by apply elem_of_nil in Hf.
  - rewrite last_snoc. eauto.
Qed.





Lemma readExcelFileWithLabels_rows (ws : Worksheet) (lr : Reading.LabelledRow) :
  lr ∈ Reading.readExcelFileWithLabels (Some ws)
  ↔ ∃ r row, ws !! r = Some row ∧ 1 < r ∧ hasValues row = true
      ∧ Reading.cellString (getCell row 1) ≠ ""
      ∧ Reading.cellString (getCell row 3) ≠ ""
      ∧ lr = Reading.mkLabelledRow (Reading.cellString (getCell row 1))
               (Reading.cellString (getCell row 3)).
Proof.
  cbn [Reading.readExcelFileWithLabels]. rewrite elem_of_collectRows.
  unfold Reading.labelledOfRow. split.
  - intros (r & row & Hrow & _ & Hv & Hlr).
    destruct (decide (1 < r)); [|by apply elem_of_nil in Hlr].
    destruct (truthy (Reading.cellString (getCell row 1))) eqn:H1;
      [|by apply elem_of_nil in Hlr].
    destruct (truthy (Reading.cellString (getCell row 3))) eqn:H3;
      [|by apply elem_of_nil in Hlr].
    apply list_elem_of_singleton in Hlr. apply truthy_nonempty in H1, H3.
    by exists r, row.
  - intros (r & row & Hrow & Hr & Hv & H1 & H3 & ->). exists r, row.
    apply truthy_nonempty in H1, H3.
    split_and!; try done; [lia|].
    rewrite decide_True, H1, H3 by done. by apply list_elem_of_singleton.
Qed.

Lemma parseLines_natural {R S : Type} (mk : string → string → string → R)
    (f : R → S) (lines : list string) :
  parseLines (λ p0 p1 p2, f (mk p0 p1 p2)) lines = f <$> parseLines mk lines.
Proof.
  unfold parseLines. induction lines as [|line lines IH]; [done|].
  cbn [flat_map]. by rewrite fmap_app, IH, (parseLine_natural mk f).
Qed.

(** What the explanation step returns when the model answers every row of
    every batch, in order, with a line that echoes the text and the
    label. *)
Lemma echoed_explanations (modelType target : string) (clock : nat → string)
    (generateText : nat → nat → Completion string) (order : list nat)
    (rows : list Reading.LabelledRow) (why : Reading.LabelledRow → string) :
  let batches := createBatches BATCH_SIZE rows in
  order ≡ₚ seq 0 (length batches) →
  (∀ i batch, batches !! i = Some batch →
     let reply := replyTo (explainedBy why <$> batch) in
     generateText i 1 = Normal reply ∧ cleanTsvOutput reply = reply) →
  (∀ row, row ∈ rows → carriedByLine (explainedBy why row)) →
  o_output (explainStanceLabels target "portuguese" modelType clock
              generateText None rows order)
  = (explanationOf ∘ explainedBy why) <$> rows.
Proof.
  intros batches Horder Hreply Hcarried. unfold explainStanceLabels.
  rewrite (fresh_run_output mkExpl explain target "portuguese" modelType
             clock generateText rows order
             (λ i, replyTo (explainedBy why <$> default [] (batches !! i)))).
  - fold batches.
    rewrite (by_index _ _
               (λ batch, parseResponse mkExpl
                           (replyTo (explainedBy why <$> batch)))).
    assert (concat batches = rows) as Hconcat.
    { apply createBatches_concat. unfold BATCH_SIZE. lia. }
    assert (∀ i batch, batches !! i = Some batch →
              cleanTsvOutput (replyTo (explainedBy why <$> batch))
              = replyTo (explainedBy why <$> batch)) as Hclean.
    { intros i batch Hb. apply (Hreply i batch Hb). }
    clear Hreply Horder. rewrite <- Hconcat in Hcarried |- *. clear Hconcat.
    induction batches as [|batch rest IH]; [done|].
    cbn [flat_map concat]. rewrite fmap_app. f_equal.
    + assert (Forall carriedByLine (explainedBy why <$> batch)) as Hrows.
      { apply Forall_fmap, Forall_forall. intros t Ht. apply Hcarried.
        cbn [concat]. rewrite elem_of_app. by left. }
      destruct (parseLines_tsvLines _ Hrows) as [Hparsed Hlines].
      unfold replyTo. rewrite parseResponse_stable; [|done|].
      * change mkExpl with (λ p0 p1 p2, explanationOf (mkClass p0 p1 p2)).
        by rewrite parseLines_natural, Hparsed, <- list_fmap_compose.
      * apply (Hclean 0 batch eq_refl).
    + apply IH.
      * intros t Ht. apply Hcarried. cbn [concat]. rewrite elem_of_app. by right.
      * intros i b Hb. apply (Hclean (S i) b Hb).
  - exact Horder.
  - intros i Hi. fold batches in Hi.
    destruct (lookup_lt_is_Some_2 batches i Hi) as [batch Hb].
    rewrite Hb. apply (Hreply i batch Hb).
Qed.

(** X23. End to end, for the explanations of the human labels. Suppose
    that there is no explanation checkpoint; that the model answers every
    batch with one line per row, in order, each line being the text, the
    label and an explanation separated by tabs; that the explanation is not
    empty; that none of these three fields holds a tab or a line feed; that
    none of these lines is one that the parser skips, that is, none is blank
    and none begins with [text], so that no text of the sheet begins with
    [text]; and that every reply is a text that [cleanTsvOutput] returns
    unchanged. Then in the workbook that [processDataset] writes every body
    row that has a text in column 1 and a label in column 3 holds in column
    7 the explanation that the model gave for a row of the sheet whose text
    is equal to its own up to white space at the ends. This holds whatever
    happens in the classification step, and the rows submitted are exactly
    the body rows with a text and a label. A text that begins with [text] is
    outside this statement: the parser takes its line for a header and
    drops it. *)
Theorem echoing_model_explains_every_row (modelType target : string)
    (clockE clockC : nat → string)
    (generateTextE generateTextC : nat → nat → Completion string)
    (loadedC : option CheckpointData) (orderE orderC : list nat)
    (ws : Worksheet) (why : Reading.LabelledRow → string) :
  let rows := Reading.readExcelFileWithLabels (Some ws) in
  let batches := createBatches BATCH_SIZE rows in
  orderE ≡ₚ seq 0 (length batches) →
  (∀ i batch, batches !! i = Some batch →
     let reply := replyTo (explainedBy why <$> batch) in
     generateTextE i 1 = Normal reply ∧ cleanTsvOutput reply = reply) →
  (∀ row, row ∈ rows → carriedByLine (explainedBy why row) ∧ why row ≠ "") →
  ∃ out,
    Process.processDataset modelType target clockE clockC generateTextE
      generateTextC None loadedC orderE orderC (Some ws) = Some out
    ∧ (∀ lr, lr ∈ rows
             ↔ ∃ r row, ws !! r = Some row ∧ 1 < r ∧ hasValues row = true
                 ∧ Reading.cellString (getCell row 1) ≠ ""
                 ∧ Reading.cellString (getCell row 3) ≠ ""
                 ∧ lr = Reading.mkLabelledRow
                          (Reading.cellString (getCell row 1))
                          (Reading.cellString (getCell row 3)))
    ∧ ∀ r row, ws !! r = Some row → 1 < r → hasValues row = true →
        Reading.cellString (getCell row 1) ≠ "" →
        Reading.cellString (getCell row 3) ≠ "" →
        ∃ lr, lr ∈ rows
          ∧ trim (Reading.lr_text lr)
            = trim (Reading.cellString (getCell row 1))
          ∧ cellAt out r 7 = CString (why lr).
Proof.
  intros rows batches Horder Hreply Hcarried.
  eexists. split; [reflexivity|]. split; [apply readExcelFileWithLabels_rows|].
  intros r row Hrow Hr Hv H1 H3.
  assert (Process.humanExplanations modelType target clockE generateTextE
            None orderE (Some ws)
          = (explanationOf ∘ explainedBy why) <$> rows) as ->.
  { apply echoed_explanations; [done|done|]. intros lr Hlr.
    by apply Hcarried. }
  set (mine := Reading.mkLabelledRow (Reading.cellString (getCell row 1))
                 (Reading.cellString (getCell row 3))).
  assert (mine ∈ rows) as Hin.
  { apply readExcelFileWithLabels_rows. by exists r, row. }
  destruct (lastWithKey_is_Some (e_text ∘ (explanationOf ∘ explainedBy why))
              (keyOfRow row) rows mine Hin) as [lr Hlr].
  { by rewrite keyOfRow_cellString. }
  destruct (lastWithKey_Some _ _ _ _ Hlr) as [Hlrin Hkey]. cbn in Hkey.
  exists lr. split; [done|]. split; [by rewrite <- keyOfRow_cellString|].
  rewrite explanations_then_classifications. unfold mergedCell.
  rewrite Hrow. cbn [default from_option id].
  rewrite !(decide_False (P := r = 1 ∧ _)) by lia.
  rewrite (decide_True (P := 1 < r ∧ _)) by done.
  rewrite (decide_True (P := 7 = 7)) by done.
  rewrite lastWithKey_fmap, Hlr. cbn.
  destruct (Hcarried lr Hlrin) as [_ Hwhy].
  apply truthy_nonempty in Hwhy. by rewrite Hwhy.
Qed.

Lemma echoing_model_explains_every_row_witness :
  ∃ out,
    Process.processDataset "gpt-5" "lula" stamp stamp explaining flaky None
      None [0] [0] (Some twoRowSheet) = Some out
    ∧ cellAt out 3 7 = CString "because against".
Proof.
  assert (Reading.readExcelFileWithLabels (Some twoRowSheet)
          = [Reading.mkLabelledRow "hello" "for";
             Reading.mkLabelledRow "bye" "against"]) as Hrows
    by (vm_compute; reflexivity).
  assert (createBatches BATCH_SIZE
            (Reading.readExcelFileWithLabels (Some twoRowSheet))
          = [[Reading.mkLabelledRow "hello" "for";
              Reading.mkLabelledRow "bye" "against"]]) as Hbatches
    by (vm_compute; reflexivity).
  destruct (echoing_model_explains_every_row "gpt-5" "lula" stamp stamp
              explaining flaky None [0] [0] twoRowSheet becauseOfLabel)
    as (out & Hout & _ & Hcells).
  - by rewrite Hbatches.
  - rewrite Hbatches. intros [|i] batch Hb; [|done].
    injection Hb as <-. split; vm_compute; reflexivity.
  - rewrite Hrows. intros t Ht. rewrite !elem_of_cons, elem_of_nil in Ht.
    destruct Ht as [->|[->|[]]]; repeat split; vm_compute; done.
  - exists out. split; [exact Hout|]. rewrite Hrows in Hcells.
    destruct (Hcells 3 (sheetRow [(1, CString "bye"); (3, CString "against")]))
      as (lr & Hlr & Htrim & H7);
      try (vm_compute; reflexivity || lia || discriminate).
    rewrite !elem_of_cons, elem_of_nil in Hlr.
    destruct Hlr as [->|[->|[]]]; [|exact H7]. vm_compute in Htrim. done.
Defined.

(** ** The report of the missing cells *)

Lemma isWhiteSpace_lowerChar (c : ascii) :
  isWhiteSpace (Naming.lowerChar c) = isWhiteSpace c.
Proof.
  destruct c as [[] [] [] [] [] [] [] []]; vm_compute; reflexivity.
Qed.

Lemma trimStart_toLowerCase (s : string) :
  trimStart (Naming.toLowerCase s) = Naming.toLowerCase (trimStart s).
Proof.
  induction s as [|c s IH]; [done|]. cbn [Naming.toLowerCase trimStart].
  rewrite isWhiteSpace_lowerChar. by destruct (isWhiteSpace c).
Qed.

Lemma trimEnd_toLowerCase (s : string) :
  trimEnd (Naming.toLowerCase s) = Naming.toLowerCase (trimEnd s).
Proof.
  induction s as [|c s IH]; [done|]. cbn [Naming.toLowerCase trimEnd].
  rewrite IH, isWhiteSpace_lowerChar.
  destruct (trimEnd s); cbn [Naming.toLowerCase]; [|done].
  by destruct (isWhiteSpace c).
Qed.

Lemma trim_toLowerCase (s : string) :
  trim (Naming.toLowerCase s) = Naming.toLowerCase (trim s).
Proof. unfold trim. by rewrite trimStart_toLowerCase, trimEnd_toLowerCase. Qed.

Lemma truthy_toLowerCase (s : string) :
  truthy (Naming.toLowerCase s) = truthy s.
Proof. by destruct s. Qed.

Lemma flat_map_length_sum {A T U W : Type} (f : A → list T) (g : A → list U)
    (h : A → list W) (l : list A) :
  (∀ x, x ∈ l → length (f x) ≤ length (g x) + length (h x)) →
  length (flat_map f l) ≤ length (flat_map g l) + length (flat_map h l).
Proof.
  induction l as [|x l IH]; intros Hle; [done|]. cbn [flat_map].
  rewrite !length_app.
  pose proof (Hle x (list_elem_of_here _ _)).
  assert (length (flat_map f l) ≤ length (flat_map g l) + length (flat_map h l)).
  { apply IH. intros y Hy. apply Hle. by apply list_elem_of_further. }
  lia.
Qed.

Lemma collectRows_length_sum {T U W : Type} (f : RowCells → nat → list T)
    (g : RowCells → nat → list U) (h : RowCells → nat → list W)
    (ws : Worksheet) :
  (∀ row r, 0 < r → length (f row r) ≤ length (g row r) + length (h row r)) →
  length (Reading.collectRows f ws)
  ≤ length (Reading.collectRows g ws) + length (Reading.collectRows h ws).
Proof.
  intros Hle. unfold Reading.collectRows. apply flat_map_length_sum.
  intros r Hr%elem_of_seq. destruct (ws !! r) as [row|]; [|cbn; lia].
  destruct (hasValues row); [|cbn; lia]. apply Hle. lia.
Qed.

Lemma collectRows_length_le {T U : Type} (f : RowCells → nat → list T)
    (g : RowCells → nat → list U) (ws : Worksheet) :
  (∀ row r, 0 < r → length (f row r) ≤ length (g row r)) →
  length (Reading.collectRows f ws) ≤ length (Reading.collectRows g ws).
Proof.
  intros Hle.
  pose proof (collectRows_length_sum f g (λ _ _, @nil unit) ws) as Hsum.
  assert (length (Reading.collectRows (λ _ _, @nil unit) ws) = 0) as Hnil.
  { unfold Reading.collectRows. induction (seq 1 (Reading.lastRow ws)) as [|r l IH];
      [done|]. cbn [flat_map]. rewrite length_app, IH.
    destruct (ws !! r) as [row|]; [|done]. by destruct (hasValues row). }
  rewrite Hnil in Hsum. etransitivity; [apply Hsum|lia].
  intros row r Hr. specialize (Hle row r Hr). cbn. lia.
Qed.

(** What a callback pushes for the row [r] comes in the order of the
    rows. *)
Lemma flat_map_seq_sorted {T : Type} (key : T → nat) (f : nat → list T)
    (start len : nat) :
  (∀ r x, x ∈ f r → key x = r) → (∀ r, length (f r) ≤ 1) →
  StronglySorted lt (key <$> flat_map f (seq start len)).
Proof.
  intros Hkey Hone. revert start.
  induction len as [|len IH]; intros start; [constructor|].
  cbn [seq flat_map]. rewrite fmap_app.
  assert (Forall (lt start) (key <$> flat_map f (seq (S start) len))) as Hlater.
  { apply Forall_forall. intros k Hk.
    apply list_elem_of_fmap in Hk as (x & -> & Hx).
    apply list_elem_of_In, in_flat_map in Hx as (r & Hr & Hx).
    apply list_elem_of_In, elem_of_seq in Hr. apply list_elem_of_In in Hx.
    rewrite (Hkey r x Hx). lia. }
  pose proof (Hone start) as Hlen. pose proof (Hkey start) as Hk.
  destruct (f start) as [|x [|y l]]; cbn in Hlen; [apply IH| |lia].
  cbn. constructor; [apply IH|]. rewrite (Hk x) by apply list_elem_of_here.
  exact Hlater.
Qed.

Lemma collectRows_sorted {T : Type} (key : T → nat)
    (f : RowCells → nat → list T) (ws : Worksheet) :
  (∀ row r x, x ∈ f row r → key x = r) → (∀ row r, length (f row r) ≤ 1) →
  StronglySorted lt (key <$> Reading.collectRows f ws).
Proof.
  intros Hkey Hone. unfold Reading.collectRows. apply flat_map_seq_sorted.
  - intros r x Hx. destruct (ws !! r) as [row|]; [|by apply elem_of_nil in Hx].
    destruct (hasValues row); [|by apply elem_of_nil in Hx]. by apply (Hkey row).
  - intros r. destruct (ws !! r) as [row|]; [|cbn; lia].
    destruct (hasValues row); [apply Hone|cbn; lia].
Qed.

Lemma missingColumnsOf_column (row : RowCells) (c : nat) (name : string) :
  (c, name) ∈ Reading.columnMap →
  name ∈ Reading.missingColumnsOf row
  ↔ Reading.isEmpty (getCell row c) = true.
Proof.
  intros Hc. unfold Reading.missingColumnsOf. rewrite list_elem_of_omap. split.
  - intros ([c' name'] & Hin & Hsome). cbn in Hsome.
    destruct (Reading.isEmpty (getCell row c')) eqn:He; [|done].
    injection Hsome as ->.
    assert (c' = c) as <-; [|done].
    unfold Reading.columnMap in Hc, Hin.
    rewrite !elem_of_cons in Hc. rewrite !elem_of_cons in Hin.
    destruct Hc as [Hc|[Hc|[Hc|[Hc|[Hc|Hc]]]]];
      [| | | | |by apply elem_of_nil in Hc];
      (destruct Hin as [Hin|[Hin|[Hin|[Hin|[Hin|Hin]]]]];
        [| | | | |by apply elem_of_nil in Hin]); congruence.
  - intros He. exists (c, name). split; [done|]. cbn. by rewrite He.
Qed.

Lemma missingColumnsOf_nil (row : RowCells) :
  Reading.missingColumnsOf row = [] →
  ∀ c name, (c, name) ∈ Reading.columnMap →
    Reading.isEmpty (getCell row c) = false.
Proof.
  intros Hnil c name Hc.
  destruct (Reading.isEmpty (getCell row c)) eqn:He; [|done].
  apply (missingColumnsOf_column row c name Hc) in He.
  rewrite Hnil in He. by apply elem_of_nil in He.
Qed.

Lemma length_takeChars (n : nat) (s : string) :
  String.length (Reading.takeChars n s) ≤ n.
Proof.
  revert s. induction n as [|n IH]; intros [|c s]; cbn; try lia.
  specialize (IH s). lia.
Qed.

Lemma takeChars_nonempty (n : nat) (s : string) :
  s ≠ "" → Reading.takeChars (S n) s ≠ "".
Proof. by destruct s. Qed.

Lemma missingOfRow_entry (row : RowCells) (r : nat) (m : Reading.MissingCellInfo) :
  m ∈ Reading.missingOfRow row r →
  r ≠ 1 ∧ Reading.mc_rowNumber m = r
  ∧ Reading.mc_missingColumns m = Reading.missingColumnsOf row
  ∧ Reading.mc_missingColumns m ≠ []
  ∧ Reading.mc_text m ≠ "" ∧ String.length (Reading.mc_text m) ≤ 100.
Proof.
  unfold Reading.missingOfRow. intros Hm.
  destruct (decide (r = 1)); [by apply elem_of_nil in Hm|].
  destruct (Reading.missingColumnsOf row) as [|name names] eqn:Hcols;
    [by apply elem_of_nil in Hm|].
  apply list_elem_of_singleton in Hm as ->.
  cbn [Reading.mc_rowNumber Reading.mc_text Reading.mc_missingColumns].
  split_and!; try done; [|apply length_takeChars].
  apply (takeChars_nonempty 99).
  by destruct (truthy (trim (Reading.cellString (getCell row 1)))) eqn:Ht;
    [destruct (trim (Reading.cellString (getCell row 1)))|].
Qed.

Lemma missingOfRow_length (row : RowCells) (r : nat) :
  length (Reading.missingOfRow row r)
  = if decide (r = 1) then 0
    else match Reading.missingColumnsOf row with [] => 0 | _ => 1 end.
Proof.
  unfold Reading.missingOfRow. destruct (decide (r = 1)); [done|].
  by destruct (Reading.missingColumnsOf row).
Qed.

Lemma isEmpty_false (v : CellValue) :
  Reading.isEmpty v = false → truthy (trim (Reading.cellString v)) = true.
Proof.
  unfold Reading.isEmpty. intros He. apply orb_false_elim in He as [_ He].
  by apply negb_false_iff in He.
Qed.

(** A row in which none of the five columns is missing is one that the
    comparison reads. *)
Lemma complete_row_is_read (row : RowCells) (r : nat) :
  1 < r → Reading.missingColumnsOf row = [] →
  Reading.processedOfRow row r
  = [Compare.mkDataRow (trim (Reading.cellString (getCell row 1)))
       (Reading.labelCell (getCell row 3))
       (Reading.trimmedCell (getCell row 7))
       (Reading.labelCell (getCell row 8))
       (Reading.trimmedCell (getCell row 9))].
Proof.
  intros Hr Hnil. unfold Reading.processedOfRow, Reading.labelCell.
  rewrite decide_True by done.
  pose proof (missingColumnsOf_nil row Hnil) as Hfull.
  assert ((1, "text") ∈ Reading.columnMap) as H1
    by (unfold Reading.columnMap; rewrite !elem_of_cons; auto).
  assert ((3, "human-label") ∈ Reading.columnMap) as H3
    by (unfold Reading.columnMap; rewrite !elem_of_cons; auto).
  assert ((8, "llm-label") ∈ Reading.columnMap) as H8
    by (unfold Reading.columnMap; rewrite !elem_of_cons; auto).
  apply Hfull, isEmpty_false in H1, H3, H8.
  rewrite !trim_toLowerCase, !truthy_toLowerCase, H1, H3, H8. done.
Qed.

(** X24. The report of [analyzeMissingCells] accounts for the rows: it
    counts the rows with values below the header, lists the rows with a
    missing cell by ascending row number (so no row twice), each with at
    least one missing column, a text that is not empty and has at most 100
    characters, and exactly the columns among the five whose cell is
    empty; a row below the header that has values is listed iff one of its
    five cells is empty. Every such row that is not listed is read by
    [readProcessedFile], with its trimmed text and its two labels in lower
    case; so the rows read are at least the rows not listed, and at most
    [totalRows]: a file whose report lists no row enters the comparison
    whole. *)
Theorem missing_report_accounts_for_rows (filePath : string) (ws : Worksheet) :
  ∃ report,
    Reading.analyzeMissingCells filePath (Some ws) = Normal report
    ∧ Reading.rowsWithMissing report = length (Reading.missingDetails report)
    ∧ Reading.rowsWithMissing report ≤ Reading.totalRows report
    ∧ StronglySorted lt
        (Reading.mc_rowNumber <$> Reading.missingDetails report)
    ∧ (∀ m, m ∈ Reading.missingDetails report →
         1 < Reading.mc_rowNumber m
         ∧ Reading.mc_missingColumns m ≠ []
         ∧ Reading.mc_text m ≠ ""
         ∧ String.length (Reading.mc_text m) ≤ 100
         ∧ ∀ c name, (c, name) ∈ Reading.columnMap →
             (name ∈ Reading.mc_missingColumns m
              ↔ Reading.isEmpty (cellAt ws (Reading.mc_rowNumber m) c) = true))
    ∧ (∀ r row, ws !! r = Some row → hasValues row = true → 1 < r →
         (r ∈ Reading.mc_rowNumber <$> Reading.missingDetails report
          ↔ ∃ c name, (c, name) ∈ Reading.columnMap
              ∧ Reading.isEmpty (getCell row c) = true))
    ∧ (∀ r row, ws !! r = Some row → hasValues row = true → 1 < r →
         (r ∉ Reading.mc_rowNumber <$> Reading.missingDetails report) →
         ∃ d, d ∈ Reading.readProcessedFile (Some ws)
           ∧ Compare.text d = trim (Reading.cellString (getCell row 1))
           ∧ Compare.humanLabel d = Reading.labelCell (getCell row 3)
           ∧ Compare.llmLabel d = Reading.labelCell (getCell row 8))
    ∧ Reading.totalRows report - Reading.rowsWithMissing report
      ≤ length (Reading.readProcessedFile (Some ws))
    ∧ length (Reading.readProcessedFile (Some ws)) ≤ Reading.totalRows report.
Proof.
  eexists. split; [reflexivity|]. cbn [Reading.rowsWithMissing
    Reading.totalRows Reading.missingDetails Reading.readProcessedFile].
  split_and!.
  - done.
  - apply collectRows_length_le. intros row r Hr.
    rewrite missingOfRow_length. unfold Reading.countedRow.
    destruct (decide (r = 1)); [done|].
    destruct (Reading.missingColumnsOf row); cbn; lia.
  - apply collectRows_sorted.
    + intros row r m Hm. by apply missingOfRow_entry in Hm as (_ & ? & _).
    + intros row r. rewrite missingOfRow_length.
      destruct (decide (r = 1)); [lia|].
      destruct (Reading.missingColumnsOf row); lia.
  - intros m Hm. apply elem_of_collectRows in Hm as (r & row & Hrow & Hr & Hv & Hm).
    apply missingOfRow_entry in Hm as (Hr1 & Hnum & Hcols & Hne & Htext & Hlen).
    split_and!; try done; [lia|]. intros c name Hc.
    rewrite Hcols, Hnum. unfold cellAt. rewrite Hrow. cbn [default from_option id].
    by apply missingColumnsOf_column.
  - intros r row Hrow Hv Hr. rewrite list_elem_of_fmap. split.
    + intros (m & -> & Hm).
      apply elem_of_collectRows in Hm as (r' & row' & Hrow' & _ & _ & Hm).
      apply missingOfRow_entry in Hm as (_ & Hnum & Hcols & Hne & _).
      rewrite Hnum in Hrow. rewrite Hrow' in Hrow. injection Hrow as ->.
      destruct (Reading.mc_missingColumns m) as [|name names] eqn:Hm; [done|].
      assert (name ∈ Reading.missingColumnsOf row) as Hin
        by (rewrite <- Hcols; apply list_elem_of_here).
      unfold Reading.missingColumnsOf in Hin.
      apply list_elem_of_omap in Hin as ([c name'] & Hc & Hsome). cbn in Hsome.
      destruct (Reading.isEmpty (getCell row c)) eqn:He; [|done].
      injection Hsome as ->. by exists c, name.
    + intros (c & name & Hc & He).
      apply (missingColumnsOf_column row c name Hc) in He.
      destruct (Reading.missingColumnsOf row) as [|n0 ns] eqn:Hcols;
        [by apply elem_of_nil in He|].
      eexists. split; [|apply elem_of_collectRows; exists r, row;
        split_and!; [done|lia|done|]].
      2:{ unfold Reading.missingOfRow. rewrite decide_False by lia.
          rewrite Hcols. apply list_elem_of_here. }
      done.
  - intros r row Hrow Hv Hr Hout.
    destruct (Reading.missingColumnsOf row) as [|n0 ns] eqn:Hcols.
    + eexists. split.
      { apply elem_of_collectRows. exists r, row.
        split_and!; [done|lia|done|].
        rewrite complete_row_is_read by done. apply list_elem_of_here. }
      done.
    + exfalso. apply Hout. apply list_elem_of_fmap. eexists.
      split; [|apply elem_of_collectRows; exists r, row;
        split_and!; [done|lia|done|]].
      2:{ unfold Reading.missingOfRow. rewrite decide_False by lia.
          rewrite Hcols. apply list_elem_of_here. }
      done.
  - assert (length (Reading.collectRows Reading.countedRow ws)
            ≤ length (Reading.collectRows Reading.missingOfRow ws)
              + length (Reading.collectRows Reading.processedOfRow ws)); [|lia].
    apply collectRows_length_sum. intros row r Hr.
    rewrite missingOfRow_length. unfold Reading.countedRow.
    destruct (decide (r = 1)); [cbn; lia|].
    destruct (Reading.missingColumnsOf row) eqn:Hcols; cbn [length]; [|lia].
    rewrite complete_row_is_read by (done || lia). cbn [length]. lia.
  - apply collectRows_length_le. intros row r Hr.
    unfold Reading.processedOfRow, Reading.countedRow.
    destruct (decide (1 < r)); [|cbn; lia].
    rewrite decide_False by lia.
    destruct (_ && _); cbn; lia.
Qed.

(** ** The retry of the rows with missing cells *)

Lemma matchByIndex_foldl {V : Type} (value : string → string → V)
    (lines texts : list string) (found : gmap string V) :
  RetryRows.matchByIndex value lines texts found
  = foldl (λ m p, <[p.1 := p.2]> m) found
      (answersByPosition value lines texts).
Proof.
  revert texts found. induction lines as [|line lines IH];
    intros [|text texts] found; try done.
  cbn [RetryRows.matchByIndex]. rewrite IH. unfold answersByPosition.
  cbn [zip zip_with omap list_omap fst snd].
  by destruct (split TAB line) as [|p0 [|p1 [|p2 ps]]].
Qed.

Lemma foldl_insert_lookup {V : Type} (l : list (string * V))
    (found : gmap string V) (t : string) :
  foldl (λ m p, <[p.1 := p.2]> m) found l !! t
  = match last (filter (λ p, p.1 = t) l) with
    | Some p => Some p.2
    | None => found !! t
    end.
Proof.
  induction l as [|p l IH] using rev_ind; [done|].
  rewrite foldl_snoc, filter_app, filter_cons, filter_nil.
  destruct (decide (p.1 = t)) as [<-|Hne].
  - by rewrite lookup_insert_eq, last_snoc.
  - by rewrite lookup_insert_ne, app_nil_r.
Qed.

Lemma filter_none {A : Type} (P : A → Prop) `{∀ x, Decision (P x)}
    (l : list A) :
  (∀ x, x ∈ l → ¬ P x) → filter P l = [].
Proof.
  induction l as [|x l IH]; intros Hnone; [done|].
  rewrite filter_cons_False by (apply Hnone, list_elem_of_here).
  apply IH. intros y Hy. by apply Hnone, list_elem_of_further.
Qed.

Lemma answersByPosition_texts {V : Type} (value : string → string → V)
    (lines texts : list string) (p : string * V) :
  p ∈ answersByPosition value lines texts →
  p.1 ∈ take (length lines) texts.
Proof.
  revert texts. induction lines as [|line lines IH]; intros [|text texts] Hp;
    try by apply elem_of_nil in Hp.
  unfold answersByPosition in Hp.
  cbn [zip zip_with omap list_omap fst snd] in Hp. cbn [length take].
  fold (zip lines texts) in Hp.
  assert (p.1 = text ∨ p ∈ answersByPosition value lines texts) as [->|Hin].
  { destruct (split TAB line) as [|p0 [|p1 [|p2 ps]]]; auto.
    apply elem_of_cons in Hp as [->|Hp]; auto. }
  - apply list_elem_of_here.
  - apply list_elem_of_further, IH, Hin.
Qed.

(** With distinct texts, the answers for the text at index [i] are the one
    on the line at index [i]. *)
Lemma answersByPosition_at {V : Type} (value : string → string → V)
    (lines texts : list string) (i : nat) (t : string) :
  NoDup texts → texts !! i = Some t →
  filter (λ p, p.1 = t) (answersByPosition value lines texts)
  = match lines !! i ≫= answerOnLine with
    | Some a => [(t, value a.1 a.2)]
    | None => []
    end.
Proof.
  revert texts i. induction lines as [|line lines IH];
    intros [|text texts] i Hnd Ht; try done.
  apply NoDup_cons in Hnd as [Hfresh Hnd].
  unfold answersByPosition.
  cbn [zip zip_with omap list_omap fst snd]. fold (zip lines texts).
  fold (answersByPosition value lines texts).
  destruct i as [|i].
  - injection Ht as ->. cbn [lookup list_lookup mbind option_bind].
    assert (filter (λ p : string * V, p.1 = t)
              (answersByPosition value lines texts) = []) as Hrest.
    { apply filter_none. intros p Hp Heq.
      apply answersByPosition_texts in Hp. rewrite Heq in Hp.
      apply Hfresh. by apply (subseteq_take (length lines)). }
    change ((line :: lines) !! 0) with (Some line). cbn [mbind option_bind].
    unfold answerOnLine.
    destruct (split TAB line) as [|p0 [|p1 [|p2 ps]]]; try exact Hrest.
    rewrite filter_cons, decide_True by done. by rewrite Hrest.
  - change ((text :: texts) !! S i) with (texts !! i) in Ht.
    change ((line :: lines) !! S i) with (lines !! i).
    rewrite <- (IH texts i Hnd Ht).
    assert (text ≠ t) as Hne.
    { intros ->. apply Hfresh. by eapply list_elem_of_lookup_2. }
    destruct (split TAB line) as [|p0 [|p1 [|p2 ps]]]; try done.
    by rewrite filter_cons, decide_False.
Qed.

Lemma matchReply_lookup {V : Type} (value : string → string → V)
    (reply : string) (texts : list string) :
  ∃ m, RetryRows.matchReply value (Normal reply) texts = Normal (m, reply)
    ∧ ∀ t, m !! t
           = snd <$> last (filter (λ p, p.1 = t)
                             (answersByPosition value
                                (RetryRows.replyLines reply) texts)).
Proof.
  eexists. split; [reflexivity|]. intros t.
  rewrite matchByIndex_foldl, foldl_insert_lookup, lookup_empty.
  by destruct (last _).
Qed.

Lemma answersByPosition_natural {V W : Type} (value : string → string → V)
    (f : V → W) (lines texts : list string) :
  answersByPosition (λ a b, f (value a b)) lines texts
  = prod_map id f <$> answersByPosition value lines texts.
Proof.
  unfold answersByPosition. induction (zip lines texts) as [|p l IH]; [done|].
  cbn [omap list_omap]. rewrite IH.
  by destruct (split TAB p.1) as [|p0 [|p1 [|p2 ps]]].
Qed.

Lemma last_filter_natural {V W : Type} (f : V → W) (t : string)
    (l : list (string * V)) :
  last (filter (λ p, p.1 = t) (prod_map id f <$> l))
  = prod_map id f <$> last (filter (λ p, p.1 = t) l).
Proof.
  induction l as [|p l IH] using rev_ind; [done|].
  rewrite fmap_app, !filter_app, !filter_cons, !filter_nil. cbn [fmap list_fmap].
  rewrite !filter_cons, !filter_nil.
  change (prod_map id f p).1 with p.1.
  destruct (decide (p.1 = t)).
  - by rewrite !last_snoc.
  - by rewrite !app_nil_r.
Qed.

(** X25. The two batch functions of the retry match the answers by
    position, not by text: the value stored for a text is read off the
    line of the reply (among the lines kept) at the index of the last row
    of the batch with that text, among the indices that have a line with
    three parts; the text that the model wrote on the line plays no role.
    Only texts of the first rows of the batch, as many as there are lines,
    receive a value. With distinct texts, the row at index [i] receives
    the label and the explanation of the line at index [i], or nothing
    when that line is absent or has fewer than three parts. The
    explanations of [explainBatchStanceLabels] are the explanations of
    [classifyAndExplainBatchStance] for the same reply. *)
Theorem answers_are_matched_by_position (reply : string)
    (batch : list Reading.LabelledRow) :
  let texts := Reading.lr_text <$> batch in
  let lines := RetryRows.replyLines reply in
  ∃ classifications explanations,
    RetryRows.classifyAndExplainBatchStance (Normal reply) texts
    = Normal (classifications, reply)
    ∧ RetryRows.explainBatchStanceLabels (Normal reply) batch
      = Normal (explanations, reply)
    ∧ (∀ t, explanations !! t = snd <$> classifications !! t)
    ∧ (∀ t, classifications !! t
            = snd <$> last (filter (λ p, p.1 = t)
                              (answersByPosition pair lines texts)))
    ∧ (∀ t, is_Some (classifications !! t) →
            t ∈ take (length lines) texts)
    ∧ (NoDup texts →
       ∀ i t, texts !! i = Some t →
         classifications !! t = lines !! i ≫= answerOnLine).
Proof.
  intros texts lines.
  destruct (matchReply_lookup pair reply texts) as (mc & Hmc & Hc).
  destruct (matchReply_lookup (λ _ e : string, e) reply texts)
    as (me & Hme & He).
  fold lines in Hc, He.
  exists mc, me. split_and!; try done.
  - intros t. rewrite He, Hc.
    rewrite (answersByPosition_natural pair snd), last_filter_natural.
    by destruct (last _) as [[? [? ?]]|].
  - intros t [a Ha]. rewrite Hc in Ha.
    destruct (last _) as [p|] eqn:Hlast; [|done].
    apply last_Some_elem_of, list_elem_of_filter in Hlast as [Hkey Hin].
    apply answersByPosition_texts in Hin. by rewrite Hkey in Hin.
  - intros Hnd i t Ht. rewrite Hc.
    rewrite (answersByPosition_at pair lines texts i t Hnd Ht).
    by destruct (lines !! i ≫= answerOnLine) as [[? ?]|].
Qed.

Lemma foldl_invariant {S A : Type} (P : S → Prop) (step : S → A → S)
    (l : list A) (st : S) :
  P st → (∀ st x, x ∈ l → P st → P (step st x)) → P (foldl step st l).
Proof.
  revert st. induction l as [|x l IH]; intros st Hst Hstep; [done|].
  cbn [foldl]. apply IH.
  - apply Hstep; [apply list_elem_of_here|done].
  - intros st' y Hy. apply Hstep. by apply list_elem_of_further.
Qed.

Lemma elem_of_List_filter {A : Type} (f : A → bool) (l : list A) (x : A) :
  x ∈ List.filter f l ↔ x ∈ l ∧ f x = true.
Proof. by rewrite !list_elem_of_In, filter_In. Qed.

Section EffectFacts.
Import RetryRows.

(** One effect keeps the stored updates sound. *)
Lemma rowEffect_sound (rows : list BatchRow) (row : BatchRow)
    (st st' : Results * Errors) :
  row ∈ rows → rowEffect row st st' →
  (∀ n u, st.1 !! n = Some u → soundUpdates rows n u) →
  ∀ n u, st'.1 !! n = Some u → soundUpdates rows n u.
Proof.
  intros Hrow Heffect Hsound n u.
  destruct Heffect as [s Hs Hneeds|label explanation Hneeds|msg]; cbn [fst];
    [| |apply Hsound]; unfold setUpdate;
    (destruct (decide (n = br_rowNumber row)) as [->|Hne];
      [rewrite lookup_insert_eq|rewrite lookup_insert_ne by done; apply Hsound]);
    intros [= <-];
    (destruct (st.1 !! br_rowNumber row) as [old|] eqn:Hold;
      [destruct (Hsound _ _ Hold) as (Hkeys & Hhuman & Hboth & Hllm)|]);
    cbn [default from_option id]; unfold soundUpdates;
    cbn [withHumanExplanation withClassification noUpdates hasKeys
         u_humanExplanation u_llmLabel u_llmExplanation];
    split_and!; try done; try (intros s' [= <-]; eauto);
    try (intros _; eauto); try (by intros [? ?]); try (split; eauto);
    try (by destruct (u_humanExplanation old)).
Qed.

Lemma rowEffect_touches (row : BatchRow) (st st' : Results * Errors) (n : nat) :
  rowEffect row st st' →
  (is_Some (st'.1 !! n) ∨ is_Some (st'.2 !! n))
  ↔ (is_Some (st.1 !! n) ∨ is_Some (st.2 !! n)) ∨ n = br_rowNumber row.
Proof.
  intros [s _ _|label explanation _|msg]; cbn [fst snd];
    unfold setUpdate, pushError; rewrite lookup_insert_is_Some;
    destruct (decide (br_rowNumber row = n)); intuition congruence.
Qed.

Lemma rowEffect_errors (row : BatchRow) (st st' : Results * Errors) :
  rowEffect row st st' →
  (∀ n msgs, st.2 !! n = Some msgs → msgs ≠ []) →
  ∀ n msgs, st'.2 !! n = Some msgs → msgs ≠ [].
Proof.
  intros [s _ _|label explanation _|msg] Hne n msgs; cbn [snd];
    try apply Hne. unfold pushError.
  destruct (decide (n = br_rowNumber row)) as [->|Hn].
  - rewrite lookup_insert_eq. intros [= <-]. by destruct (default [] _).
  - rewrite lookup_insert_ne by done. apply Hne.
Qed.

(** An error message that was recorded stays. *)
Lemma rowEffect_keeps_errors (row : BatchRow) (st st' : Results * Errors)
    (n : nat) (msg : string) :
  rowEffect row st st' →
  (∃ msgs, st.2 !! n = Some msgs ∧ msg ∈ msgs) →
  ∃ msgs, st'.2 !! n = Some msgs ∧ msg ∈ msgs.
Proof.
  intros [s _ _|label explanation _|msg'] (msgs & Hmsgs & Hin); cbn [snd];
    try by exists msgs. unfold pushError.
  destruct (decide (n = br_rowNumber row)) as [->|Hn].
  - rewrite lookup_insert_eq, Hmsgs. eexists. split; [done|].
    cbn. apply elem_of_app. by left.
  - rewrite lookup_insert_ne by done. by exists msgs.
Qed.

Lemma foldl_rowEffect (P : Results * Errors → Prop)
    (step : Results * Errors → BatchRow → Results * Errors)
    (needs : BatchRow → bool) (batchRows : list BatchRow)
    (st : Results * Errors) :
  (∀ st row, needs row = true → rowEffect row st (step st row)) →
  (∀ st st' row, row ∈ batchRows → rowEffect row st st' → P st → P st') →
  P st → P (foldl step st (List.filter needs batchRows)).
Proof.
  intros Hstep Hkeep Hst. apply foldl_invariant; [done|].
  intros st' row Hrow%elem_of_List_filter. destruct Hrow as [Hrow Hneeds].
  intros Hst'. apply (Hkeep st' _ row); [done| |done]. by apply Hstep.
Qed.

Lemma foldl_touches (step : Results * Errors → BatchRow → Results * Errors)
    (l : list BatchRow) (st : Results * Errors) (n : nat) :
  (∀ st row, row ∈ l → rowEffect row st (step st row)) →
  (is_Some ((foldl step st l).1 !! n) ∨ is_Some ((foldl step st l).2 !! n))
  ↔ (is_Some (st.1 !! n) ∨ is_Some (st.2 !! n))
    ∨ n ∈ br_rowNumber <$> l.
Proof.
  revert st. induction l as [|row l IH]; intros st Hstep.
  - cbn. rewrite elem_of_nil. tauto.
  - cbn [foldl]. rewrite IH.
    2:{ intros st' row' Hin. apply Hstep. by apply list_elem_of_further. }
    rewrite (rowEffect_touches row st (step st row) n)
      by apply Hstep, list_elem_of_here.
    rewrite fmap_cons, elem_of_cons. tauto.
Qed.

Lemma foldl_recordFailure (msg : string) (l : list BatchRow)
    (st : Results * Errors) :
  (foldl (recordFailure msg) st l).1 = st.1
  ∧ ∀ row, row ∈ l →
      ∃ msgs, (foldl (recordFailure msg) st l).2 !! br_rowNumber row
              = Some msgs ∧ msg ∈ msgs.
Proof.
  revert st. induction l as [|row l IH]; intros st.
  - split; [done|]. intros row Hrow. by apply elem_of_nil in Hrow.
  - cbn [foldl]. destruct (IH (recordFailure msg st row)) as [Hres Herr].
    split; [by rewrite Hres|]. intros row' Hrow'.
    apply elem_of_cons in Hrow' as [->|Hrow']; [|by apply Herr].
    apply (foldl_invariant
             (λ st', ∃ msgs, st'.2 !! br_rowNumber row = Some msgs
                             ∧ msg ∈ msgs)).
    + unfold recordFailure, pushError. cbn [snd]. rewrite lookup_insert_eq.
      eexists. split; [done|]. apply elem_of_app. right.
      apply list_elem_of_here.
    + intros st' x _ Hst'. apply (rowEffect_keeps_errors x st'); [|done].
      unfold recordFailure. constructor.
Qed.

End EffectFacts.

Section BatchFacts.
Import RetryRows.
Variable render : Error → string.
Variables generatedE generatedC : Completion string.

(** The two steps of [processBatch] as loops over the rows that need
    them. *)
Lemma explanationStep_foldl (batchRows : list BatchRow) :
  ∃ step,
    (∀ st, explanationStep render generatedE batchRows st
           = foldl step st (List.filter needsExplanation batchRows))
    ∧ (∀ st row, needsExplanation row = true → rowEffect row st (step st row))
    ∧ (∀ st row, (step st row).2 = st.2
                 ∨ ∃ msg, step st row
                          = (st.1, pushError (br_rowNumber row) msg st.2))
    ∧ (∀ st row n u, (step st row).1 !! n = Some u →
         st.1 !! n = Some u
         ∨ u = withHumanExplanation (default "" (u_humanExplanation u))
                 (default noUpdates (st.1 !! n)))
    ∧ (∀ e, generatedE = Throw e →
         step = recordFailure (explanationsFailed render e)).
Proof.
  unfold explanationStep.
  destruct (explainBatchStanceLabels generatedE _) as [[explanations raw]|e]
    eqn:Hcall.
  - exists (recordExplanation explanations raw). split_and!.
    + intros st. by destruct (List.filter needsExplanation batchRows).
    + intros st row Hrow. unfold recordExplanation.
      destruct (explanations !! br_text row) as [s|]; [|constructor].
      destruct (truthy s) eqn:Hs; [|constructor].
      constructor; [by apply truthy_nonempty|done].
    + intros st row. unfold recordExplanation.
      destruct (explanations !! br_text row) as [s|]; [|right; eauto].
      destruct (truthy s); [by left|right; eauto].
    + intros st row n u. unfold recordExplanation.
      destruct (explanations !! br_text row) as [s|]; [|by left].
      destruct (truthy s); [|by left]. cbn [fst]. unfold setUpdate.
      destruct (decide (n = br_rowNumber row)) as [->|Hne].
      * rewrite lookup_insert_eq. intros [= <-]. by right.
      * rewrite lookup_insert_ne by done. by left.
    + intros e ->. done.
  - exists (recordFailure (explanationsFailed render e)). split_and!.
    + intros st. by destruct (List.filter needsExplanation batchRows).
    + intros st row _. constructor.
    + intros st row. right. eauto.
    + intros st row n u. by left.
    + intros e' ->. unfold explainBatchStanceLabels, matchReply in Hcall.
      by injection Hcall as ->.
Qed.

Lemma classificationStep_foldl (batchRows : list BatchRow) :
  ∃ step,
    (∀ st, classificationStep render generatedC batchRows st
           = foldl step st (List.filter needsClassification batchRows))
    ∧ (∀ st row, needsClassification row = true →
         rowEffect row st (step st row))
    ∧ (∀ st row n u, (step st row).1 !! n = Some u →
         st.1 !! n = Some u
         ∨ u_humanExplanation u
           = u_humanExplanation (default noUpdates (st.1 !! n)))
    ∧ (∀ e, generatedC = Throw e →
         step = recordFailure (classificationsFailed render e)).
Proof.
  unfold classificationStep.
  destruct (classifyAndExplainBatchStance generatedC _)
    as [[classifications raw]|e] eqn:Hcall.
  - exists (recordClassification classifications raw). split_and!.
    + intros st. by destruct (List.filter needsClassification batchRows).
    + intros st row Hrow. unfold recordClassification.
      destruct (classifications !! br_text row) as [[l x]|]; by constructor.
    + intros st row n u. unfold recordClassification.
      destruct (classifications !! br_text row) as [[l x]|]; [|by left].
      cbn [fst]. unfold setUpdate.
      destruct (decide (n = br_rowNumber row)) as [->|Hne].
      * rewrite lookup_insert_eq. intros [= <-]. by right.
      * rewrite lookup_insert_ne by done. by left.
    + intros e ->. done.
  - exists (recordFailure (classificationsFailed render e)). split_and!.
    + intros st. by destruct (List.filter needsClassification batchRows).
    + intros st row _. constructor.
    + intros st row n u. by left.
    + intros e' ->. unfold classifyAndExplainBatchStance, matchReply in Hcall.
      by injection Hcall as ->.
Qed.

Lemma processBatch_sound (batchRows : list BatchRow) (n : nat) (u : Updates) :
  (processBatch render generatedE generatedC batchRows).1 !! n = Some u →
  soundUpdates batchRows n u.
Proof.
  unfold processBatch.
  destruct (explanationStep_foldl batchRows) as (stepE & -> & HstepE & _).
  destruct (classificationStep_foldl batchRows) as (stepC & -> & HstepC & _).
  revert n u.
  apply (foldl_rowEffect
           (λ st, ∀ n u, st.1 !! n = Some u → soundUpdates batchRows n u)
           stepC needsClassification); [done| |].
  { intros st st' row Hrow Heffect. by apply (rowEffect_sound _ row). }
  apply (foldl_rowEffect
           (λ st, ∀ n u, st.1 !! n = Some u → soundUpdates batchRows n u)
           stepE needsExplanation); [done| |].
  { intros st st' row Hrow Heffect. by apply (rowEffect_sound _ row). }
  intros n u. cbn. by rewrite lookup_empty.
Qed.

End BatchFacts.

Lemma rowNumbers_of_needing (needs : RetryRows.BatchRow → bool)
    (batchRows : list RetryRows.BatchRow) (n : nat) :
  n ∈ RetryRows.br_rowNumber <$> List.filter needs batchRows
  ↔ ∃ row, row ∈ batchRows ∧ RetryRows.br_rowNumber row = n
      ∧ needs row = true.
Proof.
  rewrite list_elem_of_fmap. split.
  - intros (row & -> & Hrow%elem_of_List_filter). exists row. tauto.
  - intros (row & Hrow & <- & Hneeds). exists row. split; [done|].
    by apply elem_of_List_filter.
Qed.

(** X26. [processBatch] sorts the rows of a batch into results and errors
    and never fails as a whole. A row number has an entry in the results
    or in the errors iff a row with that number needs an explanation or a
    classification. Every entry of the results has at least one property;
    a human explanation in it is never empty and stems from a row that
    needed one; the label and the explanation of the model are present
    together, and only for the number of a row that needed a
    classification. A list of errors is never empty. When the call for the
    explanations throws, no entry holds a human explanation and every row
    that needed one has the error of the call in its list; and likewise
    when the call for the classifications throws. *)
Theorem processBatch_sorts_rows (render : Error → string)
    (generatedE generatedC : Completion string)
    (batchRows : list RetryRows.BatchRow) :
  let outcome :=
    RetryRows.processBatch render generatedE generatedC batchRows in
  (∀ n, (is_Some (outcome.1 !! n) ∨ is_Some (outcome.2 !! n))
        ↔ ∃ row, row ∈ batchRows ∧ RetryRows.br_rowNumber row = n
            ∧ (RetryRows.needsExplanation row = true
               ∨ RetryRows.needsClassification row = true))
  ∧ (∀ n u, outcome.1 !! n = Some u →
       RetryRows.hasKeys u = true
       ∧ (∀ s, RetryRows.u_humanExplanation u = Some s →
            s ≠ ""
            ∧ ∃ row, row ∈ batchRows ∧ RetryRows.br_rowNumber row = n
                ∧ RetryRows.needsExplanation row = true)
       ∧ (is_Some (RetryRows.u_llmLabel u)
          ↔ is_Some (RetryRows.u_llmExplanation u))
       ∧ (is_Some (RetryRows.u_llmLabel u) →
            ∃ row, row ∈ batchRows ∧ RetryRows.br_rowNumber row = n
              ∧ RetryRows.needsClassification row = true))
  ∧ (∀ n msgs, outcome.2 !! n = Some msgs → msgs ≠ [])
  ∧ (∀ e, generatedE = Throw e →
       (∀ n u, outcome.1 !! n = Some u →
          RetryRows.u_humanExplanation u = None)
       ∧ ∀ row, row ∈ batchRows → RetryRows.needsExplanation row = true →
           ∃ msgs, outcome.2 !! RetryRows.br_rowNumber row = Some msgs
             ∧ RetryRows.explanationsFailed render e ∈ msgs)
  ∧ (∀ e, generatedC = Throw e →
       (∀ n u, outcome.1 !! n = Some u →
          RetryRows.u_llmLabel u = None
          ∧ RetryRows.u_llmExplanation u = None)
       ∧ ∀ row, row ∈ batchRows → RetryRows.needsClassification row = true →
           ∃ msgs, outcome.2 !! RetryRows.br_rowNumber row = Some msgs
             ∧ RetryRows.classificationsFailed render e ∈ msgs).
Proof.
  intros outcome. split; [|split; [|split; [|split]]].
  - intros n. subst outcome. unfold RetryRows.processBatch.
    destruct (explanationStep_foldl render generatedE batchRows)
      as (stepE & -> & HstepE & _).
    destruct (classificationStep_foldl render generatedC batchRows)
      as (stepC & -> & HstepC & _).
    rewrite foldl_touches, foldl_touches.
    2:{ intros st row Hrow%elem_of_List_filter. apply HstepE, Hrow. }
    2:{ intros st row Hrow%elem_of_List_filter. apply HstepC, Hrow. }
    cbn [fst snd]. rewrite !lookup_empty, !rowNumbers_of_needing.
    split.
    + intros [[[[? ?]|[? ?]]|(row & ? & ? & ?)]|(row & ? & ? & ?)];
        try done; exists row; auto.
    + intros (row & ? & ? & [?|?]); [left; right|right]; exists row; auto.
  - intros n u Hu. by apply (processBatch_sound render generatedE generatedC).
  - subst outcome. unfold RetryRows.processBatch.
    destruct (explanationStep_foldl render generatedE batchRows)
      as (stepE & -> & HstepE & _).
    destruct (classificationStep_foldl render generatedC batchRows)
      as (stepC & -> & HstepC & _).
    apply (foldl_rowEffect (λ st, ∀ n msgs, st.2 !! n = Some msgs → msgs ≠ [])
             stepC RetryRows.needsClassification batchRows); [done| |].
    { intros st st' row _ Heffect. by apply (rowEffect_errors row). }
    apply (foldl_rowEffect (λ st, ∀ n msgs, st.2 !! n = Some msgs → msgs ≠ [])
             stepE RetryRows.needsExplanation batchRows); [done| |].
    { intros st st' row _ Heffect. by apply (rowEffect_errors row). }
    intros n msgs. cbn. by rewrite lookup_empty.
  - intros e He. subst outcome. unfold RetryRows.processBatch.
    destruct (explanationStep_foldl render generatedE batchRows)
      as (stepE & -> & _ & _ & _ & HthrowE).
    destruct (classificationStep_foldl render generatedC batchRows)
      as (stepC & -> & HstepC & HkeepC & _).
    rewrite (HthrowE e He).
    destruct (foldl_recordFailure (RetryRows.explanationsFailed render e)
                (List.filter RetryRows.needsExplanation batchRows) (∅, ∅))
      as [Hres Herr].
    split.
    + apply (foldl_invariant
               (λ st, ∀ n u, st.1 !! n = Some u →
                        RetryRows.u_humanExplanation u = None)).
      * intros n u. rewrite Hres. cbn. by rewrite lookup_empty.
      * intros st row _ Hst n u Hu.
        destruct (HkeepC st row n u Hu) as [Hold| ->]; [by apply (Hst n)|].
        destruct (st.1 !! n) as [old|] eqn:Hold; [|done].
        by apply (Hst n).
    + intros row Hrow Hneeds.
      apply (foldl_rowEffect
               (λ st, ∃ msgs, st.2 !! RetryRows.br_rowNumber row = Some msgs
                       ∧ RetryRows.explanationsFailed render e ∈ msgs)
               stepC RetryRows.needsClassification batchRows); [done| |].
      { intros st st' row' _ Heffect.
        by apply (rowEffect_keeps_errors row'). }
      apply Herr. by apply elem_of_List_filter.
  - intros e He. subst outcome. unfold RetryRows.processBatch.
    destruct (explanationStep_foldl render generatedE batchRows)
      as (stepE & -> & _ & _ & HkeepE & _).
    destruct (classificationStep_foldl render generatedC batchRows)
      as (stepC & -> & _ & _ & HthrowC).
    rewrite (HthrowC e He).
    destruct (foldl_recordFailure (RetryRows.classificationsFailed render e)
                (List.filter RetryRows.needsClassification batchRows)
                (foldl stepE (∅, ∅)
                   (List.filter RetryRows.needsExplanation batchRows)))
      as [Hres Herr].
    split.
    + rewrite Hres.
      apply (foldl_invariant
               (λ st, ∀ n u, st.1 !! n = Some u →
                        RetryRows.u_llmLabel u = None
                        ∧ RetryRows.u_llmExplanation u = None)).
      * intros n u. cbn. by rewrite lookup_empty.
      * intros st row _ Hst n u Hu.
        destruct (HkeepE st row n u Hu) as [Hold|Hnew]; [by apply (Hst n)|].
        rewrite Hnew. cbn.
        destruct (st.1 !! n) as [old|] eqn:Hold; [|done].
        by apply (Hst n).
    + intros row Hrow Hneeds. apply Herr. by apply elem_of_List_filter.
Qed.

Lemma cellAt_setValue (rowNumber c : nat) (v : option string) (ws : Worksheet)
    (r' c' : nat) :
  cellAt (RetryRows.setValue rowNumber c v ws) r' c'
  = if decide (r' = rowNumber ∧ c' = c)
    then match v with
         | Some s => if truthy s then CString s else cellAt ws r' c'
         | None => cellAt ws r' c'
         end
    else cellAt ws r' c'.
Proof.
  unfold RetryRows.setValue.
  destruct v as [s|]; [|by destruct (decide _)].
  destruct (truthy s); [|by destruct (decide _)].
  unfold cellAt, getCell.
  destruct (decide (r' = rowNumber ∧ c' = c)) as [[-> ->]|Hne].
  - by rewrite lookup_insert_eq; cbn; rewrite lookup_insert_eq.
  - destruct (decide (r' = rowNumber)) as [->|Hr].
    + rewrite lookup_insert_eq. cbn [default from_option id].
      rewrite lookup_insert_ne by (intros ->; by apply Hne). done.
    + by rewrite lookup_insert_ne.
Qed.

Lemma writtenCell_idem (u : RetryRows.Updates) (c : nat) (old : CellValue) :
  writtenCell u c (writtenCell u c old) = writtenCell u c old.
Proof.
  unfold writtenCell.
  destruct (decide (c = 7)); [by destruct (RetryRows.u_humanExplanation u) as [s|];
    [destruct (truthy s)|]|].
  destruct (decide (c = 8)); [by destruct (RetryRows.u_llmLabel u) as [s|];
    [destruct (truthy s)|]|].
  destruct (decide (c = 9)); [by destruct (RetryRows.u_llmExplanation u) as [s|];
    [destruct (truthy s)|]|].
  done.
Qed.

Lemma writtenCell_noKeys (u : RetryRows.Updates) (c : nat) (old : CellValue) :
  RetryRows.hasKeys u = false → writtenCell u c old = old.
Proof.
  destruct u as [[?|] [?|] [?|]]; try done. intros _. unfold writtenCell.
  cbn. by repeat destruct (decide _).
Qed.

(** The cells after [updateExcelRow]. *)
Lemma updateExcelRow_cells (filePath : string) (ws : Worksheet)
    (rowNumber : nat) (updates : RetryRows.Updates) :
  ∃ ws', RetryRows.updateExcelRow filePath (Some ws) rowNumber updates
         = Normal (Some ws')
    ∧ ∀ r c, cellAt ws' r c
             = if decide (r = rowNumber)
               then writtenCell updates c (cellAt ws r c)
               else cellAt ws r c.
Proof.
  eexists. split; [reflexivity|]. intros r c.
  rewrite !cellAt_setValue. unfold writtenCell.
  destruct (decide (r = rowNumber)) as [->|Hr].
  - destruct (decide (c = 7)) as [->|H7].
    { rewrite (decide_False (P := _ ∧ 7 = 9)) by lia.
      rewrite (decide_False (P := _ ∧ 7 = 8)) by lia.
      by rewrite decide_True. }
    destruct (decide (c = 8)) as [->|H8].
    { rewrite (decide_False (P := _ ∧ 8 = 9)) by lia.
      rewrite (decide_True (P := _ ∧ 8 = 8)) by done.
      by rewrite (decide_False (P := _ ∧ 8 = 7)) by lia. }
    destruct (decide (c = 9)) as [->|H9].
    { rewrite (decide_True (P := _ ∧ 9 = 9)) by done.
      rewrite (decide_False (P := _ ∧ 9 = 8)) by lia.
      by rewrite (decide_False (P := _ ∧ 9 = 7)) by lia. }
    by rewrite !decide_False by (intros [_ ?]; done).
  - by rewrite !decide_False by (intros [? _]; done).
Qed.

(** The loop over the rows of a batch when the file has a worksheet: it
    runs to its end, counts every row, and writes the updates of every row
    of the batch that has some. *)
Lemma updateRows_cells (filePath : string) (results : RetryRows.Results)
    (batch : list Reading.MissingCellInfo) (st : RetryRows.Progress)
    (ws : Worksheet) :
  RetryRows.p_file st = Some ws →
  ∃ st' ws',
    RetryRows.updateRows filePath results batch st = (st', None)
    ∧ RetryRows.p_file st' = Some ws'
    ∧ RetryRows.totalProcessed st'
      = RetryRows.totalProcessed st + length batch
    ∧ RetryRows.totalUpdated st' + RetryRows.totalFailed st'
      = RetryRows.totalUpdated st + RetryRows.totalFailed st + length batch
    ∧ ∀ r c, cellAt ws' r c
             = if decide (r ∈ Reading.mc_rowNumber <$> batch)
               then match results !! r with
                    | Some u => writtenCell u c (cellAt ws r c)
                    | None => cellAt ws r c
                    end
               else cellAt ws r c.
Proof.
  revert st ws. induction batch as [|m batch IH]; intros st ws Hfile.
  - exists st, ws. cbn. split_and!; (done || lia).
  - cbn [RetryRows.updateRows RetryRows.p_file RetryRows.totalProcessed
         RetryRows.totalUpdated RetryRows.totalFailed].
    set (k := Reading.mc_rowNumber m).
    assert (∀ r (old : CellValue) (new : CellValue),
              (r = k → new = old) →
              (if decide (r ∈ Reading.mc_rowNumber <$> m :: batch)
               then new else old)
              = (if decide (r ∈ Reading.mc_rowNumber <$> batch)
                 then new else old)) as Hskip.
    { intros r old new Hsame. rewrite fmap_cons. fold k.
      destruct (decide (r ∈ Reading.mc_rowNumber <$> batch)) as [Hin|Hout].
      - rewrite decide_True; [done|]. by apply list_elem_of_further.
      - destruct (decide (r = k)) as [Hr|Hr].
        + rewrite Hsame by done. by destruct (decide _).
        + rewrite decide_False; [done|]. rewrite elem_of_cons. tauto. }
    destruct (results !! k) as [u|] eqn:Hu; [destruct (RetryRows.hasKeys u) eqn:Hkeys|].
    + rewrite Hfile.
      destruct (updateExcelRow_cells filePath ws k u) as (ws1 & -> & Hws1).
      destruct (IH (RetryRows.mkProgress (Some ws1)
                      (RetryRows.totalProcessed st + 1)
                      (RetryRows.totalUpdated st + 1)
                      (RetryRows.totalFailed st)) ws1 eq_refl)
        as (st' & ws' & -> & Hfile' & Hp & Hc & Hcells).
      exists st', ws'. cbn in Hp, Hc. cbn [length].
      split_and!; try done; try lia.
      intros r c. rewrite Hcells, Hws1. rewrite fmap_cons. fold k.
      destruct (decide (r = k)) as [->|Hr].
      * rewrite Hu, writtenCell_idem.
        rewrite (decide_True (P := k ∈ k :: _)) by apply list_elem_of_here.
        by destruct (decide _).
      * destruct (decide (r ∈ Reading.mc_rowNumber <$> batch)) as [Hin|Hout].
        -- rewrite decide_True; [done|]. by apply list_elem_of_further.
        -- rewrite decide_False; [done|]. rewrite elem_of_cons. tauto.
    + destruct (IH (RetryRows.mkProgress (RetryRows.p_file st)
                      (RetryRows.totalProcessed st + 1)
                      (RetryRows.totalUpdated st)
                      (RetryRows.totalFailed st + 1)) ws Hfile)
        as (st' & ws' & -> & Hfile' & Hp & Hc & Hcells).
      exists st', ws'. cbn in Hp, Hc. cbn [length].
      split_and!; try done; try lia.
      intros r c. rewrite Hcells. symmetry. apply Hskip.
      intros ->. by rewrite Hu, writtenCell_noKeys.
    + destruct (IH (RetryRows.mkProgress (RetryRows.p_file st)
                      (RetryRows.totalProcessed st + 1)
                      (RetryRows.totalUpdated st)
                      (RetryRows.totalFailed st + 1)) ws Hfile)
        as (st' & ws' & -> & Hfile' & Hp & Hc & Hcells).
      exists st', ws'. cbn in Hp, Hc. cbn [length].
      split_and!; try done; try lia.
      intros r c. rewrite Hcells. symmetry. apply Hskip.
      intros ->. by rewrite Hu.
Qed.

Lemma missingDetails_entry (filePath : string) (ws : Worksheet)
    (report : Reading.FileReport) (m : Reading.MissingCellInfo) :
  Reading.analyzeMissingCells filePath (Some ws) = Normal report →
  m ∈ Reading.missingDetails report →
  1 < Reading.mc_rowNumber m
  ∧ ∀ c name, (c, name) ∈ Reading.columnMap →
      (name ∈ Reading.mc_missingColumns m
       ↔ Reading.isEmpty (cellAt ws (Reading.mc_rowNumber m) c) = true).
Proof.
  intros [= <-]. cbn [Reading.missingDetails]. intros Hm.
  apply elem_of_collectRows in Hm as (r & row & Hrow & Hr & Hv & Hm).
  apply missingOfRow_entry in Hm as (Hr1 & Hnum & Hcols & _).
  split; [lia|]. intros c name Hc.
  rewrite Hcols, Hnum. unfold cellAt. rewrite Hrow. cbn [default from_option id].
  by apply missingColumnsOf_column.
Qed.

Lemma humanLabelOf_truthy (v : CellValue) :
  truthy (default "" (RetryRows.humanLabelOf v)) = true
  ↔ Reading.labelCell v ≠ "".
Proof.
  rewrite <- truthy_nonempty. unfold Reading.labelCell. by destruct v.
Qed.

Lemma writtenCell_changed (u : RetryRows.Updates) (c : nat) (old : CellValue) :
  writtenCell u c old ≠ old →
  ∃ s, s ≠ "" ∧ writtenCell u c old = CString s
    ∧ ((c = 7 ∧ RetryRows.u_humanExplanation u = Some s)
       ∨ (c = 8 ∧ RetryRows.u_llmLabel u = Some s)
       ∨ (c = 9 ∧ RetryRows.u_llmExplanation u = Some s)).
Proof.
  unfold writtenCell.
  destruct (decide (c = 7)) as [->|H7];
    [|destruct (decide (c = 8)) as [->|H8];
      [|destruct (decide (c = 9)) as [->|H9]; [|done]]];
  [destruct (RetryRows.u_humanExplanation u) as [s|]
  |destruct (RetryRows.u_llmLabel u) as [s|]
  |destruct (RetryRows.u_llmExplanation u) as [s|]]; try done;
  (destruct (truthy s) eqn:Hs; [|done]); intros _; exists s;
  apply truthy_nonempty in Hs; auto 6.
Qed.

(** X27. One batch of the retry, on a file whose missing cells the report
    lists: the loop runs to its end, every row of the batch is counted as
    processed and as either updated or failed, and whatever the model
    replies or throws, a cell of the workbook changes only if it is in
    column 7, 8 or 9 of a row of the batch and receives a string that is
    not empty. Column 7 changes only where the human explanation was
    missing and the row has a human label; columns 8 and 9 change only
    where the label or the explanation of the model was missing (one of
    the two being missing, both are written). The texts, the human labels
    and the rows outside the batch are never touched. *)
Theorem retry_fills_only_missing_cells (render : Error → string)
    (generatedE generatedC : Completion string) (filePath : string)
    (ws : Worksheet) (report : Reading.FileReport)
    (batch : list Reading.MissingCellInfo) (st : RetryRows.Progress) :
  Reading.analyzeMissingCells filePath (Some ws) = Normal report →
  (∀ m, m ∈ batch → m ∈ Reading.missingDetails report) →
  RetryRows.p_file st = Some ws →
  let st' := RetryRows.retryBatch render generatedE generatedC filePath ws
               batch st in
  ∃ ws',
    RetryRows.p_file st' = Some ws'
    ∧ RetryRows.totalProcessed st'
      = RetryRows.totalProcessed st + length batch
    ∧ RetryRows.totalUpdated st' + RetryRows.totalFailed st'
      = RetryRows.totalUpdated st + RetryRows.totalFailed st + length batch
    ∧ ∀ r c, cellAt ws' r c ≠ cellAt ws r c →
        1 < r
        ∧ r ∈ Reading.mc_rowNumber <$> batch
        ∧ (∃ s, s ≠ "" ∧ cellAt ws' r c = CString s)
        ∧ ((c = 7 ∧ Reading.isEmpty (cellAt ws r 7) = true
            ∧ Reading.labelCell (cellAt ws r 3) ≠ "")
           ∨ ((c = 8 ∨ c = 9)
              ∧ (Reading.isEmpty (cellAt ws r 8) = true
                 ∨ Reading.isEmpty (cellAt ws r 9) = true))).
Proof.
  intros Hreport Hbatch Hfile st'. subst st'. unfold RetryRows.retryBatch.
  set (results := (RetryRows.processBatch render generatedE generatedC
                     (RetryRows.batchData ws batch)).1).
  destruct (updateRows_cells filePath results batch st ws Hfile)
    as (st' & ws' & -> & Hfile' & Hp & Hc & Hcells).
  exists ws'. split_and!; try done. intros r c Hchanged.
  rewrite Hcells in Hchanged.
  destruct (decide (r ∈ Reading.mc_rowNumber <$> batch)) as [Hin|]; [|done].
  destruct (results !! r) as [u|] eqn:Hu; [|done].
  destruct (writtenCell_changed u c _ Hchanged) as (s & Hs & Hnew & Hcol).
  assert (∀ row, row ∈ RetryRows.batchData ws batch →
            RetryRows.br_rowNumber row = r →
            1 < r
            ∧ (RetryRows.needsExplanation row = true →
               Reading.isEmpty (cellAt ws r 7) = true
               ∧ Reading.labelCell (cellAt ws r 3) ≠ "")
            ∧ (RetryRows.needsClassification row = true →
               Reading.isEmpty (cellAt ws r 8) = true
               ∨ Reading.isEmpty (cellAt ws r 9) = true)) as Hrows.
  { intros row Hrow Hnum. unfold RetryRows.batchData in Hrow.
    apply list_elem_of_fmap in Hrow as (m & -> & Hm). cbn in Hnum. subst r.
    destruct (missingDetails_entry filePath ws report m Hreport
                (Hbatch m Hm)) as [Hr Hcols].
    split; [done|]. split.
    - unfold RetryRows.needsExplanation. cbn. intros Hneeds.
      apply andb_true_iff in Hneeds as [Hmissing Hlabel].
      apply bool_decide_eq_true in Hmissing. split.
      + apply (Hcols 7 "human-label-explanation"); [|done].
        unfold Reading.columnMap. rewrite !elem_of_cons. auto.
      + by apply humanLabelOf_truthy.
    - unfold RetryRows.needsClassification. cbn. intros Hneeds.
      apply orb_true_iff in Hneeds as [Hmissing|Hmissing];
        apply bool_decide_eq_true in Hmissing; [left|right].
      + apply (Hcols 8 "llm-label"); [|done].
        unfold Reading.columnMap. rewrite !elem_of_cons. auto.
      + apply (Hcols 9 "llm-label-explanation"); [|done].
        unfold Reading.columnMap. rewrite !elem_of_cons. auto 6. }
  destruct (processBatch_sound render generatedE generatedC
              (RetryRows.batchData ws batch) r u Hu)
    as (_ & Hhuman & Hboth & Hllm).
  assert (1 < r) as Hr.
  { apply list_elem_of_fmap in Hin as (m & -> & Hm).
    by destruct (missingDetails_entry filePath ws report m Hreport
                   (Hbatch m Hm)). }
  split; [done|]. split; [done|]. split.
  { exists s. by rewrite Hcells, decide_True, Hu. }
  destruct Hcol as [[-> Hsome]|[[-> Hsome]|[-> Hsome]]].
  - left. destruct (Hhuman s Hsome) as (_ & row & Hrow & Hnum & Hneeds).
    split; [done|]. by apply (Hrows row).
  - right. split; [auto|].
    destruct Hllm as (row & Hrow & Hnum & Hneeds); [by rewrite Hsome|].
    by apply (Hrows row).
  - right. split; [auto|].
    destruct Hllm as (row & Hrow & Hnum & Hneeds);
      [apply Hboth; by rewrite Hsome|].
    by apply (Hrows row).
Qed.

Lemma retry_fills_only_missing_cells_witness :
  ∃ ws',
    RetryRows.p_file
      (RetryRows.retryBatch renderName (Normal twoLines) (Throw rateLimited)
         "processed-gpt-5-lula-test.xlsx" twoRowSheet twoRowMissing
         (RetryRows.mkProgress (Some twoRowSheet) 0 0 0)) = Some ws'
    ∧ ∀ r c, cellAt ws' r c ≠ cellAt twoRowSheet r c → 1 < r.
Proof.
  destruct (retry_fills_only_missing_cells renderName (Normal twoLines)
              (Throw rateLimited) "processed-gpt-5-lula-test.xlsx"
              twoRowSheet twoRowReport twoRowMissing
              (RetryRows.mkProgress (Some twoRowSheet) 0 0 0))
    as (ws' & Hfile & _ & _ & Hcells).
  - vm_compute. reflexivity.
  - intros m Hm. exact Hm.
  - reflexivity.
  - exists ws'. split; [exact Hfile|]. intros r c Hchanged.
    by destruct (Hcells r c Hchanged) as (Hr & _).
Defined.

Lemma StronglySorted_lt_NoDup (l : list nat) : StronglySorted lt l → NoDup l.
Proof.
  induction 1 as [|x l Hsorted IH Hall]; constructor; [|done].
  intros Hin. rewrite Forall_forall in Hall. specialize (Hall x Hin). lia.
Qed.

Lemma List_filter_sublist {A : Type} (f : A → bool) (l : list A) :
  List.filter f l `sublist_of` l.
Proof.
  induction l as [|x l IH]; [done|]. cbn [List.filter].
  destruct (f x); by constructor.
Qed.

(** The rows of a batch taken from the report have distinct numbers. *)
Lemma batch_rowNumbers_NoDup (filePath : string) (ws : Worksheet)
    (report : Reading.FileReport) (batch : list Reading.MissingCellInfo)
    (needs : RetryRows.BatchRow → bool) :
  Reading.analyzeMissingCells filePath (Some ws) = Normal report →
  batch `sublist_of` Reading.missingDetails report →
  NoDup (RetryRows.br_rowNumber
           <$> List.filter needs (RetryRows.batchData ws batch)).
Proof.
  intros [= <-] Hsub. cbn [Reading.missingDetails] in Hsub.
  apply (sublist_NoDup _ (RetryRows.br_rowNumber <$> RetryRows.batchData ws batch)).
  2:{ apply fmap_sublist, List_filter_sublist. }
  unfold RetryRows.batchData. rewrite <- list_fmap_compose.
  apply (sublist_NoDup _ (Reading.mc_rowNumber
                            <$> Reading.collectRows Reading.missingOfRow ws)).
  2:{ by apply fmap_sublist. }
  apply StronglySorted_lt_NoDup, collectRows_sorted.
  - intros row r m Hm. by apply missingOfRow_entry in Hm as (_ & ? & _).
  - intros row r. rewrite missingOfRow_length.
    destruct (decide (r = 1)); [lia|].
    destruct (Reading.missingColumnsOf row); lia.
Qed.

(** The classification stored for a row of the loop is the one found for
    its text, when no other row of the loop has its number. *)
Lemma recordClassification_stores
    (classifications : gmap string (string * string)) (raw : string)
    (l : list RetryRows.BatchRow) (st : RetryRows.Results * RetryRows.Errors)
    (row : RetryRows.BatchRow) (label explanation : string) :
  NoDup (RetryRows.br_rowNumber <$> l) → row ∈ l →
  classifications !! RetryRows.br_text row = Some (label, explanation) →
  ∃ u, (foldl (RetryRows.recordClassification classifications raw) st l).1
         !! RetryRows.br_rowNumber row = Some u
    ∧ RetryRows.u_llmLabel u = Some label
    ∧ RetryRows.u_llmExplanation u = Some explanation.
Proof.
  revert st. induction l as [|x l IH]; intros st Hnd Hrow Hfound;
    [by apply elem_of_nil in Hrow|].
  rewrite fmap_cons in Hnd. apply NoDup_cons in Hnd as [Hfresh Hnd].
  cbn [foldl]. apply elem_of_cons in Hrow as [<-|Hrow]; [|by apply IH].
  apply (foldl_invariant
           (λ st', ∃ u, st'.1 !! RetryRows.br_rowNumber row = Some u
                     ∧ RetryRows.u_llmLabel u = Some label
                     ∧ RetryRows.u_llmExplanation u = Some explanation)).
  - unfold RetryRows.recordClassification. rewrite Hfound. cbn [fst snd].
    unfold RetryRows.setUpdate. rewrite lookup_insert_eq. by eexists.
  - intros st' y Hy Hst'. unfold RetryRows.recordClassification.
    destruct (classifications !! RetryRows.br_text y) as [[a b]|]; [|done].
    cbn [fst]. unfold RetryRows.setUpdate. rewrite lookup_insert_ne; [done|].
    intros Heq. apply Hfresh. rewrite <- Heq. by apply list_elem_of_fmap_2.
Qed.

(** X28. The retry writes the answers by position. For a batch of rows of
    the report (in the order of the report), when the texts of the rows
    that need a classification are distinct and the reply has, among its
    lines kept, a line with three parts at the index of such a row, with a
    label and an explanation that are not empty, then after the batch
    columns 8 and 9 of that row hold this label and this explanation,
    whatever text the model wrote on the line and whatever happened to the
    call for the explanations. *)
Theorem retry_writes_answers_by_position (render : Error → string)
    (generatedE : Completion string) (reply filePath : string)
    (ws : Worksheet) (report : Reading.FileReport)
    (batch : list Reading.MissingCellInfo) (st : RetryRows.Progress)
    (i : nat) (row : RetryRows.BatchRow) (label explanation : string) :
  Reading.analyzeMissingCells filePath (Some ws) = Normal report →
  batch `sublist_of` Reading.missingDetails report →
  RetryRows.p_file st = Some ws →
  let needing :=
    List.filter RetryRows.needsClassification (RetryRows.batchData ws batch) in
  NoDup (RetryRows.br_text <$> needing) →
  needing !! i = Some row →
  RetryRows.replyLines reply !! i ≫= answerOnLine
  = Some (label, explanation) →
  label ≠ "" → explanation ≠ "" →
  ∃ ws',
    RetryRows.p_file
      (RetryRows.retryBatch render generatedE (Normal reply) filePath ws
         batch st) = Some ws'
    ∧ cellAt ws' (RetryRows.br_rowNumber row) 8 = CString label
    ∧ cellAt ws' (RetryRows.br_rowNumber row) 9 = CString explanation.
Proof.
  intros Hreport Hsub Hfile needing Htexts Hrow Hline Hlabel Hexplanation.
  unfold RetryRows.retryBatch.
  set (results := (RetryRows.processBatch render generatedE (Normal reply)
                     (RetryRows.batchData ws batch)).1).
  destruct (updateRows_cells filePath results batch st ws Hfile)
    as (st' & ws' & -> & Hfile' & _ & _ & Hcells).
  exists ws'. split; [done|].
  assert (∃ u, results !! RetryRows.br_rowNumber row = Some u
            ∧ RetryRows.u_llmLabel u = Some label
            ∧ RetryRows.u_llmExplanation u = Some explanation)
    as (u & Hu & Hl & He).
  { subst results. unfold RetryRows.processBatch, RetryRows.classificationStep.
    fold needing.
    destruct (matchReply_lookup pair reply (RetryRows.br_text <$> needing))
      as (m & Hcall & Hm).
    change (RetryRows.classifyAndExplainBatchStance (Normal reply)
              (RetryRows.br_text <$> needing))
      with (RetryRows.matchReply pair (Normal reply)
              (RetryRows.br_text <$> needing)).
    rewrite Hcall.
    assert (m !! RetryRows.br_text row = Some (label, explanation)) as Hfound.
    { rewrite Hm.
      rewrite (answersByPosition_at pair _ _ i (RetryRows.br_text row) Htexts)
        by (by rewrite list_lookup_fmap, Hrow).
      by rewrite Hline. }
    assert (row ∈ needing) as Hin by (by eapply list_elem_of_lookup_2).
    destruct needing as [|x l] eqn:Hneeding; [by apply elem_of_nil in Hin|].
    rewrite <- Hneeding in *.
    apply recordClassification_stores; [|done|done].
    subst needing. by apply (batch_rowNumbers_NoDup filePath ws report). }
  assert (RetryRows.br_rowNumber row ∈ Reading.mc_rowNumber <$> batch) as Hin.
  { apply list_elem_of_lookup_2, elem_of_List_filter in Hrow as [Hrow _].
    unfold RetryRows.batchData in Hrow.
    apply list_elem_of_fmap in Hrow as (m & -> & Hm). cbn.
    by apply list_elem_of_fmap_2. }
  apply truthy_nonempty in Hlabel, Hexplanation.
  rewrite !Hcells, !decide_True, Hu by done. unfold writtenCell.
  rewrite (decide_False (P := 8 = 7)), (decide_True (P := 8 = 8)) by done.
  rewrite (decide_False (P := 9 = 7)), (decide_False (P := 9 = 8)),
    (decide_True (P := 9 = 9)) by done.
  by rewrite Hl, He, Hlabel, Hexplanation.
Qed.

Lemma retry_writes_answers_by_position_witness :
  ∃ ws',
    RetryRows.p_file
      (RetryRows.retryBatch renderName (Throw rateLimited) (Normal twoLines)
         "processed-gpt-5-lula-test.xlsx" twoRowSheet twoRowMissing
         (RetryRows.mkProgress (Some twoRowSheet) 0 0 0)) = Some ws'
    ∧ cellAt ws' 3 8 = CString "against"
    ∧ cellAt ws' 3 9 = CString "why bye".
Proof.
  apply (retry_writes_answers_by_position renderName (Throw rateLimited)
           twoLines "processed-gpt-5-lula-test.xlsx" twoRowSheet twoRowReport
           twoRowMissing (RetryRows.mkProgress (Some twoRowSheet) 0 0 0) 1
           (RetryRows.mkBatchRow 3 "bye" (Some "against")
              ["human-label-explanation"; "llm-label";
               "llm-label-explanation"]) "against" "why bye").
  - vm_compute. reflexivity.
  - vm_compute. reflexivity.
  - reflexivity.
  - vm_compute. apply NoDup_cons. split.
    + rewrite elem_of_cons, elem_of_nil. intros [?|[]]. discriminate.
    + apply NoDup_cons. split; [apply not_elem_of_nil|apply NoDup_nil_2].
  - vm_compute. reflexivity.
  - vm_compute. reflexivity.
  - discriminate.
  - discriminate.
Defined.
